(* ===== verification/_CoqProject ===== *)
-Q . S2P
Prelude.v
Types.v
Layout.v
Memory.v
ObjectPool.v
PriceLevel.v
LFQueue.v
Runs.v
QueueThreads.v
QueueWeak.v
WeakResults.v
TimeUtils.v
OrderBook.v
BookSpec.v
BookHeap.v
BookLevels.v
BookRefine.v
BookCancel.v
BookProps.v
BookTheorems.v
BookResults.v
FlatBook.v
FlatResults.v
Exchange.v
ExchangeProps.v
Sequencer.v
ComponentResults.v
ExchangeResults.v
ExchangeThreads.v
Benchmark.v
BenchmarkProps.v
BenchmarkTimes.v
BenchmarkResults.v
BenchmarkStats.v
ThreadResults.v
LayoutResults.v
Pipeline.v
Kernel.v
SocketUtils.v
SocketProps.v
TcpSocket.v
TcpServer.v
TcpServerProps.v
NetResults.v
SocketExample.v
ExampleProps.v
ExampleRuns.v
LoopbackKernel.v
ExampleResults.v
Dotenv.v
DotenvResults.v
Singleton.v
ThreadUtils.v
UnitTests.v
Feed.v
FeedRuns.v
FeedResults.v
FlagRace.v
DotenvWindows.v
SocketTests.v
