(* ===== verification/Prelude.v ===== *)
(** * A verification of the exchange

    The repository is an exchange in C++ (headers under include/): order books that
    match limit orders ([cppexchange/orderbook.h] over [cppexchange/order.h] and
    [utils/object_pool.h]), an exchange that hands client requests to the book of
    their ticker ([cppexchange/cppexchange.h]), queues between its threads
    ([communication/lf_queue.h]), a sequencer that orders requests by the time they
    came in ([communication/fifo_sequencer.h]) and TCP sockets
    ([communication/tcp_socket.h], [tcp_server.h], [socket_utils.h]) with an example program.  Clients push
    requests to a queue, directly or through the sequencer; the thread of the
    exchange pops them and works on the books, which push responses and market
    updates to two more queues.  dotenv.h reads settings from a file.

    ** How the code is modelled

    Each C++ function is a function of the same name in the state and error monad
    [M] below: it returns ([Done]), ends the process with a message ([Exited], from
    ASSERT and FATAL of utils/macros.h), runs into undefined behaviour ([UB]), or is
    out of fuel ([Timeout]).  A [while] loop is [iterate] with fuel; [iterate_mono]
    says that more fuel never changes a result, and the theorems on a loop say that
    the fuel it is given is enough:
    - the walks along the price levels: one turn per block of the level pool, and
      one; linked levels are distinct blocks;
    - the matching loop: one turn per block of the order pool, and one; every turn
      but the last uses up an order;
    - the search of [OrdersPriceLevel::cancel]: one turn per order in memory, and
      one; the orders of a level are distinct;
    - [updateNextFree]: once round the store;
    - [Exchange::run] runs until another thread clears a flag, so its fuel is a
      number of turns and the theorems are about turns of its loop;
    - the accept loop of [TCPServer::poll]: more turns than connections wait;
    - the loop of [dotenv::resolve_vars]: the length of the text and three; every
      turn but the last two moves on in the text.

    What threads do together is a relation between states: one step is one access to
    shared memory (QueueThreads.v; in QueueWeak.v loads may return old stores, as
    release and acquire allow), or one turn of the loop of [run], one half of
    [start] or [stop], one push of a client (ExchangeThreads.v, Benchmark.v).  An infinite run is
    a function from times to states, and fairness says that something happens again
    and again (Runs.v).

    An object that is pointed to is at an index of the store that owns it, a pointer
    is an index or null.  Integers are [Z], and an operation that may leave the
    width of its type wraps ([u32], [u64], [s64]).  The limits of constants.h are a class:
    the theorems hold for all values and the examples run with small ones.  The
    clock, the answers of the operating system, [std::sort] and the callbacks of
    the sockets are parameters, constrained only by what is documented of them;
    socket_example.cpp fixes the callbacks, and LoopbackKernel.v is one system that
    meets the constraints.  [wp] is the weakest precondition of a computation.

    ** Files, in order

    - Prelude.v: outcomes, the monad, loops, lemmas on lists.
    - Types.v: typedefs.h, constants.h, messages.h and the data of order.h.
    - Memory.v: the interface [Memory] and its laws [MemoryLaws] between code that
      follows pointers and the store that owns the objects; a finite map as one.
    - ObjectPool.v: object_pool.h, another instance of [MemoryLaws].
    - PriceLevel.v: class OrdersPriceLevel on any memory; [level_rep] relates the
      ring of pointers to the queue of orders it stands for.
    - Layout.v: the layout of structs by the rules of an ABI, which is a parameter,
      the structs of order.h and messages.h, and alignment.cpp.
    - LFQueue.v: lf_queue.h, one call at a time; [contents] is the queue of items.
    - Runs.v: infinite runs and when they reach a goal.
    - QueueThreads.v: lf_queue.h with a thread that pushes and one that pops; [abs]
      maps its states to those of a queue whose calls take effect at one instant.
    - QueueWeak.v, WeakResults.v: the same threads under release and acquire, with a
      check that every use of a slot is ordered after the other thread's last use.
    - TimeUtils.v: time_utils.h and time_utils.cpp.
    - OrderBook.v: orderbook.h, with the pools, the hash map, the links and the
      messages as in the code.
    - BookSpec.v: what the book does, without pointers: levels as lists of orders,
      each side the list of its linked levels, and [off] the levels that no link
      leads to.  Such levels arise because insertPriceLevel links a new level only
      when it becomes the best of its side.
    - BookHeap.v, BookLevels.v, BookRefine.v, BookCancel.v: the pointer code of
      OrderBook.v implements BookSpec.v.  [book_rep b A] says that the book [b] in
      memory stands for [A].
    - BookProps.v: properties of BookSpec.v: the invariant [wf_book], and what
      matching takes from a side.
    - BookTheorems.v: the states reachable from a new book, and a concrete book.
    - BookResults.v: the results on the order book.
    - FlatBook.v, FlatResults.v: the textbook specification, two queues of orders in
      price-time priority, and the condition under which the code meets it.
    - Exchange.v, ExchangeProps.v: cppexchange.h.
    - Sequencer.v: fifo_sequencer.h.
    - ComponentResults.v, ExchangeResults.v: the results on the components below the
      book and on the exchange.
    - ExchangeThreads.v: the thread of the exchange, the one that starts and stops it
      and the clients.
    - Benchmark.v, BenchmarkProps.v, BenchmarkTimes.v, BenchmarkResults.v:
      benchmark_exchange_mt.cpp, a program of four threads round the exchange, its
      invariant, the steps of a run at which the clock was read for a latency, and the
      results; BenchmarkStats.v: the percentiles it prints.
    - ThreadResults.v, LayoutResults.v: the results on threads, and on the layout of
      structs.
    - Pipeline.v: the sequencer and the exchange over the queue they share.
    - Kernel.v: the system calls of the sockets and the log of calls.
    - SocketUtils.v, SocketProps.v, TcpSocket.v, TcpServer.v, TcpServerProps.v,
      NetResults.v: the sockets and the results on them.
    - SocketExample.v: socket_example.cpp; ExampleProps.v, ExampleRuns.v: its invariant;
      LoopbackKernel.v: a kernel for it; ExampleResults.v: the results, and its run.
    - Dotenv.v, DotenvResults.v: dotenv.h.
    - Singleton.v, ThreadUtils.v: singleton.h and thread_utils.h.
    - Feed.v: the pictures of a book that its updates and its responses give;
      FeedRuns.v: the exchange with readers of both queues; FeedResults.v: the results.
    - FlagRace.v: the flag [running] as the plain bool it is.
    - DotenvWindows.v: the [setenv] that dotenv.h makes for Windows.
    - UnitTests.v, SocketTests.v: the tests of the repository, run on the model.

    ** What the theorems show

    - Refinement of the book (BookResults.v): add and cancel of the pointer code do
      what BookSpec.v says, messages, trade ids and time stamps included, never loop
      and never fault, but for one case of cancel that is stated; reachable books
      are sorted and not crossed; matching follows price-time priority among linked
      levels, conserves quantity and leaves no linked level that crosses.
    - Price-time priority (FlatResults.v): while each order that comes in has a price
      of its side or one ahead of its side, the book is the textbook one.
    - Where the book is not: a level entered behind the best of its side never trades,
      cancelling its last order is undefined or leaves the best pointer of the side on
      a level that is gone, and a bid can end up on a level of asks (end of
      BookResults.v, [best_bid_dangles] in UnitTests.v).  The theorems on reachable
      books, on the messages and on turns of the exchange leave such cancels out.
    - The components (ComponentResults.v): the ring of a level is a queue; the pool
      hands out fresh blocks and what happens when it is full; the queue is FIFO
      below its capacity and loses all items above it; the sequencer publishes the
      requests sorted by time.
    - The exchange (ExchangeResults.v): requests are served in order, each by the
      book of its ticker only, ids are consecutive, a turn of the loop keeps the
      invariant; a request for an unknown ticker is undefined.
    - Threads (ThreadResults.v): whatever the interleaving, a queue that is never
      pushed to when it is full behaves as one with atomic calls, and what is pushed
      is popped in time; the exchange serves the
      requests in the order they were pushed, and ends only as a request ends it or by a
      misuse of start and stop; a call of stop returns.
    - The queue with weak memory (WeakResults.v): when pushes start only while their
      thread knows of room, no access is a data race and items come out in order; a
      pop does not miss a push its thread knows of.
    - Layout (LayoutResults.v): the members of a struct are aligned and do not overlap.
    - The pipeline (Pipeline.v): requests that went through the sequencer are served
      in the order of their times.
    - The messages (FeedResults.v): as long as no queue runs over, a reader of the market
      updates has the orders of every book, and so has one of the client responses;
      trade ids have no gap.
    - The flag (FlagRace.v): ThreadResults.v takes [running] to be atomic; as it is, the
      thread of the exchange never ends without a data race.
    - The benchmark (BenchmarkResults.v): whatever the interleaving of its threads it
      does not crash and times every order by its own response, read when it was just
      popped, and it ends; [running] is taken to be atomic here too.  The percentiles are those of the latencies (BenchmarkStats.v).
    - The sockets (SocketProps.v, NetResults.v): the system calls of createSocket and
      when it accepts their answers; bytes go out and come in in order within the
      buffers; polling keeps the lists of sockets right; no descriptor of a connection
      is ever closed, so a system that goes on reporting its end has its socket deleted
      twice.
    - The example of the sockets (ExampleResults.v): it passes integers of the wrong type
      to printf, which is undefined; on a machine that takes them, while connections
      stay open and messages are short, it ends, and each client's messages go out in
      order on its own descriptor; the server answers what it receives.
    - The environment file (DotenvResults.v): reading it ends, variables are replaced,
      and what a file of assignments says is what getenv finds.
    - The rest (Singleton.v, ThreadUtils.v): one object is made, and all calls return it,
      when the first call is over before others take a step, and two may be made otherwise; a new thread calls its
      function once, when the arguments live long enough; the [setenv] for Windows
      differs from that of other systems on empty values only (DotenvWindows.v).

    Each result with hypotheses is followed by an instance of it on concrete data.

    ** What is not modelled

    - What sequential consistency adds to release and acquire for the plain loads and
      stores of the cursors in [push] and [pop]; QueueWeak.v does without it.
    - A turn of the exchange is one step of the system of its threads.
    - That the header of the control message is read from a buffer that the code does not
      initialise: [message] of Kernel.v gives whatever bytes are there (TcpSocket.v).
    - std::isspace of a negative char, which is undefined, is no space (Dotenv.v).
    - The bytes of a message: no code of the repository writes or reads them.
    - A failure to create a thread, and what the other threads still do while the
      process ends.
    - What the benchmark prints before it starts; the pauses of socket_example.cpp; the
      tests that read options back from the system (socket_utils_test.cpp). *)

From stdpp Require Export base gmap strings list fin_maps decidable pretty sorting.
From Stdlib Require Export ZArith Lia Sorted.

#[global] Set Default Goal Selector "!".

(** ** Outcomes

    A call either finishes with a value, ends the process through [ASSERT] or
    [FATAL] (utils/macros.h: a message on [std::cerr] and [exit(EXIT_FAILURE)]),
    runs into undefined behaviour of C++, or is still looping when the fuel of a
    loop of the model is used up. *)

Inductive fault : Set :=
| NullDeref          (* a null pointer is dereferenced *)
| IndexOutOfRange    (* operator[] of a vector past its end *)
| ModByZero          (* [%] by zero *)
| DeadObject         (* an object is used or deleted that does not live *)
| DataRace           (* two threads use a location, one to write it, unordered *)
| BadConversion      (* a floating-point value does not fit an integer type *)
| BadFormat.         (* an argument of [printf] has not the type its specifier wants *)

Inductive outcome (A : Type) : Type :=
| Done (a : A)
| Exited (msg : string)
| UB (f : fault)
| Timeout.
Arguments Done {A} a.
Arguments Exited {A} msg.
Arguments UB {A} f.
Arguments Timeout {A}.

#[export] Instance fault_eq_dec : EqDecision fault.
Proof. solve_decision. Defined.

(** ** The state and error monad *)

Definition M (S A : Type) : Type := S → outcome (A * S).

#[export] Instance M_ret S : MRet (M S) := λ A (a : A) σ, Done (a, σ).
#[export] Instance M_bind S : MBind (M S) := λ A B (k : A → M S B) (m : M S A) σ,
  match m σ with
  | Done (a, σ') => k a σ'
  | Exited s => Exited s
  | UB f => UB f
  | Timeout => Timeout
  end.

Definition mget {S} : M S S := λ σ, Done (σ, σ).
Definition mput {S} (σ : S) : M S unit := λ _, Done (tt, σ).
Definition mgets {S A} (f : S → A) : M S A := λ σ, Done (f σ, σ).
Definition mmodify {S} (f : S → S) : M S unit := λ σ, Done (tt, f σ).
Definition mub {S A} (f : fault) : M S A := λ _, UB f.
Definition mexit {S A} (s : string) : M S A := λ _, Exited s.

(** utils/macros.h: [ASSERT] and [FATAL]. *)
Definition ASSERT {S} (cond : bool) (msg : string) : M S unit :=
  if negb cond then mexit msg else mret tt.
Definition FATAL {S} (msg : string) : M S unit := mexit msg.

(** Running a computation on a part of the state. *)
Definition zoom {S T A} (get : S → T) (set : T → S → S) (m : M T A) : M S A := λ σ,
  match m (get σ) with
  | Done (a, t) => Done (a, set t σ)
  | Exited s => Exited s
  | UB f => UB f
  | Timeout => Timeout
  end.

(** A [while] loop with local variables [x]: the body either goes on with new
    values ([inl]) or leaves the loop ([inr]). *)
Fixpoint iterate {S X Y} (fuel : nat) (body : X → M S (X + Y)) (x : X) : M S Y :=
  match fuel with
  | O => λ _, Timeout
  | Datatypes.S n =>
      r ← body x;
      match r with inl x' => iterate n body x' | inr y => mret y end
  end.

(** ** Lemmas on the monad *)

Section monad.
Context {S : Type}.

Lemma bind_done {A B} (m : M S A) (k : A → M S B) σ a σ' :
  m σ = Done (a, σ') → (x ← m; k x) σ = k a σ'.
Proof. intros H. unfold mbind, M_bind. by rewrite H. Qed.

Lemma bind_exited {A B} (m : M S A) (k : A → M S B) σ s :
  m σ = Exited s → (x ← m; k x) σ = Exited s.
Proof. intros H. unfold mbind, M_bind. by rewrite H. Qed.

Lemma bind_ub {A B} (m : M S A) (k : A → M S B) σ f :
  m σ = UB f → (x ← m; k x) σ = UB f.
Proof. intros H. unfold mbind, M_bind. by rewrite H. Qed.

Lemma bind_inv_done {A B} (m : M S A) (k : A → M S B) σ b σ'' :
  (x ← m; k x) σ = Done (b, σ'') →
  ∃ a σ', m σ = Done (a, σ') ∧ k a σ' = Done (b, σ'').
Proof.
  unfold mbind, M_bind. destruct (m σ) as [[a σ']| | |] eqn:E; try done.
  intros H. by exists a, σ'.
Qed.

Lemma zoom_done {T A} (get : S → T) set (m : M T A) σ a t :
  m (get σ) = Done (a, t) → zoom get set m σ = Done (a, set t σ).
Proof. intros H. unfold zoom. by rewrite H. Qed.

Lemma zoom_exited {T A} (get : S → T) set (m : M T A) σ s :
  m (get σ) = Exited s → zoom get set m σ = Exited s.
Proof. intros H. unfold zoom. by rewrite H. Qed.

Lemma zoom_ub {T A} (get : S → T) set (m : M T A) σ f :
  m (get σ) = UB f → zoom get set m σ = UB f.
Proof. intros H. unfold zoom. by rewrite H. Qed.

Lemma iterate_inl {X Y} n (body : X → M S (X + Y)) x σ x' σ' :
  body x σ = Done (inl x', σ') →
  iterate (Datatypes.S n) body x σ = iterate n body x' σ'.
Proof. intros H. simpl. by rewrite (bind_done _ _ _ _ _ H). Qed.

Lemma iterate_inr {X Y} n (body : X → M S (X + Y)) x σ y σ' :
  body x σ = Done (inr y, σ') →
  iterate (Datatypes.S n) body x σ = Done (y, σ').
Proof. intros H. simpl. by rewrite (bind_done _ _ _ _ _ H). Qed.

Lemma iterate_exited {X Y} n (body : X → M S (X + Y)) x σ s :
  body x σ = Exited s → iterate (Datatypes.S n) body x σ = Exited s.
Proof. intros H. simpl. by rewrite (bind_exited _ _ _ _ H). Qed.

Lemma iterate_ub {X Y} n (body : X → M S (X + Y)) x σ f :
  body x σ = UB f → iterate (Datatypes.S n) body x σ = UB f.
Proof. intros H. simpl. by rewrite (bind_ub _ _ _ _ H). Qed.

(** More fuel never changes a result: the fuel is not part of the meaning. *)
Lemma iterate_mono {X Y} n k (body : X → M S (X + Y)) x σ :
  n ≤ k → iterate n body x σ ≠ Timeout →
  iterate k body x σ = iterate n body x σ.
Proof.
  revert k x σ. induction n as [|n IH]; intros k x σ Hk Hn; [done|].
  destruct k as [|k]; [lia|]. simpl in *. unfold mbind, M_bind in *.
  destruct (body x σ) as [[[x'|y] σ']| | |]; try done.
  apply IH; [lia|done].
Qed.
End monad.

#[global] Arguments iterate : simpl never.

(** Computation steps of the basic operations, as rewrite rules: [mrun] runs a
    computation up to the next operation that needs a lemma of its own. *)
Section steps.
Context {S A B C : Type}.
Implicit Types (k : A → M S B) (σ : S).

Lemma bind_ret k a σ : (x ← mret a; k x) σ = k a σ.
Proof. done. Qed.

Lemma bind_get (k : S → M S B) σ : (x ← mget; k x) σ = k σ σ.
Proof. done. Qed.

Lemma bind_gets (f : S → A) k σ : (x ← mgets f; k x) σ = k (f σ) σ.
Proof. done. Qed.

Lemma bind_put σ' (k : unit → M S B) σ : (x ← mput σ'; k x) σ = k tt σ'.
Proof. done. Qed.

Lemma bind_modify f (k : unit → M S B) σ : (x ← mmodify f; k x) σ = k tt (f σ).
Proof. done. Qed.

Lemma bind_ub_step f k σ : (x ← mub f; k x) σ = UB f.
Proof. done. Qed.

Lemma bind_exit_step s k σ : (x ← mexit s; k x) σ = Exited s.
Proof. done. Qed.

Lemma bind_assert_true s (k : unit → M S B) σ : (x ← ASSERT true s; k x) σ = k tt σ.
Proof. done. Qed.

Lemma bind_assert_false s (k : unit → M S B) σ : (x ← ASSERT false s; k x) σ = Exited s.
Proof. done. Qed.

Lemma bind_bind (m : M S C) (h : C → M S A) k σ :
  (x ← (y ← m; h y); k x) σ = (y ← m; x ← h y; k x) σ.
Proof. unfold mbind, M_bind. by destruct (m σ) as [[]| | |]. Qed.
End steps.

Create Rewrite HintDb mon.
#[export] Hint Rewrite @bind_ret @bind_get @bind_gets @bind_put @bind_modify
  @bind_ub_step @bind_exit_step @bind_assert_true @bind_assert_false @bind_bind : mon.

Ltac mrun := autorewrite with mon; simpl.

(** ** What a computation leaves alone

    [keeps f m]: when [m] returns, the part [f] of the state is as it was. *)

Section keeps.
Context {S B : Type} (f : S → B).

Definition keeps {A} (m : M S A) : Prop := ∀ σ a σ', m σ = Done (a, σ') → f σ' = f σ.

Lemma keeps_ret {A} (a : A) : keeps (mret a).
Proof. by intros σ b σ' [= _ <-]. Qed.
Lemma keeps_get : keeps mget.
Proof. by intros σ b σ' [= _ <-]. Qed.
Lemma keeps_gets {A} (g : S → A) : keeps (mgets g).
Proof. by intros σ b σ' [= _ <-]. Qed.
Lemma keeps_modify g : (∀ σ, f (g σ) = f σ) → keeps (mmodify g).
Proof. intros Hg σ b σ' [= _ <-]. apply Hg. Qed.
Lemma keeps_ub {A} u : keeps (A := A) (mub u).
Proof. done. Qed.
Lemma keeps_exit {A} s : keeps (A := A) (mexit s).
Proof. done. Qed.
Lemma keeps_bind {A C} (m : M S A) (k : A → M S C) :
  keeps m → (∀ a, keeps (k a)) → keeps (m ≫= k).
Proof.
  intros Hm Hk σ c σ' (a & σ1 & E1 & E2)%bind_inv_done.
  by rewrite (Hk _ _ _ _ E2), (Hm _ _ _ E1).
Qed.
Lemma keeps_assert c s : keeps (ASSERT c s).
Proof. destruct c; [apply keeps_ret|apply keeps_exit]. Qed.
Lemma keeps_iterate {X Y} n (body : X → M S (X + Y)) x :
  (∀ x, keeps (body x)) → keeps (iterate n body x).
Proof.
  intros Hb. revert x. induction n as [|n IH]; intros x; [done|].
  apply keeps_bind; [apply Hb|]. intros [x'|y]; [apply IH|apply keeps_ret].
Qed.
End keeps.

Lemma keeps_zoom {S T B A} (f : S → B) (g : T → B) get set (m : M T A) :
  (∀ σ, g (get σ) = f σ) → (∀ t σ, f (set t σ) = g t) → keeps g m → keeps f (zoom get set m).
Proof.
  intros Hget Hset Hm σ a σ'. unfold zoom. destruct (m (get σ)) as [[b t]| | |] eqn:E; try done.
  intros [= _ <-]. by rewrite Hset, (Hm _ _ _ E), Hget.
Qed.

(** Proves [keeps] along the structure of a computation. *)
Create HintDb keeps.
#[export] Hint Resolve keeps_ret keeps_get keeps_gets keeps_ub keeps_exit keeps_assert : keeps.
Ltac solve_keeps :=
  repeat first
    [ solve [auto with keeps]
    | apply keeps_bind; [|intros ?]
    | apply keeps_modify; intros ?; done
    | case_decide
    | match goal with |- keeps _ (match ?x with _ => _ end) => destruct x end ].

(** ** Weakest preconditions

    [wp m Q σ]: from [σ] the computation [m] neither is undefined nor runs out of
    fuel, and when it returns, [Q] holds of its result; it may end the process. *)
Definition wp {S A} (m : M S A) (Q : A → S → Prop) (σ : S) : Prop :=
  match m σ with
  | Done (a, σ') => Q a σ'
  | Exited _ => True
  | UB _ | Timeout => False
  end.

Section wp.
Context {S : Type}.

Lemma wp_ret {A} (a : A) (Q : A → S → Prop) σ : Q a σ → wp (mret a) Q σ.
Proof. done. Qed.

Lemma wp_done {A} (m : M S A) (Q : A → S → Prop) σ a σ' :
  m σ = Done (a, σ') → Q a σ' → wp m Q σ.
Proof. intros E HQ. unfold wp. by rewrite E. Qed.

Lemma wp_outcome {A} (m : M S A) (Q : A → S → Prop) σ :
  wp m Q σ ↔ (∃ a σ', m σ = Done (a, σ') ∧ Q a σ') ∨ ∃ msg, m σ = Exited msg.
Proof.
  unfold wp. destruct (m σ) as [[a σ']|msg|f|].
  - split; [intros HQ; left; eauto|]. intros [(? & ? & [= <- <-] & ?)|[? [=]]]. done.
  - split; [eauto|done].
  - split; [done|]. intros [(? & ? & [=] & _)|[? [=]]].
  - split; [done|]. intros [(? & ? & [=] & _)|[? [=]]].
Qed.

Lemma wp_mono {A} (m : M S A) (Q Q' : A → S → Prop) σ :
  wp m Q σ → (∀ a σ', Q a σ' → Q' a σ') → wp m Q' σ.
Proof. unfold wp. destruct (m σ) as [[a σ']| | |]; auto. Qed.

Lemma wp_bind {A B} (m : M S A) (k : A → M S B) Q σ :
  wp m (λ a, wp (k a) Q) σ → wp (m ≫= k) Q σ.
Proof. unfold wp, mbind, M_bind. by destruct (m σ) as [[a σ']| | |]. Qed.

Lemma wp_get {A} (k : S → M S A) Q σ : wp (k σ) Q σ → wp (x ← mget; k x) Q σ.
Proof. done. Qed.

Lemma wp_modify f (Q : unit → S → Prop) σ : Q tt (f σ) → wp (mmodify f) Q σ.
Proof. done. Qed.

Lemma wp_assert (c : bool) s (Q : unit → S → Prop) σ :
  (c = true → Q tt σ) → wp (ASSERT c s) Q σ.
Proof. destruct c; unfold wp; simpl; [intros HQ; by apply HQ|done]. Qed.

Lemma wp_zoom {T A} get (set : T → S → S) (m : M T A) Q σ :
  wp m (λ a t, Q a (set t σ)) (get σ) → wp (zoom get set m) Q σ.
Proof. unfold wp, zoom. by destruct (m (get σ)) as [[a t]| | |]. Qed.

(** A loop whose turns lower a measure and keep an invariant. *)
Lemma wp_iterate {X Y} fuel (body : X → M S (X + Y)) x (I : X → S → Prop) (v : S → nat) Q σ :
  (∀ x σ, I x σ → wp (body x) (λ r σ', match r with
     | inl x' => I x' σ' ∧ v σ' < v σ
     | inr y => Q y σ' end) σ) →
  I x σ → v σ < fuel → wp (iterate fuel body x) Q σ.
Proof.
  intros Hb. revert x σ. induction fuel as [|fuel IH]; intros x σ Hx Hv; [lia|].
  specialize (Hb x σ Hx) as Hw. unfold wp, iterate in *. fold (@iterate S X Y) in *.
  unfold mbind, M_bind. destruct (body x σ) as [[[x'|y] σ']| | |]; try done.
  destruct Hw as [HI Hlt]. apply IH; [done|lia].
Qed.
End wp.

(** ** Lists *)

Lemma length_filter_insert {A} (P : A → Prop) `{∀ x, Decision (P x)} (l : list A) i x y :
  l !! i = Some x →
  length (filter P (<[i := y]> l)) + (if decide (P x) then 1 else 0) =
  length (filter P l) + (if decide (P y) then 1 else 0).
Proof.
  revert i. induction l as [|z l IH]; intros [|i] Hi; simplify_eq/=.
  - rewrite !filter_cons. repeat case_decide; simpl; lia.
  - specialize (IH i Hi). rewrite !filter_cons.
    repeat case_decide; simpl in *; lia.
Qed.

Lemma NoDup_fmap_eq {A B} (f : A → B) (l : list A) x y :
  NoDup (f <$> l) → x ∈ l → y ∈ l → f x = f y → x = y.
Proof.
  intros Hnd (i & Hi)%list_elem_of_lookup (j & Hj)%list_elem_of_lookup Hf.
  assert (i = j) as ->; [|congruence].
  apply (NoDup_lookup (f <$> l) _ _ (f x)); [done|..]; rewrite list_lookup_fmap.
  - by rewrite Hi.
  - by rewrite Hj, Hf.
Qed.

Lemma fmap_id_in {A} (f : A → A) (l : list A) : (∀ x, x ∈ l → f x = x) → f <$> l = l.
Proof.
  intros Hf. rewrite <- (list_fmap_id l) at 2. apply list_fmap_ext.
  intros i x Hx. simpl. apply Hf. by eapply list_elem_of_lookup_2.
Qed.

Lemma filter_all {A} (P : A → Prop) `{∀ x, Decision (P x)} (l : list A) :
  (∀ x, x ∈ l → P x) → filter P l = l.
Proof.
  induction l as [|x l IH]; intros HP; [done|].
  rewrite filter_cons, decide_True by (apply HP; by left). f_equal. apply IH.
  intros y ?. apply HP. by right.
Qed.

(** Dropping the one element with a key, and finding it. *)
Lemma filter_key {A} (f : A → Z) (p : Z) (l1 l2 : list A) x :
  f x = p → (∀ y, y ∈ l1 ++ l2 → f y ≠ p) →
  filter (λ y, f y ≠ p) (l1 ++ x :: l2) = l1 ++ l2.
Proof.
  intros Hp Hl. rewrite filter_app, filter_cons, decide_False, <- filter_app by (by intros []).
  by apply filter_all.
Qed.

Lemma find_key {A} (f : A → Z) (p : Z) (l : list A) x :
  x ∈ l → f x = p → (∀ y, y ∈ l → f y = p → y = x) →
  ∃ i, list_find (λ y, f y = p) l = Some (i, x).
Proof.
  intros Hx Hp Hu. destruct (list_find_elem_of (λ y, f y = p) l x Hx Hp) as [[i y] E].
  exists i. rewrite E. apply list_find_Some in E as (Hy & Hfy & _).
  by rewrite (Hu y (list_elem_of_lookup_2 _ _ _ Hy) Hfy).
Qed.

(** ** Parts of lists *)

Section sublists.
Context {A : Type}.
Implicit Types (l k : list A).

Lemma sublist_incl l k : l `sublist_of` k → l ⊆ k.
Proof. induction 1; set_solver. Qed.

Lemma Forall_sublist (P : A → Prop) l k : l `sublist_of` k → Forall P k → Forall P l.
Proof. rewrite !Forall_forall. intros Hs Hk x Hx. by apply Hk, (sublist_incl _ _ Hs). Qed.

Lemma suffix_sublist l k : l `suffix_of` k → l `sublist_of` k.
Proof. intros [k' ->]. by apply sublist_inserts_l. Qed.

Lemma filter_sublist (P : A → Prop) `{∀ x, Decision (P x)} l : filter P l `sublist_of` l.
Proof.
  induction l as [|x l IH]; [done|]. rewrite filter_cons.
  case_decide; by constructor.
Qed.

Lemma sorted_sublist (R : A → A → Prop) l k :
  l `sublist_of` k → StronglySorted R k → StronglySorted R l.
Proof.
  induction 1 as [|x l k Hlk IH|x l k _ IH]; [done|..]; rewrite ?StronglySorted_cons.
  - intros [Hk Hs]. split; [by eapply Forall_sublist|by apply IH].
  - intros [_ Hs]. by apply IH.
Qed.

Lemma sorted_impl (R R' : A → A → Prop) l :
  (∀ x y, R x y → R' x y) → StronglySorted R l → StronglySorted R' l.
Proof.
  intros HR. induction l as [|x l IH]; [constructor|]. rewrite !StronglySorted_cons.
  intros [Hx Hl]. split; [|by apply IH]. eapply Forall_impl; [exact Hx|]. by intros y ?; apply HR.
Qed.
End sublists.
