(* ===== verification/Types.v ===== *)
(** Data of the exchange: the integer types and sentinels of
    include/cppexchange/typedefs.h, the limits of constants.h, the messages of
    messages.h and the two structures of order.h.  Integers are [Z]; a value
    that a C++ operation may push out of its width is wrapped by [u32]/[u64]
    where the operation is modelled.  Pointers into an object pool are indices
    into its store, [None] is [nullptr]. *)

From S2P Require Import Prelude.
Local Open Scope Z_scope.

(** ** typedefs.h *)

Definition u32 (z : Z) : Z := z mod 2 ^ 32.
Definition u64 (z : Z) : Z := z mod 2 ^ 64.
Definition s64 (z : Z) : Z := (z + 2 ^ 63) mod 2 ^ 64 - 2 ^ 63.
#[global] Arguments u32 : simpl never.
#[global] Arguments u64 : simpl never.

Lemma u32_id z : 0 ≤ z < 2 ^ 32 → u32 z = z.
Proof. intros. by apply Z.mod_small. Qed.

Definition TickerIdT := Z.
Definition OrderIdT := Z.
Definition TradeIdT := Z.
Definition ClientIdT := Z.
Definition QuantityT := Z.
Definition PriceT := Z.
Definition NsTimestampT := Z.

Definition TickerId_INVALID : TickerIdT := 2 ^ 32 - 1.
Definition OrderId_INVALID : OrderIdT := 2 ^ 32 - 1.
Definition TradeId_INVALID : TradeIdT := 2 ^ 32 - 1.
Definition ClientId_INVALID : ClientIdT := 2 ^ 32 - 1.
Definition NsTimestamp_INVALID : NsTimestampT := 2 ^ 63 - 1.
Definition Quantity_INVALID : QuantityT := 2 ^ 32 - 1.
Definition Price_INVALID : PriceT := 2 ^ 64 - 1.

Definition ptr := option nat.
Abbreviation nullptr := (@None nat).

(** ** constants.h

    The limits are a class, so that the development holds for any of them and
    its examples run with small ones; [Constants_code] are the code's. *)

Class Constants := {
  MAX_TICKERS : nat;
  MAX_ORDER_IDS : nat;
  MAX_PRICE_LEVELS : nat;
}.

Definition Constants_code : Constants := {|
  MAX_TICKERS := 16;
  MAX_ORDER_IDS := Z.to_nat (Z.shiftl 1 23);
  MAX_PRICE_LEVELS := Z.to_nat (128 * 1024);
|}.

(** Limits that the code under include/ and source/ does not use. *)
Definition MAX_NUM_CLIENTS : nat := 256.
Definition UPDATES_QUEUE_SIZE : nat := Z.to_nat (Z.shiftl 1 23).
Definition REQUESTS_QUEUE_SIZE : nat := Z.to_nat (Z.shiftl 1 23).

(** ** order.h: enum OrderSide, struct Order *)

Module OrderSide.
Inductive OrderSide : Set := INVALID | BUY | SELL.
#[export] Instance eq_dec : EqDecision OrderSide.
Proof. solve_decision. Defined.
End OrderSide.
Export (hints) OrderSide.
Abbreviation OrderSide := OrderSide.OrderSide.

Module Order.
Record Order : Set := mk {
  previous : ptr;
  next : ptr;
  ticker_id : TickerIdT;
  order_id : OrderIdT;
  client_id : ClientIdT;
  quantity : QuantityT;
  executed : QuantityT;
  ns_timestamp : NsTimestampT;
  limit_price : PriceT;
  side : OrderSide;
}.

(** [Order() = default] with the member initialisers. *)
Definition default : Order :=
  mk nullptr nullptr TickerId_INVALID OrderId_INVALID ClientId_INVALID
     Quantity_INVALID 0 NsTimestamp_INVALID Price_INVALID OrderSide.INVALID.

(** The constructor with arguments. *)
Definition make (ticker_id : TickerIdT) (order_id : OrderIdT)
    (client_id : ClientIdT) (ns_timestamp : NsTimestampT)
    (side : OrderSide) (quantity : QuantityT) (limit_price : PriceT) : Order :=
  mk nullptr nullptr ticker_id order_id client_id quantity 0 ns_timestamp
     limit_price side.

(** Assignments to the members the code writes. *)
Definition set_previous (p : ptr) (o : Order) : Order :=
  mk p (next o) (ticker_id o) (order_id o) (client_id o) (quantity o)
     (executed o) (ns_timestamp o) (limit_price o) (side o).
Definition set_next (p : ptr) (o : Order) : Order :=
  mk (previous o) p (ticker_id o) (order_id o) (client_id o) (quantity o)
     (executed o) (ns_timestamp o) (limit_price o) (side o).
Definition set_quantity (q : QuantityT) (o : Order) : Order :=
  mk (previous o) (next o) (ticker_id o) (order_id o) (client_id o) q
     (executed o) (ns_timestamp o) (limit_price o) (side o).

(** The order without its place in a list. *)
Definition unlink (o : Order) : Order := set_previous None (set_next None o).

#[export] Instance eq_dec : EqDecision Order.
Proof. solve_decision. Defined.
End Order.
Export (hints) Order.
Abbreviation Order := Order.Order.

(** ** order.h: class OrdersPriceLevel, its data *)

Module OrdersPriceLevel.
Record OrdersPriceLevel : Set := mk {
  next_price_level : ptr;
  price_level : PriceT;
  top_order : ptr;
  side : OrderSide;
}.

Definition default : OrdersPriceLevel := mk nullptr Price_INVALID nullptr OrderSide.INVALID.
Definition make (side : OrderSide) (price : PriceT) (next : ptr) : OrdersPriceLevel :=
  mk next price nullptr side.

Definition set_top_order (p : ptr) (l : OrdersPriceLevel) : OrdersPriceLevel :=
  mk (next_price_level l) (price_level l) p (side l).
Definition set_side (s : OrderSide) (l : OrdersPriceLevel) : OrdersPriceLevel :=
  mk (next_price_level l) (price_level l) (top_order l) s.

(** [setNextPriceLevel], [getNextPriceLevel], [getPrice], [getSide], [top]. *)
Definition setNextPriceLevel (p : ptr) (l : OrdersPriceLevel) : OrdersPriceLevel :=
  mk p (price_level l) (top_order l) (side l).
Definition getNextPriceLevel (l : OrdersPriceLevel) : ptr := next_price_level l.
Definition getPrice (l : OrdersPriceLevel) : PriceT := price_level l.
Definition getSide (l : OrdersPriceLevel) : OrderSide := side l.
Definition top (l : OrdersPriceLevel) : ptr := top_order l.

#[export] Instance eq_dec : EqDecision OrdersPriceLevel.
Proof. solve_decision. Defined.
End OrdersPriceLevel.
Export (hints) OrdersPriceLevel.
Abbreviation OrdersPriceLevel := OrdersPriceLevel.OrdersPriceLevel.

(** ** messages.h *)

Module RequestType.
Inductive RequestType : Set := INVALID | ADD | CANCEL.
#[export] Instance eq_dec : EqDecision RequestType.
Proof. solve_decision. Defined.
End RequestType.
Export (hints) RequestType.
Abbreviation RequestType := RequestType.RequestType.

Module ClientRequest.
Record ClientRequest : Set := mk {
  type : RequestType;
  ticker_id : TickerIdT;
  client_id : ClientIdT;
  order_id : OrderIdT;
  side : OrderSide;
  quantity : QuantityT;
  limit_price : PriceT;
}.
Definition default : ClientRequest :=
  mk RequestType.INVALID TickerId_INVALID ClientId_INVALID OrderId_INVALID
     OrderSide.INVALID Quantity_INVALID Price_INVALID.
#[export] Instance eq_dec : EqDecision ClientRequest.
Proof. solve_decision. Defined.
End ClientRequest.
Export (hints) ClientRequest.
Abbreviation ClientRequest := ClientRequest.ClientRequest.

Module ResponseType.
Inductive ResponseType : Set :=
  INVALID | ACCEPTED | FILLED | CANCELED | CANCEL_REJECTED | ERROR.
#[export] Instance eq_dec : EqDecision ResponseType.
Proof. solve_decision. Defined.
End ResponseType.
Export (hints) ResponseType.
Abbreviation ResponseType := ResponseType.ResponseType.

Module ClientResponse.
Record ClientResponse : Set := mk {
  type : ResponseType;
  ticker_id : TickerIdT;
  client_id : ClientIdT;
  order_id : OrderIdT;
  side : OrderSide;
  quantity : QuantityT;
  price : PriceT;
  ns_timestamp : NsTimestampT;
}.
Definition default : ClientResponse :=
  mk ResponseType.INVALID TickerId_INVALID ClientId_INVALID OrderId_INVALID
     OrderSide.INVALID Quantity_INVALID Price_INVALID NsTimestamp_INVALID.
#[export] Instance eq_dec : EqDecision ClientResponse.
Proof. solve_decision. Defined.
End ClientResponse.
Export (hints) ClientResponse.
Abbreviation ClientResponse := ClientResponse.ClientResponse.

Module UpdateType.
Inductive UpdateType : Set := INVALID | ADD | MODIFY | REMOVE | TRADE.
#[export] Instance eq_dec : EqDecision UpdateType.
Proof. solve_decision. Defined.
End UpdateType.
Export (hints) UpdateType.
Abbreviation UpdateType := UpdateType.UpdateType.

Module MarketUpdate.
Record MarketUpdate : Set := mk {
  type : UpdateType;
  ticker_id : TickerIdT;
  order_id : OrderIdT;
  trade_id : TradeIdT;
  side : OrderSide;
  quantity : QuantityT;
  price : PriceT;
  ns_timestamp : NsTimestampT;
}.
Definition default : MarketUpdate :=
  mk UpdateType.INVALID TickerId_INVALID OrderId_INVALID TradeId_INVALID
     OrderSide.INVALID Quantity_INVALID Price_INVALID NsTimestamp_INVALID.
#[export] Instance eq_dec : EqDecision MarketUpdate.
Proof. solve_decision. Defined.
End MarketUpdate.
Export (hints) MarketUpdate.
Abbreviation MarketUpdate := MarketUpdate.MarketUpdate.

(** The numbered messages: [MDPClientRequest] and [MDPMarketUpdate] hold a message,
    [MDPClientResponse] the address of one, which its default leaves indeterminate. *)
Record Numbered (A : Type) := mkNumbered { sequence_number : Z; payload : A }.
#[global] Arguments mkNumbered {A} sequence_number payload.
#[global] Arguments sequence_number {A} n.
#[global] Arguments payload {A} n.

Definition MDPClientRequest : Type := Numbered ClientRequest.
Definition MDPClientResponse : Type := Numbered Z.
Definition MDPMarketUpdate : Type := Numbered MarketUpdate.

Definition MDPClientRequest_default : MDPClientRequest := mkNumbered 0 ClientRequest.default.
Definition MDPClientResponse_default (indeterminate : Z) : MDPClientResponse :=
  mkNumbered 0 indeterminate.
Definition MDPMarketUpdate_default : MDPMarketUpdate := mkNumbered 0 MarketUpdate.default.
