(* ===== verification/Layout.v ===== *)
(** The memory layout of the structs: order.h's [Order] with the natural alignment
    of its members, the messages of messages.h under [#pragma pack(push, 1)], and
    standalone/investigation/alignment.cpp, which prints the layout.

    The width of an integer type is in its name; how types are aligned and what
    size a pointer has is the platform's choice, a class. *)

From Stdlib Require Import Ascii.
From S2P Require Import Prelude Types.

Module Layout.

(** ** Layout of a struct *)

(** [sizeof] and [alignof] of a member. *)
Record member := mkMember { m_size : nat; m_align : nat }.

(** The least multiple of [a] that is not below [n]. *)
Definition align_up (n a : nat) : nat := (n + a - 1) `div` a * a.

(** The alignment of a member under [#pragma pack(p)], if one is in force. *)
Definition alignment (pack : option nat) (m : member) : nat :=
  match pack with Some p => p `min` m_align m | None => m_align m end.

(** The offsets of the members from a position on, and the position after them. *)
Fixpoint place (pack : option nat) (pos : nat) (ms : list member) : list nat * nat :=
  match ms with
  | [] => ([], pos)
  | m :: ms =>
      let o := align_up pos (alignment pack m) in
      let '(os, e) := place pack (o + m_size m) ms in (o :: os, e)
  end.

Definition offsets (pack : option nat) (ms : list member) : list nat := (place pack 0 ms).1.
Definition struct_align (pack : option nat) (ms : list member) : nat :=
  foldr Nat.max 1 (alignment pack <$> ms).
Definition sizeof (pack : option nat) (ms : list member) : nat :=
  align_up (place pack 0 ms).2 (struct_align pack ms).

(** ** The structs *)

Class Abi := {
  ptr_size : nat;
  ptr_align : nat;
  align8 : nat;
  align32 : nat;
  align64 : nat;
}.

Definition lp64 : Abi :=
  {| ptr_size := 8; ptr_align := 8; align8 := 1; align32 := 4; align64 := 8 |}.

Section structs.
Context `{Abi}.

Definition pointer : member := mkMember ptr_size ptr_align.
Definition uint8 : member := mkMember 1 align8.
Definition uint32 : member := mkMember 4 align32.
Definition uint64 : member := mkMember 8 align64.
Definition int64 : member := mkMember 8 align64.

(** [struct Order]: previous, next, ticker_id, order_id, client_id, quantity,
    executed, ns_timestamp, limit_price, side. *)
Definition Order : list member :=
  [pointer; pointer; uint32; uint32; uint32; uint32; uint32; int64; int64; uint8].

(** [struct ClientRequest]: type, ticker_id, client_id, order_id, side, quantity,
    limit_price. *)
Definition ClientRequest : list member := [uint8; uint32; uint32; uint32; uint8; uint32; int64].

(** [struct ClientResponse]: type, ticker_id, client_id, order_id, side, quantity,
    price, ns_timestamp. *)
Definition ClientResponse : list member :=
  [uint8; uint32; uint32; uint32; uint8; uint32; int64; int64].

(** [struct MarketUpdate]: type, ticker_id, order_id, trade_id, side, quantity,
    price, ns_timestamp. *)
Definition MarketUpdate : list member :=
  [uint8; uint32; uint32; uint32; uint8; uint32; int64; int64].

(** A packed struct as a member. *)
Definition packed (ms : list member) : member :=
  mkMember (sizeof (Some 1) ms) (struct_align (Some 1) ms).

(** [struct MDPClientRequest], [MDPClientResponse], [MDPMarketUpdate]: sequence_number
    and the message or, for the response, its address. *)
Definition MDPClientRequest : list member := [uint64; packed ClientRequest].
Definition MDPClientResponse : list member := [uint64; pointer].
Definition MDPMarketUpdate : list member := [uint64; packed MarketUpdate].

(** ** alignment.cpp *)

(** [printf] for formats with [%zu] and [%lu] only. *)
Fixpoint printf (format : string) (args : list nat) : string :=
  match format, args with
  | String "%"%char (String "z"%char (String "u"%char f)), a :: args => pretty a +:+ printf f args
  | String "%"%char (String "l"%char (String "u"%char f)), a :: args => pretty a +:+ printf f args
  | String c f, _ => String c (printf f args)
  | EmptyString, _ => EmptyString
  end.

Definition newline : string := String (Ascii.ascii_of_nat 10) EmptyString.

Definition checkOrderMemoryAlignment : string :=
  printf (newline +:+ "Order alignof  p:%zu n:%zu tid:%zu  oid:%zu  cid:%zu  q:%zu  e:%zu  mst:%zu  lp:%zu  s:%zu")
    (m_align <$> Order) +:+
  printf (newline +:+ "Order sizeof   p:%lu n:%lu tid:%lu  oid:%lu  cid:%lu  q:%lu  e:%lu  mst:%lu  lp:%lu  s:%lu  size:%lu")
    ((m_size <$> Order) ++ [sizeof None Order]) +:+
  printf (newline +:+ "Order offsetof p:%zu n:%zu tid:%zu oid:%zu cid:%zu q:%zu e:%zu mst:%zu lp:%zu s:%zu")
    (offsets None Order) +:+
  printf (newline +:+ "ClientResponse sizeof   t:%zu tid:%zu cid:%zu oid:%zu s:%zu  q:%zu  p:%zu  ns:%zu")
    (m_size <$> ClientResponse) +:+
  printf (newline +:+ "ClientResponse offsetof t:%zu tid:%zu cid:%zu oid:%zu s:%zu q:%zu p:%zu ns:%zu")
    (offsets (Some 1) ClientResponse).
End structs.

(** ** What a layout guarantees *)

Lemma align_up_le n a : 0 < a → n ≤ align_up n a.
Proof.
  intros Ha. unfold align_up. pose proof (Nat.div_mod (n + a - 1) a ltac:(lia)) as E.
  pose proof (Nat.mod_upper_bound (n + a - 1) a ltac:(lia)). lia.
Qed.

Lemma align_up_tight n a : 0 < a → align_up n a < n + a.
Proof.
  intros Ha. unfold align_up. pose proof (Nat.div_mod (n + a - 1) a ltac:(lia)). lia.
Qed.

Lemma align_up_divide n a : Nat.divide a (align_up n a).
Proof. by exists ((n + a - 1) `div` a). Qed.

Lemma align_up_1 n : align_up n 1 = n.
Proof. unfold align_up. rewrite Nat.div_1_r. lia. Qed.

Section laws.
Context (pack : option nat).

Definition sane (ms : list member) : Prop := Forall (λ m, 0 < alignment pack m) ms.

(** Offsets are aligned and the members do not overlap, from a position on. *)
Fixpoint placed (pos : nat) (ms : list member) (os : list nat) (e : nat) : Prop :=
  match ms, os with
  | [], [] => pos = e
  | m :: ms, o :: os =>
      pos ≤ o < pos + alignment pack m ∧ Nat.divide (alignment pack m) o ∧
      placed (o + m_size m) ms os e
  | _, _ => False
  end.

Lemma place_placed pos ms : sane ms → placed pos ms (place pack pos ms).1 (place pack pos ms).2.
Proof.
  revert pos. induction ms as [|m ms IH]; intros pos Hs; [done|].
  apply Forall_cons in Hs as [Hm Hs]. simpl.
  set (o := align_up pos (alignment pack m)).
  specialize (IH (o + m_size m) Hs). destruct (place pack (o + m_size m) ms) as [os e]. simpl in *.
  split_and!; [by apply align_up_le|by apply align_up_tight|apply align_up_divide|done].
Qed.

Lemma placed_le pos ms os e : placed pos ms os e → pos ≤ e.
Proof.
  revert pos os. induction ms as [|m ms IH]; intros pos [|o os]; simpl; [lia|done|done|].
  intros (? & _ & H%IH). lia.
Qed.

Lemma placed_lookup pos ms os e i m o :
  placed pos ms os e → ms !! i = Some m → os !! i = Some o →
  Nat.divide (alignment pack m) o ∧ pos ≤ o ∧ o + m_size m ≤ e.
Proof.
  revert pos os i. induction ms as [|m' ms IH]; intros pos [|o' os] i Hp Hm Ho; try done.
  destruct Hp as (Hle & Hd & Hp). destruct i as [|i]; simplify_eq/=.
  - apply placed_le in Hp. split; [done|lia].
  - destruct (IH _ _ _ Hp Hm Ho) as (? & ? & ?). split; [done|lia].
Qed.

Lemma placed_disjoint pos ms os e i j m o o' :
  placed pos ms os e → i < j → ms !! i = Some m → os !! i = Some o → os !! j = Some o' →
  o + m_size m ≤ o'.
Proof.
  revert pos os i j. induction ms as [|m' ms IH]; intros pos [|x os] i j Hp Hij Hm Ho Ho'; try done.
  destruct Hp as (Hle & Hd & Hp). destruct j as [|j]; [lia|]. simpl in Ho'.
  destruct i as [|i]; simplify_eq/=; [|by apply (IH _ os i j Hp ltac:(lia) Hm Ho Ho')].
  clear -Hp Ho'. revert Hp Ho'. generalize (o + m_size m). intros p Hp Ho'.
  assert (length ms = length os) as Hl.
  { clear -Hp. revert p os Hp. induction ms as [|a ms IH]; intros p [|b os] Hp; try done.
    destruct Hp as (_ & _ & Hp). simpl. f_equal. by eapply IH. }
  destruct (lookup_lt_is_Some_2 ms j) as [a Ha]; [rewrite Hl; by eapply lookup_lt_Some|].
  by destruct (placed_lookup _ _ _ _ _ _ _ Hp Ha Ho') as (_ & ? & _).
Qed.

Lemma struct_align_pos ms : 0 < struct_align pack ms.
Proof. unfold struct_align. induction ms as [|m ms IH]; [simpl; lia|]. rewrite fmap_cons. cbn [foldr]. lia. Qed.
End laws.

End Layout.
