(* ===== verification/Memory.v ===== *)
(** Memory holding objects of one type: the interface between the code that
    follows pointers to objects (the lists of order.h) and the container that
    owns the objects (the pools of object_pool.h).  [MemoryLaws] is what the
    clients rely on; ObjectPool.v discharges it, and so does a finite map, the
    memory of objects that are local variables. *)

From S2P Require Import Prelude Types.

Class Memory (Mem T : Type) := {
  mload : Mem → nat → option T;
  mstore : Mem → nat → T → Mem;
  msize : Mem → nat;
}.

Class MemoryLaws (Mem T : Type) `{Memory Mem T} : Prop := {
  mload_mstore_eq m p x : is_Some (mload m p) → mload (mstore m p x) p = Some x;
  mload_mstore_ne m p q x : p ≠ q → mload (mstore m p x) q = mload m q;
  msize_mstore m p x : is_Some (mload m p) → msize (mstore m p x) = msize m;
  mload_lt m p : is_Some (mload m p) → p < msize m;
}.

(** Dereferencing a pointer, for reading and for writing. *)
Definition deref {Mem T} `{Memory Mem T} (p : ptr) : M Mem T := λ m,
  match p with
  | None => UB NullDeref
  | Some i =>
      match mload m i with
      | Some x => Done (x, m)
      | None => UB IndexOutOfRange
      end
  end.

Definition assign {Mem T} `{Memory Mem T} (p : ptr) (f : T → T) : M Mem unit := λ m,
  match p with
  | None => UB NullDeref
  | Some i =>
      match mload m i with
      | Some x => Done (tt, mstore m i (f x))
      | None => UB IndexOutOfRange
      end
  end.

(** [writes X m m']: [m'] is [m] after stores at addresses in [X] only. *)
Inductive writes {Mem T} `{Memory Mem T} (X : list nat) (m : Mem) : Mem → Prop :=
| writes_refl : writes X m m
| writes_step m' p x :
    p ∈ X → is_Some (mload m' p) → writes X m m' → writes X m (mstore m' p x).

Section writes.
Context {Mem T : Type} `{MemoryLaws Mem T}.
Implicit Types (m : Mem) (p q : nat) (X Y : list nat).

Lemma deref_done m p x : mload m p = Some x → deref (Some p) m = Done (x, m).
Proof. intros E. unfold deref. by rewrite E. Qed.

Lemma assign_done m p (f : T → T) x :
  mload m p = Some x → assign (Some p) f m = Done (tt, mstore m p (f x)).
Proof. intros E. unfold assign. by rewrite E. Qed.

Lemma writes_trans X m1 m2 m3 : writes X m1 m2 → writes X m2 m3 → writes X m1 m3.
Proof. intros H12 H23. induction H23; eauto using @writes_step. Qed.

Lemma writes_mono X Y m m' : X ⊆ Y → writes X m m' → writes Y m m'.
Proof.
  intros HXY Hw. induction Hw; [constructor|].
  by apply writes_step; [apply HXY|..].
Qed.

Lemma writes_one m p x X :
  p ∈ X → is_Some (mload m p) → writes X m (mstore m p x).
Proof. intros. apply writes_step; [done..|constructor]. Qed.

Lemma writes_load m m' X q : writes X m m' → q ∉ X → mload m' q = mload m q.
Proof.
  intros Hw Hq. induction Hw as [|m' p x Hp _ _ IH]; [done|].
  rewrite mload_mstore_ne; [done|]. by intros ->.
Qed.

Lemma writes_size m m' X : writes X m m' → msize m' = msize m.
Proof. induction 1 as [|???? Hs _ IH]; [done|]. by rewrite msize_mstore. Qed.

Lemma mload_mstore m p q x :
  is_Some (mload m p) →
  mload (mstore m p x) q = if decide (q = p) then Some x else mload m q.
Proof.
  intros Hp. case_decide as E; [subst; by apply mload_mstore_eq|].
  by rewrite mload_mstore_ne.
Qed.

Lemma mload_mstore_is_Some m p q x :
  is_Some (mload m p) → is_Some (mload (mstore m p x) q) ↔ is_Some (mload m q).
Proof. intros Hp. rewrite mload_mstore by done. case_decide; naive_solver. Qed.

Lemma writes_is_Some X m m' q :
  writes X m m' → is_Some (mload m' q) ↔ is_Some (mload m q).
Proof.
  intros Hw. revert q. induction Hw as [|m' p x Hp Hs _ IH]; intros q; [done|].
  rewrite mload_mstore_is_Some by done. apply IH.
Qed.

(** Distinct valid addresses are at most [msize] many: the bound on walks. *)
Lemma valid_length m (ps : list nat) :
  NoDup ps → (∀ p, p ∈ ps → is_Some (mload m p)) → length ps ≤ msize m.
Proof.
  intros Hnd Hv.
  assert (ps ⊆+ seq 0 (msize m)) as Hsub.
  { apply NoDup_submseteq; [done|]. intros p Hp. apply elem_of_seq.
    pose proof (mload_lt m p (Hv p Hp)). lia. }
  apply submseteq_length in Hsub. by rewrite length_seq in Hsub.
Qed.
End writes.

(** Objects that live in variables: a finite map. *)
#[export] Instance gmap_memory T : Memory (gmap nat T) T := {|
  mload m p := m !! p;
  mstore m p x := <[p := x]> m;
  msize m := S (max_list (elements (dom m)));
|}.

Lemma gmap_load_lt {T} (m : gmap nat T) p :
  is_Some (m !! p) → p < S (max_list (elements (dom m))).
Proof.
  rewrite <- elem_of_dom, <- elem_of_elements.
  intros (l1 & l2 & ->)%list_elem_of_split.
  induction l1; simpl in *; lia.
Qed.

#[export] Instance gmap_memory_laws T : MemoryLaws (gmap nat T) T.
Proof.
  split; simpl.
  - intros. apply lookup_insert_eq.
  - intros. by apply lookup_insert_ne.
  - intros m p x Hp. rewrite dom_insert_lookup_L; done.
  - intros. by apply gmap_load_lt.
Qed.
