(* ===== verification/ObjectPool.v ===== *)
(** include/utils/object_pool.h: a fixed store of blocks handed out and taken
    back by index, with the cursor [next_free].  [getObject] hands out the block
    under the cursor and moves the cursor to the next available block, round the
    store; it ends the process when there is none. *)

From S2P Require Import Prelude Types Memory.

Module ObjectPool.

Record ObjectBlock (T : Type) := mkBlock { object : T; available : bool }.
Arguments mkBlock {T} object available.
Arguments object {T} o.
Arguments available {T} o.

Record ObjectPool (T : Type) := mkPool {
  store : list (ObjectBlock T);
  next_free : nat;
}.
Arguments mkPool {T} store next_free.
Arguments store {T} o.
Arguments next_free {T} o.

(** [ObjectPool(size) : store(size, {T(), true})]. *)
Definition ctor {T} (default : T) (size : nat) : ObjectPool T :=
  mkPool (replicate size (mkBlock default true)) 0.

Definition set_next_free {T} (n : nat) (p : ObjectPool T) : ObjectPool T :=
  mkPool (store p) n.
Definition set_store {T} (s : list (ObjectBlock T)) (p : ObjectPool T) : ObjectPool T :=
  mkPool s (next_free p).

(** [store[i]]. *)
Definition block_at {T} (i : nat) : M (ObjectPool T) (ObjectBlock T) :=
  p ← mget;
  match store p !! i with
  | Some b => mret b
  | None => mub IndexOutOfRange
  end.

(** One turn of the loop of [updateNextFree]. *)
Definition update_step {T} (prev_free : nat) (_ : unit) : M (ObjectPool T) (unit + unit) :=
  p ← mget;
  b ← block_at (next_free p);
  if available b then mret (inr tt)
  else
    let n := S (next_free p) in
    let n := if decide (n = length (store p)) then 0 else n in
    mmodify (set_next_free n);;
    (if decide (n = prev_free)
     then ASSERT (bool_decide (n ≠ prev_free)) "Buffer is full."
     else mret tt);;
    mret (inl tt).

Definition updateNextFree {T} : M (ObjectPool T) unit :=
  p ← mget;
  iterate (S (length (store p))) (update_step (next_free p)) tt.

(** [x] is the object the constructor call [T(args...)] builds in place. *)
Definition getObject {T} (x : T) : M (ObjectPool T) nat :=
  p ← mget;
  block ← block_at (next_free p);
  ASSERT (available block)
    ("Expected free ObjectBlock at index: " +:+ pretty (next_free p));;
  mmodify (set_store (<[next_free p := mkBlock x false]> (store p)));;
  updateNextFree;;
  mret (next_free p).

Definition releaseObject {T} (object_index : nat) : M (ObjectPool T) unit :=
  p ← mget;
  ASSERT (bool_decide (object_index < length (store p)))
    "Element being freed does not belong to this object pool.";;
  b ← block_at object_index;
  ASSERT (negb (available b)) "Attempting to free an already available ObjectBlock.";;
  mmodify (set_store (<[object_index := mkBlock (object b) true]> (store p))).

(** Reading and writing the object of a block, released or not. *)
#[export] Instance pool_memory T : Memory (ObjectPool T) T := {|
  mload p i := object <$> store p !! i;
  mstore p i x :=
    match store p !! i with
    | Some b => set_store (<[i := mkBlock x (available b)]> (store p)) p
    | None => p
    end;
  msize p := length (store p);
|}.

(** ** Invariant: the cursor stands on an available block *)

Definition is_available {T} (p : ObjectPool T) (i : nat) : bool :=
  match store p !! i with Some b => available b | None => false end.

Definition in_use {T} (p : ObjectPool T) (i : nat) : Prop :=
  available <$> store p !! i = Some false.

Definition wf {T} (p : ObjectPool T) : Prop := is_available p (next_free p) = true.

(** The number of available blocks. *)
Definition avail {T} (p : ObjectPool T) : nat :=
  length (filter (λ b, available b = true) (store p)).

#[export] Instance pool_memory_laws T : MemoryLaws (ObjectPool T) T.
Proof.
  split; simpl.
  - intros m p x [y Hy]. destruct (store m !! p) as [b|] eqn:E; [|done].
    simpl. rewrite list_lookup_insert_eq; [done|]. by eapply lookup_lt_Some.
  - intros m p q x Hpq. destruct (store m !! p) as [b|] eqn:E; [|done].
    simpl. by rewrite list_lookup_insert_ne.
  - intros m p x [y Hy]. destruct (store m !! p) as [b|] eqn:E; [|done].
    simpl. by rewrite length_insert.
  - intros m p [y Hy]. destruct (store m !! p) eqn:E; [|done].
    by eapply lookup_lt_Some.
Qed.
(** ** Lemmas *)

Section facts.
Context {T : Type}.
Implicit Types (p : ObjectPool T) (i j n : nat) (x : T).

(** The positions the cursor visits from [prev] on, in order: once round. *)
Definition rotation (n prev : nat) : list nat := seq prev (n - prev) ++ seq 0 prev.

Definition cyc_succ (n i : nat) : nat := if decide (S i = n) then 0 else S i.

Fixpoint cyc_path (n prev c : nat) (R : list nat) : Prop :=
  match R with
  | [] => c = prev
  | i :: R' =>
      i = c ∧ i < n ∧ (R' ≠ [] → cyc_succ n c ≠ prev) ∧ cyc_path n prev (cyc_succ n c) R'
  end.

Lemma cyc_path_low n prev c k :
  c + k = prev → prev < n → cyc_path n prev c (seq c k).
Proof.
  revert c. induction k as [|k IH]; intros c; simpl; [lia|]. intros.
  unfold cyc_succ. rewrite decide_False by lia.
  split_and!; [done|lia| |apply IH; lia].
  intros Hk ?. destruct k; [done|lia].
Qed.

Lemma cyc_path_high n prev c k :
  c + k = n → prev < n → prev ≤ c → 0 < k →
  cyc_path n prev c (seq c k ++ seq 0 prev).
Proof.
  revert c. induction k as [|k IH]; intros c; simpl; [lia|]. intros.
  unfold cyc_succ. case_decide.
  - assert (k = 0) as -> by lia. simpl. split_and!; [done|lia| |].
    + intros Hne <-. done.
    + apply cyc_path_low; lia.
  - split_and!; [done|lia|lia|]. apply IH; lia.
Qed.

Lemma cyc_path_rotation n prev : prev < n → cyc_path n prev prev (rotation n prev).
Proof. intros. apply cyc_path_high; lia. Qed.

Lemma elem_of_rotation n prev i : prev < n → i ∈ rotation n prev ↔ i < n.
Proof. intros. unfold rotation. rewrite elem_of_app, !elem_of_seq. lia. Qed.

Lemma length_rotation n prev : prev < n → length (rotation n prev) = n.
Proof. intros. unfold rotation. rewrite length_app, !length_seq. lia. Qed.

Lemma is_available_lt p i : is_available p i = true → i < length (store p).
Proof.
  unfold is_available. destruct (store p !! i) eqn:E; [|done].
  intros _. by eapply lookup_lt_Some.
Qed.

Lemma in_use_not_available p i : in_use p i → is_available p i = false.
Proof.
  unfold in_use, is_available. destruct (store p !! i); [|done]. simpl. congruence.
Qed.

Lemma block_at_done p i b : store p !! i = Some b → block_at i p = Done (b, p).
Proof. intros E. unfold block_at, mget, mbind, M_bind. by rewrite E. Qed.

(** Where the cursor ends up: at the first available position of [R]. *)
Definition first_available p (R : list nat) : option nat :=
  head (filter (λ i, is_available p i = true) R).

Lemma update_walk p prev R c fuel :
  cyc_path (length (store p)) prev c R → R ≠ [] → length R ≤ fuel →
  iterate fuel (update_step prev) tt (set_next_free c p) =
    match first_available p R with
    | Some j => Done (tt, set_next_free j p)
    | None => Exited "Buffer is full."
    end.
Proof.
  revert c fuel. induction R as [|i R IH]; intros c fuel; [done|].
  simpl. intros (-> & Hc & Hne & HR) _ Hf. destruct fuel as [|fuel]; [lia|].
  destruct (lookup_lt_is_Some_2 (store p) c Hc) as [b Hb].
  unfold first_available. rewrite filter_cons.
  assert (is_available p c = available b) as Hav by (unfold is_available; by rewrite Hb).
  assert (update_step prev tt (set_next_free c p) =
    if available b then Done (inr tt, set_next_free c p)
    else if decide (cyc_succ (length (store p)) c = prev) then Exited "Buffer is full."
    else Done (inl tt, set_next_free (cyc_succ (length (store p)) c) p)) as Hstep.
  { unfold update_step, mbind at 1, M_bind at 1. simpl.
    rewrite (bind_done _ _ _ b (set_next_free c p)) by (by apply block_at_done).
    destruct (available b); [done|].
    unfold mbind, M_bind; simpl. unfold cyc_succ.
    destruct (decide (S c = length (store p)));
      (destruct (decide _); [|done]); (rewrite bool_decide_eq_false_2; [done|naive_solver]). }
  rewrite Hav. destruct (available b).
  - rewrite decide_True by done. by apply iterate_inr.
  - rewrite decide_False by done. destruct R as [|i' R'].
    + apply iterate_exited. rewrite Hstep. by rewrite decide_True.
    + rewrite decide_False in Hstep by (by apply Hne).
      rewrite (iterate_inl _ _ _ _ _ _ Hstep). apply IH; [done..|simpl in *; lia].
Qed.

(** The loop always ends within its fuel: the cursor goes to the first
    available block after it, round the store, and the process exits when there
    is none. *)
Lemma updateNextFree_spec p :
  next_free p < length (store p) →
  updateNextFree p =
    match first_available p (rotation (length (store p)) (next_free p)) with
    | Some j => Done (tt, set_next_free j p)
    | None => Exited "Buffer is full."
    end.
Proof.
  intros Hlt. unfold updateNextFree, mbind, M_bind, mget.
  destruct p as [s nf]; simpl in *.
  apply (update_walk (mkPool s nf) nf).
  - by apply cyc_path_rotation.
  - intros Hr. apply (f_equal length) in Hr. rewrite length_rotation in Hr by done.
    simpl in Hr. lia.
  - rewrite length_rotation by done. lia.
Qed.

Lemma first_available_Some p R j :
  first_available p R = Some j → is_available p j = true ∧ j ∈ R.
Proof.
  intros E. rewrite <- (list_elem_of_filter (λ i, is_available p i = true)).
  unfold first_available in E. destruct (filter _ _); simplify_eq/=. by left.
Qed.

Lemma first_available_None p R i :
  first_available p R = None → i ∈ R → is_available p i = false.
Proof.
  intros E Hi. destruct (is_available p i) eqn:Ha; [|done].
  assert (i ∈ filter (λ i, is_available p i = true) R) as Hin
    by (by apply list_elem_of_filter).
  unfold first_available in E. destruct (filter _ _); [|done]. by apply not_elem_of_nil in Hin.
Qed.

Lemma is_available_lookup p i :
  is_available p i = true ↔ ∃ b, store p !! i = Some b ∧ available b = true.
Proof.
  unfold is_available. destruct (store p !! i) as [b|]; [|by split; [|intros (? & ? & ?)]].
  split; [by exists b|]. by intros (b' & [= <-] & ?).
Qed.

Lemma in_use_lookup p i :
  in_use p i ↔ ∃ b, store p !! i = Some b ∧ available b = false.
Proof.
  unfold in_use. rewrite fmap_Some. split; intros (b & ? & ?); by exists b.
Qed.

Lemma wf_lt p : wf p → next_free p < length (store p).
Proof. apply is_available_lt. Qed.

Lemma avail_pos p : wf p → 0 < avail p.
Proof.
  intros (b & Hb & Hav)%is_available_lookup.
  assert (b ∈ filter (λ b : ObjectBlock T, available b = true) (store p)) as Hin.
  { apply list_elem_of_filter. split; [done|]. by eapply list_elem_of_lookup_2. }
  unfold avail. destruct (filter _ _); [by apply not_elem_of_nil in Hin|simpl; lia].
Qed.

(** Marking the block under the cursor as taken. *)
Definition take_block x p : ObjectPool T :=
  set_store (<[next_free p := mkBlock x false]> (store p)) p.

Lemma is_available_take p x i :
  is_available (take_block x p) i =
  if decide (i = next_free p) then false else is_available p i.
Proof.
  unfold is_available, take_block; simpl. case_decide; subst.
  - destruct (decide (next_free p < length (store p))).
    + by rewrite list_lookup_insert_eq.
    + by rewrite list_insert_ge, lookup_ge_None_2 by lia.
  - by rewrite list_lookup_insert_ne.
Qed.

Lemma avail_take p x : wf p → avail (take_block x p) = avail p - 1.
Proof.
  intros (b & Hb & Hav)%is_available_lookup. unfold avail, take_block; simpl.
  pose proof (length_filter_insert (λ b, available b = true) _ _ _ (mkBlock x false) Hb) as Hl.
  destruct (decide (available (mkBlock x false) = true)); [done|].
  rewrite decide_True in Hl by done. lia.
Qed.

Lemma getObject_run x p :
  wf p →
  getObject x p =
    match first_available (take_block x p) (rotation (length (store p)) (next_free p)) with
    | Some j => Done (next_free p, set_next_free j (take_block x p))
    | None => Exited "Buffer is full."
    end.
Proof.
  intros Hwf. pose proof (wf_lt _ Hwf).
  apply is_available_lookup in Hwf as (b & Hb & Hav).
  unfold getObject. mrun. rewrite (bind_done _ _ _ _ _ (block_at_done _ _ _ Hb)).
  rewrite Hav. mrun. fold (take_block x p).
  pose proof (updateNextFree_spec (take_block x p)) as Hu. simpl in Hu.
  rewrite length_insert in Hu. unfold mbind, M_bind. rewrite Hu by done.
  by destruct (first_available _ _).
Qed.

(** With another block available, [getObject] returns the block under the cursor,
    with the new object in it, and leaves the invariant in place. *)
Lemma getObject_done x p :
  wf p → 2 ≤ avail p →
  ∃ j, getObject x p = Done (next_free p, set_next_free j (take_block x p)) ∧
       wf (set_next_free j (take_block x p)).
Proof.
  intros Hwf Hav. rewrite getObject_run by done.
  destruct (first_available _ _) as [j|] eqn:E.
  - exists j. split; [done|]. by apply first_available_Some in E as [E _].
  - exfalso. pose proof (avail_take p x Hwf) as Ht.
    assert (avail (take_block x p) = 0); [|lia].
    unfold avail. apply length_zero_iff_nil, elem_of_nil_inv. intros b Hb.
    apply list_elem_of_filter in Hb as [Hb (i & Hi)%list_elem_of_lookup].
    assert (is_available (take_block x p) i = true) as Hi'
      by (unfold is_available; by rewrite Hi).
    pose proof (is_available_lt _ _ Hi') as Hlt. simpl in Hlt.
    rewrite length_insert in Hlt.
    rewrite (first_available_None _ _ i E) in Hi'; [done|].
    apply elem_of_rotation; [by apply wf_lt|done].
Qed.

(** The last available block is never handed out: the process exits. *)
Lemma getObject_exhausted x p :
  wf p → avail p = 1 → getObject x p = Exited "Buffer is full.".
Proof.
  intros Hwf Hav. rewrite getObject_run by done.
  destruct (first_available _ _) as [j|] eqn:E; [exfalso|done].
  apply first_available_Some in E as [E _].
  pose proof (avail_pos (set_next_free j (take_block x p)) E) as Hp.
  unfold avail in Hp. simpl in Hp. pose proof (avail_take p x Hwf) as Ht.
  unfold avail at 1 in Ht. simpl in Ht. lia.
Qed.

Lemma releaseObject_done p i b :
  store p !! i = Some b → available b = false →
  releaseObject i p = Done (tt, set_store (<[i := mkBlock (object b) true]> (store p)) p).
Proof.
  intros Hb Hav. unfold releaseObject. mrun.
  rewrite bool_decide_eq_true_2 by (by eapply lookup_lt_Some). mrun.
  rewrite (bind_done _ _ _ _ _ (block_at_done _ _ _ Hb)). by rewrite Hav.
Qed.

Lemma ctor_lookup (d : T) n i :
  store (ctor d n) !! i = if decide (i < n) then Some (mkBlock d true) else None.
Proof.
  unfold ctor; simpl. case_decide; [by apply lookup_replicate_2|].
  apply lookup_ge_None_2. rewrite length_replicate. lia.
Qed.

Lemma pool_wf (d : T) n : 0 < n → wf (ctor d n).
Proof. intros. unfold wf, is_available. rewrite ctor_lookup. simpl. by rewrite decide_True. Qed.

Lemma ctor_avail (d : T) n : avail (ctor d n) = n.
Proof.
  unfold avail, ctor; simpl. induction n as [|n IH]; [done|]. cbn [replicate].
  rewrite filter_cons, decide_True by done. simpl. by rewrite IH.
Qed.

(** ** What each operation does to memory and to the blocks in use *)

Definition flags p : list bool := available <$> store p.

Lemma in_use_flags p i : in_use p i ↔ flags p !! i = Some false.
Proof. unfold in_use, flags. by rewrite list_lookup_fmap. Qed.

Lemma wf_flags p : wf p ↔ flags p !! next_free p = Some true.
Proof.
  unfold wf, is_available, flags. rewrite list_lookup_fmap.
  destruct (store p !! next_free p) as [b|]; simpl; [|done].
  split; [by intros ->|by intros [= ->]].
Qed.

Lemma avail_flags p : avail p = length (filter (λ a, a = true) (flags p)).
Proof.
  unfold avail, flags. induction (store p) as [|b s IH]; [done|].
  rewrite fmap_cons, !filter_cons. repeat case_decide; simpl; congruence.
Qed.

Lemma mstore_flags p i x : flags (mstore p i x) = flags p ∧ next_free (mstore p i x) = next_free p.
Proof.
  simpl. destruct (store p !! i) as [b|] eqn:E; [|done]. split; [|done].
  unfold flags. simpl. rewrite list_fmap_insert. simpl.
  apply list_insert_id. by rewrite list_lookup_fmap, E.
Qed.

Lemma writes_flags X p p' : writes X p p' → flags p' = flags p ∧ next_free p' = next_free p.
Proof.
  induction 1 as [|p' i x _ _ _ [IH1 IH2]]; [done|].
  destruct (mstore_flags p' i x) as [-> ->]. done.
Qed.

Lemma writes_wf X p p' : writes X p p' → wf p' ↔ wf p.
Proof. intros [H1 H2]%writes_flags. by rewrite !wf_flags, H1, H2. Qed.

Lemma writes_in_use X p p' i : writes X p p' → in_use p' i ↔ in_use p i.
Proof. intros [H1 _]%writes_flags. by rewrite !in_use_flags, H1. Qed.

Lemma writes_avail X p p' : writes X p p' → avail p' = avail p.
Proof. intros [H1 _]%writes_flags. by rewrite !avail_flags, H1. Qed.

Lemma next_free_not_in_use p : wf p → ¬ in_use p (next_free p).
Proof. rewrite wf_flags, in_use_flags. congruence. Qed.

Lemma take_block_load p x j i :
  wf p →
  mload (set_next_free j (take_block x p)) i =
    if decide (i = next_free p) then Some x else mload p i.
Proof.
  intros Hwf%wf_lt. simpl. case_decide; subst.
  - by rewrite list_lookup_insert_eq.
  - by rewrite list_lookup_insert_ne.
Qed.

Lemma take_block_in_use p x j i :
  wf p → in_use (set_next_free j (take_block x p)) i ↔ i = next_free p ∨ in_use p i.
Proof.
  intros Hwf%wf_lt. unfold in_use; simpl. destruct (decide (i = next_free p)) as [->|].
  - rewrite list_lookup_insert_eq by done. simpl. split; [by left|done].
  - rewrite list_lookup_insert_ne by done. split; [by right|]. by intros [?|?].
Qed.

Lemma take_block_avail p x j :
  wf p → avail (set_next_free j (take_block x p)) = avail p - 1.
Proof. intros. by apply (avail_take p x). Qed.

Lemma release_facts p i :
  wf p → in_use p i →
  ∃ p', releaseObject i p = Done (tt, p') ∧ wf p' ∧
    (∀ k, mload p' k = mload p k) ∧
    (∀ k, in_use p' k ↔ in_use p k ∧ k ≠ i) ∧ avail p' = S (avail p) ∧
    length (store p') = length (store p).
Proof.
  intros Hwf (b & Hb & Hav)%in_use_lookup. eexists. split; [by apply releaseObject_done|].
  pose proof (lookup_lt_Some _ _ _ Hb) as Hlt. split_and!.
  - unfold wf, is_available in *; simpl.
    destruct (decide (next_free p = i)) as [->|]; [by rewrite list_lookup_insert_eq|].
    by rewrite list_lookup_insert_ne.
  - intros k. simpl. destruct (decide (k = i)) as [->|];
      [by rewrite list_lookup_insert_eq, Hb|by rewrite list_lookup_insert_ne].
  - intros k. unfold in_use; simpl. destruct (decide (k = i)) as [->|].
    + rewrite list_lookup_insert_eq by done. simpl. by split; [|intros [? ?]].
    + rewrite list_lookup_insert_ne by done. by split; [|intros [? ?]].
  - unfold avail; simpl.
    pose proof (length_filter_insert (λ b, available b = true) _ _ _ (mkBlock (object b) true) Hb) as Hl.
    rewrite decide_False in Hl by congruence.
    destruct (decide (available (mkBlock (object b) true) = true)); [lia|done].
  - simpl. by rewrite length_insert.
Qed.

(** ** Many objects *)

Fixpoint getObjects (xs : list T) : M (ObjectPool T) (list nat) :=
  match xs with
  | [] => mret []
  | x :: xs => i ← getObject x; js ← getObjects xs; mret (i :: js)
  end.

Lemma getObject_facts x p :
  wf p → 2 ≤ avail p →
  ∃ i p', getObject x p = Done (i, p') ∧ wf p' ∧ ¬ in_use p i ∧ avail p' = avail p - 1 ∧
    (∀ k, in_use p' k ↔ k = i ∨ in_use p k) ∧
    (∀ k, mload p' k = if decide (k = i) then Some x else mload p k).
Proof.
  intros Hwf Hav. destruct (getObject_done x p Hwf Hav) as (j & E & Hwf').
  eexists _, _. split_and!; [exact E|done|by apply next_free_not_in_use|by apply take_block_avail|..].
  - intros k. by apply take_block_in_use.
  - intros k. by apply take_block_load.
Qed.

Lemma getObjects_facts xs p :
  wf p → length xs < avail p →
  ∃ js p', getObjects xs p = Done (js, p') ∧ wf p' ∧ avail p' + length xs = avail p ∧
    NoDup js ∧ Forall (λ i, ¬ in_use p i) js ∧ Forall2 (λ i x, mload p' i = Some x) js xs ∧
    (∀ k, in_use p k → in_use p' k ∧ mload p' k = mload p k).
Proof.
  revert p. induction xs as [|x xs IH]; intros p Hwf Hav.
  { exists [], p. split_and!; [done|done|simpl; lia|apply NoDup_nil_2|constructor|constructor|done]. }
  simpl in Hav. destruct (getObject_facts x p Hwf) as (i & p1 & E & Hwf1 & Hi & Ha1 & Hu1 & Hl1); [lia|].
  destruct (IH p1 Hwf1) as (js & p2 & E2 & Hwf2 & Ha2 & Hnd & Hnew & Hl2 & Hk2); [lia|].
  assert (in_use p1 i) as Hi1 by (apply Hu1; by left).
  exists (i :: js), p2. split_and!; [|done|simpl; lia| | | |].
  - simpl. rewrite (bind_done _ _ _ _ _ E). by rewrite (bind_done _ _ _ _ _ E2).
  - apply NoDup_cons. split; [|done]. intros Hin. rewrite Forall_forall in Hnew. by apply (Hnew i).
  - constructor; [done|]. eapply Forall_impl; [exact Hnew|]. simpl. intros k Hk Hk'.
    apply Hk, Hu1. by right.
  - constructor; [|done]. destruct (Hk2 i Hi1) as [_ ->]. rewrite Hl1. by rewrite decide_True.
  - intros k Hk. destruct (Hk2 k) as [? E']; [apply Hu1; by right|]. split; [done|].
    rewrite E', Hl1, decide_False; [done|]. by intros ->.
Qed.

Lemma getObjects_exhausted xs p :
  wf p → length xs = avail p → getObjects xs p = Exited "Buffer is full.".
Proof.
  revert p. induction xs as [|x xs IH]; intros p Hwf Hav; simpl in Hav.
  { pose proof (avail_pos p Hwf). lia. }
  simpl. destruct (decide (avail p = 1)).
  - apply bind_exited. by apply getObject_exhausted.
  - destruct (getObject_facts x p Hwf) as (i & p1 & E & Hwf1 & _ & Ha1 & _).
    { pose proof (avail_pos p Hwf). lia. }
    rewrite (bind_done _ _ _ _ _ E). apply bind_exited, IH; [done|lia].
Qed.
End facts.
End ObjectPool.
Export (hints) ObjectPool.
Abbreviation ObjectPool := ObjectPool.ObjectPool.
