(* ===== verification/PriceLevel.v ===== *)
(** include/cppexchange/order.h, class OrdersPriceLevel: the orders of one price
    in an intrusive circular list, linked both ways through the orders
    themselves, whose entry point [top_order] is the oldest order.

    The list operations run on any memory of orders (Memory.v).  [level_rep]
    relates a level to the queue of orders it stands for; [add_spec] and
    [cancel_spec] are the refinement of [add] to appending and of [cancel] to
    taking out the first order with the given id. *)

From S2P Require Import Prelude Types Memory.

Module PriceLevel.

Record St (Mem : Type) := mkSt { mem : Mem; this : OrdersPriceLevel }.
Arguments mkSt {Mem} mem this.
Arguments mem {Mem} s.
Arguments this {Mem} s.

Definition set_mem {Mem} (m : Mem) (s : St Mem) : St Mem := mkSt m (this s).
Definition set_this {Mem} (l : OrdersPriceLevel) (s : St Mem) : St Mem := mkSt (mem s) l.

Section ops.
Context {Mem : Type} `{Memory Mem Order}.

Definition load (p : ptr) : M (St Mem) Order := zoom mem set_mem (deref p).
Definition update (p : ptr) (f : Order → Order) : M (St Mem) unit :=
  zoom mem set_mem (assign p f).
Definition member {A} (f : OrdersPriceLevel → A) : M (St Mem) A := mgets (λ s, f (this s)).
Definition set_member (f : OrdersPriceLevel → OrdersPriceLevel) : M (St Mem) unit :=
  mmodify (λ s, set_this (f (this s)) s).

Definition setPriceLevel (price : PriceT) : M (St Mem) unit :=
  top_order ← member OrdersPriceLevel.top_order;
  ASSERT (bool_decide (top_order = nullptr))
    "Attempting to change the price level for existing orders.";;
  set_member (λ l, OrdersPriceLevel.mk (OrdersPriceLevel.next_price_level l) price
    (OrdersPriceLevel.top_order l) (OrdersPriceLevel.side l)).

Definition add (order : ptr) : M (St Mem) unit :=
  top_order ← member OrdersPriceLevel.top_order;
  if decide (top_order = nullptr) then
    set_member (OrdersPriceLevel.set_top_order order);;
    update order (Order.set_next order);;
    update order (Order.set_previous order);;
    o ← load order;
    set_member (OrdersPriceLevel.set_side (Order.side o))
  else
    update order (Order.set_next top_order);;
    t ← load top_order;
    update order (Order.set_previous (Order.previous t));;
    o ← load order;
    update (Order.previous o) (Order.set_next order);;
    update top_order (Order.set_previous order).

(** The search loop of [cancel], from [order] on. *)
Definition find_step (order_id : OrderIdT) (order : ptr) : M (St Mem) (ptr + ptr) :=
  o ← load order;
  if decide (Order.order_id o = order_id) then mret (inr order)
  else
    top_order ← member OrdersPriceLevel.top_order;
    t ← load top_order;
    if decide (order = Order.previous t) then mret (inr order)
    else mret (inl (Order.next o)).

(** Unlinking [order]; a level that had only this order becomes empty. *)
Definition unlink (order : ptr) : M (St Mem) unit :=
  o ← load order;
  update (Order.previous o) (Order.set_next (Order.next o));;
  o ← load order;
  update (Order.next o) (Order.set_previous (Order.previous o));;
  top_order ← member OrdersPriceLevel.top_order;
  (if decide (top_order = order) then
     t ← load top_order;
     if decide (Order.next t = top_order)
     then set_member (OrdersPriceLevel.set_top_order nullptr)
     else set_member (OrdersPriceLevel.set_top_order (Order.next t))
   else mret tt);;
  update order (Order.set_previous nullptr);;
  update order (Order.set_next nullptr).

Definition cancel (order_id : OrderIdT) : M (St Mem) ptr :=
  s ← mget;
  order ← iterate (S (msize (mem s))) (find_step order_id)
            (OrdersPriceLevel.top_order (this s));
  o ← load order;
  if decide (Order.order_id o = order_id) then
    unlink order;;
    mret order
  else mret nullptr.
End ops.

(** ** The queue a level stands for *)

(** [path R x l]: consecutive elements of [x :: l] are related. *)
Fixpoint path {A} (R : A → A → Prop) (x : A) (l : list A) : Prop :=
  match l with
  | [] => True
  | y :: l => R x y ∧ path R y l
  end.

Section rep.
Context {Mem : Type} `{MemoryLaws Mem Order}.

(** [b] follows [a] in the list. *)
Definition linked (m : Mem) (a b : nat) : Prop :=
  Order.next <$> mload m a = Some (Some b) ∧
  Order.previous <$> mload m b = Some (Some a).

(** The addresses form a ring. *)
Definition ring (m : Mem) (ps : list nat) : Prop :=
  match ps with
  | [] => True
  | p :: ps => path (linked m) p (ps ++ [p])
  end.

(** The order at [p], its links apart, is [o]. *)
Definition holds (m : Mem) (p : nat) (o : Order) : Prop :=
  Order.unlink <$> mload m p = Some o.

(** Level [l] over memory [m] stands for the queue [os], its orders at [ps]. *)
Definition level_rep (m : Mem) (l : OrdersPriceLevel) (ps : list nat) (os : list Order) : Prop :=
  OrdersPriceLevel.top_order l = head ps ∧ NoDup ps ∧ ring m ps ∧ Forall2 (holds m) ps os.

(** Taking the first order with an id out of a queue. *)
Fixpoint remove_first (id : OrderIdT) (os : list Order) : option (Order * list Order) :=
  match os with
  | [] => None
  | o :: os =>
      if decide (Order.order_id o = id) then Some (o, os)
      else '(r, os') ← remove_first id os; Some (r, o :: os')
  end.
End rep.
(** ** Paths and rings *)

Lemma path_app {A} (R : A → A → Prop) x l1 y l2 :
  path R x (l1 ++ y :: l2) ↔ path R x (l1 ++ [y]) ∧ path R y l2.
Proof.
  revert x. induction l1 as [|z l1 IH]; intros x; simpl.
  - split; [intros [? ?]; split_and!; done|by intros [[? _] ?]].
  - rewrite IH. split; [intros (? & ? & ?); split_and!; done|by intros [[? ?] ?]].
Qed.

Lemma path_snoc_impl {A} (R R' : A → A → Prop) x l y :
  (∀ a b, a ∈ x :: l → b ∈ l ++ [y] → R a b → R' a b) →
  path R x (l ++ [y]) → path R' x (l ++ [y]).
Proof.
  revert x. induction l as [|z l IH]; intros x HR; simpl.
  - intros [? _]. split; [|done]. apply HR; set_solver.
  - intros [? ?]. split; [apply HR; set_solver|]. apply IH; [|done].
    intros. apply HR; set_solver.
Qed.

Section rings.
Context {Mem : Type} `{MemoryLaws Mem Order}.
Implicit Types (m : Mem) (ps : list nat).

Definition nx m p : option ptr := Order.next <$> mload m p.
Definition pv m p : option ptr := Order.previous <$> mload m p.

Lemma ring_rotate m l1 l2 : ring m (l1 ++ l2) → ring m (l2 ++ l1).
Proof.
  destruct l1 as [|a l1], l2 as [|b l2]; simpl; rewrite ?app_nil_r; try done.
  rewrite <- !app_assoc. simpl. rewrite (path_app _ a l1 b (l2 ++ [a])), (path_app _ b l2 a (l1 ++ [b])).
  by intros [? ?].
Qed.

Lemma ring_linked m l1 a b l2 : ring m (l1 ++ a :: b :: l2) → linked m a b.
Proof. intros [Hl _]%ring_rotate. done. Qed.

Lemma ring_linked_last m p ps : ring m (p :: ps) → linked m (List.last (p :: ps) p) p.
Proof.
  destruct ps as [|z ps _] using rev_ind; [by intros [? _]|].
  rewrite app_comm_cons, List.last_last. simpl. rewrite <- app_assoc. simpl.
  by intros [_ [? _]]%path_app.
Qed.

(** Linking a new last element [o] behind [z]. *)
Lemma ring_snoc m m' x ps o :
  let z := List.last (x :: ps) x in
  ring m (x :: ps) → NoDup (x :: ps) → o ∉ x :: ps →
  nx m' o = Some (Some x) → nx m' z = Some (Some o) →
  pv m' o = Some (Some z) → pv m' x = Some (Some o) →
  (∀ a, a ≠ o → a ≠ z → nx m' a = nx m a) →
  (∀ b, b ≠ o → b ≠ x → pv m' b = pv m b) →
  ring m' (x :: ps ++ [o]).
Proof.
  intros z Hr Hnd Ho Hno Hnz Hpo Hpx Hn Hp. subst z. simpl. rewrite <- app_assoc.
  destruct ps as [|z ps _] using rev_ind; [done|].
  rewrite app_comm_cons, List.last_last in Hnz, Hpo, Hn.
  simpl in Hr. rewrite <- app_assoc in Hr. apply path_app in Hr as [Hr _].
  rewrite <- app_assoc. apply path_app. split; [|done].
  revert Hr. apply path_snoc_impl. intros a b Ha Hb [? ?].
  rewrite app_comm_cons in Hnd, Ho. apply NoDup_app in Hnd as (Hnd & Hz & _).
  split.
  - change (nx m' a = Some (Some b)). rewrite Hn; [done|set_solver..].
  - change (pv m' b = Some (Some a)). rewrite Hp; [done|set_solver|].
    intros ->. apply NoDup_cons in Hnd as [Hx _]. set_solver.
Qed.

(** Unlinking the element [o] between [List.last] of the others and their first. *)
Lemma ring_uncons m m' o n ps :
  let z := List.last (n :: ps) n in
  ring m (o :: n :: ps) → NoDup (o :: n :: ps) →
  nx m' z = Some (Some n) → pv m' n = Some (Some z) →
  (∀ a, a ≠ o → a ≠ z → nx m' a = nx m a) →
  (∀ b, b ≠ o → b ≠ n → pv m' b = pv m b) →
  ring m' (n :: ps).
Proof.
  intros z Hr Hnd Hnz Hpn Hn Hp. subst z. simpl.
  destruct ps as [|z ps _] using rev_ind; [done|].
  rewrite app_comm_cons, List.last_last in Hnz, Hpn, Hn.
  destruct Hr as [_ Hr]. fold (@app nat) in Hr. rewrite <- app_assoc in Hr.
  apply path_app in Hr as [Hr _].
  rewrite <- app_assoc. apply path_app. split; [|done].
  revert Hr. apply path_snoc_impl. intros a b Ha Hb [? ?].
  apply NoDup_cons in Hnd as [Ho Hnd].
  rewrite app_comm_cons in Hnd, Ho. apply NoDup_app in Hnd as (Hnd & Hz & _).
  split.
  - change (nx m' a = Some (Some b)). rewrite Hn; [done|set_solver..].
  - change (pv m' b = Some (Some a)). rewrite Hp; [done|set_solver|].
    intros ->. apply NoDup_cons in Hnd as [Hx _]. set_solver.
Qed.

(** What a store to one link of the order at [p] changes. *)
Record sets_next m (p : nat) (q : ptr) m' : Prop := {
  sn_nx a : nx m' a = if decide (a = p) then Some q else nx m a;
  sn_pv a : pv m' a = pv m a;
  sn_info a : Order.unlink <$> mload m' a = Order.unlink <$> mload m a;
  sn_writes X : p ∈ X → writes X m m';
}.
Record sets_previous m (p : nat) (q : ptr) m' : Prop := {
  sp_nx a : nx m' a = nx m a;
  sp_pv a : pv m' a = if decide (a = p) then Some q else pv m a;
  sp_info a : Order.unlink <$> mload m' a = Order.unlink <$> mload m a;
  sp_writes X : p ∈ X → writes X m m';
}.

Lemma load_done m l p o : mload m p = Some o → load (Some p) (mkSt m l) = Done (o, mkSt m l).
Proof. intros Hp. unfold load. apply (zoom_done mem set_mem). by apply deref_done. Qed.

Lemma store_done m l p f o :
  mload m p = Some o →
  update (Some p) f (mkSt m l) = Done (tt, mkSt (mstore m p (f o)) l).
Proof.
  intros Hp. unfold update. rewrite (zoom_done mem set_mem _ _ tt (mstore m p (f o)));
    [done|]. by apply assign_done.
Qed.

Lemma update_next m l p q :
  is_Some (mload m p) →
  ∃ m', update (Some p) (Order.set_next q) (mkSt m l) = Done (tt, mkSt m' l) ∧
        sets_next m p q m'.
Proof.
  intros [o Hp]. eexists. split; [by apply store_done|].
  assert (is_Some (mload m p)) by done.
  split; intros; unfold nx, pv; rewrite ?mload_mstore by done;
    [by case_decide|..|by apply writes_one];
    (case_decide; subst; [by rewrite Hp|done]).
Qed.

Lemma update_previous m l p q :
  is_Some (mload m p) →
  ∃ m', update (Some p) (Order.set_previous q) (mkSt m l) = Done (tt, mkSt m' l) ∧
        sets_previous m p q m'.
Proof.
  intros [o Hp]. eexists. split; [by apply store_done|].
  assert (is_Some (mload m p)) by done.
  split; intros; unfold nx, pv; rewrite ?mload_mstore by done;
    [|by case_decide|..|by apply writes_one];
    (case_decide; subst; [by rewrite Hp|done]).
Qed.

Lemma info_is_Some m m' p :
  Order.unlink <$> mload m' p = Order.unlink <$> mload m p →
  is_Some (mload m p) → is_Some (mload m' p).
Proof. intros Hu [o Hp]. rewrite Hp in Hu. destruct (mload m' p); by simplify_eq/=. Qed.

Lemma info_Forall2 m m' ps os :
  (∀ a, a ∈ ps → Order.unlink <$> mload m' a = Order.unlink <$> mload m a) →
  Forall2 (holds m) ps os → Forall2 (holds m') ps os.
Proof.
  intros Hu. rewrite !Forall2_lookup. intros Hf i. specialize (Hf i).
  destruct (ps !! i) as [p|] eqn:E; inversion Hf; constructor.
  unfold holds in *. rewrite Hu; [done|]. by eapply list_elem_of_lookup_2.
Qed.

Lemma holds_load m p o : holds m p o → ∃ o', mload m p = Some o' ∧ o = Order.unlink o'.
Proof. unfold holds. by rewrite fmap_Some. Qed.

Lemma pv_load m p q : pv m p = Some q → ∃ o, mload m p = Some o ∧ q = Order.previous o.
Proof. unfold pv. by rewrite fmap_Some. Qed.

Lemma nx_load m p q : nx m p = Some q → ∃ o, mload m p = Some o ∧ q = Order.next o.
Proof. unfold nx. by rewrite fmap_Some. Qed.
End rings.

(** Running a load or a store whose lemma instance is at hand. *)
Ltac run_by H := rewrite (bind_done _ _ _ _ _ H); mrun.

Section specs.
Context {Mem : Type} `{MemoryLaws Mem Order}.
Implicit Types (m : Mem) (l : OrdersPriceLevel) (ps : list nat) (os : list Order).

Lemma level_rep_valid m l ps os p : level_rep m l ps os → p ∈ ps → is_Some (mload m p).
Proof.
  intros (_ & _ & _ & Hf) (i & Hi)%list_elem_of_lookup.
  destruct (Forall2_lookup_l _ _ _ _ _ Hf Hi) as (o & _ & (o' & ? & _)%holds_load). by exists o'.
Qed.

(** A representation is kept by whatever leaves its orders alone. *)
Lemma level_rep_frame m m' l ps os :
  (∀ p, p ∈ ps → mload m' p = mload m p) → level_rep m l ps os → level_rep m' l ps os.
Proof.
  intros Hm (Ht & Hnd & Hr & Hf). split_and!; [done..| |].
  - destruct ps as [|p ps]; [done|]. simpl in *. revert Hr. apply path_snoc_impl.
    intros a b Ha Hb [? ?]. unfold linked. rewrite !Hm; [done|set_solver..].
  - eapply info_Forall2; [|done]. intros a Ha. by rewrite Hm.
Qed.

Lemma add_empty_spec m l p o :
  OrdersPriceLevel.top_order l = None → mload m p = Some o →
  ∃ m',
    let l' := OrdersPriceLevel.set_side (Order.side o)
                (OrdersPriceLevel.set_top_order (Some p) l) in
    add (Some p) (mkSt m l) = Done (tt, mkSt m' l') ∧
    level_rep m' l' [p] [Order.unlink o] ∧ writes [p] m m'.
Proof.
  intros Ht Hp.
  destruct (update_next m (OrdersPriceLevel.set_top_order (Some p) l) p (Some p))
    as (m1 & E1 & [Hn1 Hp1 Hi1 Hw1]); [done|].
  destruct (update_previous m1 (OrdersPriceLevel.set_top_order (Some p) l) p (Some p))
    as (m2 & E2 & [Hn2 Hp2 Hi2 Hw2]); [by apply (info_is_Some m)|].
  assert (Order.unlink <$> mload m2 p = Some (Order.unlink o)) as Hu
    by (rewrite Hi2, Hi1, Hp; done).
  destruct (holds_load _ _ _ Hu) as (o2 & E3 & Ho2).
  exists m2. split_and!.
  - unfold add, member, set_member. mrun. rewrite Ht. simpl. mrun.
    run_by E1. run_by E2. run_by (load_done _ (OrdersPriceLevel.set_top_order (Some p) l) _ _ E3).
    unfold mmodify, set_this; simpl. do 3 f_equal. by destruct o, o2; simplify_eq/=.
  - split_and!; [done|by apply NoDup_singleton| |by apply Forall2_cons].
    simpl. unfold linked. split_and!; [..|done].
    + change (nx m2 p = Some (Some p)). by rewrite Hn2, Hn1, decide_True.
    + change (pv m2 p = Some (Some p)). by rewrite Hp2, decide_True.
  - eapply writes_trans; [apply Hw1|apply Hw2]; set_solver.
Qed.

Lemma ring_pv_head m p ps : ring m (p :: ps) → pv m p = Some (Some (List.last (p :: ps) p)).
Proof. by intros [_ ?]%ring_linked_last. Qed.

Lemma ring_nx_last m p ps : ring m (p :: ps) → nx m (List.last (p :: ps) p) = Some (Some p).
Proof. by intros [? _]%ring_linked_last. Qed.

Lemma last_elem_of (p d : nat) ps : List.last (p :: ps) d ∈ p :: ps.
Proof.
  destruct ps as [|z ps _] using rev_ind; [by left|].
  rewrite app_comm_cons, List.last_last. set_solver.
Qed.

Lemma add_nonempty_spec m l x ps os p o :
  level_rep m l (x :: ps) os → mload m p = Some o → p ∉ x :: ps →
  ∃ m',
    add (Some p) (mkSt m l) = Done (tt, mkSt m' l) ∧
    level_rep m' l (x :: ps ++ [p]) (os ++ [Order.unlink o]) ∧
    writes (p :: x :: ps) m m'.
Proof.
  intros Hrep Hp Hni. pose proof Hrep as (Ht & Hnd & Hr & Hf). simpl in Ht.
  set (z := List.last (x :: ps) x).
  assert (z ∈ x :: ps) as Hz by apply last_elem_of.
  assert (p ≠ x ∧ p ≠ z) as [Hpx Hpz] by (split; intros ->; set_solver).
  pose proof (ring_pv_head _ _ _ Hr) as Hpv. fold z in Hpv.
  assert (∀ q, q ∈ x :: ps → is_Some (mload m q)) as Hv by (intros; by eapply level_rep_valid).
  destruct (update_next m l p (Some x)) as (m1 & E1 & [Hn1 Hp1 Hi1 Hw1]); [done|].
  destruct (pv_load m1 x (Some z)) as (t & Et & Hpt); [by rewrite Hp1|].
  destruct (update_previous m1 l p (Some z)) as (m2 & E2 & [Hn2 Hp2 Hi2 Hw2]);
    [by apply (info_is_Some m)|].
  destruct (pv_load m2 p (Some z)) as (o2 & Eo2 & Hpo2); [by rewrite Hp2, decide_True|].
  destruct (update_next m2 l z (Some p)) as (m3 & E3 & [Hn3 Hp3 Hi3 Hw3]).
  { apply (info_is_Some m); [by rewrite Hi2, Hi1|]. by apply Hv. }
  destruct (update_previous m3 l x (Some p)) as (m4 & E4 & [Hn4 Hp4 Hi4 Hw4]).
  { apply (info_is_Some m); [by rewrite Hi3, Hi2, Hi1|]. apply Hv. by left. }
  exists m4. split_and!.
  - unfold add, member. mrun. rewrite Ht. simpl. run_by E1.
    run_by (load_done _ l _ _ Et). rewrite <- Hpt. run_by E2.
    run_by (load_done _ l _ _ Eo2). rewrite <- Hpo2. run_by E3. done.
  - split_and!.
    + done.
    + rewrite app_comm_cons. apply NoDup_app. split_and!; [done|set_solver|apply NoDup_singleton].
    + apply (ring_snoc m); try done; fold z.
      * by rewrite Hn4, Hn3, decide_False, Hn2, Hn1, decide_True.
      * by rewrite Hn4, Hn3, decide_True.
      * by rewrite Hp4, decide_False, Hp3, Hp2, decide_True.
      * by rewrite Hp4, decide_True.
      * intros a ??. by rewrite Hn4, Hn3, decide_False, Hn2, Hn1, decide_False.
      * intros a ??. by rewrite Hp4, decide_False, Hp3, Hp2, decide_False, Hp1.
    + rewrite app_comm_cons. apply Forall2_app.
      * revert Hf. apply info_Forall2. intros. by rewrite Hi4, Hi3, Hi2, Hi1.
      * constructor; [|constructor]. unfold holds. by rewrite Hi4, Hi3, Hi2, Hi1, Hp.
  - eapply writes_trans; [apply Hw1; by left|]. eapply writes_trans; [apply Hw2; by left|].
    eapply writes_trans; [apply Hw3; set_solver|]. apply Hw4. set_solver.
Qed.

(** [add] appends the order to the queue of the level. *)
Lemma add_spec m l ps os p o :
  level_rep m l ps os → mload m p = Some o → p ∉ ps →
  ∃ m' l',
    add (Some p) (mkSt m l) = Done (tt, mkSt m' l') ∧
    level_rep m' l' (ps ++ [p]) (os ++ [Order.unlink o]) ∧
    writes (p :: ps) m m' ∧
    OrdersPriceLevel.next_price_level l' = OrdersPriceLevel.next_price_level l ∧
    OrdersPriceLevel.price_level l' = OrdersPriceLevel.price_level l ∧
    OrdersPriceLevel.side l' =
      match ps with [] => Order.side o | _ => OrdersPriceLevel.side l end.
Proof.
  intros Hrep Hp Hni. pose proof Hrep as (Ht & _ & _ & Hf). destruct ps as [|x ps].
  - apply Forall2_nil_inv_l in Hf as ->.
    destruct (add_empty_spec m l p o) as (m' & E & Hrep' & Hw); [done..|].
    by exists m', (OrdersPriceLevel.set_side (Order.side o)
      (OrdersPriceLevel.set_top_order (Some p) l)).
  - destruct (add_nonempty_spec m l x ps os p o) as (m' & E & Hrep' & Hw); [done..|].
    by exists m', l.
Qed.

(** *** The search of [cancel] *)

Lemma ring_nx m ps1 p q ps2 : ring m (ps1 ++ p :: q :: ps2) → nx m p = Some (Some q).
Proof. by intros [? _]%ring_linked. Qed.

Lemma last_app_cons (d : nat) ps1 p ps2 : List.last (ps1 ++ p :: ps2) d = List.last (p :: ps2) d.
Proof.
  destruct ps2 as [|z ps2 _] using rev_ind; [by rewrite !List.last_last|].
  by rewrite !app_comm_cons, app_assoc, !List.last_last.
Qed.

Lemma last_default (d d' : nat) p ps : List.last (p :: ps) d = List.last (p :: ps) d'.
Proof.
  destruct ps as [|z ps _] using rev_ind; [done|]. by rewrite app_comm_cons, !List.last_last.
Qed.

Lemma find_step_eval m l id ps1 p ps2 os1 o os2 :
  level_rep m l (ps1 ++ p :: ps2) (os1 ++ o :: os2) → length ps1 = length os1 →
  find_step id (Some p) (mkSt m l) =
    Done ((if decide (Order.order_id o = id) then inr (Some p)
           else match ps2 with [] => inr (Some p) | q :: _ => inl (Some q) end), mkSt m l).
Proof.
  intros (Ht & Hnd & Hr & Hf) Hlen.
  apply Forall2_app_inv in Hf as [_ Hf]; [|done].
  apply Forall2_cons in Hf as [(o' & Hp & ->)%holds_load _].
  unfold find_step. run_by (load_done _ l _ _ Hp). case_decide; [done|].
  unfold member. mrun. rewrite Ht.
  destruct (ps1 ++ p :: ps2) as [|x ps] eqn:E; [by destruct ps1|]. simpl.
  pose proof (ring_pv_head _ _ _ Hr) as (t & Etop & Hpt)%pv_load.
  rewrite <- E, last_app_cons in Hpt.
  run_by (load_done _ l _ _ Etop). rewrite <- Hpt.
  destruct ps2 as [|q ps2]; simpl; [by rewrite decide_True|].
  rewrite decide_False.
  - rewrite <- E in Hr. apply ring_nx, nx_load in Hr as (o2 & Ho2 & ->).
    by rewrite Hp in Ho2; simplify_eq.
  - rewrite <- E in Hnd. apply NoDup_app in Hnd as (_ & _ & [Hni _]%NoDup_cons).
    intros [= Hq]. apply Hni. rewrite Hq. apply last_elem_of.
Qed.

(** The search, started at an order of the queue, stops at the first order from
    there with the id, or else at the last order; it needs one turn per order. *)
Lemma find_walk m l id ps1 p ps2 os1 o os2 fuel :
  level_rep m l (ps1 ++ p :: ps2) (os1 ++ o :: os2) →
  length ps1 = length os1 → length ps2 < fuel →
  ∃ ps3 q ps4 os3 r os4,
    p :: ps2 = ps3 ++ q :: ps4 ∧ o :: os2 = os3 ++ r :: os4 ∧ length ps3 = length os3 ∧
    Forall (λ o, Order.order_id o ≠ id) os3 ∧ (Order.order_id r = id ∨ os4 = []) ∧
    iterate fuel (find_step id) (Some p) (mkSt m l) = Done (Some q, mkSt m l).
Proof.
  revert ps1 p os1 o os2 fuel. induction ps2 as [|p2 ps2 IH];
    intros ps1 p os1 o os2 fuel Hrep Hlen Hfuel; (destruct fuel as [|fuel]; simpl in *; [lia|]);
    pose proof (find_step_eval _ _ id _ _ _ _ _ _ Hrep Hlen) as Hstep;
    pose proof Hrep as (_ & _ & _ & Hf); apply Forall2_app_inv in Hf as [_ Hf]; try done;
    apply Forall2_cons in Hf as [_ Hf].
  - apply Forall2_nil_inv_l in Hf as ->.
    exists [], p, [], [], o, []. split_and!; try done; [by right|].
    apply iterate_inr. rewrite Hstep. by case_decide.
  - apply Forall2_cons_inv_l in Hf as (o2 & os2' & _ & _ & ->).
    case_decide as Hid.
    + exists [], p, (p2 :: ps2), [], o, (o2 :: os2'). split_and!; try done; [by left|].
      by apply iterate_inr.
    + destruct (IH (ps1 ++ [p]) p2 (os1 ++ [o]) o2 os2' fuel)
        as (ps3 & q & ps4 & os3 & r & os4 & Hps & Hos & Hl & Hne & Hr & Hit).
      * by rewrite <- !app_assoc.
      * by rewrite !length_app, Hlen.
      * lia.
      * exists (p :: ps3), q, ps4, (o :: os3), r, os4.
        rewrite Hps, Hos. split_and!; try done; [by simpl; f_equal|by constructor|].
        by rewrite (iterate_inl _ _ _ _ _ _ Hstep).
Qed.

Lemma remove_first_found id os1 o os2 :
  Forall (λ o, Order.order_id o ≠ id) os1 → Order.order_id o = id →
  remove_first id (os1 ++ o :: os2) = Some (o, os1 ++ os2).
Proof.
  intros Hne Hid. induction Hne as [|x os1 Hx _ IH]; simpl.
  - by rewrite decide_True.
  - rewrite decide_False by done. by rewrite IH.
Qed.

Lemma remove_first_absent id os :
  Forall (λ o, Order.order_id o ≠ id) os → remove_first id os = None.
Proof.
  intros Hne. induction Hne as [|x os1 Hx _ IH]; simpl; [done|].
  rewrite decide_False by done. by rewrite IH.
Qed.

(** *** Unlinking *)

Lemma links_load m p a b :
  nx m p = Some a → pv m p = Some b →
  ∃ o, mload m p = Some o ∧ Order.next o = a ∧ Order.previous o = b.
Proof.
  intros (o & Ho & ->)%nx_load (o' & Ho' & ->)%pv_load.
  exists o. by rewrite Ho in Ho'; simplify_eq.
Qed.

Lemma unlinked_load m q r :
  Order.unlink <$> mload m q = Some r → nx m q = Some None → pv m q = Some None →
  mload m q = Some r.
Proof.
  intros Hu Hn Hp. destruct (links_load _ _ _ _ Hn Hp) as (o & Ho & Hno & Hpo).
  rewrite Ho in *. simpl in *. rewrite <- Hu. f_equal. destruct o; by simplify_eq/=.
Qed.

(** The two stores that clear the links of the order taken out. *)
Lemma clear_links m l q :
  is_Some (mload m q) →
  ∃ m',
    (update (Some q) (Order.set_previous nullptr);;
     update (Some q) (Order.set_next nullptr)) (mkSt m l) = Done (tt, mkSt m' l) ∧
    (∀ a, nx m' a = if decide (a = q) then Some None else nx m a) ∧
    (∀ a, pv m' a = if decide (a = q) then Some None else pv m a) ∧
    (∀ a, Order.unlink <$> mload m' a = Order.unlink <$> mload m a) ∧
    (∀ X, q ∈ X → writes X m m').
Proof.
  intros Hq.
  destruct (update_previous m l q None) as (m1 & E1 & [Hn1 Hp1 Hi1 Hw1]); [done|].
  destruct (update_next m1 l q None) as (m2 & E2 & [Hn2 Hp2 Hi2 Hw2]);
    [by apply (info_is_Some m)|].
  exists m2. split_and!; intros.
  - by run_by E1.
  - by rewrite Hn2, Hn1.
  - by rewrite Hp2, Hp1.
  - by rewrite Hi2.
  - eapply writes_trans; eauto.
Qed.

Lemma unlink_only m l q r :
  level_rep m l [q] [r] →
  ∃ m',
    unlink (Some q) (mkSt m l) = Done (tt, mkSt m' (OrdersPriceLevel.set_top_order None l)) ∧
    mload m' q = Some r ∧ writes [q] m m'.
Proof.
  intros (Ht & _ & Hr & Hf). simpl in Ht.
  apply Forall2_cons in Hf as [Hh _].
  pose proof (ring_pv_head _ _ _ Hr) as Hpv. pose proof (ring_nx_last _ _ _ Hr) as Hnx.
  simpl in Hpv, Hnx. assert (is_Some (mload m q)) as Hq by (by eapply nx_load in Hnx as (? & ? & _)).
  destruct (links_load _ _ _ _ Hnx Hpv) as (o & Ho & Hno & Hpo).
  destruct (update_next m l q (Some q)) as (m1 & E1 & [Hn1 Hp1 Hi1 Hw1]); [done|].
  destruct (links_load m1 q (Some q) (Some q)) as (o1 & Ho1 & Hno1 & Hpo1);
    [by rewrite Hn1, decide_True|by rewrite Hp1|].
  destruct (update_previous m1 l q (Some q)) as (m2 & E2 & [Hn2 Hp2 Hi2 Hw2]); [done|].
  destruct (links_load m2 q (Some q) (Some q)) as (o2 & Ho2 & Hno2 & Hpo2);
    [by rewrite Hn2, Hn1, decide_True|by rewrite Hp2, decide_True|].
  destruct (clear_links m2 (OrdersPriceLevel.set_top_order None l) q)
    as (m3 & E3 & Hn3 & Hp3 & Hi3 & Hw3); [done|].
  exists m3. split_and!.
  - unfold unlink, member. run_by (load_done _ l _ _ Ho). rewrite Hno, Hpo. run_by E1.
    run_by (load_done _ l _ _ Ho1). rewrite Hno1, Hpo1. run_by E2.
    rewrite Ht, decide_True by done. mrun. run_by (load_done _ l _ _ Ho2).
    rewrite Hno2, decide_True by done. exact E3.
  - apply unlinked_load; [|by rewrite Hn3, decide_True|by rewrite Hp3, decide_True].
    by rewrite Hi3, Hi2, Hi1.
  - eapply writes_trans; [apply Hw1; by left|].
    eapply writes_trans; [apply Hw2; by left|]. apply Hw3. by left.
Qed.

(** The order at [q] and its neighbours [n] and [z] in a ring of several orders. *)
Lemma ring_around m l q r ps1 ps2 os1 os2 n rest :
  let z := List.last (n :: rest) n in
  level_rep m l (ps1 ++ q :: ps2) (os1 ++ r :: os2) → length ps1 = length os1 →
  ps2 ++ ps1 = n :: rest →
  (ring m (q :: n :: rest) ∧ q :: n :: rest ≡ₚ ps1 ++ q :: ps2 ∧ NoDup (q :: n :: rest)) ∧
  (z ∈ n :: rest ∧ q ≠ n ∧ q ≠ z) ∧
  (nx m q = Some (Some n) ∧ pv m q = Some (Some z)) ∧
  (∀ a, a ∈ q :: n :: rest → is_Some (mload m a)) ∧ Order.unlink <$> mload m q = Some r.
Proof.
  intros z Hrep Hlen Hrest. pose proof Hrep as (Ht & Hnd & Hr & Hf).
  apply ring_rotate in Hr. rewrite <- app_comm_cons, Hrest in Hr.
  assert (q :: n :: rest ≡ₚ ps1 ++ q :: ps2) as Hperm
    by (rewrite <- Hrest; solve_Permutation).
  rewrite <- Hperm in Hnd.
  assert (z ∈ n :: rest) as Hz by apply last_elem_of.
  pose proof (ring_pv_head _ _ _ Hr) as Hpv.
  rewrite (last_app_cons q [q] n rest : List.last (q :: n :: rest) q = _),
    (last_default q n) in Hpv.
  apply Forall2_app_inv in Hf as [_ Hf]; [|done]. apply Forall2_cons in Hf as [Hh _].
  split_and!; try done.
  - intros ->. apply NoDup_cons in Hnd as [? _]. set_solver.
  - intros ->. apply NoDup_cons in Hnd as [? _]. done.
  - exact (ring_nx m [] q n rest Hr).
  - intros a Ha. eapply level_rep_valid; [done|]. by rewrite <- Hperm.
Qed.

Lemma unlink_more m l q r ps1 ps2 os1 os2 n rest :
  level_rep m l (ps1 ++ q :: ps2) (os1 ++ r :: os2) → length ps1 = length os1 →
  ps2 ++ ps1 = n :: rest →
  ∃ m',
    unlink (Some q) (mkSt m l) =
      Done (tt, mkSt m' (OrdersPriceLevel.set_top_order (head (ps1 ++ ps2)) l)) ∧
    mload m' q = Some r ∧ writes (ps1 ++ q :: ps2) m m' ∧
    ring m' (n :: rest) ∧
    (∀ a, Order.unlink <$> mload m' a = Order.unlink <$> mload m a).
Proof.
  intros Hrep Hlen Hrest. pose proof Hrep as (Ht & _).
  destruct (ring_around m l q r ps1 ps2 os1 os2 n rest Hrep Hlen Hrest)
    as ((Hr & Hperm & Hnd) & (Hz & Hqn & Hqz) & (Hnx & Hpv) & Hv & Hh).
  set (z := List.last (n :: rest) n) in *.
  destruct (links_load _ _ _ _ Hnx Hpv) as (o & Ho & Hno & Hpo).
  destruct (update_next m l z (Some n)) as (m1 & E1 & [Hn1 Hp1 Hi1 Hw1]);
    [apply Hv; by right|].
  destruct (links_load m1 q (Some n) (Some z)) as (o1 & Ho1 & Hno1 & Hpo1);
    [by rewrite Hn1, decide_False|by rewrite Hp1|].
  destruct (update_previous m1 l n (Some z)) as (m2 & E2 & [Hn2 Hp2 Hi2 Hw2]).
  { apply (info_is_Some m); [done|]. apply Hv. set_solver. }
  destruct (links_load m2 q (Some n) (Some z)) as (o2 & Ho2 & Hno2 & Hpo2);
    [by rewrite Hn2, Hn1, decide_False|by rewrite Hp2, decide_False, Hp1|].
  set (l' := OrdersPriceLevel.set_top_order (head (ps1 ++ ps2)) l).
  destruct (clear_links m2 l' q) as (m3 & E3 & Hn3 & Hp3 & Hi3 & Hw3); [done|].
  exists m3. split_and!.
  - unfold unlink, member. run_by (load_done _ l _ _ Ho). rewrite Hno, Hpo. run_by E1.
    run_by (load_done _ l _ _ Ho1). rewrite Hno1, Hpo1. run_by E2.
    rewrite Ht. destruct ps1 as [|x ps1]; simpl.
    + rewrite decide_True by done. mrun. run_by (load_done _ l _ _ Ho2).
      rewrite app_nil_r in Hrest. subst ps2.
      rewrite Hno2, decide_False by congruence. exact E3.
    + assert (q ≠ x) as Hqx.
      { intros ->. apply NoDup_cons in Hnd as [Hni _]. apply Hni.
        rewrite <- Hrest. apply elem_of_app. right. by left. }
      rewrite decide_False by congruence. mrun.
      unfold l' in E3. simpl in Ht, E3. replace l with (OrdersPriceLevel.set_top_order (Some x) l);
        [exact E3|]. destruct l; by simplify_eq/=.
  - apply unlinked_load; [|by rewrite Hn3, decide_True|by rewrite Hp3, decide_True].
    by rewrite Hi3, Hi2, Hi1.
  - eapply writes_trans; [apply Hw1|eapply writes_trans; [apply Hw2|apply Hw3]];
      rewrite <- Hperm; set_solver.
  - apply (ring_uncons m m3 q); try done; fold z.
    + by rewrite Hn3, decide_False, Hn2, Hn1, decide_True.
    + by rewrite Hp3, decide_False, Hp2, decide_True.
    + intros a ??. by rewrite Hn3, decide_False, Hn2, Hn1, decide_False.
    + intros a ??. by rewrite Hp3, decide_False, Hp2, decide_False, Hp1.
  - intros a. by rewrite Hi3, Hi2, Hi1.
Qed.

(** Taking the order at [q] out of the queue, wherever it stands. *)
Lemma unlink_spec m l q r ps1 ps2 os1 os2 :
  level_rep m l (ps1 ++ q :: ps2) (os1 ++ r :: os2) → length ps1 = length os1 →
  ∃ m',
    let l' := OrdersPriceLevel.set_top_order (head (ps1 ++ ps2)) l in
    unlink (Some q) (mkSt m l) = Done (tt, mkSt m' l') ∧
    mload m' q = Some r ∧ writes (ps1 ++ q :: ps2) m m' ∧
    level_rep m' l' (ps1 ++ ps2) (os1 ++ os2).
Proof.
  intros Hrep Hlen. pose proof Hrep as (Ht & Hnd & Hr & Hf).
  destruct (ps2 ++ ps1) as [|n rest] eqn:Hrest.
  - apply app_nil in Hrest as [-> ->]. destruct os1; [|done].
    apply Forall2_cons in Hf as [_ ->%Forall2_nil_inv_l].
    destruct (unlink_only m l q r Hrep) as (m' & E & Hq & Hw).
    exists m'. split_and!; try done. split_and!; try done. constructor.
  - destruct (unlink_more _ _ _ _ _ _ _ _ _ _ Hrep Hlen Hrest) as (m' & E & Hq & Hw & Hring & Hi).
    exists m'. split_and!; try done. split_and!; [done|..].
    + apply NoDup_app in Hnd as (? & Hd & [? ?]%NoDup_cons).
      apply NoDup_app. split_and!; [done| |done]. intros x Hx ?. apply (Hd x Hx). by right.
    + rewrite <- Hrest in Hring. by apply ring_rotate.
    + apply Forall2_app_inv in Hf as [Hf1 Hf2]; [|done]. apply Forall2_cons in Hf2 as [_ Hf2].
      apply Forall2_app; eapply info_Forall2; [|done| |done]; done.
Qed.

(** [cancel] takes the first order with the id out of the queue, and returns it
    with its links cleared; without such an order it changes nothing.  The search
    needs no more turns than the memory has objects. *)
Lemma cancel_spec m l ps os id :
  level_rep m l ps os → ps ≠ [] →
  match remove_first id os with
  | Some (r, os') =>
      ∃ ps1 q ps2 os1 os2 m',
        let l' := OrdersPriceLevel.set_top_order (head (ps1 ++ ps2)) l in
        cancel id (mkSt m l) = Done (Some q, mkSt m' l') ∧
        ps = ps1 ++ q :: ps2 ∧ os = os1 ++ r :: os2 ∧ os' = os1 ++ os2 ∧
        length ps1 = length os1 ∧ Forall (λ o, Order.order_id o ≠ id) os1 ∧
        mload m' q = Some r ∧ writes ps m m' ∧ level_rep m' l' (ps1 ++ ps2) os'
  | None => cancel id (mkSt m l) = Done (None, mkSt m l)
  end.
Proof.
  intros Hrep Hne. pose proof Hrep as (Ht & Hnd & _ & Hf).
  destruct ps as [|x ps]; [done|].
  apply Forall2_cons_inv_l in Hf as (o & os0 & _ & _ & ->).
  assert (length (x :: ps) ≤ msize m) as Hsize.
  { apply valid_length; [done|]. intros. by eapply level_rep_valid. }
  destruct (find_walk m l id [] x ps [] o os0 (S (msize m)))
    as (ps3 & q & ps4 & os3 & r & os4 & Hps & Hos & Hlen & Hno & Hr & Hit);
    [done|done|simpl in *; lia|].
  assert (OrdersPriceLevel.top_order l = Some x) as Htx by done.
  rewrite Hps in *. rewrite Hos in *.
  assert (holds m q r) as (o' & Hq & Hr')%holds_load.
  { destruct Hrep as (_ & _ & _ & Hf). apply Forall2_app_inv in Hf as [_ Hf]; [|done].
    by apply Forall2_cons in Hf as [? _]. }
  assert (Order.order_id o' = Order.order_id r) as Hid by (by subst r; destruct o').
  assert (cancel id (mkSt m l) = (if decide (Order.order_id r = id)
    then unlink (Some q);; mret (Some q) else mret None) (mkSt m l)) as Hrun.
  { unfold cancel. mrun. rewrite Htx. run_by Hit. run_by (load_done _ l _ _ Hq).
    rewrite Hid. done. }
  rewrite Hrun. case_decide as Hri.
  - rewrite remove_first_found by done.
    destruct (unlink_spec _ _ _ _ _ _ _ _ Hrep Hlen) as (m' & E & Hqr & Hw & Hrep').
    exists ps3, q, ps4, os3, os4, m'. split_and!; try done. by run_by E.
  - destruct Hr as [|Hr]; [done|]. subst os4.
    rewrite remove_first_absent; [done|]. apply Forall_app. by split; [|constructor].
Qed.

(** [cancel] of the oldest order. *)
Lemma cancel_top_spec m l q ps o os :
  level_rep m l (q :: ps) (o :: os) →
  ∃ m',
    let l' := OrdersPriceLevel.set_top_order (head ps) l in
    cancel (Order.order_id o) (mkSt m l) = Done (Some q, mkSt m' l') ∧
    mload m' q = Some o ∧ writes (q :: ps) m m' ∧ level_rep m' l' ps os.
Proof.
  intros Hrep. pose proof (cancel_spec m l _ _ (Order.order_id o) Hrep ltac:(done)) as Hc.
  simpl in Hc. rewrite decide_True in Hc by done.
  destruct Hc as (ps1 & q' & ps2 & os1 & os2 & m' & E & Hps & Hos & Hos' & Hl & Hne & Hq & Hw & Hr).
  destruct os1 as [|o1 os1].
  - destruct ps1; [|done]. simplify_eq/=. by exists m'.
  - apply Forall_cons in Hne as [Hne _]. by simplify_eq/=.
Qed.

(** Storing a quantity to the oldest order. *)
Lemma level_rep_quantity m l q ps o os n o1 :
  level_rep m l (q :: ps) (o :: os) → mload m q = Some o1 →
  level_rep (mstore m q (Order.set_quantity n o1)) l (q :: ps) (Order.set_quantity n o :: os).
Proof.
  intros (Ht & Hnd & Hr & Hf) Hq. assert (is_Some (mload m q)) as Hs by done.
  apply Forall2_cons in Hf as [Hh Hf]. split_and!; [done..| |].
  - revert Hr. simpl. apply path_snoc_impl. intros a b _ _ [Hn Hp]. unfold linked.
    rewrite !mload_mstore by done. split; case_decide; subst; try done; by rewrite Hq in *.
  - apply Forall2_cons. split.
    + unfold holds in *. rewrite mload_mstore_eq by done. rewrite Hq in Hh.
      by destruct o1; simplify_eq/=.
    + revert Hf. apply info_Forall2. intros a Ha. rewrite mload_mstore_ne; [done|].
      intros <-. by apply NoDup_cons in Hnd as [? _].
Qed.
End specs.
End PriceLevel.
