(* ===== verification/LFQueue.v ===== *)
(** include/communication/lf_queue.h: the ring buffer between the threads of the
    exchange.  The queue is a vector with a write and a read cursor; it is empty
    when they are equal, [push] never looks at the read cursor, and [pop] returns
    a pointer to the slot.

    [contents] is the sequence of items the queue stands for.  Below its capacity
    (its size less one) it is a FIFO queue ([push_contents], [pop_contents]); the
    push that fills the last slot makes it empty ([push_full]). *)

From S2P Require Import Prelude Types.

Module LFQueue.

Record LFQueue (T : Type) := mkQueue {
  data_ : list T;
  next_write_index_ : nat;
  next_read_index_ : nat;
}.
Arguments mkQueue {T} data_ next_write_index_ next_read_index_.
Arguments data_ {T} l.
Arguments next_write_index_ {T} l.
Arguments next_read_index_ {T} l.

Section ops.
Context {T : Type}.
Implicit Types (q : LFQueue T).

(** [LFQueue(n) : data_(n, T())]. *)
Definition ctor (default : T) (n : nat) : LFQueue T := mkQueue (replicate n default) 0 0.

Definition set_data (d : list T) q : LFQueue T :=
  mkQueue d (next_write_index_ q) (next_read_index_ q).
Definition set_write (w : nat) q : LFQueue T := mkQueue (data_ q) w (next_read_index_ q).
Definition set_read (r : nat) q : LFQueue T := mkQueue (data_ q) (next_write_index_ q) r.

Definition empty : M (LFQueue T) bool :=
  mgets (λ q, bool_decide (next_read_index_ q = next_write_index_ q)).

(** [(i + 1) % data_.size()]. *)
Definition next_index (i : nat) : M (LFQueue T) nat :=
  q ← mget;
  if decide (length (data_ q) = 0) then mub ModByZero
  else mret (S i `mod` length (data_ q)).

Definition push (item : T) : M (LFQueue T) unit :=
  q ← mget;
  (if decide (next_write_index_ q < length (data_ q))
   then mmodify (set_data (<[next_write_index_ q := item]> (data_ q)))
   else mub IndexOutOfRange);;
  w ← next_index (next_write_index_ q);
  mmodify (set_write w).

Definition pop : M (LFQueue T) ptr :=
  e ← empty;
  q ← mget;
  (if negb e then
     if decide (next_read_index_ q < length (data_ q)) then mret tt else mub IndexOutOfRange
   else mret tt);;
  let item := if negb e then Some (next_read_index_ q) else nullptr in
  if decide (item ≠ nullptr) then
    r ← next_index (next_read_index_ q);
    mmodify (set_read r);;
    mret item
  else mret item.

(** Reading through a pointer that [pop] returned. *)
Definition item_at (p : ptr) : M (LFQueue T) T :=
  match p with
  | None => mub NullDeref
  | Some i =>
      q ← mget;
      match data_ q !! i with
      | Some x => mret x
      | None => mub IndexOutOfRange
      end
  end.
End ops.

(** ** The queue of items *)

Section spec.
Context {T : Type}.
Implicit Types (q : LFQueue T) (x : T).

Definition wf q : Prop :=
  next_write_index_ q < length (data_ q) ∧ next_read_index_ q < length (data_ q).

Definition contents q : list T :=
  rotate_take (next_read_index_ q) (next_write_index_ q) (data_ q).

Definition capacity q : nat := length (data_ q) - 1.

(** [push] as a function on queues. *)
Definition pushed x q : LFQueue T :=
  mkQueue (<[next_write_index_ q := x]> (data_ q))
    (S (next_write_index_ q) `mod` length (data_ q)) (next_read_index_ q).

Lemma push_run x q : wf q → push x q = Done (tt, pushed x q).
Proof.
  intros [Hw Hr]. unfold push. mrun. rewrite decide_True by done. mrun.
  unfold next_index. mrun. rewrite length_insert.
  rewrite decide_False by lia. by mrun.
Qed.

Lemma pushed_wf x q : wf q → wf (pushed x q).
Proof.
  intros [Hw Hr]. split; simpl; rewrite length_insert; [|done].
  apply Nat.mod_upper_bound. lia.
Qed.

Lemma pushed_capacity x q : capacity (pushed x q) = capacity q.
Proof. unfold capacity. simpl. by rewrite length_insert. Qed.

Lemma succ_mod n i : i < n → S i `mod` n = if decide (S i = n) then 0 else S i.
Proof.
  intros. case_decide as E; [subst; by rewrite Nat.Div0.mod_same|].
  apply Nat.mod_small. lia.
Qed.

Lemma length_contents q :
  wf q →
  length (contents q) =
    if decide (next_write_index_ q < next_read_index_ q)
    then length (data_ q) + next_write_index_ q - next_read_index_ q
    else next_write_index_ q - next_read_index_ q.
Proof.
  intros [Hw Hr]. unfold contents, rotate_take.
  rewrite length_take, length_rotate, rotate_nat_sub_alt by done. case_decide; lia.
Qed.

Lemma contents_lookup q k :
  wf q → k < length (contents q) →
  contents q !! k =
    data_ q !! (if decide (next_read_index_ q + k < length (data_ q))
                then next_read_index_ q + k
                else next_read_index_ q + k - length (data_ q)).
Proof.
  intros Hwf Hk. pose proof Hwf as [Hw Hr]. pose proof Hk as Hk'.
  rewrite length_contents in Hk' by done. unfold contents, rotate_take in *.
  rewrite length_take, length_rotate in Hk.
  rewrite lookup_take_lt by lia. rewrite lookup_rotate_r by lia.
  by rewrite rotate_nat_add_alt by lia.
Qed.

Lemma length_contents_le q : wf q → length (contents q) ≤ capacity q.
Proof.
  intros Hwf. rewrite length_contents by done. destruct Hwf.
  unfold capacity. case_decide; lia.
Qed.

Lemma length_pushed x q :
  wf q →
  length (contents (pushed x q)) =
    if decide (length (contents q) = capacity q) then 0 else S (length (contents q)).
Proof.
  intros Hwf. rewrite !length_contents by (try apply pushed_wf; done).
  destruct Hwf as [Hw Hr]. unfold capacity. simpl. rewrite length_insert, succ_mod by done.
  repeat case_decide; lia.
Qed.

Lemma pushed_contents x q :
  wf q → length (contents q) < capacity q → contents (pushed x q) = contents q ++ [x].
Proof.
  intros Hwf Hlt. pose proof (pushed_wf x q Hwf) as Hwf'.
  pose proof (length_pushed x q Hwf) as Hlen. rewrite decide_False in Hlen by lia.
  apply list_eq_same_length with (S (length (contents q))); [rewrite length_app; simpl; lia|done|].
  intros k y z Hk Hy Hz. rewrite contents_lookup in Hy by (done || lia). simpl in Hy.
  rewrite length_insert in Hy. destruct Hwf as [Hw Hr].
  pose proof (length_contents q (conj Hw Hr)) as Hc. unfold capacity in Hlt.
  destruct (decide (k = length (contents q))) as [->|Hne].
  - rewrite lookup_app_r, Nat.sub_diag in Hz by lia. simplify_eq/=.
    replace (if decide _ then _ else _) with (next_write_index_ q) in Hy.
    + by rewrite list_lookup_insert_eq in Hy by done; simplify_eq.
    + rewrite Hc. repeat case_decide; lia.
  - rewrite lookup_app_l in Hz by lia. rewrite contents_lookup in Hz by (done || lia).
    rewrite list_lookup_insert_ne in Hy by (rewrite Hc in *; repeat case_decide; lia).
    congruence.
Qed.

(** A queue that is one push short of full becomes empty. *)
Lemma pushed_full x q :
  wf q → length (contents q) = capacity q → contents (pushed x q) = [].
Proof.
  intros Hwf Heq. apply length_zero_iff_nil.
  rewrite length_pushed by done. by rewrite decide_True.
Qed.

Lemma empty_run q : wf q → empty q = Done (bool_decide (contents q = []), q).
Proof.
  intros Hwf. unfold empty, mgets. do 2 f_equal.
  apply bool_decide_ext. rewrite <- length_zero_iff_nil, length_contents by done.
  destruct Hwf. case_decide; lia.
Qed.

Lemma pop_nil q : wf q → contents q = [] → pop q = Done (None, q).
Proof.
  intros Hwf Hc. unfold pop. rewrite (bind_done _ _ _ _ _ (empty_run q Hwf)). mrun.
  rewrite bool_decide_eq_true_2 by done. simpl. by mrun.
Qed.

Lemma contents_ne q : wf q → contents q ≠ [] ↔ next_read_index_ q ≠ next_write_index_ q.
Proof.
  intros Hwf. rewrite <- length_zero_iff_nil, length_contents by done.
  destruct Hwf. case_decide; lia.
Qed.

Lemma contents_nil q : wf q → next_read_index_ q = next_write_index_ q → contents q = [].
Proof.
  intros Hwf E. apply length_zero_iff_nil. rewrite length_contents by done. case_decide; lia.
Qed.

(** Writing the slot under the write cursor does not touch the contents. *)
Lemma contents_write x q :
  wf q → contents (set_data (<[next_write_index_ q := x]> (data_ q)) q) = contents q.
Proof.
  intros Hwf. set (q' := set_data _ q).
  assert (wf q') as Hwf' by (destruct Hwf; split; simpl; by rewrite length_insert).
  pose proof (length_contents q' Hwf') as Hl'. pose proof (length_contents q Hwf) as Hl.
  simpl in Hl'. rewrite length_insert in Hl'.
  apply list_eq_same_length with (length (contents q)); [done|congruence|].
  intros k y z Hk Hy Hz. rewrite contents_lookup in Hy, Hz by (done || congruence).
  destruct Hwf as [Hw Hr]. simpl in Hy. rewrite length_insert in Hy.
  rewrite list_lookup_insert_ne in Hy by (rewrite Hl in *; repeat case_decide; lia).
  congruence.
Qed.

(** The oldest item is under the read cursor; moving the cursor takes it off. *)
Lemma contents_read q x xs :
  wf q → contents q = x :: xs →
  let q' := set_read (S (next_read_index_ q) `mod` length (data_ q)) q in
  wf q' ∧ data_ q !! next_read_index_ q = Some x ∧ contents q' = xs.
Proof.
  intros Hwf Hc. pose proof Hwf as [Hw Hr].
  pose proof (length_contents q Hwf) as Hlen. rewrite Hc in Hlen. simpl in Hlen.
  set (r := S (next_read_index_ q) `mod` length (data_ q)).
  assert (r < length (data_ q)) as Hr' by (apply Nat.mod_upper_bound; lia).
  assert (wf (set_read r q)) as Hwf' by done.
  intros q'. split_and!; [done|..].
  { pose proof (contents_lookup q 0 Hwf) as H0. rewrite Hc in H0. simpl in H0.
    rewrite Nat.add_0_r, decide_True in H0 by done. symmetry. apply H0. lia. }
  pose proof (length_contents _ Hwf') as Hlen'. unfold r in Hlen'. simpl in Hlen'.
  rewrite succ_mod in Hlen' by done.
  assert (length (contents (set_read r q)) = length xs) as Hl
    by (unfold r; rewrite succ_mod by done; repeat case_decide; lia).
  apply list_eq_same_length with (length xs); [done..|].
  intros k y z Hk Hy Hz. unfold q' in Hy. rewrite contents_lookup in Hy by (done || lia).
  simpl in Hy. unfold r in Hy. rewrite succ_mod in Hy by done.
  pose proof (contents_lookup q (S k) Hwf) as Hk'. rewrite Hc in Hk'. simpl in Hk'.
  rewrite Hz in Hk'. specialize (Hk' ltac:(lia)).
  enough (Some y = Some z) by congruence. rewrite Hk', <- Hy. f_equal.
  repeat case_decide; lia.
Qed.

(** A pop of a queue that is not empty returns the slot of the oldest item. *)
Lemma pop_cons q x xs :
  wf q → contents q = x :: xs →
  ∃ q', pop q = Done (Some (next_read_index_ q), q') ∧ wf q' ∧
        data_ q' = data_ q ∧ data_ q !! next_read_index_ q = Some x ∧ contents q' = xs ∧
        next_read_index_ q' = S (next_read_index_ q) `mod` length (data_ q).
Proof.
  intros Hwf Hc. pose proof Hwf as [Hw Hr].
  destruct (contents_read q x xs Hwf Hc) as (Hwf' & Hx & Hxs).
  eexists. split_and!; [|exact Hwf'|done..].
  unfold pop. rewrite (bind_done _ _ _ _ _ (empty_run q Hwf)). mrun.
  rewrite bool_decide_eq_false_2 by (by rewrite Hc). simpl.
  rewrite decide_True by done. mrun. unfold next_index. mrun.
  rewrite (decide_False (P := length _ = 0)) by lia. by mrun.
Qed.

Lemma item_at_done q i x : data_ q !! i = Some x → item_at (Some i) q = Done (x, q).
Proof. intros E. unfold item_at. mrun. by rewrite E. Qed.

Lemma ctor_wf d n : 0 < n → wf (ctor d n).
Proof. intros. unfold wf, ctor; simpl. rewrite length_replicate. lia. Qed.

Lemma ctor_contents d n : contents (ctor d n) = [].
Proof.
  unfold contents, rotate_take, ctor; simpl. rewrite length_replicate.
  destruct n; [done|]. by rewrite rotate_nat_sub_0 by lia.
Qed.

(** ** Sequences of operations *)

Fixpoint push_all (xs : list T) : M (LFQueue T) unit :=
  match xs with
  | [] => mret tt
  | x :: xs => push x;; push_all xs
  end.

(** Popping [n] items and reading them. *)
Fixpoint pop_items (n : nat) : M (LFQueue T) (list T) :=
  match n with
  | O => mret []
  | S n => p ← pop; x ← item_at p; xs ← pop_items n; mret (x :: xs)
  end.

Lemma push_all_run xs q :
  wf q → length (contents q) + length xs ≤ capacity q →
  ∃ q', push_all xs q = Done (tt, q') ∧ wf q' ∧ capacity q' = capacity q ∧
        contents q' = contents q ++ xs ∧ next_read_index_ q' = next_read_index_ q.
Proof.
  revert q. induction xs as [|x xs IH]; intros q Hwf Hlen.
  { exists q. rewrite app_nil_r. done. }
  simpl in Hlen. pose proof (pushed_contents x q Hwf ltac:(lia)) as Hc.
  destruct (IH (pushed x q)) as (q' & E & Hwf' & Hcap & Hc' & Hr).
  { by apply pushed_wf. }
  { rewrite Hc, pushed_capacity, length_app. simpl. lia. }
  exists q'. rewrite pushed_capacity in Hcap. rewrite Hc, <- app_assoc in Hc'.
  split_and!; try done. simpl. by rewrite (bind_done _ _ _ _ _ (push_run x q Hwf)).
Qed.

Lemma pop_items_run q :
  wf q → ∃ q', pop_items (length (contents q)) q = Done (contents q, q') ∧ wf q' ∧
               contents q' = [] ∧ capacity q' = capacity q.
Proof.
  remember (contents q) as xs eqn:Hxs. symmetry in Hxs. revert q Hxs.
  induction xs as [|x xs IH]; intros q Hxs Hwf; [by exists q|].
  destruct (pop_cons q x xs Hwf Hxs) as (q1 & E & Hwf1 & Hd & Hx & Hc1 & _).
  destruct (IH q1 Hc1 Hwf1) as (q2 & E2 & Hwf2 & Hc2 & Hcap2).
  exists q2. split_and!; [|done|done|unfold capacity in *; by rewrite Hcap2, Hd].
  simpl. rewrite (bind_done _ _ _ _ _ E).
  rewrite (bind_done _ _ _ _ _ (item_at_done q1 _ x ltac:(by rewrite Hd))).
  by rewrite (bind_done _ _ _ _ _ E2).
Qed.

(** A slot that is not in the queue keeps its item until the queue is full. *)
Lemma push_all_slot xs q i x :
  wf q → next_read_index_ q = S i `mod` length (data_ q) → data_ q !! i = Some x →
  length (contents q) + length xs ≤ capacity q →
  ∃ q', push_all xs q = Done (tt, q') ∧ data_ q' !! i = Some x.
Proof.
  revert q. induction xs as [|y xs IH]; intros q Hwf Hr Hi Hlen; [by exists q|].
  simpl in Hlen. pose proof (pushed_contents y q Hwf ltac:(lia)) as Hc.
  assert (i < length (data_ q)) as Hlt by (by eapply lookup_lt_Some).
  assert (next_write_index_ q ≠ i) as Hw.
  { intros Hw. pose proof (length_contents q Hwf) as Hl. rewrite succ_mod in Hr by done.
    rewrite Hr, Hw in Hl. unfold capacity in Hlen. destruct Hwf. repeat case_decide; lia. }
  destruct (IH (pushed y q)) as (q' & E & Hx).
  - by apply pushed_wf.
  - simpl. by rewrite length_insert.
  - simpl. by rewrite list_lookup_insert_ne.
  - rewrite Hc, pushed_capacity, length_app. simpl. lia.
  - exists q'. split; [|done]. simpl. by rewrite (bind_done _ _ _ _ _ (push_run y q Hwf)).
Qed.

(** Pushing one item more than there is room for. *)
Lemma push_all_overflow xs x q :
  wf q → length (contents q) + length xs = capacity q →
  ∃ q', push_all (xs ++ [x]) q = Done (tt, q') ∧ wf q' ∧ contents q' = [].
Proof.
  intros Hwf Hlen. destruct (push_all_run xs q Hwf ltac:(lia)) as (q1 & E & Hwf1 & Hcap & Hc & _).
  exists (pushed x q1). split_and!; [|by apply pushed_wf|].
  - clear -E Hwf1. revert q E. induction xs as [|y xs IH]; intros q E; simpl in *.
    + injection E as ->. by rewrite (bind_done _ _ _ _ _ (push_run x q1 Hwf1)).
    + apply bind_inv_done in E as ([] & q2 & Ey & E). rewrite (bind_done _ _ _ _ _ Ey). by apply IH.
  - apply pushed_full; [done|]. rewrite Hc, Hcap, length_app. done.
Qed.
End spec.
End LFQueue.
Abbreviation LFQueue := LFQueue.LFQueue.
