(* ===== verification/Runs.v ===== *)
(** Infinite runs of a system: a goal is reached when, from then on, every step
    keeps a measure from rising and steps that happen again and again lower it. *)

From S2P Require Import Prelude.

Module Runs.

Section leads_to.
Context {S : Type} (σ : nat → S) (helpful : nat → Prop).

(** Something that happens infinitely often: the fairness of a scheduler. *)
Definition infinitely_often : Prop := ∀ n, ∃ m, n ≤ m ∧ helpful m.

Context (waiting : nat → S → Prop) (goal : S → Prop).

(** [waiting v s]: the goal is not reached yet and the measure is [v]. *)
Definition progress : Prop := ∀ n v, waiting v (σ n) →
  goal (σ (Datatypes.S n)) ∨
  ∃ v', waiting v' (σ (Datatypes.S n)) ∧ v' ≤ v ∧ (helpful n → v' < v).

Lemma until_helpful n v k :
  progress → waiting v (σ n) → helpful (n + k) →
  (∃ m, n ≤ m ∧ goal (σ m)) ∨
  ∃ m v', n ≤ m ∧ waiting v' (σ m) ∧ v' < v.
Proof.
  intros Hp. revert n v. induction k as [|k IH]; intros n v Hw Hh.
  - rewrite Nat.add_0_r in Hh. destruct (Hp n v Hw) as [Hg|(v' & Hw' & _ & Hlt)].
    + left. exists (Datatypes.S n). split; [lia|done].
    + right. exists (Datatypes.S n), v'. split; [lia|]. split; [done|by apply Hlt].
  - destruct (Hp n v Hw) as [Hg|(v' & Hw' & Hle & _)].
    { left. exists (Datatypes.S n). split; [lia|done]. }
    replace (n + Datatypes.S k) with (Datatypes.S n + k) in Hh by lia.
    destruct (IH _ _ Hw' Hh) as [(m & Hm & Hg)|(m & v2 & Hm & Hw2 & Hlt)].
    + left. exists m. split; [lia|done].
    + right. exists m, v2. split; [lia|]. split; [done|lia].
Qed.

Lemma leads_to n v :
  infinitely_often → progress → waiting v (σ n) → ∃ m, n ≤ m ∧ goal (σ m).
Proof.
  intros Hf Hp. revert n. induction (lt_wf v) as [v _ IH]. intros n Hw.
  destruct (Hf n) as (h & Hle & Hh). replace h with (n + (h - n)) in Hh by lia.
  destruct (until_helpful n v (h - n) Hp Hw Hh) as [?|(m & v' & Hm & Hw' & Hlt)]; [done|].
  destruct (IH v' Hlt m Hw') as (m' & Hm' & Hg). exists m'. split; [lia|done].
Qed.
End leads_to.

(** The same when each state has a thread the others wait for: its steps lower the
    measure, and the others' steps lower it or leave it waited for. *)
Section needed.
Context {S T : Type} (σ : nat → S) (l : nat → T).
Context (waiting : nat → S → Prop) (needs : S → T) (goal : S → Prop).

Definition advances : Prop := ∀ n v, waiting v (σ n) →
  goal (σ (Datatypes.S n)) ∨
  ∃ v', waiting v' (σ (Datatypes.S n)) ∧
    (v' < v ∨ v' = v ∧ needs (σ (Datatypes.S n)) = needs (σ n) ∧ needs (σ n) ≠ l n).

Lemma until_needed n v k :
  advances → waiting v (σ n) → l (n + k) = needs (σ n) →
  (∃ m, n ≤ m ∧ goal (σ m)) ∨
  ∃ m v', n ≤ m ∧ waiting v' (σ m) ∧ v' < v.
Proof.
  intros Ha. revert n. induction k as [|k IH]; intros n Hw Hl;
    (destruct (Ha n v Hw) as [Hg|(v' & Hw' & [Hlt|(-> & Hn & Hne)])];
     [by left; exists (Datatypes.S n); split; [lia|]
     |by right; exists (Datatypes.S n), v'; split_and!; [lia|..]|]).
  - rewrite Nat.add_0_r in Hl. congruence.
  - destruct (IH (Datatypes.S n)) as [(m & ? & ?)|(m & v' & ? & ? & ?)]; [done| |..].
    + rewrite Hn, <- Hl. f_equal. lia.
    + left. exists m. split; [lia|done].
    + right. exists m, v'. split_and!; [lia|done..].
Qed.

Lemma leads_to_needed n v :
  (∀ t, infinitely_often (λ i, l i = t)) → advances → waiting v (σ n) →
  ∃ m, n ≤ m ∧ goal (σ m).
Proof.
  intros Hf Ha. revert n. induction (lt_wf v) as [v _ IH]. intros n Hw.
  destruct (Hf (needs (σ n)) n) as (h & Hle & Hh). replace h with (n + (h - n)) in Hh by lia.
  destruct (until_needed n v _ Ha Hw Hh) as [?|(m & v' & Hm & Hw' & Hlt)]; [done|].
  destruct (IH v' Hlt m Hw') as (m' & ? & ?). exists m'. split; [lia|done].
Qed.
End needed.
End Runs.
