(* ===== verification/QueueThreads.v ===== *)
(** lf_queue.h between two threads: the producer runs [push], the consumer [pop],
    one atomic load, atomic store or access to a slot at a time, in any
    interleaving (sequential consistency).  [step] is the system, [spec_step] a
    queue whose calls take effect at one instant, and [abs] the map from the one
    to the other: while no push starts on a full queue, the two cannot be told
    apart ([step_abs]).  [push_steps] and [pop_steps]: run without interruption
    the steps are [push] and [pop] of LFQueue.v. *)

From S2P Require Import Prelude Types LFQueue Runs.

Module QueueThreads.
Import LFQueue.

Section threads.
Context {T : Type}.
Implicit Types (q : LFQueue T) (x : T).

(** ** The two threads *)

(** Where the producer is in [push(item)]: before the load of the index of the
    slot, before the write of slot [w], before the second load of the index,
    before its store, and done. *)
Inductive producer :=
| P_idle
| P_slot (item : T)
| P_write (item : T) (w : nat)
| P_load (item : T)
| P_store (item : T) (w : nat)
| P_ret.

(** Where the consumer is: between calls of [pop], with what the last one
    returned; in [empty()], whose two loads may come in either order; before the
    load of the slot's index, before the second load of it, before its store. *)
Inductive consumer :=
| C_hold (item : ptr)
| C_empty
| C_r (r : nat)
| C_w (w : nat)
| C_item
| C_load (item : nat)
| C_store (item : nat) (r : nat)
| C_ret (item : ptr).

Inductive event :=
| Tau
| CallPush (item : T)
| RetPush
| CallPop
| RetPop (item : option T)
| Use (item : T).

(** One step of [push]; [item] is what is pushed when the producer is idle. *)
Definition producer_step (item : T) (pc : producer) : M (LFQueue T) (event * producer) :=
  match pc with
  | P_idle => mret (CallPush item, P_slot item)
  | P_slot x => w ← mgets next_write_index_; mret (Tau, P_write x w)
  | P_write x w =>
      q ← mget;
      if decide (w < length (data_ q))
      then mmodify (set_data (<[w := x]> (data_ q)));; mret (Tau, P_load x)
      else mub IndexOutOfRange
  | P_load x => w ← mgets next_write_index_; mret (Tau, P_store x w)
  | P_store x w => w' ← next_index w; mmodify (set_write w');; mret (Tau, P_ret)
  | P_ret => mret (RetPush, P_idle)
  end.

(** The item behind a pointer, if it is not null. *)
Definition read_item (p : ptr) : M (LFQueue T) (option T) :=
  match p with
  | None => mret None
  | Some _ => x ← item_at p; mret (Some x)
  end.

(** One step of [pop]; [read_first] says which cursor [empty()] loads first. *)
Definition consumer_step (read_first : bool) (pc : consumer) :
    M (LFQueue T) (event * consumer) :=
  match pc with
  | C_hold _ => mret (CallPop, C_empty)
  | C_empty =>
      q ← mget;
      mret (Tau, if read_first then C_r (next_read_index_ q) else C_w (next_write_index_ q))
  | C_r r => w ← mgets next_write_index_; mret (Tau, if decide (r = w) then C_ret None else C_item)
  | C_w w => r ← mgets next_read_index_; mret (Tau, if decide (r = w) then C_ret None else C_item)
  | C_item =>
      q ← mget;
      if decide (next_read_index_ q < length (data_ q))
      then mret (Tau, C_load (next_read_index_ q)) else mub IndexOutOfRange
  | C_load i => r ← mgets next_read_index_; mret (Tau, C_store i r)
  | C_store i r => r' ← next_index r; mmodify (set_read r');; mret (Tau, C_ret (Some i))
  | C_ret p => v ← read_item p; mret (RetPop v, C_hold p)
  end.

Record state := mkState { queue : LFQueue T; prod : producer; cons : consumer }.

Inductive thread := Producer | Consumer.

(** The system: a thread takes a step, or the consumer reads the item it holds. *)
Inductive step (s : state) : thread → event → state → Prop :=
| step_producer x e pc q :
    producer_step x (prod s) (queue s) = Done ((e, pc), q) →
    step s Producer e (mkState q pc (cons s))
| step_consumer b e pc q :
    consumer_step b (cons s) (queue s) = Done ((e, pc), q) →
    step s Consumer e (mkState q (prod s) pc)
| step_use p x :
    cons s = C_hold p → item_at p (queue s) = Done (x, queue s) →
    step s Consumer (Use x) s.

Definition init (default : T) (n : nat) : state :=
  mkState (ctor default n) P_idle (C_hold nullptr).

(** A push starts while there is room. *)
Definition room s : Prop := length (contents (queue s)) < capacity (queue s).
Definition disciplined s (e : event) : Prop := ∀ x, e = CallPush x → room s.

(** Executions and what is seen of them. *)
Inductive exec : state → list event → state → Prop :=
| exec_nil s : exec s [] s
| exec_step s t e s' es s'' :
    disciplined s e → step s t e s' → exec s' es s'' → exec s (e :: es) s''.

(** ** The specification: calls that take effect at one instant *)

Inductive spec_producer := A_idle | A_push (item : T) | A_pushed.
Inductive spec_consumer := A_hold (item : option T) | A_pop | A_popped (item : option T).

Record spec := mkSpec {
  items : list T;
  spec_prod : spec_producer;
  spec_cons : spec_consumer;
}.

Inductive spec_step : spec → event → spec → Prop :=
| spec_call_push xs c x : spec_step (mkSpec xs A_idle c) (CallPush x) (mkSpec xs (A_push x) c)
| spec_push xs c x : spec_step (mkSpec xs (A_push x) c) Tau (mkSpec (xs ++ [x]) A_pushed c)
| spec_ret_push xs c : spec_step (mkSpec xs A_pushed c) RetPush (mkSpec xs A_idle c)
| spec_call_pop xs p o : spec_step (mkSpec xs p (A_hold o)) CallPop (mkSpec xs p A_pop)
| spec_pop xs p x : spec_step (mkSpec (x :: xs) p A_pop) Tau (mkSpec xs p (A_popped (Some x)))
| spec_pop_null p : spec_step (mkSpec [] p A_pop) Tau (mkSpec [] p (A_popped None))
| spec_ret_pop xs p o :
    spec_step (mkSpec xs p (A_popped o)) (RetPop o) (mkSpec xs p (A_hold o))
| spec_use xs p x :
    spec_step (mkSpec xs p (A_hold (Some x))) (Use x) (mkSpec xs p (A_hold (Some x))).

Inductive spec_exec : spec → list event → spec → Prop :=
| spec_exec_nil a : spec_exec a [] a
| spec_exec_stutter a es a' : spec_exec a es a' → spec_exec a (Tau :: es) a'
| spec_exec_step a e a' es a'' :
    spec_step a e a' → spec_exec a' es a'' → spec_exec a (e :: es) a''.

(** ** What a state stands for *)

Definition slot q (p : ptr) : option T := p ≫= λ i, data_ q !! i.

Definition abs_producer (pc : producer) : spec_producer :=
  match pc with
  | P_idle => A_idle
  | P_slot x | P_write x _ | P_load x | P_store x _ => A_push x
  | P_ret => A_pushed
  end.

(** A pop that finds the queue empty takes effect when the second cursor is
    loaded, or with the load of the write cursor if that one comes first. *)
Definition abs_consumer q (pc : consumer) : spec_consumer :=
  match pc with
  | C_hold p => A_hold (slot q p)
  | C_w w => if decide (next_read_index_ q = w) then A_popped None else A_pop
  | C_ret p => A_popped (slot q p)
  | _ => A_pop
  end.

Definition abs s : spec :=
  mkSpec (contents (queue s)) (abs_producer (prod s)) (abs_consumer (queue s) (cons s)).

(** ** The invariant *)

Definition producer_ok q (pc : producer) : Prop :=
  match pc with
  | P_idle | P_ret => True
  | P_slot _ => length (contents q) < capacity q
  | P_write _ w => w = next_write_index_ q ∧ length (contents q) < capacity q
  | P_load x =>
      data_ q !! next_write_index_ q = Some x ∧ length (contents q) < capacity q
  | P_store x w =>
      w = next_write_index_ q ∧ data_ q !! w = Some x ∧ length (contents q) < capacity q
  end.

(** The slot held is the one behind the read cursor. *)
Definition held q (p : ptr) : Prop :=
  ∀ i, p = Some i → i < length (data_ q) ∧ next_read_index_ q = S i `mod` length (data_ q).

Definition consumer_ok q (pc : consumer) : Prop :=
  match pc with
  | C_hold p | C_ret p => held q p
  | C_empty => True
  | C_r r => r = next_read_index_ q
  | C_w w => next_read_index_ q ≠ w → contents q ≠ []
  | C_item => contents q ≠ []
  | C_load i => i = next_read_index_ q ∧ contents q ≠ []
  | C_store i r => i = next_read_index_ q ∧ r = next_read_index_ q ∧ contents q ≠ []
  end.

Record inv s : Prop := {
  inv_wf : wf (queue s);
  inv_prod : producer_ok (queue s) (prod s);
  inv_cons : consumer_ok (queue s) (cons s);
}.

Lemma init_inv d n : 0 < n → inv (init d n).
Proof. intros Hn. split; [by apply ctor_wf|done|]. by intros i [=]. Qed.

(** The slot held is not the one the producer writes. *)
Lemma held_not_written q i :
  wf q → length (contents q) < capacity q → held q (Some i) → i ≠ next_write_index_ q.
Proof.
  intros Hwf Hroom Hh Hi. destruct (Hh i eq_refl) as [Hlt Hr].
  rewrite length_contents in Hroom by done. rewrite succ_mod in Hr by done.
  destruct Hwf. unfold capacity in Hroom. repeat case_decide; lia.
Qed.

Lemma slot_write x q p :
  wf q → length (contents q) < capacity q → held q p →
  slot (set_data (<[next_write_index_ q := x]> (data_ q)) q) p = slot q p.
Proof.
  intros Hwf Hroom Hh. destruct p as [i|]; [|done]. simpl.
  rewrite list_lookup_insert_ne; [done|].
  apply not_eq_sym. by apply held_not_written.
Qed.

(** Publishing the written slot appends its item. *)
Lemma contents_publish x q :
  wf q → length (contents q) < capacity q → data_ q !! next_write_index_ q = Some x →
  let q' := set_write (S (next_write_index_ q) `mod` length (data_ q)) q in
  wf q' ∧ contents q' = contents q ++ [x].
Proof.
  intros Hwf Hroom Hx q'. replace q' with (pushed x q).
  - split; [by apply pushed_wf|by apply pushed_contents].
  - unfold pushed, q', set_write. by rewrite list_insert_id.
Qed.

Lemma next_index_done i q :
  0 < length (data_ q) → next_index i q = Done (S i `mod` length (data_ q), q).
Proof. intros. unfold next_index. mrun. by rewrite decide_False by lia. Qed.

Lemma read_item_done q p : (∀ i, p = Some i → i < length (data_ q)) →
  read_item p q = Done (slot q p, q).
Proof.
  intros Hp. destruct p as [i|]; [|done]. destruct (lookup_lt_is_Some_2 (data_ q) i) as [x Hx].
  - by apply Hp.
  - simpl. rewrite (bind_done _ _ _ _ _ (item_at_done q i x Hx)). simpl. by rewrite Hx.
Qed.

(** ** Each step of a thread keeps the invariant and is a step of the specification *)

Definition simulated s e s' : Prop :=
  inv s' ∧ ((e = Tau ∧ abs s' = abs s) ∨ spec_step (abs s) e (abs s')).

Lemma producer_simulated s x e pc q :
  inv s → disciplined s e → producer_step x (prod s) (queue s) = Done ((e, pc), q) →
  simulated s e (mkState q pc (cons s)).
Proof.
  destruct s as [q0 pp cc]. intros [Hwf Hp Hc] Hd E. unfold simulated, abs. simpl in *.
  assert (0 < length (data_ q0)) as Hlen by (destruct Hwf; lia).
  destruct pp as [|y|y w|y|y w|]; simpl in *.
  - injection E as <- <- <-. split; [split; try done; by apply (Hd x)|]. right. constructor.
  - injection E as <- <- <-. split; [by split|by left].
  - destruct Hp as [-> Hroom]. rewrite bind_get, decide_True in E by apply Hwf.
    injection E as <- <- <-. rewrite contents_write by done.
    split; [|left; split; [done|]].
    + split; simpl.
      * destruct Hwf. split; simpl; by rewrite length_insert.
      * rewrite contents_write by done. unfold capacity. simpl. rewrite length_insert.
        split; [|done]. apply list_lookup_insert_eq, Hwf.
      * destruct cc; simpl in *; unfold held in *; simpl in *;
          rewrite ?contents_write, ?length_insert by done; done.
    + f_equal. destruct cc; simpl in *; try done; f_equal; by apply slot_write.
  - injection E as <- <- <-. split; [by split|by left].
  - destruct Hp as (-> & Hx & Hroom).
    rewrite (bind_done _ _ _ _ _ (next_index_done _ _ Hlen)) in E. injection E as <- <- <-.
    destruct (contents_publish y q0 Hwf Hroom Hx) as [Hwf' ->].
    split; [|right].
    + split; [done|done|]. destruct cc; simpl in *; try done.
      all: destruct (contents_publish y q0 Hwf Hroom Hx) as [_ ->].
      all: repeat match goal with H : _ ∧ _ |- _ => destruct H end.
      all: repeat split; try done; intros; by destruct (contents q0).
    + assert (abs_consumer (set_write (S (next_write_index_ q0) `mod` length (data_ q0)) q0) cc
              = abs_consumer q0 cc) as -> by (by destruct cc). constructor.
  - injection E as <- <- <-. split; [by split|]. right. constructor.
Qed.

(** The load of the second cursor by [empty()]. *)
Lemma empty_simulated q0 pp pc w r :
  wf q0 → producer_ok q0 pp → consumer_ok q0 pc →
  pc = C_r r ∧ w = next_write_index_ q0 ∨ pc = C_w w ∧ r = next_read_index_ q0 →
  simulated (mkState q0 pp pc) Tau
    (mkState q0 pp (if decide (r = w) then C_ret None else C_item)).
Proof.
  intros Hwf Hp Hc Hpc. unfold simulated, abs. simpl.
  destruct Hpc as [[-> ->]|[-> ->]]; simpl in *.
  - subst r. case_decide as E.
    + split; [split; [done..|by intros i [=]]|]. right.
      rewrite contents_nil by done. constructor.
    + split; [split; [done..|by apply contents_ne]|by left].
  - case_decide as E.
    + split; [split; [done..|by intros i [=]]|by left].
    + split; [split; [done..|by apply Hc]|by left].
Qed.

(** The store of the read cursor takes the oldest item off. *)
Lemma store_simulated q pp :
  wf q → producer_ok q pp → contents q ≠ [] →
  let q' := set_read (S (next_read_index_ q) `mod` length (data_ q)) q in
  simulated (mkState q pp (C_store (next_read_index_ q) (next_read_index_ q))) Tau
    (mkState q' pp (C_ret (Some (next_read_index_ q)))).
Proof.
  intros Hwf Hp Hne. destruct (contents q) as [|x xs] eqn:Hc; [done|].
  destruct (contents_read q x xs Hwf Hc) as (Hwf' & Hx & Hc'). intros q'. fold q' in Hwf', Hc'.
  unfold simulated, abs. simpl. rewrite Hc, Hc'. split.
  - split; [done|..]; simpl.
    + destruct pp; simpl in *; rewrite ?Hc'; rewrite ?Hc in Hp; unfold capacity in *; simpl in *;
        repeat match goal with H : _ ∧ _ |- _ => destruct H end;
        repeat split; try done; lia.
    + intros i [= <-]. split; [by destruct Hwf|done].
  - right. rewrite Hx. constructor.
Qed.

Lemma consumer_simulated s b e pc q :
  inv s → consumer_step b (cons s) (queue s) = Done ((e, pc), q) →
  simulated s e (mkState q (prod s) pc).
Proof.
  destruct s as [q0 pp cc]. intros [Hwf Hp Hc] E. simpl in *.
  assert (0 < length (data_ q0)) as Hlen by (destruct Hwf; lia).
  destruct cc as [p| |r|w| |i|i r|p]; simpl in *.
  - injection E as <- <- <-. split; [by split|]. right. constructor.
  - injection E as <- <- <-. destruct b; [split; [by split|by left]|].
    split; [split; [done..|intros Hw; by apply contents_ne]|]. unfold abs. simpl.
    case_decide as Ew; [right|by left]. rewrite contents_nil by done. constructor.
  - injection E as <- <- <-. eapply empty_simulated; try done. by left.
  - injection E as <- <- <-. eapply empty_simulated; try done. by right.
  - rewrite bind_get, decide_True in E by apply Hwf. injection E as <- <- <-.
    split; [by split|by left].
  - injection E as <- <- <-. destruct Hc as [-> Hne]. split; [by split|by left].
  - rewrite (bind_done _ _ _ _ _ (next_index_done _ _ Hlen)) in E. injection E as <- <- <-.
    destruct Hc as (-> & -> & Hne). by apply store_simulated.
  - rewrite (bind_done _ _ _ (slot q0 p) q0) in E by (apply read_item_done; intros i Hi; by apply Hc).
    injection E as <- <- <-. split; [by split|]. right. constructor.
Qed.

Lemma step_abs s t e s' :
  inv s → disciplined s e → step s t e s' → simulated s e s'.
Proof.
  intros Hi Hd Hs. revert Hd. destruct Hs as [x e' pc q E|b e' pc q E|p x Hh E]; intros Hd.
  - exact (producer_simulated s x e' pc q Hi Hd E).
  - exact (consumer_simulated s b e' pc q Hi E).
  - split; [done|]. right. destruct s as [q pp cc]. unfold abs. simpl in *. subst cc. simpl.
    destruct p as [i|]; [|by simplify_eq/=]. simpl in *. rewrite bind_get in E.
    destruct (data_ q !! i) as [y|]; [|done]. injection E as <-. constructor.
Qed.

(** ** No step is stuck or faults *)

Lemma producer_total s x :
  inv s → ∃ e pc q, producer_step x (prod s) (queue s) = Done ((e, pc), q).
Proof.
  destruct s as [q0 pp cc]. intros [Hwf Hp _]. simpl in *.
  assert (0 < length (data_ q0)) as Hlen by (destruct Hwf; lia).
  destruct pp as [|y|y w|y|y w|]; simpl in *; try (by eauto).
  - destruct Hp as [-> _]. rewrite bind_get, decide_True by apply Hwf. eauto.
  - rewrite (bind_done _ _ _ _ _ (next_index_done _ _ Hlen)). eauto.
Qed.

Lemma consumer_total s b :
  inv s → ∃ e pc q, consumer_step b (cons s) (queue s) = Done ((e, pc), q).
Proof.
  destruct s as [q0 pp cc]. intros [Hwf _ Hc]. simpl in *.
  assert (0 < length (data_ q0)) as Hlen by (destruct Hwf; lia).
  destruct cc as [p| |r|w| |i|i r|p]; simpl in *; try (by eauto).
  - rewrite bind_get, decide_True by apply Hwf. eauto.
  - rewrite (bind_done _ _ _ _ _ (next_index_done _ _ Hlen)). eauto.
  - rewrite (bind_done _ _ _ (slot q0 p) q0) by (apply read_item_done; intros i Hi; by apply Hc).
    eauto.
Qed.

(** ** Executions *)

Lemma exec_inv s es s' : inv s → exec s es s' → inv s'.
Proof.
  intros Hi He. induction He as [|s t e s1 es s' Hd Hs He IH]; [done|].
  by apply IH, (step_abs _ _ _ _ Hi Hd Hs).
Qed.

Lemma exec_abs s es s' : inv s → exec s es s' → spec_exec (abs s) es (abs s').
Proof.
  intros Hi He. induction He as [|s t e s1 es s' Hd Hs He IH]; [constructor|].
  destruct (step_abs _ _ _ _ Hi Hd Hs) as [Hi1 [[-> Heq]|Hst]].
  - constructor. rewrite <- Heq. by apply IH.
  - econstructor; [exact Hst|]. by apply IH.
Qed.

Lemma exec_snoc s es s' t e s'' :
  exec s es s' → disciplined s' e → step s' t e s'' → exec s (es ++ [e]) s''.
Proof.
  induction 1 as [s|s t' e' s1 es s' Hd Hs _ IH]; intros Hd' Hs'.
  - econstructor; [done|done|constructor].
  - simpl. econstructor; [done|done|by apply IH].
Qed.

(** The items pushed and the items popped, in order. *)
Definition pushes (es : list event) : list T :=
  omap (λ e, match e with CallPush x => Some x | _ => None end) es.
Definition pops (es : list event) : list T :=
  omap (λ e, match e with RetPop o => o | _ => None end) es.

(** Items on their way into the queue and out of it. *)
Definition incoming (p : spec_producer) : list T := match p with A_push x => [x] | _ => [] end.
Definition outgoing (c : spec_consumer) : list T :=
  match c with A_popped (Some x) => [x] | _ => [] end.
Definition in_flight (a : spec) : list T :=
  outgoing (spec_cons a) ++ items a ++ incoming (spec_prod a).

Lemma spec_step_fifo a e a' :
  spec_step a e a' → in_flight a ++ pushes [e] = pops [e] ++ in_flight a'.
Proof.
  unfold in_flight. destruct 1; simpl; rewrite ?app_nil_r, <- ?app_assoc; simpl; try done.
Qed.

Lemma spec_exec_fifo a es a' :
  spec_exec a es a' → in_flight a ++ pushes es = pops es ++ in_flight a'.
Proof.
  induction 1 as [a|a es a' _ IH|a e a1 es a' Hs _ IH]; [by rewrite app_nil_r|done|].
  pose proof (spec_step_fifo a e a1 Hs) as Hf. change (e :: es) with ([e] ++ es).
  unfold pushes, pops in *. rewrite !omap_app, app_assoc, Hf, <- !app_assoc. by f_equal.
Qed.

(** ** Without interruption: the calls of LFQueue.v *)

Definition producer_alone (item : T) : M (LFQueue T) unit :=
  iterate 6 (λ pc : producer,
    if pc is P_ret then mret (inr tt) else r ← producer_step item pc; mret (inl (snd r))) P_idle.

Definition consumer_alone (b : bool) (p : ptr) : M (LFQueue T) ptr :=
  iterate 7 (λ pc : consumer,
    if pc is C_ret i then mret (inr i) else r ← consumer_step b pc; mret (inl (snd r))) (C_hold p).

Ltac run_alone :=
  cbv [iterate mbind M_bind mret M_ret mget mgets mmodify mub producer_step consumer_step
       next_index push pop empty snd negb bool_decide];
  repeat (case_decide; simpl in *; try done).

Lemma push_steps x q : producer_alone x q = push x q.
Proof. unfold producer_alone. run_alone. Qed.

Lemma pop_steps b p q : consumer_alone b p q = pop q.
Proof. unfold consumer_alone. destruct b; run_alone. Qed.

(** ** Progress of the consumer *)

(** Steps of the consumer left until the store of its cursor, and between stores
    at most nine. *)
Definition consumer_left q (pc : consumer) : nat :=
  match pc with
  | C_hold _ => 7
  | C_empty => 6
  | C_r _ => 5
  | C_w w => if decide (next_read_index_ q = w) then 9 else 5
  | C_item => 4
  | C_load _ => 3
  | C_store _ _ => 2
  | C_ret _ => 8
  end.

(** [x] is in the queue with [v] steps to go; and [pop] is about to return it. *)
Definition queued x (v : nat) s : Prop :=
  inv s ∧ ∃ k, contents (queue s) !! k = Some x ∧ v = 9 * k + consumer_left (queue s) (cons s).
Definition delivered x s : Prop :=
  ∃ p, cons s = C_ret p ∧ slot (queue s) p = Some x.

Definition is_use (e : event) : bool := if e is Use _ then true else false.

(** The producer leaves the read cursor alone and only adds to the contents. *)
Lemma producer_frame s y e pc q :
  inv s → producer_step y (prod s) (queue s) = Done ((e, pc), q) →
  next_read_index_ q = next_read_index_ (queue s) ∧ contents (queue s) `prefix_of` contents q.
Proof.
  destruct s as [q0 pp cc]. intros [Hwf Hp _] E. simpl in *.
  assert (0 < length (data_ q0)) as Hlen by (destruct Hwf; lia).
  destruct pp as [|x|x w|x|x w|]; simpl in *; try (by injection E as _ _ <-).
  - destruct Hp as [-> Hroom]. rewrite bind_get, decide_True in E by apply Hwf.
    injection E as _ _ <-. by rewrite contents_write.
  - destruct Hp as (-> & Hx & Hroom).
    rewrite (bind_done _ _ _ _ _ (next_index_done _ _ Hlen)) in E. injection E as _ _ <-.
    destruct (contents_publish x q0 Hwf Hroom Hx) as [_ ->]. split; [done|by eexists].
Qed.

Lemma producer_queued x y v s e pc q :
  disciplined s e → queued x v s → producer_step y (prod s) (queue s) = Done ((e, pc), q) →
  queued x v (mkState q pc (cons s)).
Proof.
  intros Hd (Hi & k & Hk & ->) E. destruct (producer_frame s y e pc q Hi E) as [Hr Hpre].
  split; [by apply (producer_simulated s y e pc q)|]. exists k. simpl.
  split; [by eapply prefix_lookup_Some|]. by destruct (cons s); simpl; rewrite ?Hr.
Qed.

Lemma consumer_queued x b v s e pc q :
  queued x v s → consumer_step b (cons s) (queue s) = Done ((e, pc), q) →
  delivered x (mkState q (prod s) pc) ∨ ∃ v', queued x v' (mkState q (prod s) pc) ∧ v' < v.
Proof.
  intros (Hi & k & Hk & ->) E.
  pose proof (proj1 (consumer_simulated s b e pc q Hi E)) as Hi'.
  destruct s as [q0 pp cc]. pose proof Hi as [Hwf _ Hc]. simpl in *.
  assert (0 < length (data_ q0)) as Hlen by (destruct Hwf; lia).
  assert (next_read_index_ q0 ≠ next_write_index_ q0) as Hne.
  { intros E'%contents_nil; [|done]. by rewrite E', lookup_nil in Hk. }
  assert (∀ n, consumer_left q0 pc = n → n < consumer_left q0 cc → q = q0 →
    ∃ v', queued x v' (mkState q pp pc) ∧ v' < 9 * k + consumer_left q0 cc) as Hstay.
  { intros n Hn Hlt ->. exists (9 * k + n). split; [split; [done|]|lia].
    exists k. simpl. by rewrite Hn. }
  destruct cc as [p| |r|w| |i|i r|p]; simpl in *.
  - right. injection E as _ <- <-. eapply Hstay; simpl; [done|lia|done].
  - right. injection E as _ <- <-.
    destruct b; (eapply Hstay; simpl; [done|rewrite ?decide_False by done; lia|done]).
  - right. injection E as _ <- <-. rewrite Hc, decide_False in * by done.
    eapply Hstay; simpl; [done|lia|done].
  - right. injection E as _ <- <-. case_decide; (eapply Hstay; simpl; [done|lia|done]).
  - right. rewrite bind_get, decide_True in E by apply Hwf. injection E as _ <- <-.
    eapply Hstay; simpl; [done|lia|done].
  - right. injection E as _ <- <-. eapply Hstay; simpl; [done|lia|done].
  - rewrite (bind_done _ _ _ _ _ (next_index_done _ _ Hlen)) in E. injection E as _ <- <-.
    destruct Hc as (-> & -> & _). destruct (contents q0) as [|y ys] eqn:Ec; [done|].
    destruct (contents_read q0 y ys Hwf Ec) as (_ & Hy & Hys).
    destruct k as [|k]; [left; exists (Some (next_read_index_ q0)); simplify_eq/=; done|right].
    exists (9 * k + 8). split; [split; [done|]|lia]. exists k. simpl. by rewrite Hys.
  - right. rewrite (bind_done _ _ _ (slot q0 p) q0) in E
      by (apply read_item_done; intros i Hj; by apply Hc).
    injection E as _ <- <-. eapply Hstay; simpl; [done|lia|done].
Qed.

(** ** Infinite runs *)

(** An infinite run, with the thread and the event of each step. *)
Definition run (σ : nat → state) (l : nat → thread * event) : Prop :=
  ∀ n, disciplined (σ n) (snd (l n)) ∧ step (σ n) (fst (l n)) (snd (l n)) (σ (S n)).

(** The consumer takes a step of [pop]. *)
Definition pops_on (l : nat → thread * event) (n : nat) : Prop :=
  fst (l n) = Consumer ∧ is_use (snd (l n)) = false.

Lemma run_progress x σ l : run σ l → Runs.progress σ (pops_on l) (queued x) (delivered x).
Proof.
  intros Hrun n v Hq. destruct (Hrun n) as [Hd Hs]. unfold pops_on.
  destruct (l n) as [t e]. simpl in *. revert Hd Hq. generalize (σ n), (σ (S n)), Hs.
  clear. intros s s' Hs Hd Hq. destruct Hs as [y e pc q E|b e pc q E|p y Hh E].
  - right. exists v. split; [by eapply producer_queued|]. split; [done|]. by intros [[=] _].
  - destruct (consumer_queued x b v s e pc q Hq E) as [Hg|(v' & Hv & Hlt)]; [by left|right].
    exists v'. split; [done|]. split; [lia|done].
  - right. exists v. split; [done|]. split; [done|]. by intros [_ [=]].
Qed.

(** ** Runs that a schedule drives *)

(** The next step of the producer, which pushes [x] when it is idle, or of the
    consumer. *)
Definition next (who : thread) (x : T) s : (thread * event) * state :=
  match who with
  | Producer =>
      match producer_step x (prod s) (queue s) with
      | Done ((e, pc), q) => ((Producer, e), mkState q pc (cons s))
      | _ => ((Producer, Tau), s)
      end
  | Consumer =>
      match consumer_step true (cons s) (queue s) with
      | Done ((e, pc), q) => ((Consumer, e), mkState q (prod s) pc)
      | _ => ((Consumer, Tau), s)
      end
  end.

Fixpoint scheduled (who : nat → thread) (x : T) s (n : nat) : state :=
  match n with
  | O => s
  | S n => snd (next (who n) x (scheduled who x s n))
  end.
Definition scheduled_event who x s (n : nat) : thread * event :=
  fst (next (who n) x (scheduled who x s n)).

Lemma next_step who x s :
  inv s → step s who (snd (fst (next who x s))) (snd (next who x s)).
Proof.
  intros Hi. destruct who; simpl.
  - destruct (producer_total s x Hi) as (e & pc & q & E). rewrite E. by eapply step_producer.
  - destruct (consumer_total s true Hi) as (e & pc & q & E). rewrite E. by eapply step_consumer.
Qed.

Lemma next_thread who x s : fst (fst (next who x s)) = who.
Proof.
  destruct who; simpl.
  - by destruct (producer_step _ _ _) as [[[e pc] q]| | |].
  - by destruct (consumer_step _ _ _) as [[[e pc] q]| | |].
Qed.

(** Only an idle producer starts a push. *)
Lemma next_disciplined who x s :
  (who = Producer → prod s = P_idle → room s) → disciplined s (snd (fst (next who x s))).
Proof.
  intros Hr y Hy. destruct who; simpl in Hy.
  - apply Hr; [done|]. unfold producer_step, next_index in Hy. destruct (prod s); try done;
      rewrite ?bind_bind, ?bind_get in Hy; repeat case_decide; done.
  - unfold consumer_step, next_index, read_item in Hy. destruct (cons s) as [| | | | | | |[i|]];
      rewrite ?bind_bind, ?bind_get in Hy; repeat case_decide; simpl in Hy; try done.
    revert Hy. unfold item_at. mrun. by destruct (data_ (queue s) !! i).
Qed.

Lemma scheduled_run who x s :
  inv s → (∀ n, who n = Producer → prod (scheduled who x s n) = P_idle →
                room (scheduled who x s n)) →
  run (scheduled who x s) (scheduled_event who x s).
Proof.
  intros Hi Hr. assert (∀ n, inv (scheduled who x s n)) as Hinv.
  { induction n as [|n IH]; [done|]. simpl.
    apply (step_abs _ _ _ _ IH (next_disciplined _ x _ (Hr n)) (next_step (who n) x _ IH)). }
  intros n. unfold scheduled_event. split; [apply next_disciplined, Hr|].
  rewrite next_thread. by apply next_step.
Qed.

Lemma scheduled_exec who x s n :
  inv s → (∀ k, k < n → who k = Producer → prod (scheduled who x s k) = P_idle →
                room (scheduled who x s k)) →
  exec s ((λ k, snd (scheduled_event who x s k)) <$> seq 0 n) (scheduled who x s n).
Proof.
  intros Hi. induction n as [|n IH]; intros Hr; [constructor|].
  rewrite seq_S, fmap_app. simpl.
  assert (exec s ((λ k, snd (scheduled_event who x s k)) <$> seq 0 n) (scheduled who x s n)) as He
    by (apply IH; intros k Hk; apply Hr; lia).
  pose proof (exec_inv _ _ _ Hi He) as Hin.
  apply (exec_snoc _ _ _ (who n) _ _ He).
  - apply next_disciplined, Hr. lia.
  - by apply next_step.
Qed.

(** No step of a schedule reads a held item. *)
Lemma next_no_use who x s : is_use (snd (fst (next who x s))) = false.
Proof.
  destruct who; simpl.
  - unfold producer_step, next_index. destruct (prod s); simpl; try done;
      rewrite ?bind_bind, ?bind_get; by repeat case_decide.
  - unfold consumer_step, next_index, read_item, item_at.
    destruct (cons s) as [| | | | | | |[i|]]; mrun; repeat case_decide; simpl; try done.
    by destruct (data_ (queue s) !! i).
Qed.
End threads.
End QueueThreads.
