(* ===== verification/QueueWeak.v ===== *)
(** lf_queue.h under the memory model of C++: a load of an atomic may return a
    store older than the last one, as long as the thread does not know of a later
    one, and the slots are plain memory, which two threads may not use at once.

    [view]: what happened before a point of a thread, as the number of stores of
    each cursor and of uses of the slots by each thread.  A store of a cursor
    releases the view of its thread ([store]), a load takes over the view of the
    store it reads ([load]); a use of a slot that is not ordered after the last
    use of it by the other thread is undefined ([put], [get]).  The steps of the
    two threads are those of QueueThreads.v.  The loads of [empty] are acquire
    loads; the other accesses to the cursors are sequentially consistent, of which
    only the acquire and release parts are used here.

    The program has other channels between its threads: a thread tells its view
    ([told]) and the other learns it.  [push] does not look at the read cursor, so
    it is by such a channel that the producer knows that there is [room]. *)

From S2P Require Import Prelude Types LFQueue QueueThreads.

Module QueueWeak.
Import QueueThreads.

(** ** Views *)

Record view := mkView {
  v_write : nat;  (* stores of next_write_index_ *)
  v_read : nat;   (* stores of next_read_index_ *)
  v_puts : nat;   (* slots written *)
  v_gets : nat;   (* slots read *)
}.

#[export] Instance view_eq_dec : EqDecision view.
Proof. solve_decision. Defined.

Definition vle (v1 v2 : view) : Prop :=
  v_write v1 ≤ v_write v2 ∧ v_read v1 ≤ v_read v2 ∧
  v_puts v1 ≤ v_puts v2 ∧ v_gets v1 ≤ v_gets v2.
#[local] Infix "⊑ᵥ" := vle (at level 70).

Definition join (v1 v2 : view) : view :=
  mkView (v_write v1 `max` v_write v2) (v_read v1 `max` v_read v2)
         (v_puts v1 `max` v_puts v2) (v_gets v1 `max` v_gets v2).

(** The two atomics. *)
Inductive cursor := WriteIndex | ReadIndex.

#[export] Instance cursor_eq_dec : EqDecision cursor.
Proof. solve_decision. Defined.

Definition seen (i : cursor) (v : view) : nat :=
  match i with WriteIndex => v_write v | ReadIndex => v_read v end.
Definition set_seen (i : cursor) (t : nat) (v : view) : view :=
  match i with
  | WriteIndex => mkView t (v_read v) (v_puts v) (v_gets v)
  | ReadIndex => mkView (v_write v) t (v_puts v) (v_gets v)
  end.

Section weak.
Context {T : Type}.

(** ** Memory *)

(** A store to a cursor, with the view it releases. *)
Record message := mkMessage { value : nat; released : view }.

(** A slot, with the number of the write that wrote it and of its last read. *)
Record slot := mkSlot { content : T; written : nat; read_at : nat }.

(** The stores to each cursor, oldest first, and the slots. *)
Record memory := mkMemory { writes : list message; reads : list message; slots : list slot }.

Definition stores (i : cursor) (m : memory) : list message :=
  match i with WriteIndex => writes m | ReadIndex => reads m end.
Definition set_stores (i : cursor) (l : list message) (m : memory) : memory :=
  match i with
  | WriteIndex => mkMemory l (reads m) (slots m)
  | ReadIndex => mkMemory (writes m) l (slots m)
  end.
Definition set_slots (l : list slot) (m : memory) : memory := mkMemory (writes m) (reads m) l.

(** A thread works on the memory and its own view. *)
Definition local : Type := memory * view.

(** Load of a cursor: any store the thread does not know to be overwritten; [n]
    is the choice, moved into the stores that are allowed. *)
Definition load (i : cursor) (n : nat) : M local nat :=
  σ ← mget;
  let '(m, v) := σ in
  let t := seen i v `max` (n `min` (length (stores i m) - 1)) in
  match stores i m !! t with
  | Some msg => mput (m, join (join v (released msg)) (set_seen i t v));; mret (value msg)
  | None => mub IndexOutOfRange
  end.

(** Store to a cursor: the newest one. *)
Definition store (i : cursor) (x : nat) : M local unit :=
  σ ← mget;
  let '(m, v) := σ in
  let v' := set_seen i (length (stores i m)) v in
  mput (set_stores i (stores i m ++ [mkMessage x v']) m, v').

(** [data_[w] = item] by the producer: the last read of the slot must have
    happened before. *)
Definition put (w : nat) (x : T) : M local unit :=
  σ ← mget;
  let '(m, v) := σ in
  match slots m !! w with
  | None => mub IndexOutOfRange
  | Some s =>
      if decide (read_at s ≤ v_gets v) then
        let k := S (v_puts v) in
        mput (set_slots (<[w := mkSlot x k (read_at s)]> (slots m)) m,
              mkView (v_write v) (v_read v) k (v_gets v))
      else mub DataRace
  end.

(** A read of a slot by the consumer: its last write must have happened before. *)
Definition get (w : nat) : M local T :=
  σ ← mget;
  let '(m, v) := σ in
  match slots m !! w with
  | None => mub IndexOutOfRange
  | Some s =>
      if decide (written s ≤ v_puts v) then
        let k := S (v_gets v) in
        mput (set_slots (<[w := mkSlot (content s) (written s) k]> (slots m)) m,
              mkView (v_write v) (v_read v) (v_puts v) k);;
        mret (content s)
      else mub DataRace
  end.

Definition next_index (i : nat) : M local nat :=
  σ ← mget;
  if decide (length (slots (fst σ)) = 0) then mub ModByZero
  else mret (S i `mod` length (slots (fst σ))).

(** ** The two threads *)

(** One step of [push]; [n] is the choice of a load. *)
Definition producer_step (x : T) (n : nat) (pc : producer) : M local (event * producer) :=
  match pc with
  | P_idle => mret (CallPush x, P_slot x)
  | P_slot x => w ← load WriteIndex n; mret (Tau, P_write x w)
  | P_write x w => put w x;; mret (Tau, P_load x)
  | P_load x => w ← load WriteIndex n; mret (Tau, P_store x w)
  | P_store x w => w' ← next_index w; store WriteIndex w';; mret (Tau, P_ret)
  | P_ret => mret (RetPush, P_idle)
  end.

(** The item behind a pointer, if it is not null. *)
Definition read_item (p : ptr) : M local (option T) :=
  match p with
  | None => mret None
  | Some i => x ← get i; mret (Some x)
  end.

(** One step of [pop]; [read_first] says which cursor [empty()] loads first. *)
Definition consumer_step (read_first : bool) (n : nat) (pc : consumer) :
    M local (event * consumer) :=
  match pc with
  | C_hold _ => mret (CallPop, C_empty)
  | C_empty =>
      if read_first then r ← load ReadIndex n; mret (Tau, C_r r)
      else w ← load WriteIndex n; mret (Tau, C_w w)
  | C_r r => w ← load WriteIndex n; mret (Tau, if decide (r = w) then C_ret None else C_item)
  | C_w w => r ← load ReadIndex n; mret (Tau, if decide (r = w) then C_ret None else C_item)
  | C_item =>
      i ← load ReadIndex n;
      σ ← mget;
      if decide (i < length (slots (fst σ))) then mret (Tau, C_load i) else mub IndexOutOfRange
  | C_load i => r ← load ReadIndex n; mret (Tau, C_store i r)
  | C_store i r => r' ← next_index r; store ReadIndex r';; mret (Tau, C_ret (Some i))
  | C_ret p => v ← read_item p; mret (RetPop v, C_hold p)
  end.

Record state := mkState {
  mem : memory;
  vp : view;
  vc : view;
  prod : producer (T := T);
  cons : consumer;
  told : list view;
}.

(** The system: a step of a thread, a read of the held item, or a view told or
    learned. *)
Inductive step (s : state) : thread → event (T := T) → state → Prop :=
| step_producer x n e pc m v :
    producer_step x n (prod s) (mem s, vp s) = Done ((e, pc), (m, v)) →
    step s Producer e (mkState m v (vc s) pc (cons s) (told s))
| step_consumer b n e pc m v :
    consumer_step b n (cons s) (mem s, vc s) = Done ((e, pc), (m, v)) →
    step s Consumer e (mkState m (vp s) v (prod s) pc (told s))
| step_use i x m v :
    cons s = C_hold (Some i) → get i (mem s, vc s) = Done (x, (m, v)) →
    step s Consumer (Use x) (mkState m (vp s) v (prod s) (cons s) (told s))
| step_tell t :
    step s t Tau (mkState (mem s) (vp s) (vc s) (prod s) (cons s)
                    ((if t is Producer then vp s else vc s) :: told s))
| step_learn_producer v :
    v ∈ told s →
    step s Producer Tau (mkState (mem s) (join (vp s) v) (vc s) (prod s) (cons s) (told s))
| step_learn_consumer v :
    v ∈ told s →
    step s Consumer Tau (mkState (mem s) (vp s) (join (vc s) v) (prod s) (cons s) (told s)).

Definition start_view : view := mkView 0 0 0 0.

(** The constructor happens before the threads start. *)
Definition init (default : T) (n : nat) : state :=
  mkState (mkMemory [mkMessage 0 start_view] [mkMessage 0 start_view]
             (replicate n (mkSlot default 0 0)))
    start_view start_view P_idle (C_hold nullptr) [].

(** A push starts when the producer knows of room: of the items it pushed it
    knows all but [length (slots m) - 2] to be popped. *)
Definition room s : Prop := v_write (vp s) - v_read (vp s) < length (slots (mem s)) - 1.
Definition disciplined s (e : event (T := T)) : Prop := ∀ x, e = CallPush x → room s.

Inductive exec : state → list (event (T := T)) → state → Prop :=
| exec_nil s : exec s [] s
| exec_step s t e s' es s'' :
    disciplined s e → step s t e s' → exec s' es s'' → exec s (e :: es) s''.

(** ** The invariant *)

Implicit Types (m : memory) (v : view) (xs : list T).

#[local] Abbreviation size m := (length (slots m)).

(** A view that a thread can have when the producer has written [p] slots and the
    consumer read [g] times: it knows what the stores it knows released. *)
Record good m (p g : nat) v : Prop := {
  good_seen : ∀ i, seen i v < length (stores i m);
  good_closed : ∀ i t msg, t ≤ seen i v → stores i m !! t = Some msg → released msg ⊑ᵥ v;
  good_puts : v_write v ≤ v_puts v;
  good_reads : v_read v ≤ v_write v;
  good_bound : v_puts v ≤ p ∧ v_gets v ≤ g;
}.

(** The memory and the views, when [xs] are the items written to slots so far:
    the slot of item [j] is kept until the read cursor is two further on, and the
    reads of it happen before that. *)
Record core xs m v1 v2 (l : list view) : Prop := {
  core_size : 0 < size m;
  core_len : length xs = v_puts v1;
  core_writes : length (writes m) = S (v_write v1);
  core_reads : length (reads m) = S (v_read v2);
  core_p : good m (v_puts v1) (v_gets v2) v1;
  core_c : good m (v_puts v1) (v_gets v2) v2;
  core_told : Forall (good m (v_puts v1) (v_gets v2)) l;
  core_msgs : ∀ i t msg, stores i m !! t = Some msg →
    value msg = t `mod` size m ∧ seen i (released msg) = t ∧
    good m (v_puts v1) (v_gets v2) (released msg);
  core_room : v_puts v1 - v_read v1 ≤ size m - 1;
  core_fresh : ∀ i s, slots m !! i = Some s → length xs ≤ i → read_at s = 0;
  core_read_at : ∀ i s, slots m !! i = Some s → read_at s ≤ v_gets v2;
  core_slots : ∀ j x, xs !! j = Some x → length xs ≤ j + size m →
    ∃ s, slots m !! (j `mod` size m) = Some s ∧ content s = x ∧ written s = S j ∧
         ∀ msg, reads m !! (j + 2) = Some msg → read_at s ≤ v_gets (released msg);
}.

Definition producer_ok n v (pc : producer (T := T)) : Prop :=
  match pc with
  | P_idle | P_ret => v_puts v = v_write v
  | P_slot _ => v_puts v = v_write v ∧ v_write v - v_read v < n - 1
  | P_write _ w =>
      w = v_write v `mod` n ∧ v_puts v = v_write v ∧ v_write v - v_read v < n - 1
  | P_load _ => v_puts v = S (v_write v)
  | P_store _ w => w = v_write v `mod` n ∧ v_puts v = S (v_write v)
  end.

Definition holds n v (p : ptr) : Prop :=
  ∀ i, p = Some i → ∃ j, v_read v = S j ∧ i = j `mod` n.

Definition consumer_ok n v (pc : consumer) : Prop :=
  match pc with
  | C_hold p | C_ret p => holds n v p
  | C_empty => True
  | C_r r => r = v_read v `mod` n
  | C_w w => ∃ t, w = t `mod` n ∧ v_read v ≤ t ≤ v_write v
  | C_item => v_read v < v_write v
  | C_load i => i = v_read v `mod` n ∧ v_read v < v_write v
  | C_store i r => i = v_read v `mod` n ∧ r = v_read v `mod` n ∧ v_read v < v_write v
  end.

Record inv xs (s : state) : Prop := {
  inv_core : core xs (mem s) (vp s) (vc s) (told s);
  inv_prod : producer_ok (size (mem s)) (vp s) (prod s);
  inv_cons : consumer_ok (size (mem s)) (vc s) (cons s);
}.

(** ** Views *)

Lemma vle_trans v1 v2 v3 : v1 ⊑ᵥ v2 → v2 ⊑ᵥ v3 → v1 ⊑ᵥ v3.
Proof. unfold vle. lia. Qed.

Lemma join_l v1 v2 : v1 ⊑ᵥ join v1 v2.
Proof. unfold vle. simpl. lia. Qed.

Lemma join_r v1 v2 : v2 ⊑ᵥ join v1 v2.
Proof. unfold vle. simpl. lia. Qed.

Lemma join_absorb v1 v2 : v2 ⊑ᵥ v1 → join v1 v2 = v1.
Proof. destruct v1, v2. unfold vle, join. simpl. intros. f_equal; lia. Qed.

Lemma seen_join i v1 v2 : seen i (join v1 v2) = seen i v1 `max` seen i v2.
Proof. by destruct i. Qed.

Lemma good_join m p g v1 v2 : good m p g v1 → good m p g v2 → good m p g (join v1 v2).
Proof.
  intros [S1 C1 P1 R1 B1] [S2 C2 P2 R2 B2]. split; simpl; try lia.
  - intros i. rewrite seen_join. specialize (S1 i). specialize (S2 i). lia.
  - intros i t msg Ht Hm. rewrite seen_join in Ht.
    destruct (decide (t ≤ seen i v1)).
    + eapply vle_trans; [by eapply C1|apply join_l].
    + eapply vle_trans; [eapply C2; [|done]; lia|apply join_r].
Qed.

(** Goodness depends on the stores only, and lasts while they grow. *)
Lemma good_mono m m' p g p' g' v :
  good m p g v → p ≤ p' → g ≤ g' → (∀ i, stores i m `prefix_of` stores i m') →
  good m' p' g' v.
Proof.
  intros [Hs Hc Hp Hr Hb] ?? Hpre. split; try done; try lia.
  - intros i. specialize (Hs i). pose proof (prefix_length _ _ (Hpre i)). lia.
  - intros i t msg Ht Hm. apply (Hc i t msg Ht). specialize (Hs i).
    destruct (Hpre i) as [k Hk]. rewrite Hk, lookup_app_l in Hm by lia. done.
Qed.

Lemma succ_mod_mod n k : 0 < n → S (k `mod` n) `mod` n = S k `mod` n.
Proof.
  intros. rewrite <- (Nat.add_1_r (k `mod` n)), Nat.Div0.add_mod_idemp_l. f_equal. lia.
Qed.

(** Two positions less than a round apart have different slots. *)
Lemma mod_inj n a b : a ≤ b → b < a + n → a `mod` n = b `mod` n → a = b.
Proof.
  intros Hab Hb E. pose proof (Nat.div_mod_eq a n). pose proof (Nat.div_mod_eq b n).
  assert (a `div` n = b `div` n) by nia. congruence.
Qed.

(** ** Learning a view *)

Lemma core_learn_p xs m v1 v2 l v :
  core xs m v1 v2 l → good m (v_puts v1) (v_gets v2) v →
  core xs m (join v1 v) v2 l ∧ v_write (join v1 v) = v_write v1 ∧
  v_puts (join v1 v) = v_puts v1 ∧ v_read v1 ≤ v_read (join v1 v).
Proof.
  intros [] Hv. pose proof (good_seen _ _ _ _ Hv WriteIndex) as Hw. simpl in Hw.
  pose proof (good_bound _ _ _ _ Hv) as [Hp Hg].
  assert (v_puts (join v1 v) = v_puts v1) as Ep by (simpl; lia).
  assert (v_write (join v1 v) = v_write v1) as Ew by (simpl; lia).
  split_and!; [|done|done|simpl; lia].
  split; rewrite ?Ep, ?Ew; try done; [by apply good_join|]. simpl. lia.
Qed.

Lemma core_learn_c xs m v1 v2 l v :
  core xs m v1 v2 l → good m (v_puts v1) (v_gets v2) v →
  core xs m v1 (join v2 v) l ∧ v_read (join v2 v) = v_read v2 ∧
  v_gets (join v2 v) = v_gets v2 ∧ v_write v2 ≤ v_write (join v2 v).
Proof.
  intros [] Hv. pose proof (good_seen _ _ _ _ Hv ReadIndex) as Hw. simpl in Hw.
  pose proof (good_bound _ _ _ _ Hv) as [Hp Hg].
  assert (v_gets (join v2 v) = v_gets v2) as Eg by (simpl; lia).
  assert (v_read (join v2 v) = v_read v2) as Er by (simpl; lia).
  split_and!; [|done|done|simpl; lia].
  split; rewrite ?Eg, ?Er; try done. by apply good_join.
Qed.

Lemma core_tell xs m v1 v2 l (t : thread) :
  core xs m v1 v2 l → core xs m v1 v2 ((if t is Producer then v1 else v2) :: l).
Proof. intros []. split; try done. constructor; [by destruct t|done]. Qed.

(** ** Loads *)

Lemma load_runs xs m v1 v2 l i n v :
  core xs m v1 v2 l → good m (v_puts v1) (v_gets v2) v →
  ∃ t msg, seen i v ≤ t ∧ stores i m !! t = Some msg ∧
    load i n (m, v) = Done (t `mod` size m, (m, join v (released msg))).
Proof.
  intros Hc Hv. pose proof (good_seen _ _ _ _ Hv i) as Hs.
  set (t := seen i v `max` (n `min` (length (stores i m) - 1))).
  destruct (lookup_lt_is_Some_2 (stores i m) t) as [msg Hm]; [unfold t; lia|].
  destruct (core_msgs _ _ _ _ _ Hc i t msg Hm) as (Hval & Hseen & _).
  exists t, msg. split_and!; [unfold t; lia|done|].
  unfold load. rewrite bind_get. fold t. rewrite Hm, bind_put, Hval. unfold mret, M_ret.
  do 3 f_equal. rewrite join_absorb; [done|]. unfold vle. destruct i; simpl in *; lia.
Qed.

(** A load of the cursor that only this thread stores. *)
Lemma load_own xs m v1 v2 l i n v :
  core xs m v1 v2 l → good m (v_puts v1) (v_gets v2) v → length (stores i m) = S (seen i v) →
  load i n (m, v) = Done (seen i v `mod` size m, (m, v)).
Proof.
  intros Hc Hv Hl. destruct (load_runs xs m v1 v2 l i n v Hc Hv) as (t & msg & Ht & Hm & E).
  pose proof (lookup_lt_Some _ _ _ Hm). assert (t = seen i v) as -> by lia.
  rewrite E, join_absorb; [done|]. by eapply good_closed.
Qed.

(** A load by the consumer of the write cursor. *)
Lemma load_write xs m v1 v2 l n :
  core xs m v1 v2 l →
  ∃ t v, load WriteIndex n (m, v2) = Done (t `mod` size m, (m, v)) ∧
    core xs m v1 v l ∧ v_read v = v_read v2 ∧ v_gets v = v_gets v2 ∧
    v_write v2 ≤ t ≤ v_write v ∧ v_write v ≤ v_write v1.
Proof.
  intros Hc. destruct (load_runs xs m v1 v2 l WriteIndex n v2 Hc (core_c _ _ _ _ _ Hc))
    as (t & msg & Ht & Hm & E).
  destruct (core_msgs _ _ _ _ _ Hc WriteIndex t msg Hm) as (_ & Hseen & Hgood).
  destruct (core_learn_c _ _ _ _ _ _ Hc Hgood) as (Hc' & Hr & Hg & _).
  exists t, (join v2 (released msg)). split_and!; try done; simpl in *; try lia.
  pose proof (good_seen _ _ _ _ (core_c _ _ _ _ _ Hc') WriteIndex) as Hs.
  pose proof (core_writes _ _ _ _ _ Hc). simpl in *. lia.
Qed.

(** ** Accesses to the slots *)

Lemma stores_set_slots i sl m : stores i (set_slots sl m) = stores i m.
Proof. by destruct i. Qed.

Lemma good_slots sl m p g v : good m p g v → good (set_slots sl m) p g v.
Proof. intros Hg. eapply good_mono; [done..|]. intros i. by rewrite stores_set_slots. Qed.

(** A use of a slot moves the view, but not what it knows of the cursors. *)
Lemma good_used sl m p g p' g' v v' :
  good m p g v → v ⊑ᵥ v' → v_write v' = v_write v → v_read v' = v_read v →
  v_puts v' ≤ p' → v_gets v' ≤ g' → good (set_slots sl m) p' g' v'.
Proof.
  intros [Hs Hc Hp Hr Hb] Hle Ew Er ??. assert (∀ i, seen i v' = seen i v) as Es by (by intros []).
  split; try done; [intros i|intros i t msg|destruct Hle; lia|lia]; rewrite Es, stores_set_slots; [done|].
  intros Ht Hm. eapply vle_trans; [by eapply Hc|done].
Qed.

(** The last read of the slot to be written happened before. *)
Lemma put_ordered xs m v1 v2 l s :
  core xs m v1 v2 l → v_puts v1 = v_write v1 → v_write v1 - v_read v1 < size m - 1 →
  slots m !! (v_write v1 `mod` size m) = Some s → read_at s ≤ v_gets v1.
Proof.
  intros [] Hp Hroom Hs. destruct (decide (v_write v1 < size m)) as [Hlt|Hge].
  { rewrite Nat.mod_small in Hs by done. rewrite (core_fresh0 _ _ Hs); lia. }
  set (j := v_write v1 - size m).
  assert (j `mod` size m = v_write v1 `mod` size m) as Hj.
  { replace (v_write v1) with (j + 1 * size m) by (unfold j; lia). by rewrite Nat.Div0.mod_add. }
  destruct (lookup_lt_is_Some_2 xs j) as [x Hx]; [unfold j; lia|].
  destruct (core_slots0 j x Hx) as (s' & Hs' & _ & _ & Hread); [unfold j; lia|].
  rewrite Hj in Hs'. simplify_eq.
  pose proof (good_seen _ _ _ _ core_p0 ReadIndex) as Hr. simpl in Hr.
  destruct (lookup_lt_is_Some_2 (reads m) (j + 2)) as [msg Hm]; [unfold j; lia|].
  specialize (Hread msg Hm).
  pose proof (good_closed _ _ _ _ core_p0 ReadIndex (j + 2) msg ltac:(simpl; unfold j; lia) Hm)
    as (_ & _ & _ & ?). lia.
Qed.

Lemma put_core xs m v1 v2 l x :
  core xs m v1 v2 l → v_puts v1 = v_write v1 → v_write v1 - v_read v1 < size m - 1 →
  ∃ m', put (v_write v1 `mod` size m) x (m, v1) =
          Done (tt, (m', mkView (v_write v1) (v_read v1) (S (v_write v1)) (v_gets v1))) ∧
        size m' = size m ∧
        core (xs ++ [x]) m' (mkView (v_write v1) (v_read v1) (S (v_write v1)) (v_gets v1)) v2 l.
Proof.
  intros Hc Hp Hroom. set (w := v_write v1 `mod` size m).
  assert (w < size m) as Hw by (apply Nat.mod_upper_bound; destruct Hc; lia).
  destruct (lookup_lt_is_Some_2 (slots m) w Hw) as [s Hs].
  pose proof (put_ordered _ _ _ _ _ s Hc Hp Hroom Hs) as Hord.
  eexists. split_and!.
  { unfold put. rewrite bind_get, Hs, decide_True, Hp by done. reflexivity. }
  { simpl. by rewrite length_insert. }
  destruct Hc. assert (∀ v, good m (v_puts v1) (v_gets v2) v → ∀ sl,
    good (set_slots sl m) (S (v_write v1)) (v_gets v2) v) as Hgood.
  { intros v Hv sl. apply good_slots. eapply good_mono; [done|lia..|done]. }
  split; simpl; rewrite ?length_insert; try done.
  - rewrite length_app. simpl. lia.
  - pose proof (good_bound _ _ _ _ core_p0).
    eapply good_used; [exact core_p0|..]; unfold vle; simpl; (done || lia).
  - by apply Hgood.
  - eapply Forall_impl; [exact core_told0|]. intros v Hv. by apply Hgood.
  - intros i t msg Hm. rewrite stores_set_slots in Hm.
    destruct (core_msgs0 i t msg Hm) as (? & ? & ?). split_and!; [done..|]. by apply Hgood.
  - lia.
  - intros i s' Hs' Hi. rewrite length_app in Hi. simpl in Hi.
    rewrite list_lookup_insert_ne in Hs'; [apply (core_fresh0 i s' Hs'); lia|].
    intros E. pose proof (Nat.Div0.mod_le (v_write v1) (size m)). unfold w in E. lia.
  - intros i s' Hs'. apply list_lookup_insert_Some in Hs' as [(<- & <- & _)|[_ Hs']]; simpl; eauto.
  - intros j y Hy Hj. rewrite length_app in Hj. simpl in Hj.
    destruct (decide (j < length xs)) as [Hlt|Hge].
    + rewrite lookup_app_l in Hy by done. destruct (core_slots0 j y Hy) as (s' & Hs' & ?); [lia|].
      exists s'. split; [|done]. rewrite list_lookup_insert_ne; [done|].
      intros E. assert (j = v_write v1); [apply (mod_inj (size m)); [lia..|by symmetry]|lia].
    + pose proof (lookup_lt_Some _ _ _ Hy) as Hlt. rewrite length_app in Hlt. simpl in Hlt.
      assert (j = length xs) as -> by lia. rewrite list_lookup_middle in Hy by done. simplify_eq.
      exists (mkSlot y (S (v_write v1)) (read_at s)).
      rewrite core_len0, Hp, list_lookup_insert_eq by done. split_and!; [done..|].
      intros msg Hm. apply lookup_lt_Some in Hm.
      pose proof (good_seen _ _ _ _ core_p0 ReadIndex) as Hr. simpl in Hr.
      pose proof (good_reads _ _ _ _ core_c0).
      pose proof (good_seen _ _ _ _ core_c0 WriteIndex) as Hr2. simpl in Hr2. lia.
Qed.

(** A read by the consumer of the slot it holds. *)
Lemma get_core xs m v1 v2 l j :
  core xs m v1 v2 l → v_read v2 = S j →
  ∃ x m', xs !! j = Some x ∧ size m' = size m ∧
    get (j `mod` size m) (m, v2) =
      Done (x, (m', mkView (v_write v2) (v_read v2) (v_puts v2) (S (v_gets v2)))) ∧
    core xs m' v1 (mkView (v_write v2) (v_read v2) (v_puts v2) (S (v_gets v2))) l.
Proof.
  intros Hc Hj. pose proof (good_seen _ _ _ _ (core_c _ _ _ _ _ Hc) WriteIndex) as Hw.
  pose proof (good_seen _ _ _ _ (core_p _ _ _ _ _ Hc) ReadIndex) as Hr. simpl in *.
  destruct Hc. pose proof (good_reads _ _ _ _ core_c0). pose proof (good_puts _ _ _ _ core_c0).
  pose proof (good_puts _ _ _ _ core_p0).
  destruct (lookup_lt_is_Some_2 xs j) as [x Hx]; [lia|].
  destruct (core_slots0 j x Hx) as (s & Hs & Hcont & Hwr & _); [lia|].
  exists x. eexists. split_and!; [done|..].
  2:{ unfold get. rewrite bind_get, Hs, decide_True, bind_put, Hcont by lia. reflexivity. }
  { simpl. by rewrite length_insert. }
  set (sl := <[_ := _]> (slots m)).
  assert (∀ v, good m (v_puts v1) (v_gets v2) v →
    good (set_slots sl m) (v_puts v1) (S (v_gets v2)) v) as Hgood.
  { intros v Hv. apply good_slots. eapply good_mono; [done|lia..|done]. }
  assert (size (set_slots sl m) = size m) as Hsz by (unfold sl; simpl; by rewrite length_insert).
  split; rewrite ?Hsz; try done.
  - by apply Hgood.
  - pose proof (good_bound _ _ _ _ core_c0).
    eapply good_used; [exact core_c0|..]; unfold vle; simpl; (done || lia).
  - eapply Forall_impl; [exact core_told0|]. intros v Hv. by apply Hgood.
  - intros i t msg Hm. rewrite stores_set_slots in Hm.
    destruct (core_msgs0 i t msg Hm) as (? & ? & ?). split_and!; [done..|]. by apply Hgood.
  - intros i s' Hs' Hi. unfold sl in Hs'. simpl in Hs'.
    apply list_lookup_insert_Some in Hs' as [(<- & _ & _)|[_ Hs']]; [|by eapply core_fresh0].
    pose proof (Nat.Div0.mod_le j (size m)). lia.
  - intros i s' Hs'. apply list_lookup_insert_Some in Hs' as [(_ & <- & _)|[_ Hs']]; simpl; [done|].
    pose proof (core_read_at0 _ _ Hs'). lia.
  - intros j' y Hy Hj'. destruct (core_slots0 j' y Hy Hj') as (s' & Hs' & ? & ? & Hread).
    destruct (decide (j' `mod` size m = j `mod` size m)) as [E|Hne].
    + rewrite E in *. simplify_eq. exists (mkSlot (content s) (written s) (S (v_gets v2))).
      unfold sl. simpl. rewrite list_lookup_insert_eq by (by eapply lookup_lt_Some).
      split_and!; [done..|]. intros msg Hm. apply lookup_lt_Some in Hm.
      assert (j' = j); [|lia]. pose proof (lookup_lt_Some _ _ _ Hy).
      symmetry. apply (mod_inj (size m)); [lia..|done].
    + exists s'. unfold sl. simpl. by rewrite list_lookup_insert_ne.
Qed.

(** ** Stores *)

Definition bump (i : cursor) v : view := set_seen i (S (seen i v)) v.
Definition stored (i : cursor) (x : nat) m v : memory :=
  set_stores i (stores i m ++ [mkMessage x (bump i v)]) m.

Lemma store_run i x m v :
  length (stores i m) = S (seen i v) → store i x (m, v) = Done (tt, (stored i x m v, bump i v)).
Proof. intros E. unfold store. rewrite bind_get, E. reflexivity. Qed.

Lemma stores_stored i j x m v :
  stores j (stored i x m v) = stores j m ++ (if decide (i = j) then [mkMessage x (bump i v)] else []).
Proof. by destruct i, j; simpl; rewrite ?app_nil_r. Qed.

Lemma size_stored i x m v : size (stored i x m v) = size m.
Proof. by destruct i. Qed.

Lemma bump_le i v : v ⊑ᵥ bump i v.
Proof. destruct i; unfold vle; simpl; lia. Qed.

Lemma good_stored i x m p g v v' : good m p g v' → good (stored i x m v) p g v'.
Proof.
  intros Hg. eapply good_mono; [done..|]. intros j. rewrite stores_stored. by eexists.
Qed.

Lemma good_bump i x m p g v :
  good m p g v → length (stores i m) = S (seen i v) →
  v_write (bump i v) ≤ v_puts v → v_read (bump i v) ≤ v_write (bump i v) →
  good (stored i x m v) p g (bump i v).
Proof.
  intros Hg Hl Hw Hr. pose proof Hg as [Hs Hc Hp Hr' Hb]. split.
  - intros j. specialize (Hs j). destruct i, j; simpl in *; rewrite ?length_app; simpl; lia.
  - intros j t msg Ht Hm. rewrite stores_stored in Hm. destruct (decide (t < length (stores j m))).
    + rewrite lookup_app_l in Hm by done. eapply vle_trans; [|apply bump_le].
      eapply Hc; [|done]. destruct i, j; simpl in *; lia.
    + rewrite lookup_app_r in Hm by lia. case_decide; [|done].
      apply list_lookup_singleton_Some in Hm as [_ <-]. unfold vle. simpl. lia.
  - by destruct i.
  - done.
  - by destruct i.
Qed.

(** The stores after one more, when it follows the rule. *)
Lemma msgs_stored i x m p g v :
  (∀ j t msg, stores j m !! t = Some msg →
     value msg = t `mod` size m ∧ seen j (released msg) = t ∧ good m p g (released msg)) →
  good (stored i x m v) p g (bump i v) → length (stores i m) = S (seen i v) →
  x = S (seen i v) `mod` size m →
  ∀ j t msg, stores j (stored i x m v) !! t = Some msg →
    value msg = t `mod` size m ∧ seen j (released msg) = t ∧
    good (stored i x m v) p g (released msg).
Proof.
  intros Hms Hg Hl -> j t msg Hm. rewrite stores_stored in Hm.
  apply lookup_app_Some in Hm as [Hm|[Hle Hm]].
  - destruct (Hms j t msg Hm) as (? & ? & ?). split_and!; [done..|]. by apply good_stored.
  - case_decide; [subst j|done]. apply list_lookup_singleton_Some in Hm as [Ht <-]. simpl.
    assert (t = S (seen i v)) as -> by lia. split_and!; [done| |done]. by destruct i.
Qed.

Lemma store_core_p xs m v1 v2 l :
  core xs m v1 v2 l → v_puts v1 = S (v_write v1) →
  let m' := stored WriteIndex (S (v_write v1) `mod` size m) m v1 in
  core xs m' (bump WriteIndex v1) v2 l.
Proof.
  intros [] Hp m'. assert (size m' = size m) as Hsz by apply size_stored.
  assert (good m' (v_puts v1) (v_gets v2) (bump WriteIndex v1)) as Hg.
  { pose proof (good_reads _ _ _ _ core_p0). by apply good_bump; simpl; try lia. }
  split; rewrite ?Hsz; try done.
  - simpl. rewrite length_app. simpl. lia.
  - by apply good_stored.
  - eapply Forall_impl; [exact core_told0|]. intros v. apply good_stored.
  - by apply msgs_stored.
Qed.

Lemma store_core_c xs m v1 v2 l :
  core xs m v1 v2 l → v_read v2 < v_write v2 →
  let m' := stored ReadIndex (S (v_read v2) `mod` size m) m v2 in
  core xs m' v1 (bump ReadIndex v2) l.
Proof.
  intros [] Hk m'. assert (size m' = size m) as Hsz by apply size_stored.
  assert (good m' (v_puts v1) (v_gets v2) (bump ReadIndex v2)) as Hg.
  { pose proof (good_puts _ _ _ _ core_c0). by apply good_bump; simpl; try lia. }
  split; rewrite ?Hsz; try done.
  - simpl. rewrite length_app. simpl. lia.
  - by apply good_stored.
  - eapply Forall_impl; [exact core_told0|]. intros v. apply good_stored.
  - by apply msgs_stored.
  - intros j x Hx Hj. destruct (core_slots0 j x Hx Hj) as (s & Hs & ? & ? & Hread).
    exists s. split_and!; [done..|]. intros msg Hm. simpl in Hm.
    apply lookup_app_Some in Hm as [Hm|[_ Hm]]; [by apply Hread|].
    apply list_lookup_singleton_Some in Hm as [_ <-]. simpl. by eapply core_read_at0.
Qed.

(** ** Steps *)

(** The write cursor is never a whole round ahead of the read cursor. *)
Lemma core_bound xs m v1 v2 l t :
  core xs m v1 v2 l → v_write v2 ≤ t ≤ v_write v1 ∨ v_write v2 = t →
  v_read v2 ≤ t < v_read v2 + size m.
Proof.
  intros [] Ht. pose proof (good_seen _ _ _ _ core_p0 ReadIndex).
  pose proof (good_seen _ _ _ _ core_c0 WriteIndex).
  pose proof (good_puts _ _ _ _ core_p0). pose proof (good_reads _ _ _ _ core_c0).
  simpl in *. lia.
Qed.

(** The item on its way into the queue. *)
Definition incoming (pc : producer (T := T)) : list T :=
  match pc with P_slot x | P_write x _ => [x] | _ => [] end.

(** How many items the consumer has returned. *)
Definition returned v (pc : consumer) : nat :=
  match pc with C_ret (Some _) => v_read v - 1 | _ => v_read v end.

Lemma next_index_runs m v i :
  0 < size m → next_index i (m, v) = Done (S i `mod` size m, (m, v)).
Proof. intros. unfold next_index. rewrite bind_get, decide_False by (simpl; lia). done. Qed.

Definition is_ret_pop (e : event (T := T)) : bool := if e is RetPop _ then true else false.

Lemma not_ret_pop e : is_ret_pop e = false → pops [e] = [].
Proof. by destruct e as [| | | |[]|]. Qed.

(** What a step of the producer does. *)
Definition producer_does xs (s : state) (pc : producer) x n : Prop :=
  ∃ e m v pc' ys,
    producer_step x n pc (mem s, vp s) = Done ((e, pc'), (m, v)) ∧
    inv (xs ++ ys) (mkState m v (vc s) pc' (cons s) (told s)) ∧
    size m = size (mem s) ∧
    xs ++ incoming pc ++ pushes [e] = (xs ++ ys) ++ incoming pc' ∧ is_ret_pop e = false.

(** A step that writes no slot. *)
Lemma producer_does_same xs (s : state) pc x n e m v pc' :
  producer_step x n pc (mem s, vp s) = Done ((e, pc'), (m, v)) →
  inv xs (mkState m v (vc s) pc' (cons s) (told s)) → size m = size (mem s) →
  incoming pc ++ pushes [e] = incoming pc' → is_ret_pop e = false → producer_does xs s pc x n.
Proof.
  intros E Hi Hsz Hpush Hpop. exists e, m, v, pc', []. rewrite app_nil_r.
  split_and!; [done..|by f_equal|done].
Qed.

Lemma producer_inv xs s x n :
  inv xs s → (prod s = P_idle → room s) → producer_does xs s (prod s) x n.
Proof.
  destruct s as [m v1 v2 pp cc l]. intros [Hc Hp Hk] Hroom. simpl in *.
  pose proof (core_p _ _ _ _ _ Hc) as Hv. pose proof (core_size _ _ _ _ _ Hc) as Hn.
  pose proof (load_own _ _ _ _ _ WriteIndex n v1 Hc Hv (core_writes _ _ _ _ _ Hc)) as Hld.
  destruct pp as [|y|y w|y|y w|]; simpl in *.
  - eapply producer_does_same; [reflexivity|split; simpl|done|done|done]; [done| |done].
    split; [done|by apply Hroom].
  - eapply producer_does_same; [exact (bind_done _ _ _ _ _ Hld)|by split|done|done|done].
  - destruct Hp as (-> & Hpw & Hr). destruct (put_core _ _ _ _ _ y Hc Hpw Hr) as (m' & E & Hsz & Hc').
    exists Tau, m', (mkView (v_write v1) (v_read v1) (S (v_write v1)) (v_gets v1)), (P_load y), [y].
    simpl. rewrite (bind_done _ _ _ _ _ E), !app_nil_r. split_and!; [done| |done..].
    split; simpl; rewrite ?Hsz; done.
  - eapply producer_does_same; [exact (bind_done _ _ _ _ _ Hld)|by split|done|done|done].
  - destruct Hp as (-> & Hpw). pose proof (store_core_p _ _ _ _ _ Hc Hpw) as Hc'.
    apply (producer_does_same _ _ _ _ _ Tau
      (stored WriteIndex (S (v_write v1) `mod` size m) m v1) (bump WriteIndex v1) P_ret); [|split|done|done|done]; simpl.
    { rewrite (bind_done _ _ _ _ _ (next_index_runs m v1 _ Hn)), succ_mod_mod by done.
      exact (bind_done _ _ _ _ _ (store_run WriteIndex _ m v1 (core_writes _ _ _ _ _ Hc))). }
    all: rewrite ?size_stored; done.
  - eapply producer_does_same; [reflexivity|by split|done|done|done].
Qed.

(** The consumer knows of an item, and its pop has not missed it. *)
Definition promised n v (pc : consumer) : Prop :=
  match pc with
  | C_hold _ | C_empty | C_r _ => v_read v < v_write v
  | C_w w => w ≠ v_read v `mod` n
  | C_ret p => p ≠ None
  | _ => True
  end.

(** What a step of the consumer does. *)
Definition consumer_does xs (s : state) (pc : consumer) b n : Prop :=
  ∃ e m v pc',
    consumer_step b n pc (mem s, vc s) = Done ((e, pc'), (m, v)) ∧
    inv xs (mkState m (vp s) v (prod s) pc' (told s)) ∧ size m = size (mem s) ∧
    take (returned (vc s) pc) xs ++ pops [e] = take (returned v pc') xs ∧ pushes [e] = [] ∧
    (promised (size m) (vc s) pc → (∀ o, e = RetPop o → o ≠ None) ∧
       ((∀ o, e ≠ RetPop o) → promised (size m) v pc')).

(** The load of the second cursor by [empty()]. *)
Lemma empty_ok n v r w t :
  0 < n → r = v_read v `mod` n → w = t `mod` n → v_read v ≤ t ≤ v_write v →
  consumer_ok n v (if decide (r = w) then C_ret None else C_item) ∧
  returned v (if decide (r = w) then C_ret None else C_item) = v_read v.
Proof.
  intros Hn -> -> Ht. case_decide as E; [done|]. split; [|done]. simpl.
  destruct (decide (t = v_read v)) as [->|]; [done|lia].
Qed.

(** Two cursors that differ by less than a round are told apart. *)
Lemma cursors_ne n k t : k < t < k + n → k `mod` n ≠ t `mod` n.
Proof. intros Ht E. apply (mod_inj n) in E; lia. Qed.

(** A step that returns no item. *)
Lemma consumer_does_same xs (s : state) pc b n m v pc' :
  consumer_step b n pc (mem s, vc s) = Done ((Tau, pc'), (m, v)) →
  inv xs (mkState m (vp s) v (prod s) pc' (told s)) → size m = size (mem s) →
  returned (vc s) pc = returned v pc' →
  (promised (size m) (vc s) pc → promised (size m) v pc') → consumer_does xs s pc b n.
Proof.
  intros E Hi Hsz Hr Hp. exists Tau, m, v, pc'. rewrite app_nil_r, Hr. split_and!; try done.
  intros Hq. split; [done|]. intros _. by apply Hp.
Qed.

(** The loads of [empty()] after the first. *)
Lemma consumer_empty xs (s : state) pc b n v r w t :
  (pc = C_r r ∨ pc = C_w w) →
  consumer_step b n pc (mem s, vc s) =
    Done ((Tau, if decide (r = w) then C_ret None else C_item), (mem s, v)) →
  core xs (mem s) (vp s) v (told s) → producer_ok (size (mem s)) (vp s) (prod s) →
  r = v_read v `mod` size (mem s) → w = t `mod` size (mem s) →
  v_read v ≤ t ≤ v_write v → v_write v ≤ v_write (vp s) →
  v_read v = v_read (vc s) → (pc = C_r r → v_write (vc s) ≤ t) → consumer_does xs s pc b n.
Proof.
  intros Hpc E Hc Hp -> -> Ht Hw Hr Hle. pose proof (core_size _ _ _ _ _ Hc) as Hn.
  destruct (empty_ok (size (mem s)) v _ _ t Hn eq_refl eq_refl Ht) as [Hok Hret].
  eapply consumer_does_same; [exact E|by split|done| |].
  - rewrite Hret, Hr. by destruct Hpc as [-> | ->].
  - intros Hpr. rewrite decide_False; [done|]. destruct Hpc as [-> | ->]; simpl in Hpr.
    + specialize (Hle eq_refl). apply cursors_ne.
      assert (v_read v ≤ v_write (vp s) < v_read v + size (mem s)); [|lia].
      apply (core_bound _ _ _ _ _ _ Hc). lia.
    + rewrite Hr. by apply not_eq_sym.
Qed.

Lemma consumer_ret xs (s : state) b n p :
  inv xs s → cons s = C_ret p → consumer_does xs s (C_ret p) b n.
Proof.
  destruct s as [m v1 v2 pp cc l]. intros [Hc Hp Hk] Ecc. simpl in *. subst cc. unfold consumer_does.
  destruct p as [i|]; simpl in *.
  - destruct (Hk i eq_refl) as (j & Hj & ->).
    destruct (get_core _ _ _ _ _ j Hc Hj) as (x & m' & Hx & Hsz & E & Hc').
    exists (RetPop (Some x)), m', (mkView (v_write v2) (v_read v2) (v_puts v2) (S (v_gets v2))),
      (C_hold (Some (j `mod` size m))).
    rewrite bind_bind, (bind_done _ _ _ _ _ E). split_and!; [done| |done| |done|].
    + split; simpl; rewrite ?Hsz; [done..|]. intros i [= <-]. by exists j.
    + simpl. rewrite Hj, Nat.sub_succ, Nat.sub_0_r. by rewrite (take_S_r _ _ x).
    + intros _. split; [by intros o [= <-]|]. intros Hno. by destruct (Hno (Some x)).
  - exists (RetPop None), m, v2, (C_hold None). rewrite app_nil_r.
    split_and!; [done|by split|done..|]. intros Hne. by destruct Hne.
Qed.

Lemma consumer_inv xs s b n : inv xs s → consumer_does xs s (cons s) b n.
Proof.
  intros Hi. pose proof Hi as [Hc Hp Hk]. destruct s as [m v1 v2 pp cc l]. simpl in *.
  pose proof (core_c _ _ _ _ _ Hc) as Hv. pose proof (core_size _ _ _ _ _ Hc) as Hn.
  pose proof (load_own _ _ _ _ _ ReadIndex n v2 Hc Hv (core_reads _ _ _ _ _ Hc)) as Hld.
  destruct (load_write _ _ _ _ _ n Hc) as (t & v & Hlw & Hcw & Hr & Hg & Ht & Hle).
  pose proof (good_reads _ _ _ _ Hv) as Hrw.
  pose proof (good_seen _ _ _ _ Hv WriteIndex) as Hws.
  pose proof (core_writes _ _ _ _ _ Hc) as Hlw'.
  destruct cc as [p| |r|w| |i|i r|p]; simpl in *.
  - exists CallPop, m, v2, C_empty. rewrite app_nil_r. split_and!; [done|by split|done..].
  - destruct b; (eapply consumer_does_same; simpl).
    + exact (bind_done _ _ _ _ _ Hld).
    + by split.
    + done.
    + done.
    + done.
    + exact (bind_done _ _ _ _ _ Hlw).
    + split; [done..|]. exists t. simpl. split; [done|lia].
    + done.
    + simpl; by rewrite Hr.
    + simpl. intros Hpr. rewrite Hr. apply not_eq_sym, cursors_ne.
      assert (v_read v2 ≤ t < v_read v2 + size m); [|lia]. apply (core_bound _ _ _ _ _ _ Hc). lia.
  - eapply (consumer_empty xs _ _ b n v r _ t); simpl; try done; try lia; [by left|..].
    { exact (bind_done _ _ _ _ _ Hlw). } by rewrite Hr.
  - destruct Hk as (t' & -> & Ht').
    eapply (consumer_empty xs _ _ b n v2 _ _ t'); simpl; try done; try lia; [by right|].
    exact (bind_done _ _ _ _ _ Hld).
  - apply (consumer_does_same _ _ _ _ _ m v2 (C_load (v_read v2 `mod` size m))); [|by split|done..].
    simpl. rewrite (bind_done _ _ _ _ _ Hld), bind_get.
    rewrite decide_True by (apply Nat.mod_upper_bound; simpl; lia). done.
  - destruct Hk as [-> Hk].
    eapply consumer_does_same; [exact (bind_done _ _ _ _ _ Hld)|by split|done..].
  - destruct Hk as (-> & -> & Hk). pose proof (store_core_c _ _ _ _ _ Hc Hk) as Hc'.
    apply (consumer_does_same _ _ _ _ _ (stored ReadIndex (S (v_read v2) `mod` size m) m v2)
      (bump ReadIndex v2) (C_ret (Some (v_read v2 `mod` size m)))); simpl.
    { rewrite (bind_done _ _ _ _ _ (next_index_runs m v2 _ Hn)), succ_mod_mod by done.
      exact (bind_done _ _ _ _ _ (store_run ReadIndex _ m v2 (core_reads _ _ _ _ _ Hc))). }
    all: rewrite ?size_stored; try done.
    2: by rewrite Nat.sub_0_r.
    split; simpl; [done..|]. intros i [= <-]. by exists (v_read v2).
  - by apply consumer_ret.
Qed.

(** A thread that learns a view loses nothing. *)
Lemma learn_p_inv xs (s : state) v :
  inv xs s → v ∈ told s →
  inv xs (mkState (mem s) (join (vp s) v) (vc s) (prod s) (cons s) (told s)).
Proof.
  intros [Hc Hp Hk] Hv. pose proof (core_told _ _ _ _ _ Hc) as Hl.
  rewrite Forall_forall in Hl. destruct (core_learn_p _ _ _ _ _ v Hc (Hl v Hv)) as (Hc' & Ew & Ep & Er).
  split; simpl; [done| |done].
  destruct (prod s); simpl in *; rewrite ?Ew, ?Ep; destruct_and?; subst; split_and?; try done; lia.
Qed.

Lemma learn_c_inv xs (s : state) v :
  inv xs s → v ∈ told s →
  inv xs (mkState (mem s) (vp s) (join (vc s) v) (prod s) (cons s) (told s)) ∧
  v_read (join (vc s) v) = v_read (vc s) ∧ v_write (vc s) ≤ v_write (join (vc s) v).
Proof.
  intros [Hc Hp Hk] Hv. pose proof (core_told _ _ _ _ _ Hc) as Hl.
  rewrite Forall_forall in Hl. destruct (core_learn_c _ _ _ _ _ v Hc (Hl v Hv)) as (Hc' & Er & _ & Ew).
  split; [|done]. split; simpl; [done..|]. revert Er Ew. generalize (join (vc s) v).
  clear Hc'. intros v' Er Ew. destruct (cons s) as [p| |r|w| |i|i r|p]; simpl in *; unfold holds in *; rewrite ?Er;
    destruct_and?; subst; split_and?; try done; try lia.
  destruct Hk as (t & -> & Ht). exists t. split; [done|lia].
Qed.

Lemma use_inv xs (s : state) i x m v :
  inv xs s → cons s = C_hold (Some i) → get i (mem s, vc s) = Done (x, (m, v)) →
  inv xs (mkState m (vp s) v (prod s) (cons s) (told s)) ∧
  v_read v = v_read (vc s) ∧ v_write v = v_write (vc s) ∧ xs !! (v_read (vc s) - 1) = Some x.
Proof.
  intros [Hc Hp Hk] Ecc E. rewrite Ecc in Hk. destruct (Hk i eq_refl) as (j & Hj & ->).
  destruct (get_core _ _ _ _ _ j Hc Hj) as (y & m' & Hy & Hsz & E' & Hc').
  rewrite E in E'. simplify_eq. rewrite Hj in *. simpl. rewrite Nat.sub_0_r.
  split_and!; [|done..]. split; simpl; rewrite ?Hsz, ?Ecc; [done..|].
  intros i [= <-]. by exists j.
Qed.

Lemma weak_init_inv d n : 0 < n → inv [] (init d n).
Proof.
  intros Hn. assert (∀ m : memory, writes m = [mkMessage 0 start_view] →
    reads m = [mkMessage 0 start_view] → good m 0 0 start_view) as Hg.
  { intros m Hw Hr. split; simpl; try lia.
    - intros []; simpl; [rewrite Hw|rewrite Hr]; simpl; lia.
    - intros [] t msg Ht Hm; simpl in *; rewrite ?Hw, ?Hr in Hm;
        by apply list_lookup_singleton_Some in Hm as [_ <-]. }
  split; simpl; [|done|by intros i]. split; simpl; rewrite ?length_replicate; try done; try lia.
  - by apply Hg.
  - by apply Hg.
  - intros [] t msg Hm; simpl in *; apply list_lookup_singleton_Some in Hm as [-> <-]; simpl;
      (split_and!; [by rewrite Nat.Div0.mod_0_l|done|by apply Hg]).
  - intros i s Hs _. by apply lookup_replicate in Hs as [-> _].
  - intros i s Hs. apply lookup_replicate in Hs as [-> _]. simpl. lia.
Qed.

(** ** Executions *)

(** What an execution has pushed and popped. *)
Record tracked xs es (s : state) : Prop := {
  tracked_inv : inv xs s;
  tracked_pushes : pushes es = xs ++ incoming (prod s);
  tracked_pops : pops es = take (returned (vc s) (cons s)) xs;
}.

Lemma weak_pushes_snoc (es : list (event (T := T))) e : pushes (es ++ [e]) = pushes es ++ pushes [e].
Proof. apply omap_app. Qed.
Lemma weak_pops_snoc (es : list (event (T := T))) e : pops (es ++ [e]) = pops es ++ pops [e].
Proof. apply omap_app. Qed.

Lemma returned_le xs s : inv xs s → returned (vc s) (cons s) ≤ length xs.
Proof.
  intros [Hc _ _]. pose proof (core_len _ _ _ _ _ Hc). pose proof (core_c _ _ _ _ _ Hc) as [].
  assert (returned (vc s) (cons s) ≤ v_read (vc s)) by (destruct (cons s) as [| | | | | | |[]]; simpl; lia).
  lia.
Qed.

Lemma step_tracked xs es s t e s' :
  tracked xs es s → disciplined s e → step s t e s' → ∃ ys, tracked (xs ++ ys) (es ++ [e]) s'.
Proof.
  intros [Hi Hpu Hpo] Hd Hs. pose proof (returned_le _ _ Hi) as Hle.
  assert (∀ s1, inv xs s1 → prod s1 = prod s → e = Tau ∨ (∃ x, e = Use x) →
    returned (vc s1) (cons s1) = returned (vc s) (cons s) →
    ∃ ys, tracked (xs ++ ys) (es ++ [e]) s1) as Hsame.
  { intros s1 Hi1 Hp1 He Hr. exists []. rewrite app_nil_r.
    split; [done|rewrite weak_pushes_snoc, Hpu, Hp1|rewrite weak_pops_snoc, Hpo, Hr];
      destruct He as [-> | [x ->]]; simpl; by rewrite app_nil_r. }
  destruct Hs as [x n e pc m v E|b n e pc m v E|i x m v Ecc E|t|v Hv|v Hv].
  - destruct (producer_inv xs s x n Hi) as (e' & m' & v' & pc' & ys & E' & Hi' & _ & Hx & Hno).
    { intros Hidle. apply (Hd x). rewrite Hidle in E. by injection E. }
    rewrite E in E'. simplify_eq. exists ys. split; [done| |].
    + by rewrite weak_pushes_snoc, Hpu, <- app_assoc.
    + rewrite weak_pops_snoc, (not_ret_pop _ Hno), app_nil_r, Hpo. simpl. by rewrite take_app_le.
  - destruct (consumer_inv xs s b n Hi) as (e' & m' & v' & pc' & E' & Hi' & _ & Hx & Hno & _).
    rewrite E in E'. simplify_eq. exists []. rewrite app_nil_r. split; [done| |].
    + by rewrite weak_pushes_snoc, Hno, app_nil_r.
    + by rewrite weak_pops_snoc, Hpo.
  - destruct (use_inv xs s i x m v Hi Ecc E) as (Hi' & Hr & _). apply Hsame; simpl; [done..|by right; eexists|].
    by rewrite Ecc.
  - apply Hsame; simpl; [|done|by left|done]. destruct Hi. split; simpl; [|done..]. by apply core_tell.
  - apply Hsame; simpl; [by apply learn_p_inv|done|by left|done].
  - destruct (learn_c_inv xs s v Hi Hv) as (Hi' & Hr & _). apply Hsame; simpl; [done..|by left|].
    unfold returned. by rewrite Hr.
Qed.

Lemma exec_tracked xs es0 s es s' :
  tracked xs es0 s → exec s es s' → ∃ ys, tracked (xs ++ ys) (es0 ++ es) s'.
Proof.
  intros Ht He. revert xs es0 Ht. induction He as [s|s t e s1 es s' Hd Hs He IH]; intros xs es0 Ht.
  - exists []. by rewrite !app_nil_r.
  - destruct (step_tracked _ _ _ _ _ _ Ht Hd Hs) as [ys Ht1].
    destruct (IH _ _ Ht1) as [zs Ht']. exists (ys ++ zs). by rewrite <- !app_assoc in Ht'.
Qed.

Lemma init_tracked d n : 0 < n → tracked [] [] (init d n).
Proof. intros Hn. split; [by apply weak_init_inv|done|done]. Qed.

(** ** What the consumer knows it does not miss *)

Lemma step_promised xs s t e s' :
  inv xs s → disciplined s e → step s t e s' →
  promised (size (mem s)) (vc s) (cons s) →
  (∀ o, e = RetPop o → o ≠ None) ∧
  (is_ret_pop e = false → promised (size (mem s')) (vc s') (cons s')).
Proof.
  intros Hi Hd Hs Hpr. destruct Hs as [x n e pc m v E|b n e pc m v E|i x m v Ecc E|t|v Hv|v Hv].
  - destruct (producer_inv xs s x n Hi) as (e' & m' & v' & pc' & ys & E' & _ & Hsz & _ & Hno).
    { intros Hidle. apply (Hd x). rewrite Hidle in E. by injection E. }
    rewrite E in E'. simplify_eq. simpl. rewrite Hsz. split; [by intros o ->|done].
  - destruct (consumer_inv xs s b n Hi) as (e' & m' & v' & pc' & E' & _ & Hsz & _ & _ & Hq).
    rewrite E in E'. simplify_eq. rewrite <- Hsz in Hpr. destruct (Hq Hpr) as [Hret Hgo].
    split; [done|]. intros Hf. simpl. apply Hgo. by intros o ->.
  - split; [done|intros _]. simpl. rewrite Ecc in *. simpl in *.
    destruct (use_inv xs s i x m v Hi Ecc E) as (_ & -> & -> & _). done.
  - split; [done|intros _]. done.
  - split; [done|intros _]. done.
  - split; [done|intros _]. destruct (learn_c_inv xs s v Hi Hv) as (_ & Er & Ew).
    simpl. unfold promised in *. rewrite Er. destruct (cons s); (done || lia).
Qed.

Lemma exec_promised xs es0 s es s' :
  tracked xs es0 s → exec s es s' → Forall (λ e, is_ret_pop e = false) es →
  promised (size (mem s)) (vc s) (cons s) → promised (size (mem s')) (vc s') (cons s').
Proof.
  intros Ht He. revert xs es0 Ht. induction He as [|s t e s1 es s' Hd Hs He IH]; intros xs es0 Ht; [done|].
  intros [Hf Hall]%Forall_cons Hpr. destruct (step_tracked _ _ _ _ _ _ Ht Hd Hs) as [ys Ht1].
  destruct (step_promised _ _ _ _ _ (tracked_inv _ _ _ Ht) Hd Hs Hpr) as [_ Hp].
  eapply IH; [exact Ht1|done|]. by apply Hp.
Qed.

(** ** Executions from a list of moves *)

Inductive move :=
| MPush (x : T) (n : nat)
| MPop (read_first : bool) (n : nat)
| MTell (t : thread)
| MLearn (t : thread) (k : nat).

Definition startable (s : state) : bool :=
  match prod s with P_idle => bool_decide (room s) | _ => true end.

(** One move: [None] when it faults or starts a push without room. *)
Definition perform (a : move) (s : state) : option (event (T := T) * state) :=
  match a with
  | MPush x n =>
      match producer_step x n (prod s) (mem s, vp s) with
      | Done ((e, pc), (m, v)) =>
          if startable s
          then Some (e, mkState m v (vc s) pc (cons s) (told s)) else None
      | _ => None
      end
  | MPop b n =>
      match consumer_step b n (cons s) (mem s, vc s) with
      | Done ((e, pc), (m, v)) => Some (e, mkState m (vp s) v (prod s) pc (told s))
      | _ => None
      end
  | MTell t =>
      Some (Tau, mkState (mem s) (vp s) (vc s) (prod s) (cons s)
                   ((if t is Producer then vp s else vc s) :: told s))
  | MLearn t k =>
      v ← told s !! k;
      Some (Tau, if t is Producer
                 then mkState (mem s) (join (vp s) v) (vc s) (prod s) (cons s) (told s)
                 else mkState (mem s) (vp s) (join (vc s) v) (prod s) (cons s) (told s))
  end.

Fixpoint perform_all (l : list move) (s : state) : option (list (event (T := T)) * state) :=
  match l with
  | [] => Some ([], s)
  | a :: l =>
      '(e, s1) ← perform a s;
      '(es, s2) ← perform_all l s1;
      Some (e :: es, s2)
  end.

(** Goes to the last computation of a sequence that returned. *)
Ltac last_step H :=
  repeat (apply bind_inv_done in H as (? & ? & _ & H));
  repeat match type of H with (if decide ?P then _ else _) _ = _ => destruct (decide P) end.

Lemma perform_step a s e s' :
  perform a s = Some (e, s') → disciplined s e ∧ ∃ t, step s t e s'.
Proof.
  destruct a as [x n|b n|t|t k]; simpl; intros E.
  - destruct (producer_step x n (prod s) (mem s, vp s)) as [[[e' pc] [m v]]| | |] eqn:Ep; try done.
    destruct (startable s) eqn:Er; [|done]. simplify_eq.
    split; [|eexists; by eapply step_producer]. intros y ->. unfold startable in Er.
    destruct (prod s); simpl in Ep; last_step Ep; simplify_eq. by apply bool_decide_eq_true in Er.
  - destruct (consumer_step b n (cons s) (mem s, vc s)) as [[[e' pc] [m v]]| | |] eqn:Ep; try done.
    simplify_eq. split; [|eexists; by eapply step_consumer]. intros y ->.
    destruct (cons s); try destruct b; simpl in Ep; last_step Ep; by simplify_eq.
  - simplify_eq. split; [done|]. eexists. apply step_tell.
  - apply bind_Some in E as (v & Hv & E). apply list_elem_of_lookup_2 in Hv.
    simplify_eq. split; [done|]. exists t. destruct t; by constructor.
Qed.

Lemma perform_all_exec l s es s' : perform_all l s = Some (es, s') → exec s es s'.
Proof.
  revert s es. induction l as [|a l IH]; intros s es E; simpl in E; [simplify_eq; constructor|].
  apply bind_Some in E as ([e s1] & Ea & E). apply bind_Some in E as ([es1 s2] & El & E).
  simplify_eq. destruct (perform_step _ _ _ _ Ea) as [Hd [t Hs]].
  econstructor; [done|done|]. by apply IH.
Qed.
End weak.
End QueueWeak.
