(* ===== verification/WeakResults.v ===== *)
(** The results on the queue of lf_queue.h under the memory model of C++
    (QueueWeak.v), with instances on a queue of three slots. *)

From S2P Require Import Prelude Types LFQueue QueueThreads QueueWeak.

Module WeakRuns.
Import QueueThreads QueueWeak.

Section results.
Context {T : Type}.
Implicit Types (s : QueueWeak.state (T := T)).

(** C14: under release and acquire, whatever stores the loads return, no step of
    [push] or [pop] is undefined: slots are in range, and every use of a slot is
    ordered after the last use of it by the other thread (no data race), also the
    reads of the item through the pointer that [pop] returned, which is the item
    popped last; and the items popped are the first of the items pushed, in order.
    A push starts only while its thread knows that there is room. *)
Theorem weak_queue_fifo (d : T) n es s :
  0 < n → QueueWeak.exec (QueueWeak.init d n) es s →
  (∀ x c, ∃ r σ, QueueWeak.producer_step x c (prod s) (mem s, vp s) = Done (r, σ)) ∧
  (∀ b c, ∃ r σ, QueueWeak.consumer_step b c (cons s) (mem s, vc s) = Done (r, σ)) ∧
  (∀ i, cons s = C_hold (Some i) →
     ∃ x σ, get i (mem s, vc s) = Done (x, σ) ∧ last (pops es) = Some x) ∧
  pops es `prefix_of` pushes es.
Proof.
  intros Hn He. destruct (exec_tracked _ _ _ _ _ (init_tracked d n Hn) He) as [xs Ht].
  destruct Ht as [Hi Hpu Hpo]. simpl in *. split_and!.
  - intros x c. destruct (prod s) eqn:Ep; [simpl; eauto|..].
    all: destruct (producer_inv xs s x c Hi) as (? & ? & ? & ? & ? & E & _); [by rewrite Ep|].
    all: rewrite Ep in E; eauto.
  - intros b c. destruct (consumer_inv xs s b c Hi) as (? & ? & ? & ? & E & _). eauto.
  - intros i Ec. pose proof (inv_cons _ _ Hi) as Hh. rewrite Ec in Hh.
    destruct (Hh i eq_refl) as (j & Hj & ->).
    destruct (get_core _ _ _ _ _ j (inv_core _ _ Hi) Hj) as (x & m & Hx & _ & E & _).
    exists x. eexists. split; [exact E|]. rewrite Hpo, Ec. simpl. rewrite Hj.
    rewrite (take_S_r _ _ x) by done. apply last_snoc.
  - rewrite Hpo, Hpu. apply prefix_app_r, prefix_take.
Qed.

(** A pop does not miss a push it knows of: when the consumer has learned, by
    whatever channel, the view the producer had after a number of pushes, and has
    popped fewer items than that, its next [pop] does not return null.  (Without
    such knowledge it may: a load can return an old store.) *)
Theorem weak_pop_sees (d : T) n es1 s1 es2 s2 p es3 s3 o t s4 :
  0 < n →
  QueueWeak.exec (QueueWeak.init d n) es1 s1 → prod s1 = P_idle →
  QueueWeak.exec s1 es2 s2 → vle (vp s1) (vc s2) →
  cons s2 = C_hold p → length (pops (es1 ++ es2)) < length (pushes es1) →
  QueueWeak.exec s2 es3 s3 → Forall (λ e, is_ret_pop e = false) es3 →
  disciplined s3 (RetPop o) → QueueWeak.step s3 t (RetPop o) s4 →
  o ≠ None.
Proof.
  intros Hn He1 Hidle He2 Hle Hhold Hlen He3 Hno Hd Hs.
  destruct (exec_tracked _ _ _ _ _ (init_tracked d n Hn) He1) as [xs1 Ht1].
  destruct (exec_tracked _ _ _ _ _ Ht1 He2) as [xs2 Ht2].
  destruct (exec_tracked _ _ _ _ _ Ht2 He3) as [xs3 Ht3]. simpl in *.
  refine (proj1 (step_promised _ _ _ _ _ (tracked_inv _ _ _ Ht3) Hd Hs _) o eq_refl).
  apply (exec_promised _ _ _ _ _ Ht2 He3 Hno). rewrite Hhold. simpl.
  destruct Ht1 as [Hi1 Hpu1 _], Ht2 as [Hi2 _ Hpo2]. pose proof (returned_le _ _ Hi2) as Hr.
  rewrite Hidle, app_nil_r in Hpu1. rewrite Hhold in *. simpl in *.
  rewrite Hpo2, Hpu1, length_take in Hlen.
  pose proof (core_len _ _ _ _ _ (inv_core _ _ Hi1)) as Hx.
  pose proof (inv_prod _ _ Hi1) as Hp. rewrite Hidle in Hp. simpl in Hp.
  destruct Hle as (Hw & _). lia.
Qed.
End results.

(** ** Runs of a queue with three slots *)

(** The moves [l] from the state [s]. *)
Definition go (l : list (move (T := nat))) s : list event * QueueWeak.state :=
  default ([], s) (perform_all l s).

Lemma go_exec l s : is_Some (perform_all l s) → QueueWeak.exec s (go l s).1 (go l s).2.
Proof. unfold go. intros [[es s'] E]. rewrite E. by apply perform_all_exec in E. Qed.

Definition start : QueueWeak.state := QueueWeak.init 0 3.

(** 5 is pushed; the consumer polls with loads of old stores, learns of the push
    and pops; the producer learns of the pop. *)
Definition pushing : list (move (T := nat)) := repeat (MPush 5 0) 6.
Definition polling : list (move (T := nat)) :=
  MTell Producer :: repeat (MPop true 0) 4 ++ [MLearn Consumer 0].
Definition popping : list (move (T := nat)) := repeat (MPop true 0) 6.
Definition telling : list (move (T := nat)) := [MPop true 0; MTell Consumer; MLearn Producer 0].

Definition full_run : list event * QueueWeak.state :=
  go (pushing ++ polling ++ popping ++ telling) start.

Lemma weak_queue_fifo_witness :
  0 < 3 ∧ QueueWeak.exec start full_run.1 full_run.2 ∧
  full_run.1 !! 10 = Some (RetPop None) ∧ pops full_run.1 = [5] ∧
  pops full_run.1 `prefix_of` pushes full_run.1.
Proof.
  assert (QueueWeak.exec start full_run.1 full_run.2) as He.
  { apply go_exec. by vm_compute; eexists. }
  split_and!; [lia|exact He|by vm_compute..|].
  apply (weak_queue_fifo 0 3 _ _ ltac:(lia) He).
Defined.

Definition run1 := go pushing start.
Definition run2 := go polling run1.2.
Definition run3 := go popping run2.2.

Lemma weak_pop_sees_witness :
  vle (vp run1.2) (vc run2.2) ∧ length (pops (run1.1 ++ run2.1)) < length (pushes run1.1) ∧
  ∃ s4, QueueWeak.step run3.2 Consumer (RetPop (Some 5)) s4 ∧ Some 5 ≠ None.
Proof.
  split_and!; [by vm_compute; repeat split; lia|vm_compute; lia|].
  assert (∃ s4, QueueWeak.step run3.2 Consumer (RetPop (Some 5)) s4) as [s4 Hs].
  { eexists. apply (QueueWeak.step_consumer _ true 0). vm_compute. reflexivity. }
  exists s4. split; [exact Hs|].
  apply (weak_pop_sees 0 3 run1.1 run1.2 run2.1 run2.2 nullptr run3.1 run3.2 (Some 5) Consumer s4).
  - lia.
  - apply go_exec. by vm_compute; eexists.
  - by vm_compute.
  - apply go_exec. by vm_compute; eexists.
  - vm_compute. repeat split; lia.
  - by vm_compute.
  - vm_compute. lia.
  - apply go_exec. by vm_compute; eexists.
  - vm_compute. by repeat constructor.
  - by intros x.
  - exact Hs.
Defined.
End WeakRuns.
