(* ===== verification/TimeUtils.v ===== *)
(** include/utils/time_utils.h and source/utils/time_utils.cpp.  The system clock
    is a parameter: its successive readings, and the length of its tick. *)

From S2P Require Import Prelude Types.
Local Open Scope Z_scope.

Definition NANOS_TO_MICROS : NsTimestampT := 1000.
Definition MICROS_TO_MILLIS : NsTimestampT := 1000.
Definition MILLIS_TO_SECS : NsTimestampT := 1000.
Definition NANOS_TO_MILLIS : NsTimestampT := NANOS_TO_MICROS * MICROS_TO_MILLIS.
Definition NANOS_TO_SECS : NsTimestampT := NANOS_TO_MILLIS * MILLIS_TO_SECS.

(** [system_clock::now().time_since_epoch().count()] at the n-th reading, and the
    nanoseconds of one tick of [system_clock] (1 for libstdc++, 1000 for libc++). *)
Class Clock := {
  system_clock_now : nat → Z;
  ns_per_tick : Z;
}.

(** The product is a [long long].  The time since the epoch fits until the year 2262;
    past that the overflow is undefined in C++, and here it wraps round. *)
Definition duration_cast_ns `{Clock} (count : Z) : NsTimestampT := s64 (count * ns_per_tick).

(** The state is the number of readings so far. *)
Definition timestamp `{Clock} (reads : nat) : NsTimestampT :=
  duration_cast_ns (system_clock_now reads).

Definition getCurrentNsTimestamp `{Clock} : M nat NsTimestampT :=
  reads ← mget;
  mput (S reads);;
  mret (timestamp reads).
