(* ===== verification/OrderBook.v ===== *)
(** include/cppexchange/orderbook.h, class OrderBook: the definitions.

    A book owns a pool of orders and a pool of price levels, a hash map from
    prices to levels, and for each side the pointer to its best level, from which
    the levels are linked.  The response queue, the update queue, the trade id
    counter (passed by reference) and the clock are its environment. *)

From S2P Require Import Prelude Types Memory ObjectPool PriceLevel LFQueue TimeUtils.
Local Open Scope Z_scope.

Module OrderBook.

Record OrderBook := mkBook {
  ticker_id : TickerIdT;
  order_pool : ObjectPool Order;
  price_level_pool : ObjectPool OrdersPriceLevel;
  price_levels : gmap Z ptr;
  best_bids : ptr;
  best_asks : ptr;
}.

Record Env := mkEnv {
  client_response_queue : LFQueue ClientResponse;
  market_update_queue : LFQueue MarketUpdate;
  next_trade_id : TradeIdT;
  clock_reads : nat;
}.

Record St := mkSt { book : OrderBook; env : Env }.

(** The constructor; [price_levels{}] is empty. *)
Definition ctor `{Constants} (ticker_id : TickerIdT) : OrderBook :=
  mkBook ticker_id
    (ObjectPool.ctor Order.default MAX_ORDER_IDS)
    (ObjectPool.ctor OrdersPriceLevel.default MAX_PRICE_LEVELS)
    ∅ nullptr nullptr.

(** *** Access to the members *)

Definition set_order_pool p b :=
  mkBook (ticker_id b) p (price_level_pool b) (price_levels b) (best_bids b) (best_asks b).
Definition set_price_level_pool p b :=
  mkBook (ticker_id b) (order_pool b) p (price_levels b) (best_bids b) (best_asks b).
Definition set_price_levels m b :=
  mkBook (ticker_id b) (order_pool b) (price_level_pool b) m (best_bids b) (best_asks b).
Definition set_best_bids p b :=
  mkBook (ticker_id b) (order_pool b) (price_level_pool b) (price_levels b) p (best_asks b).
Definition set_best_asks p b :=
  mkBook (ticker_id b) (order_pool b) (price_level_pool b) (price_levels b) (best_bids b) p.

Definition set_client_response_queue q e :=
  mkEnv q (market_update_queue e) (next_trade_id e) (clock_reads e).
Definition set_market_update_queue q e :=
  mkEnv (client_response_queue e) q (next_trade_id e) (clock_reads e).
Definition set_next_trade_id i e :=
  mkEnv (client_response_queue e) (market_update_queue e) i (clock_reads e).
Definition set_clock_reads n e :=
  mkEnv (client_response_queue e) (market_update_queue e) (next_trade_id e) n.

Definition with_book (f : OrderBook → OrderBook) (s : St) : St := mkSt (f (book s)) (env s).
Definition with_env (f : Env → Env) (s : St) : St := mkSt (book s) (f (env s)).

Definition member {A} (f : OrderBook → A) : M St A := mgets (λ s, f (book s)).

Definition in_orders {A} : M (ObjectPool Order) A → M St A :=
  zoom (λ s, order_pool (book s)) (λ p, with_book (set_order_pool p)).
Definition in_levels {A} : M (ObjectPool OrdersPriceLevel) A → M St A :=
  zoom (λ s, price_level_pool (book s)) (λ p, with_book (set_price_level_pool p)).

Definition order_at (p : ptr) : M St Order := in_orders (deref p).
Definition level_at (p : ptr) : M St OrdersPriceLevel := in_levels (deref p).

(** The level operations of order.h, on the level at [p] and the book's orders. *)
Definition level_st (l : OrdersPriceLevel) (s : St) : PriceLevel.St (ObjectPool Order) :=
  PriceLevel.mkSt (order_pool (book s)) l.
Definition set_level_st (i : nat) (t : PriceLevel.St (ObjectPool Order)) (s : St) : St :=
  with_book (λ b, set_price_level_pool (mstore (price_level_pool b) i (PriceLevel.this t))
                    (set_order_pool (PriceLevel.mem t) b)) s.
Definition on_level {A} (p : ptr) (m : M (PriceLevel.St (ObjectPool Order)) A) : M St A :=
  l ← level_at p;
  match p with
  | None => mub NullDeref
  | Some i => zoom (level_st l) (set_level_st i) m
  end.

(** *** The environment *)

Definition push_response (r : ClientResponse) : M St unit :=
  zoom (λ s, client_response_queue (env s)) (λ q, with_env (set_client_response_queue q))
    (LFQueue.push r).
Definition push_update (u : MarketUpdate) : M St unit :=
  zoom (λ s, market_update_queue (env s)) (λ q, with_env (set_market_update_queue q))
    (LFQueue.push u).
Definition now `{Clock} : M St NsTimestampT :=
  zoom (λ s, clock_reads (env s)) (λ n, with_env (set_clock_reads n)) getCurrentNsTimestamp.

(** [next_trade_id++] *)
Definition post_increment_trade_id : M St TradeIdT :=
  s ← mget;
  mmodify (with_env (set_next_trade_id (u32 (next_trade_id (env s) + 1))));;
  mret (next_trade_id (env s)).

(** *** Price levels *)

Definition getPriceLevelIndex (price : PriceT) : Z := price.

(** [price_levels[i]]: a missing key is entered with a null pointer. *)
Definition price_levels_at (i : Z) : M St ptr :=
  m ← member price_levels;
  match m !! i with
  | Some p => mret p
  | None => mmodify (with_book (set_price_levels (<[i := nullptr]> m)));; mret nullptr
  end.
Definition set_price_levels_at (i : Z) (p : ptr) : M St unit :=
  m ← member price_levels;
  mmodify (with_book (set_price_levels (<[i := p]> m))).

(** The loops of [insertPriceLevel]: on to the first level that is not [better]. *)
Definition insert_step (better : PriceT → bool) (next_price_level : ptr) : M St (ptr + ptr) :=
  if decide (next_price_level = nullptr) then mret (inr next_price_level)
  else
    l ← level_at next_price_level;
    if better (OrdersPriceLevel.getPrice l)
    then mret (inl (OrdersPriceLevel.getNextPriceLevel l))
    else mret (inr next_price_level).

Definition insertPriceLevel (price : PriceT) (side : OrderSide) (price_level_index : Z) : M St ptr :=
  s ← mget;
  let fuel := S (msize (price_level_pool (book s))) in
  let best_price_level :=
    if decide (side = OrderSide.BUY) then best_bids (book s) else best_asks (book s) in
  next_price_level ←
    iterate fuel
      (insert_step (λ p, if decide (side = OrderSide.BUY) then price <? p else p <? price))
      best_price_level;
  price_level ← in_levels (ObjectPool.getObject (OrdersPriceLevel.make side price next_price_level));
  set_price_levels_at price_level_index (Some price_level);;
  (if decide (next_price_level = best_price_level) then
     mmodify (with_book (if decide (side = OrderSide.BUY)
                         then set_best_bids (Some price_level)
                         else set_best_asks (Some price_level)))
   else mret tt);;
  mret (Some price_level).

Definition getPriceLevel (price : PriceT) (side : OrderSide) (create_if_missing : bool) : M St ptr :=
  let price_level_index := getPriceLevelIndex price in
  price_level ← price_levels_at price_level_index;
  if bool_decide (price_level = nullptr) && create_if_missing
  then insertPriceLevel price side price_level_index
  else mret price_level.

(** The loop of [removePriceLevel]: on to the level whose successor has [price]. *)
Definition remove_step (price : PriceT) (prev_price_level : ptr) : M St (ptr + ptr) :=
  prev ← level_at prev_price_level;
  next ← level_at (OrdersPriceLevel.getNextPriceLevel prev);
  if decide (OrdersPriceLevel.getPrice next ≠ price)
  then mret (inl (OrdersPriceLevel.getNextPriceLevel prev))
  else mret (inr prev_price_level).

Definition releaseLevel (p : ptr) : M St unit :=
  match p with
  | None => mub NullDeref
  | Some i => in_levels (ObjectPool.releaseObject i)
  end.

Definition removePriceLevel (price_level : ptr) : M St unit :=
  l ← level_at price_level;
  s ← mget;
  let buy := bool_decide (OrdersPriceLevel.getSide l = OrderSide.BUY) in
  let best := if buy then best_bids (book s) else best_asks (book s) in
  let prev_price_level := if decide (price_level ≠ best) then best else nullptr in
  let set_best p :=
    mmodify (with_book (if buy then set_best_bids p else set_best_asks p)) in
  (if decide (prev_price_level ≠ nullptr) then
     prev_price_level ←
       iterate (S (msize (price_level_pool (book s))))
         (remove_step (OrdersPriceLevel.getPrice l)) prev_price_level;
     in_levels (assign prev_price_level
       (OrdersPriceLevel.setNextPriceLevel (OrdersPriceLevel.getNextPriceLevel l)))
   else set_best (OrdersPriceLevel.getNextPriceLevel l));;
  set_price_levels_at (getPriceLevelIndex (OrdersPriceLevel.getPrice l)) nullptr;;
  releaseLevel price_level.

(** *** Matching *)

(** [match]; the word is a keyword here. *)
Definition match_ `{Clock} (order_id : OrderIdT) (client_id : ClientIdT) (side : OrderSide)
    (quantity : QuantityT) (opposite_order : ptr) : M St QuantityT :=
  tid ← member ticker_id;
  o ← order_at opposite_order;
  let fill_quantity := Z.min quantity (Order.quantity o) in
  trade_id ← post_increment_trade_id;
  ns ← now;
  push_update (MarketUpdate.mk UpdateType.TRADE tid OrderId_INVALID trade_id side
                 fill_quantity (Order.limit_price o) ns);;
  in_orders (assign opposite_order
    (λ o, Order.set_quantity (u32 (Order.quantity o - fill_quantity)) o));;
  o ← order_at opposite_order;
  (if decide (Order.quantity o = 0) then
     ns ← now;
     push_update (MarketUpdate.mk UpdateType.REMOVE tid (Order.order_id o) TradeId_INVALID
                    (Order.side o) fill_quantity (Order.limit_price o) ns);;
     price_level ← getPriceLevel (Order.limit_price o) side false;
     on_level price_level (PriceLevel.cancel (Order.order_id o));;
     mret tt
   else
     ns ← now;
     push_update (MarketUpdate.mk UpdateType.MODIFY tid (Order.order_id o) TradeId_INVALID
                    (Order.side o) (Order.quantity o) (Order.limit_price o) ns));;
  o ← order_at opposite_order;
  ns ← now;
  push_response (ClientResponse.mk ResponseType.FILLED tid (Order.client_id o)
                   (Order.order_id o) (Order.side o) fill_quantity (Order.limit_price o) ns);;
  ns ← now;
  push_response (ClientResponse.mk ResponseType.FILLED tid client_id order_id side
                   fill_quantity (Order.limit_price o) ns);;
  mret (u32 (quantity - fill_quantity)).

(** The two loops of [checkForMatch]; [best] is the pointer to the best level of
    the other side, [crosses] the comparison with the limit. *)
Definition check_step `{Clock} (order_id : OrderIdT) (client_id : ClientIdT) (side : OrderSide)
    (best : OrderBook → ptr) (crosses : PriceT → bool) (quantity : QuantityT) :
    M St (QuantityT + QuantityT) :=
  if decide (quantity = 0) then mret (inr quantity)
  else
    b ← member best;
    if decide (b = nullptr) then mret (inr quantity)
    else
      l ← level_at b;
      if crosses (OrdersPriceLevel.getPrice l) then
        let opposite_order := OrdersPriceLevel.top l in
        quantity ← match_ order_id client_id side quantity opposite_order;
        b ← member best;
        l ← level_at b;
        (if decide (OrdersPriceLevel.top l = nullptr) then removePriceLevel b else mret tt);;
        mret (inl quantity)
      else mret (inr quantity).

Definition checkForMatch `{Clock} (order_id : OrderIdT) (client_id : ClientIdT)
    (side : OrderSide) (quantity : QuantityT) (limit_price : PriceT) : M St QuantityT :=
  s ← mget;
  let fuel := S (msize (order_pool (book s))) in
  if decide (side = OrderSide.BUY) then
    iterate fuel (check_step order_id client_id side best_asks (λ p, p <=? limit_price)) quantity
  else
    iterate fuel (check_step order_id client_id side best_bids (λ p, limit_price <=? p)) quantity.

(** *** The public operations *)

Definition add `{Clock} (order_id : OrderIdT) (client_id : ClientIdT) (side : OrderSide)
    (quantity : QuantityT) (limit_price : PriceT) : M St unit :=
  tid ← member ticker_id;
  ns ← now;
  push_response (ClientResponse.mk ResponseType.ACCEPTED tid client_id order_id side
                   quantity limit_price ns);;
  remaining ← checkForMatch order_id client_id side quantity limit_price;
  if decide (remaining ≠ 0) then
    price_level ← getPriceLevel limit_price side true;
    ns ← now;
    order ← in_orders (ObjectPool.getObject
              (Order.make tid order_id client_id ns side remaining limit_price));
    on_level price_level (PriceLevel.add (Some order));;
    ns ← now;
    push_update (MarketUpdate.mk UpdateType.ADD tid order_id TradeId_INVALID side
                   remaining limit_price ns)
  else mret tt.

Definition cancel `{Clock} (client_id : ClientIdT) (order_id : OrderIdT) (side : OrderSide)
    (limit_price : PriceT) : M St unit :=
  tid ← member ticker_id;
  price_level ← getPriceLevel limit_price side false;
  order ←
    (if decide (price_level ≠ nullptr) then
       order ← on_level price_level (PriceLevel.cancel order_id);
       l ← level_at price_level;
       (if decide (OrdersPriceLevel.top l = nullptr) then removePriceLevel price_level
        else mret tt);;
       mret order
     else mret nullptr);
  if decide (order ≠ nullptr) then
    update_ns ← now;
    o ← order_at order;
    push_response (ClientResponse.mk ResponseType.CANCELED tid client_id order_id side
                     (Order.quantity o) limit_price update_ns);;
    o ← order_at order;
    push_update (MarketUpdate.mk UpdateType.REMOVE tid order_id TradeId_INVALID side
                   (Order.quantity o) limit_price update_ns)
  else
    ns ← now;
    push_response (ClientResponse.mk ResponseType.CANCEL_REJECTED tid client_id order_id
                     OrderSide.INVALID Quantity_INVALID Price_INVALID ns).
End OrderBook.
Abbreviation OrderBook := OrderBook.OrderBook.
