(* ===== verification/BookSpec.v ===== *)
(** What an order book does, without pointers: the abstract specification of
    orderbook.h.

    Each side is the list of its linked price levels, best first, a level the
    queue of its orders, oldest first.  [off] are the levels that are in the hash
    map but that no linked level points to: [insertPriceLevel] links a new level
    only when it becomes the best of its side.  BookRefine.v proves that the
    pointer code of OrderBook.v implements these functions. *)

From S2P Require Import Prelude Types PriceLevel LFQueue TimeUtils OrderBook.
Local Open Scope Z_scope.

Module BookSpec.

Record Level := mkLevel { price : PriceT; side : OrderSide; orders : list Order }.

(** An off level comes with whether its [next_price_level] is null. *)
Record Book := mkBook { bids : list Level; asks : list Level; off : list (Level * bool) }.

Definition empty_book : Book := mkBook [] [] [].

Definition all_levels (A : Book) : list Level := bids A ++ asks A ++ (off A).*1.

Definition set_orders (os : list Order) (l : Level) : Level := mkLevel (price l) (side l) os.

(** ** Matching *)

(** One trade: the maker as it was before, and the quantity. *)
Record Fill := mkFill { maker : Order; fill_qty : QuantityT }.

Definition maker_left (f : Fill) : QuantityT := Order.quantity (maker f) - fill_qty f.

(** A quantity [q] against a queue: trades, what is left of [q], of the queue. *)
Fixpoint take_orders (q : QuantityT) (os : list Order) : list Fill * QuantityT * list Order :=
  match os with
  | [] => ([], q, [])
  | o :: os' =>
      if decide (q = 0) then ([], q, os)
      else
        let f := Z.min q (Order.quantity o) in
        if decide (Order.quantity o - f = 0) then
          let '(fs, q', r) := take_orders (q - f) os' in (mkFill o f :: fs, q', r)
        else ([mkFill o f], q - f, Order.set_quantity (Order.quantity o - f) o :: os')
  end.

(** A quantity against the levels of a side, as far as they cross the limit. *)
Fixpoint take_levels (crosses : PriceT → bool) (q : QuantityT) (ls : list Level) :
    list Fill * QuantityT * list Level :=
  match ls with
  | [] => ([], q, [])
  | l :: ls' =>
      if decide (q = 0) then ([], q, ls)
      else if crosses (price l) then
        let '(fs, q', os) := take_orders q (orders l) in
        match os with
        | [] => let '(fs', q'', r) := take_levels crosses q' ls' in (fs ++ fs', q'', r)
        | _ => (fs, q', set_orders os l :: ls')
        end
      else ([], q, ls)
  end.

Definition crosses (side : OrderSide) (limit_price : PriceT) (p : PriceT) : bool :=
  if decide (side = OrderSide.BUY) then p <=? limit_price else limit_price <=? p.

Definition match_book (side : OrderSide) (q : QuantityT) (limit_price : PriceT) (A : Book) :
    list Fill * QuantityT * Book :=
  if decide (side = OrderSide.BUY) then
    let '(fs, q', ls) := take_levels (crosses side limit_price) q (asks A) in
    (fs, q', mkBook (bids A) ls (off A))
  else
    let '(fs, q', ls) := take_levels (crosses side limit_price) q (bids A) in
    (fs, q', mkBook ls (asks A) (off A)).

(** ** Resting an order *)

Definition has_price (p : PriceT) (ls : list Level) : bool :=
  existsb (λ l, price l =? p) ls.

(** Applying [f] to the level with price [p]. *)
Definition at_price (p : PriceT) (f : Level → Level) (l : Level) : Level :=
  if price l =? p then f l else l.
Definition update_price (p : PriceT) (f : Level → Level) (A : Book) : Book :=
  mkBook (at_price p f <$> bids A) (at_price p f <$> asks A)
    (prod_map (at_price p f) id <$> off A).

(** [a] is ahead of [b] among the levels of a side. *)
Definition better (side : OrderSide) (a b : PriceT) : bool :=
  if decide (side = OrderSide.BUY) then b <? a else a <? b.

(** The first level that a new level of price [p] does not come behind. *)
Fixpoint skip_better (side : OrderSide) (p : PriceT) (ls : list Level) : list Level :=
  match ls with
  | [] => []
  | l :: ls' => if better side (price l) p then skip_better side p ls' else ls
  end.

Definition insert_level (l : Level) (A : Book) : Book :=
  let ls := if decide (side l = OrderSide.BUY) then bids A else asks A in
  match ls with
  | b :: _ =>
      if better (side l) (price b) (price l)
      then mkBook (bids A) (asks A)
             ((l, bool_decide (skip_better (side l) (price l) ls = [])) :: off A)
      else if decide (side l = OrderSide.BUY)
           then mkBook (l :: bids A) (asks A) (off A)
           else mkBook (bids A) (l :: asks A) (off A)
  | [] => if decide (side l = OrderSide.BUY)
          then mkBook [l] (asks A) (off A)
          else mkBook (bids A) [l] (off A)
  end.

Definition rest (o : Order) (A : Book) : Book :=
  let p := Order.limit_price o in
  if has_price p (all_levels A)
  then update_price p (λ l, set_orders (orders l ++ [o]) l) A
  else insert_level (mkLevel p (Order.side o) [o]) A.

(** ** Adding and cancelling *)

(** [ns i] is the timestamp of the i-th reading of the clock; the order that
    rests is stamped at reading [reads + 4 * fills]. *)
Definition add (tid : TickerIdT) (order_id : OrderIdT) (client_id : ClientIdT)
    (side : OrderSide) (q : QuantityT) (limit_price : PriceT) (ns : nat → NsTimestampT)
    (A : Book) : list Fill * QuantityT * Book :=
  let '(fs, rem, A) := match_book side q limit_price A in
  if decide (rem = 0) then (fs, rem, A)
  else (fs, rem,
        rest (Order.make tid order_id client_id (ns (4 * length fs)%nat) side rem limit_price) A).

Inductive cancelled :=
| Rejected                       (* no such order: the book is as before *)
| Canceled (o : Order) (A : Book)
| Broken.                        (* an off level would have to be removed *)

Definition drop_price (p : PriceT) (ls : list Level) : list Level :=
  filter (λ l, price l ≠ p) ls.

(** The book without its (empty) level of price [p]. *)
Definition remove_level (p : PriceT) (A : Book) : option Book :=
  match list_find (λ x, price x.1 = p) (off A) with
  | None => Some (mkBook (drop_price p (bids A)) (drop_price p (asks A)) (off A))
  | Some (_, (l, last)) =>
      let linked := if decide (side l = OrderSide.BUY) then bids A else asks A in
      match linked, last with
      | [], true => Some (mkBook (bids A) (asks A) (filter (λ x, price x.1 ≠ p) (off A)))
      | _, _ => None
      end
  end.

Definition cancel (order_id : OrderIdT) (limit_price : PriceT) (A : Book) : cancelled :=
  match list_find (λ l, price l = limit_price) (all_levels A) with
  | None => Rejected
  | Some (_, l) =>
      match PriceLevel.remove_first order_id (orders l) with
      | None => Rejected
      | Some (o, []) =>
          match remove_level limit_price A with
          | Some A' => Canceled o A'
          | None => Broken
          end
      | Some (o, os) => Canceled o (update_price limit_price (set_orders os) A)
      end
  end.

(** ** Messages *)

Section messages.
Context `{Clock} (tid : TickerIdT).

(** Trade ids go round at the width of their type. *)
Definition trade_id_after (n : nat) (i : TradeIdT) : TradeIdT :=
  Nat.iter n (λ i, u32 (i + 1)) i.

(** The messages of one trade, at trade id [i] and clock reading [t]. *)
Definition fill_updates (side : OrderSide) (i : TradeIdT) (t : nat) (f : Fill) : list MarketUpdate :=
  let o := maker f in
  [ MarketUpdate.mk UpdateType.TRADE tid OrderId_INVALID i side (fill_qty f)
      (Order.limit_price o) (timestamp t);
    if decide (maker_left f = 0)
    then MarketUpdate.mk UpdateType.REMOVE tid (Order.order_id o) TradeId_INVALID (Order.side o)
           (fill_qty f) (Order.limit_price o) (timestamp (S t))
    else MarketUpdate.mk UpdateType.MODIFY tid (Order.order_id o) TradeId_INVALID (Order.side o)
           (maker_left f) (Order.limit_price o) (timestamp (S t)) ].

Definition fill_responses (order_id : OrderIdT) (client_id : ClientIdT) (side : OrderSide)
    (t : nat) (f : Fill) : list ClientResponse :=
  let o := maker f in
  [ ClientResponse.mk ResponseType.FILLED tid (Order.client_id o) (Order.order_id o)
      (Order.side o) (fill_qty f) (Order.limit_price o) (timestamp (2 + t));
    ClientResponse.mk ResponseType.FILLED tid client_id order_id side (fill_qty f)
      (Order.limit_price o) (timestamp (3 + t)) ].

Fixpoint fills_updates (side : OrderSide) (i : TradeIdT) (t : nat) (fs : list Fill) :
    list MarketUpdate :=
  match fs with
  | [] => []
  | f :: fs => fill_updates side i t f ++ fills_updates side (u32 (i + 1)) (4 + t) fs
  end.

Fixpoint fills_responses (order_id : OrderIdT) (client_id : ClientIdT) (side : OrderSide)
    (t : nat) (fs : list Fill) : list ClientResponse :=
  match fs with
  | [] => []
  | f :: fs => fill_responses order_id client_id side t f
               ++ fills_responses order_id client_id side (4 + t) fs
  end.

(** The messages of [add], the trades [fs] and the remaining quantity [rem] known. *)
Definition add_responses (order_id : OrderIdT) (client_id : ClientIdT) (side : OrderSide)
    (q : QuantityT) (limit_price : PriceT) (t : nat) (fs : list Fill) : list ClientResponse :=
  ClientResponse.mk ResponseType.ACCEPTED tid client_id order_id side q limit_price (timestamp t)
  :: fills_responses order_id client_id side (S t) fs.

Definition add_updates (order_id : OrderIdT) (side : OrderSide) (limit_price : PriceT)
    (i : TradeIdT) (t : nat) (fs : list Fill) (rem : QuantityT) : list MarketUpdate :=
  fills_updates side i (S t) fs ++
  if decide (rem = 0) then []
  else [ MarketUpdate.mk UpdateType.ADD tid order_id TradeId_INVALID side rem limit_price
           (timestamp (2 + t + 4 * length fs)) ].

Definition canceled_response (client_id : ClientIdT) (order_id : OrderIdT) (side : OrderSide)
    (limit_price : PriceT) (t : nat) (o : Order) : ClientResponse :=
  ClientResponse.mk ResponseType.CANCELED tid client_id order_id side (Order.quantity o)
    limit_price (timestamp t).
Definition canceled_update (order_id : OrderIdT) (side : OrderSide) (limit_price : PriceT)
    (t : nat) (o : Order) : MarketUpdate :=
  MarketUpdate.mk UpdateType.REMOVE tid order_id TradeId_INVALID side (Order.quantity o)
    limit_price (timestamp t).
Definition rejected_response (client_id : ClientIdT) (order_id : OrderIdT) (t : nat) :
    ClientResponse :=
  ClientResponse.mk ResponseType.CANCEL_REJECTED tid client_id order_id OrderSide.INVALID
    Quantity_INVALID Price_INVALID (timestamp t).
End messages.

(** The environment after messages, [ids] trade ids and [reads] clock readings. *)
Definition pushes {T} (xs : list T) (q : LFQueue T) : LFQueue T :=
  foldl (λ q x, LFQueue.pushed x q) q xs.

Definition emit (rs : list ClientResponse) (us : list MarketUpdate) (ids reads : nat)
    (e : OrderBook.Env) : OrderBook.Env :=
  OrderBook.mkEnv (pushes rs (OrderBook.client_response_queue e))
    (pushes us (OrderBook.market_update_queue e))
    (trade_id_after ids (OrderBook.next_trade_id e))
    (reads + OrderBook.clock_reads e)%nat.
End BookSpec.
