(* ===== verification/BookHeap.v ===== *)
(** The representation of an order book in memory.

    [view] relates a book to lists of ghost levels: the address of a level, its
    [next_price_level], the addresses of its orders, and the level of the
    specification (BookSpec.v) it stands for.  [heap_ok] says that the two pools
    and the hash map hold these levels and nothing else, [chained] that the links
    lead through them.  The lemmas say how each kind of store changes the
    representation; BookRefine.v applies them to the operations. *)

From S2P Require Import Prelude Types Memory ObjectPool PriceLevel LFQueue TimeUtils.
From S2P Require Import OrderBook BookSpec.
Local Open Scope Z_scope.

Module BookHeap.
Import OrderBook.

(** ** The representation *)

Record GLevel := mkG {
  g_ptr : nat;
  g_next : ptr;
  g_ring : list nat;
  g_lvl : BookSpec.Level;
}.

Definition g_price (g : GLevel) : PriceT := BookSpec.price (g_lvl g).
Definition g_side (g : GLevel) : OrderSide := BookSpec.side (g_lvl g).
Definition g_orders (g : GLevel) : list Order := BookSpec.orders (g_lvl g).

Definition is_buy (s : OrderSide) : bool := bool_decide (s = OrderSide.BUY).
Definition g_buy (g : GLevel) : bool := is_buy (g_side g).

(** The level with other orders, and with another successor. *)
Definition g_set_orders (ps : list nat) (os : list Order) (g : GLevel) : GLevel :=
  mkG (g_ptr g) (g_next g) ps (BookSpec.set_orders os (g_lvl g)).
Definition g_set_next (p : ptr) (g : GLevel) : GLevel :=
  mkG (g_ptr g) p (g_ring g) (g_lvl g).

(** The level object in memory. *)
Definition g_obj (g : GLevel) : OrdersPriceLevel :=
  OrdersPriceLevel.mk (g_next g) (g_price g) (head (g_ring g)) (g_side g).

(** What holds of an order that rests at a price. *)
Definition order_ok (p : PriceT) (o : Order) : Prop :=
  Order.limit_price o = p ∧ 0 < Order.quantity o < 2 ^ 32.

Record gl_ok (op : ObjectPool Order) (lp : ObjectPool OrdersPriceLevel) (g : GLevel) : Prop := {
  gl_load : mload lp (g_ptr g) = Some (g_obj g);
  gl_used : ObjectPool.in_use lp (g_ptr g);
  gl_rep : PriceLevel.level_rep op (g_obj g) (g_ring g) (g_orders g);
  gl_ring_used q : q ∈ g_ring g → ObjectPool.in_use op q;
  gl_orders : Forall (order_ok (g_price g)) (g_orders g);
}.

(** The entry of the hash map for a price; a missing one counts as null. *)
Definition entry (pm : gmap Z ptr) (x : Z) : ptr :=
  match pm !! x with Some p => p | None => nullptr end.

Record heap_ok (op : ObjectPool Order) (lp : ObjectPool OrdersPriceLevel)
    (pm : gmap Z ptr) (all : list GLevel) : Prop := {
  h_opool : ObjectPool.wf op;
  h_lpool : ObjectPool.wf lp;
  h_levels g : g ∈ all → gl_ok op lp g;
  h_nodup : NoDup (g_ptr <$> all);
  h_disj g1 g2 q : g1 ∈ all → g2 ∈ all → q ∈ g_ring g1 → q ∈ g_ring g2 → g_ptr g1 = g_ptr g2;
  h_map x p : entry pm x = Some p ↔ ∃ g, g ∈ all ∧ g_price g = x ∧ g_ptr g = p;
}.

(** The levels linked from [start], in order. *)
Fixpoint chained (start : ptr) (gs : list GLevel) : Prop :=
  match gs with
  | [] => start = None
  | g :: gs => start = Some (g_ptr g) ∧ chained (g_next g) gs
  end.

Definition start (gs : list GLevel) : ptr := g_ptr <$> head gs.

Definition best (buy : bool) (b : OrderBook) : ptr := if buy then best_bids b else best_asks b.
Definition set_best (buy : bool) (p : ptr) : OrderBook → OrderBook :=
  if buy then set_best_bids p else set_best_asks p.

(** The book seen from one side: [G1] are the linked levels of that side, [G2]
    those of the other, [Go] the levels that are not linked. *)
Record view (buy : bool) (b : OrderBook) (G1 G2 Go : list GLevel) : Prop := {
  v_heap : heap_ok (order_pool b) (price_level_pool b) (price_levels b) (G1 ++ G2 ++ Go);
  v_chain1 : chained (best buy b) G1;
  v_chain2 : chained (best (negb buy) b) G2;
  v_side1 : Forall (λ g, g_buy g = buy) G1;
  v_side2 : Forall (λ g, g_buy g = negb buy) G2;
}.

Definition erase_off (g : GLevel) : BookSpec.Level * bool :=
  (g_lvl g, bool_decide (g_next g = None)).

Definition erase (buy : bool) (G1 G2 Go : list GLevel) : BookSpec.Book :=
  BookSpec.mkBook (g_lvl <$> if buy then G1 else G2) (g_lvl <$> if buy then G2 else G1)
    (erase_off <$> Go).

Definition nonempty (g : GLevel) : Prop := g_orders g ≠ [].

(** The book in memory stands for [A]. *)
Definition book_rep (b : OrderBook) (A : BookSpec.Book) : Prop :=
  ∃ Gb Ga Go,
    view true b Gb Ga Go ∧ Forall nonempty (Gb ++ Ga ++ Go) ∧ A = erase true Gb Ga Go.

(** The environment's queues have slots. *)
Definition env_ok (e : Env) : Prop :=
  LFQueue.wf (client_response_queue e) ∧ LFQueue.wf (market_update_queue e).

(** Replacing the level at the address of [g']. *)
Definition upd (g' g : GLevel) : GLevel := if decide (g_ptr g = g_ptr g') then g' else g.

(** ** Lemmas on the heap *)

Section heap.
Implicit Types (op : ObjectPool Order) (lp : ObjectPool OrdersPriceLevel)
  (pm : gmap Z ptr) (g h : GLevel) (all : list GLevel).

Lemma heap_unique op lp pm all g h :
  heap_ok op lp pm all → g ∈ all → h ∈ all → g_ptr g = g_ptr h → g = h.
Proof. intros Hh Hg Hk. by eapply NoDup_fmap_eq; [apply Hh|..]. Qed.

Lemma heap_entry op lp pm all g :
  heap_ok op lp pm all → g ∈ all → entry pm (g_price g) = Some (g_ptr g).
Proof. intros Hh Hg. apply (h_map _ _ _ _ Hh). by exists g. Qed.

Lemma heap_unique_price op lp pm all g h :
  heap_ok op lp pm all → g ∈ all → h ∈ all → g_price g = g_price h → g = h.
Proof.
  intros Hh Hg Hk Hp. eapply heap_unique; [done..|].
  pose proof (heap_entry _ _ _ _ _ Hh Hg) as E. rewrite Hp in E.
  rewrite (heap_entry _ _ _ _ _ Hh Hk) in E. by simplify_eq.
Qed.

Lemma heap_entry_None op lp pm all x :
  heap_ok op lp pm all → entry pm x = None ↔ ∀ g, g ∈ all → g_price g ≠ x.
Proof.
  intros Hh. split.
  - intros E g Hg <-. by rewrite (heap_entry _ _ _ _ _ Hh Hg) in E.
  - intros Hne. destruct (entry pm x) as [p|] eqn:E; [|done].
    apply (h_map _ _ _ _ Hh) in E as (g & Hg & Hx & _). by destruct (Hne g Hg).
Qed.

Lemma heap_perm op lp pm all all' :
  all ≡ₚ all' → heap_ok op lp pm all → heap_ok op lp pm all'.
Proof.
  intros Hp [? ? Hl Hnd Hd Hm]. split; [done..| | | |].
  - intros g. rewrite <- Hp. apply Hl.
  - by rewrite <- Hp.
  - intros g1 g2 q. rewrite <- Hp. apply Hd.
  - intros x p. rewrite Hm. split; intros (g & ?); exists g;
      [by rewrite <- Hp|by rewrite Hp].
Qed.

Lemma gl_ok_frame op lp op' lp' g :
  gl_ok op lp g →
  mload lp' (g_ptr g) = mload lp (g_ptr g) → ObjectPool.in_use lp' (g_ptr g) →
  (∀ q, q ∈ g_ring g → mload op' q = mload op q ∧ ObjectPool.in_use op' q) →
  gl_ok op' lp' g.
Proof.
  intros [Hl Hu Hr Hru Ho] El Eu Eo. split; [congruence|done| |by apply Eo|done].
  eapply PriceLevel.level_rep_frame; [|done]. intros q Hq. by apply Eo.
Qed.

(** Stores outside the blocks in use leave the representation alone. *)
Lemma heap_frame op lp pm op' lp' pm' all :
  heap_ok op lp pm all → ObjectPool.wf op' → ObjectPool.wf lp' →
  (∀ q, ObjectPool.in_use op q → mload op' q = mload op q ∧ ObjectPool.in_use op' q) →
  (∀ p, ObjectPool.in_use lp p → mload lp' p = mload lp p ∧ ObjectPool.in_use lp' p) →
  (∀ x, entry pm' x = entry pm x) →
  heap_ok op' lp' pm' all.
Proof.
  intros [? ? Hl Hnd Hd Hm] ?? Eo El Em. split; [done..| |done|done|].
  - intros g Hg. pose proof (Hl g Hg) as Hok.
    destruct (El _ (gl_used _ _ _ Hok)) as [??].
    eapply gl_ok_frame; [done..|]. intros q Hq. apply Eo. by eapply gl_ring_used.
  - intros x p. by rewrite Em.
Qed.

Lemma upd_same g' h : g_ptr h = g_ptr g' → upd g' h = g'.
Proof. intros. unfold upd. by rewrite decide_True. Qed.

Lemma upd_other g' h : g_ptr h ≠ g_ptr g' → upd g' h = h.
Proof. intros. unfold upd. by rewrite decide_False. Qed.

Lemma upd_ptr g' h : g_ptr (upd g' h) = g_ptr h.
Proof. unfold upd. by case_decide. Qed.

Lemma upd_ptrs g' all : g_ptr <$> (upd g' <$> all) = g_ptr <$> all.
Proof. rewrite <- list_fmap_compose. apply list_fmap_ext. intros. apply upd_ptr. Qed.

(** Replacing one level: the other levels and their orders are not stored to, and
    the level has orders of its own or new ones. *)
Lemma heap_update op lp pm op' lp' all g g' :
  heap_ok op lp pm all → g ∈ all → g_ptr g' = g_ptr g → g_price g' = g_price g →
  ObjectPool.wf op' → ObjectPool.wf lp' → gl_ok op' lp' g' →
  (∀ q, ObjectPool.in_use op q → q ∉ g_ring g →
        mload op' q = mload op q ∧ ObjectPool.in_use op' q) →
  (∀ p, ObjectPool.in_use lp p → p ≠ g_ptr g →
        mload lp' p = mload lp p ∧ ObjectPool.in_use lp' p) →
  (∀ q, q ∈ g_ring g' → q ∈ g_ring g ∨ (∀ h, h ∈ all → q ∉ g_ring h)) →
  heap_ok op' lp' pm (upd g' <$> all).
Proof.
  intros Hh Hg Hptr Hprice Hwo Hwl Hok Eo El Hring. pose proof Hh as [? ? Hl Hnd Hd Hm].
  assert (∀ h q, h ∈ all → g_ptr h ≠ g_ptr g → q ∈ g_ring h → (q ∉ g_ring g) ∧ (q ∉ g_ring g'))
    as Hsep.
  { intros h q Hh' Hne Hq. assert (q ∉ g_ring g) as Hng by (intros Hq'; by apply Hne, (Hd h g q)).
    split; [done|]. intros Hq'. by destruct (Hring q Hq') as [?|Hf]; [|apply (Hf h)]. }
  split; [done..| | | |].
  - intros h' (h & -> & Hh')%list_elem_of_fmap. unfold upd. case_decide as E; [done|].
    rewrite Hptr in E. pose proof (Hl h Hh') as Hokh.
    destruct (El _ (gl_used _ _ _ Hokh) E) as [??].
    eapply gl_ok_frame; [done..|]. intros q Hq. apply Eo; [by eapply gl_ring_used|].
    by apply (Hsep h).
  - by rewrite upd_ptrs.
  - intros h1' h2' q (h1 & -> & H1)%list_elem_of_fmap (h2 & -> & H2)%list_elem_of_fmap.
    rewrite !upd_ptr. unfold upd. do 2 case_decide; intros Hq1 Hq2.
    + congruence.
    + exfalso. by apply (Hsep h2 q); [..|congruence| |].
    + exfalso. by apply (Hsep h1 q); [..|congruence| |].
    + by apply (Hd h1 h2 q).
  - intros x p. rewrite Hm. split.
    + intros (h & Hh' & Hx & Hp). exists (upd g' h). rewrite upd_ptr.
      split_and!; [apply list_elem_of_fmap; by exists h| |done].
      unfold upd. case_decide as E; [|done]. rewrite Hptr in E.
      by rewrite (heap_unique _ _ _ _ h g Hh) in Hx by done; congruence.
    + intros (h' & (h & -> & Hh')%list_elem_of_fmap & Hx & Hp). exists h.
      rewrite upd_ptr in Hp. split_and!; [done| |done].
      unfold upd in Hx. case_decide as E; [|done]. rewrite Hptr in E.
      rewrite (heap_unique _ _ _ _ h g Hh) by done. congruence.
Qed.

Lemma entry_insert pm y p x :
  entry (<[y := p]> pm) x = if decide (x = y) then p else entry pm x.
Proof.
  unfold entry. case_decide; subst; [by rewrite lookup_insert_eq|].
  by rewrite lookup_insert_ne.
Qed.

(** Entering an empty level at a new address. *)
Lemma heap_new_level op lp pm all g :
  heap_ok op lp pm all → gl_ok op lp g → g_ring g = [] →
  (∀ h, h ∈ all → g_ptr h ≠ g_ptr g) → entry pm (g_price g) = None →
  heap_ok op lp (<[g_price g := Some (g_ptr g)]> pm) (g :: all).
Proof.
  intros Hh Hok Hr Hf He. pose proof Hh as [? ? Hl Hnd Hd Hm].
  split; [done..| | | |].
  - intros h [->|Hg]%elem_of_cons; [done|]. by apply Hl.
  - rewrite fmap_cons. apply NoDup_cons. split; [|done].
    intros (h & Hp & Hg)%list_elem_of_fmap. by apply (Hf h).
  - intros g1 g2 q [->|H1]%elem_of_cons [->|H2]%elem_of_cons Hq1 Hq2; [done|..|by apply (Hd g1 g2 q)];
      rewrite Hr in *; by apply not_elem_of_nil in Hq1 || apply not_elem_of_nil in Hq2.
  - intros x p. rewrite entry_insert. case_decide as Hne; subst.
    + split.
      * intros [= <-]. exists g. split_and!; [by left|done..].
      * intros (h & [->|Hg]%elem_of_cons & Hx & <-); [done|].
        exfalso. by apply (heap_entry_None _ _ _ _ _ Hh) with h in He.
    + rewrite Hm. split.
      * intros (h & Hg & ?). exists h. split; [by right|done].
      * intros (h & [->|Hg]%elem_of_cons & Hx & ?); [done|]. by exists h.
Qed.

(** Taking an empty level out: its block is released, its entry set to null. *)
Lemma heap_remove_level op lp pm lp' g rest :
  heap_ok op lp pm (g :: rest) → ObjectPool.wf lp' →
  (∀ p, mload lp' p = mload lp p) →
  (∀ p, ObjectPool.in_use lp' p ↔ ObjectPool.in_use lp p ∧ p ≠ g_ptr g) →
  heap_ok op lp' (<[g_price g := nullptr]> pm) rest.
Proof.
  intros Hh Hwf El Eu. pose proof Hh as [? ? Hl Hnd Hd Hm].
  apply NoDup_cons in Hnd as [Hg Hnd].
  assert (∀ h, h ∈ rest → g_ptr h ≠ g_ptr g) as Hne.
  { intros h Hh' E. apply Hg. apply list_elem_of_fmap. by exists h. }
  split; [done..| |done| |].
  - intros h Hh'. assert (h ∈ g :: rest) as Hin by by right.
    eapply gl_ok_frame; [by apply Hl|by rewrite El| |].
    + apply Eu. split; [by apply Hl|by apply Hne].
    + intros q Hq. split; [done|]. by eapply gl_ring_used; [apply Hl|].
  - intros g1 g2 q ??. apply Hd; by right.
  - intros x p. rewrite entry_insert. case_decide as Hx; subst.
    + split; [done|]. intros (h & Hr & Hp & _).
      destruct (Hne h Hr). f_equal.
      eapply heap_unique_price; [exact Hh|by right|by left|done].
    + rewrite Hm. split.
      * intros (h & [->|Hr]%elem_of_cons & <- & ?); [done|]. by exists h.
      * intros (h & Hr & ?). exists h. split; [by right|done].
Qed.

(** The rings of the heap hold no more addresses than the pool has blocks. *)
Lemma heap_rings op lp pm all :
  heap_ok op lp pm all → (length (all ≫= g_ring) ≤ msize op)%nat.
Proof.
  intros Hh. pose proof Hh as [? ? Hl Hnd Hd _]. apply valid_length.
  - clear Hh. induction all as [|g all IH]; [apply NoDup_nil_2|].
    apply NoDup_cons in Hnd as [Hg Hnd]. rewrite bind_cons. apply NoDup_app. split_and!.
    + destruct (Hl g) as [_ _ (_ & ? & _) _ _]; [by left|done].
    + intros q Hq (h & Hin & Hh)%list_elem_of_bind. apply Hg. apply list_elem_of_fmap.
      exists h. split; [|done]. apply (Hd g h q); [by left|by right|done..].
    + apply IH; [|done|].
      * intros h Hh. apply Hl. by right.
      * intros g1 g2 q ??. apply Hd; by right.
  - intros q (h & Hin & Hh')%list_elem_of_bind.
    eapply PriceLevel.level_rep_valid; [|done]. by eapply gl_rep, Hl.
Qed.

Lemma heap_ptrs op lp pm all : heap_ok op lp pm all → (length all ≤ msize lp)%nat.
Proof.
  intros Hh. rewrite <- (length_fmap g_ptr). apply valid_length; [by apply Hh|].
  intros p (g & -> & Hg)%list_elem_of_fmap. eexists. by eapply gl_load, Hh.
Qed.

(** ** Chains *)

Lemma chained_start s gs : chained s gs → s = start gs.
Proof. destruct gs; [done|]. by intros [? _]. Qed.

Lemma chained_upd s gs g g' :
  (∀ h, h ∈ gs → g_ptr h = g_ptr g → h = g) →
  g_ptr g' = g_ptr g → g_next g' = g_next g → chained s gs → chained s (upd g' <$> gs).
Proof.
  intros Hu Hp Hn. revert s. induction gs as [|h gs IH]; intros s; [done|].
  rewrite fmap_cons. simpl. rewrite upd_ptr. intros [Hs Hc]. split; [done|].
  assert (g_next (upd g' h) = g_next h) as ->.
  { unfold upd. case_decide; [|done]. rewrite (Hu h); [done|by left|congruence]. }
  apply IH; [|done]. intros. apply Hu; [by right|done].
Qed.
End heap.

(** ** Lemmas on views *)

Section views.
Implicit Types (b : OrderBook) (g h : GLevel) (G Go : list GLevel) (buy : bool).

Lemma view_swap buy b G1 G2 Go : view buy b G1 G2 Go → view (negb buy) b G2 G1 Go.
Proof.
  intros [Hh ????]. split; rewrite ?negb_involutive; try done.
  revert Hh. apply heap_perm. solve_Permutation.
Qed.

Lemma erase_swap buy G1 G2 Go : erase (negb buy) G2 G1 Go = erase buy G1 G2 Go.
Proof. by destruct buy. Qed.

(** A view does not depend on what else is in the book, nor on null entries. *)
Lemma view_ext buy b b' G1 G2 Go :
  view buy b G1 G2 Go →
  order_pool b' = order_pool b → price_level_pool b' = price_level_pool b →
  (∀ x, entry (price_levels b') x = entry (price_levels b) x) →
  best_bids b' = best_bids b → best_asks b' = best_asks b →
  view buy b' G1 G2 Go.
Proof.
  intros [Hh Hc1 Hc2 ??] Eo El Em Eb Ea.
  assert (∀ s, best s b' = best s b) as E by (intros []; done).
  split; rewrite ?E; try done. rewrite Eo, El.
  eapply heap_frame; [done|apply Hh|apply Hh|by intros..|done].
Qed.

Lemma view_elem buy b G1 G2 Go g :
  view buy b G1 G2 Go → g ∈ G1 ++ G2 ++ Go →
  gl_ok (order_pool b) (price_level_pool b) g.
Proof. intros Hv. apply (v_heap _ _ _ _ _ Hv). Qed.

(** A view after one of its levels is replaced. *)
Lemma view_upd buy b b' G1 G2 Go g g' :
  view buy b G1 G2 Go → g ∈ G1 ++ G2 ++ Go → g_ptr g' = g_ptr g →
  g_next g' = g_next g → g_side g' = g_side g →
  best_bids b' = best_bids b → best_asks b' = best_asks b →
  heap_ok (order_pool b') (price_level_pool b') (price_levels b')
    (upd g' <$> (G1 ++ G2 ++ Go)) →
  view buy b' (upd g' <$> G1) (upd g' <$> G2) (upd g' <$> Go).
Proof.
  intros [Hh Hc1 Hc2 Hs1 Hs2] Hg Hp Hn Hs Eb Ea Hh'.
  assert (∀ s, best s b' = best s b) as E by (intros []; done).
  assert (∀ h, h ∈ G1 ++ G2 ++ Go → g_ptr h = g_ptr g → h = g) as Hu
    by (intros h ??; by apply (heap_unique _ _ _ _ h g Hh)).
  assert (∀ h, h ∈ G1 ++ G2 ++ Go → g_buy (upd g' h) = g_buy h) as Hb.
  { intros h Hh1. unfold upd. case_decide as E'; [|done]. unfold g_buy.
    rewrite (Hu h) by (done || congruence). by rewrite Hs. }
  assert (∀ gs s, gs ⊆ G1 ++ G2 ++ Go → chained s gs → chained s (upd g' <$> gs)) as Hch.
  { intros gs s Hsub. apply (chained_upd s gs g g'); [|done..]. intros. apply Hu; [|done].
    by apply Hsub. }
  split; rewrite ?E; [by rewrite <- !fmap_app|apply Hch; [set_solver|done]..| |];
    rewrite Forall_fmap, Forall_forall; rewrite Forall_forall in Hs1, Hs2;
    intros h Hin; simpl; (rewrite Hb by set_solver); auto.
Qed.

(** What the replacement is in the specification. *)
Lemma erase_upd buy b G1 G2 Go g g' (f : BookSpec.Level → BookSpec.Level) :
  view buy b G1 G2 Go → g ∈ G1 ++ G2 ++ Go → g_ptr g' = g_ptr g →
  g_next g' = g_next g → g_lvl g' = f (g_lvl g) →
  erase buy (upd g' <$> G1) (upd g' <$> G2) (upd g' <$> Go) =
    BookSpec.update_price (g_price g) f (erase buy G1 G2 Go).
Proof.
  intros [Hh _ _ _ _] Hg Hp Hn Hl.
  assert (∀ h, h ∈ G1 ++ G2 ++ Go →
    g_lvl (upd g' h) = BookSpec.at_price (g_price g) f (g_lvl h) ∧ g_next (upd g' h) = g_next h)
    as Hu.
  { intros h Hh1. unfold upd, BookSpec.at_price. case_decide as E; rewrite Hp in E.
    - rewrite (heap_unique _ _ _ _ h g Hh) by done. unfold g_price. by rewrite Z.eqb_refl.
    - split; [|done]. destruct (Z.eqb_spec (BookSpec.price (g_lvl h)) (g_price g)) as [E'|]; [|done].
      by rewrite (heap_unique_price _ _ _ _ h g Hh) in E by done. }
  assert (∀ gs, gs ⊆ G1 ++ G2 ++ Go →
    g_lvl <$> (upd g' <$> gs) = BookSpec.at_price (g_price g) f <$> (g_lvl <$> gs)) as Hmap.
  { intros gs Hsub. rewrite <- !list_fmap_compose. apply list_fmap_ext. intros i h Hi.
    simpl. apply Hu, Hsub. by eapply list_elem_of_lookup_2. }
  assert (erase_off <$> (upd g' <$> Go) =
    prod_map (BookSpec.at_price (g_price g) f) id <$> (erase_off <$> Go)) as Hoff.
  { rewrite <- !list_fmap_compose. apply list_fmap_ext. intros i h Hi. simpl.
    destruct (Hu h) as [E1 E2]; [apply list_elem_of_lookup_2 in Hi; set_solver|].
    unfold erase_off. by rewrite E1, E2. }
  unfold erase, BookSpec.update_price; simpl.
  destruct buy; rewrite !Hmap, Hoff by set_solver; done.
Qed.

Lemma nonempty_upd g' gs :
  nonempty g' → Forall nonempty gs → Forall nonempty (upd g' <$> gs).
Proof.
  intros Hg Hgs. apply Forall_fmap. eapply Forall_impl; [done|]. intros h Hh.
  simpl. unfold upd. by case_decide.
Qed.
End views.
End BookHeap.
