(* ===== verification/BookLevels.v ===== *)
(** How the operations of OrderBook.v on price levels change the representation
    of BookHeap.v: running the accessors, [insertPriceLevel], [getPriceLevel] and
    [removePriceLevel]. *)

From S2P Require Import Prelude Types Memory ObjectPool PriceLevel LFQueue TimeUtils.
From S2P Require Import OrderBook BookSpec BookHeap.
Local Open Scope Z_scope.

Module BookLevels.
Import OrderBook BookHeap.

(** ** Running the accessors *)

Section run.
Implicit Types (b : OrderBook) (e : Env) (i : nat).

Lemma in_orders_done {A} (m : M (ObjectPool Order) A) b e a p :
  m (order_pool b) = Done (a, p) →
  in_orders m (mkSt b e) = Done (a, mkSt (set_order_pool p b) e).
Proof.
  intros Hm. unfold in_orders.
  by rewrite (zoom_done (λ s, order_pool (book s)) _ _ _ a p).
Qed.

Lemma in_levels_done {A} (m : M (ObjectPool OrdersPriceLevel) A) b e a p :
  m (price_level_pool b) = Done (a, p) →
  in_levels m (mkSt b e) = Done (a, mkSt (set_price_level_pool p b) e).
Proof.
  intros Hm. unfold in_levels.
  by rewrite (zoom_done (λ s, price_level_pool (book s)) _ _ _ a p).
Qed.

Lemma in_orders_exited {A} (m : M (ObjectPool Order) A) b e msg :
  m (order_pool b) = Exited msg → in_orders m (mkSt b e) = Exited msg.
Proof. intros Hm. unfold in_orders. by apply zoom_exited. Qed.

Lemma in_levels_exited {A} (m : M (ObjectPool OrdersPriceLevel) A) b e msg :
  m (price_level_pool b) = Exited msg → in_levels m (mkSt b e) = Exited msg.
Proof. intros Hm. unfold in_levels. by apply zoom_exited. Qed.

Lemma level_at_done b e i l :
  mload (price_level_pool b) i = Some l → level_at (Some i) (mkSt b e) = Done (l, mkSt b e).
Proof.
  intros Hl. unfold level_at.
  rewrite (in_levels_done _ b e l (price_level_pool b)); [by destruct b|].
  by apply deref_done.
Qed.

Lemma order_at_done b e i o :
  mload (order_pool b) i = Some o → order_at (Some i) (mkSt b e) = Done (o, mkSt b e).
Proof.
  intros Ho. unfold order_at.
  rewrite (in_orders_done _ b e o (order_pool b)); [by destruct b|].
  by apply deref_done.
Qed.

Lemma level_at_null b e : level_at nullptr (mkSt b e) = UB NullDeref.
Proof. done. Qed.

(** Writing a level and the orders back. *)
Definition put_level i (op : ObjectPool Order) (l : OrdersPriceLevel) b : OrderBook :=
  set_price_level_pool (mstore (price_level_pool b) i l) (set_order_pool op b).

Lemma on_level_done {A} (m : M (PriceLevel.St (ObjectPool Order)) A) b e i l a op' l' :
  mload (price_level_pool b) i = Some l →
  m (PriceLevel.mkSt (order_pool b) l) = Done (a, PriceLevel.mkSt op' l') →
  on_level (Some i) m (mkSt b e) = Done (a, mkSt (put_level i op' l' b) e).
Proof.
  intros Hl Hm. unfold on_level. rewrite (bind_done _ _ _ _ _ (level_at_done b e i l Hl)).
  by rewrite (zoom_done (level_st l) _ _ _ a (PriceLevel.mkSt op' l')).
Qed.

(** Looking up a price may enter a null pointer for it. *)
Definition touch (x : Z) b : OrderBook :=
  match price_levels b !! x with
  | Some _ => b
  | None => set_price_levels (<[x := nullptr]> (price_levels b)) b
  end.

Lemma price_levels_at_run x b e :
  price_levels_at x (mkSt b e) = Done (entry (price_levels b) x, mkSt (touch x b) e).
Proof.
  unfold price_levels_at, member. rewrite bind_gets.
  change (price_levels (book (mkSt b e))) with (price_levels b).
  unfold touch, entry. by destruct (price_levels b !! x).
Qed.

Lemma touch_entry x y b : entry (price_levels (touch x b)) y = entry (price_levels b) y.
Proof.
  unfold touch. destruct (price_levels b !! x) eqn:E; [done|]. simpl.
  rewrite entry_insert. case_decide; subst; [|done]. unfold entry. by rewrite E.
Qed.

Lemma touch_fields x b :
  ticker_id (touch x b) = ticker_id b ∧ order_pool (touch x b) = order_pool b ∧
  price_level_pool (touch x b) = price_level_pool b ∧
  best_bids (touch x b) = best_bids b ∧ best_asks (touch x b) = best_asks b.
Proof. unfold touch. by destruct (price_levels b !! x). Qed.

Lemma touch_view buy x b G1 G2 Go : view buy b G1 G2 Go → view buy (touch x b) G1 G2 Go.
Proof.
  intros Hv. destruct (touch_fields x b) as (? & ? & ? & ? & ?).
  eapply view_ext; [done..| |done|done]. intros y. apply touch_entry.
Qed.

Lemma push_response_done r b e :
  env_ok e →
  push_response r (mkSt b e) =
    Done (tt, mkSt b (set_client_response_queue (LFQueue.pushed r (client_response_queue e)) e)).
Proof.
  intros [Hq _]. unfold push_response.
  by rewrite (zoom_done (λ s, client_response_queue (env s)) _ _ _ tt
    (LFQueue.pushed r (client_response_queue e))) by (by apply LFQueue.push_run).
Qed.

Lemma push_update_done u b e :
  env_ok e →
  push_update u (mkSt b e) =
    Done (tt, mkSt b (set_market_update_queue (LFQueue.pushed u (market_update_queue e)) e)).
Proof.
  intros [_ Hq]. unfold push_update.
  by rewrite (zoom_done (λ s, market_update_queue (env s)) _ _ _ tt
    (LFQueue.pushed u (market_update_queue e))) by (by apply LFQueue.push_run).
Qed.

Lemma now_done `{Clock} b e :
  now (mkSt b e) =
    Done (timestamp (clock_reads e), mkSt b (set_clock_reads (S (clock_reads e)) e)).
Proof. done. Qed.

Lemma trade_id_done b e :
  post_increment_trade_id (mkSt b e) =
    Done (next_trade_id e, mkSt b (set_next_trade_id (u32 (next_trade_id e + 1)) e)).
Proof. done. Qed.
End run.

(** ** [removePriceLevel] *)

Section remove.
Implicit Types (b : OrderBook) (e : Env) (g h : GLevel) (G Go : list GLevel) (buy : bool).

(** The level out of the pool and of the hash map. *)
Lemma release_run b e all g rest :
  heap_ok (order_pool b) (price_level_pool b) (price_levels b) all → all ≡ₚ g :: rest →
  ∃ lp',
    (set_price_levels_at (g_price g) nullptr;; releaseLevel (Some (g_ptr g))) (mkSt b e) =
      Done (tt, mkSt (set_price_level_pool lp'
                       (set_price_levels (<[g_price g := nullptr]> (price_levels b)) b)) e) ∧
    heap_ok (order_pool b) lp' (<[g_price g := nullptr]> (price_levels b)) rest ∧
    ObjectPool.avail lp' = S (ObjectPool.avail (price_level_pool b)).
Proof.
  intros Hh Hp. apply (heap_perm _ _ _ _ _ Hp) in Hh.
  assert (gl_ok (order_pool b) (price_level_pool b) g) as Hok by (apply Hh; by left).
  destruct (ObjectPool.release_facts (price_level_pool b) (g_ptr g))
    as (lp' & E & Hwf & Hl & Hu & Hav & _); [apply Hh|apply Hok|].
  exists lp'. split_and!; [|by eapply heap_remove_level|done].
  unfold set_price_levels_at, releaseLevel, member. mrun. unfold with_book; simpl.
  by rewrite (in_levels_done _ _ _ tt lp').
Qed.

Lemma best_set buy p b s : best s (set_best buy p b) = if decide (s = buy) then p else best s b.
Proof. by destruct buy, s. Qed.

Lemma chained_load b all s g G e :
  heap_ok (order_pool b) (price_level_pool b) (price_levels b) all →
  g ∈ all → chained s (g :: G) → level_at s (mkSt b e) = Done (g_obj g, mkSt b e).
Proof. intros Hh Hg [-> _]. apply level_at_done. by eapply gl_load, Hh. Qed.

Lemma remove_step_run b all s h1 h2 G e p :
  heap_ok (order_pool b) (price_level_pool b) (price_levels b) all →
  h1 ∈ all → h2 ∈ all → chained s (h1 :: h2 :: G) →
  remove_step p s (mkSt b e) =
    Done (if decide (g_price h2 ≠ p) then inl (Some (g_ptr h2)) else inr s, mkSt b e).
Proof.
  intros Hh H1 H2 Hc. unfold remove_step. rewrite (bind_done _ _ _ _ _ (chained_load _ _ _ _ _ e Hh H1 Hc)).
  destruct Hc as [-> Hc].
  rewrite (bind_done _ _ _ _ _ (chained_load _ _ _ _ _ e Hh H2 Hc)).
  destruct Hc as [Hn _]. change (OrdersPriceLevel.getNextPriceLevel (g_obj h1)) with (g_next h1).
  rewrite Hn. change (OrdersPriceLevel.getPrice (g_obj h2)) with (g_price h2).
  by case_decide.
Qed.

(** The walk of [removePriceLevel] stops at the predecessor of the level. *)
Lemma remove_walk b all s G1 h g G2 e fuel :
  heap_ok (order_pool b) (price_level_pool b) (price_levels b) all →
  G1 ++ h :: g :: G2 ⊆ all → NoDup (g_ptr <$> G1 ++ h :: g :: G2) →
  chained s (G1 ++ h :: g :: G2) → (length G1 < fuel)%nat →
  iterate fuel (remove_step (g_price g)) s (mkSt b e) = Done (Some (g_ptr h), mkSt b e).
Proof.
  intros Hh. revert s fuel. induction G1 as [|a G1 IH]; intros s fuel Hsub Hnd Hc Hf;
    (destruct fuel as [|fuel]; [simpl in *; lia|]); simpl in Hsub, Hc, Hf.
  - apply iterate_inr. rewrite (remove_step_run _ all _ h g G2) by (done || set_solver).
    destruct Hc as [-> _]. by rewrite decide_False by (intros []; done).
  - assert (∃ c G, G1 ++ h :: g :: G2 = c :: G ∧ c ≠ g) as (c & G & E & Hcg).
    { destruct G1 as [|c G1]; simpl in *.
      - exists h, (g :: G2). split; [done|]. intros ->.
        apply NoDup_cons in Hnd as [_ [Hn _]%NoDup_cons]. apply Hn. by left.
      - eexists c, _. split; [done|]. intros ->.
        apply NoDup_cons in Hnd as [_ [Hn _]%NoDup_cons]. apply Hn.
        rewrite fmap_app. set_solver. }
    rewrite E in Hc. rewrite (iterate_inl _ _ _ _ (Some (g_ptr c)) (mkSt b e)).
    + apply IH; [set_solver| |rewrite E; by split; [|apply Hc]|lia].
      by apply NoDup_cons in Hnd as [_ ?].
    + rewrite (remove_step_run _ all _ a c G); [|done|set_solver| |done].
      * rewrite decide_True; [done|]. intros Hp. apply Hcg.
        apply (heap_unique_price _ _ _ _ _ _ Hh); [|set_solver|done].
        apply Hsub. right. rewrite E. by left.
      * apply Hsub. right. rewrite E. by left.
Qed.

(** A level that is not on the chain is not found: the walk runs off its end. *)
Lemma remove_walk_off b all s c G1 g e fuel :
  heap_ok (order_pool b) (price_level_pool b) (price_levels b) all →
  c :: G1 ⊆ all → g ∈ all → g ∉ c :: G1 → chained s (c :: G1) → (length G1 < fuel)%nat →
  iterate fuel (remove_step (g_price g)) s (mkSt b e) = UB NullDeref.
Proof.
  intros Hh. revert s c fuel. induction G1 as [|a G1 IH]; intros s c fuel Hsub Hg Hn Hc Hf;
    (destruct fuel as [|fuel]; [simpl in *; lia|]); simpl in Hf.
  - apply iterate_ub. unfold remove_step.
    rewrite (bind_done _ _ _ _ _ (chained_load _ _ _ _ _ e Hh (Hsub c ltac:(by left)) Hc)).
    destruct Hc as [_ Hc]. simpl in Hc.
    change (OrdersPriceLevel.getNextPriceLevel (g_obj c)) with (g_next c). by rewrite Hc.
  - rewrite (iterate_inl _ _ _ _ (Some (g_ptr a)) (mkSt b e)).
    + apply (IH _ a); [set_solver|done|set_solver|by destruct Hc as [_ [_ ?]]|lia].
    + rewrite (remove_step_run _ all _ c a G1) by (done || set_solver).
      rewrite decide_True; [done|]. intros Hp. apply Hn.
      rewrite <- (heap_unique_price _ _ _ _ a g Hh) by (done || set_solver). set_solver.
Qed.

(** What removing a level leaves alone. *)
Definition removed b b' : Prop :=
  ticker_id b' = ticker_id b ∧ order_pool b' = order_pool b ∧
  ObjectPool.avail (price_level_pool b') = S (ObjectPool.avail (price_level_pool b)).

Lemma view_nodup buy b G1 G2 Go : view buy b G1 G2 Go → NoDup (g_ptr <$> G1).
Proof.
  intros [Hh _ _ _ _]. apply h_nodup in Hh. rewrite fmap_app in Hh.
  by apply NoDup_app in Hh as [? _].
Qed.

Lemma view_length buy b G1 G2 Go :
  view buy b G1 G2 Go → (length G1 ≤ msize (price_level_pool b))%nat.
Proof. intros [Hh%heap_ptrs _ _ _ _]. rewrite length_app in Hh. lia. Qed.

Lemma remove_run b e g :
  mload (price_level_pool b) (g_ptr g) = Some (g_obj g) →
  removePriceLevel (Some (g_ptr g)) (mkSt b e) =
    (let best := best (g_buy g) b in
     let prev := if decide (Some (g_ptr g) ≠ best) then best else nullptr in
     (if decide (prev ≠ nullptr) then
        prev ← iterate (S (msize (price_level_pool b))) (remove_step (g_price g)) prev;
        in_levels (assign prev (OrdersPriceLevel.setNextPriceLevel (g_next g)))
      else mmodify (with_book (set_best (g_buy g) (g_next g))));;
     set_price_levels_at (g_price g) nullptr;; releaseLevel (Some (g_ptr g))) (mkSt b e).
Proof.
  intros Hl. unfold removePriceLevel. rewrite (bind_done _ _ _ _ _ (level_at_done b e _ _ Hl)).
  rewrite bind_get. unfold best, set_best, g_buy, is_buy.
  change (OrdersPriceLevel.getSide (g_obj g)) with (g_side g).
  by destruct (bool_decide _).
Qed.

(** The best level of a side. *)
Lemma remove_head buy b e g G1 G2 Go :
  view buy b (g :: G1) G2 Go →
  ∃ b', removePriceLevel (Some (g_ptr g)) (mkSt b e) = Done (tt, mkSt b' e) ∧
        view buy b' G1 G2 Go ∧ removed b b'.
Proof.
  intros [Hh [Hs Hc1] Hc2 Hs1 Hs2]. apply Forall_cons in Hs1 as [Hb Hs1].
  set (b1 := set_best buy (g_next g) b).
  destruct (release_run b1 e ((g :: G1) ++ G2 ++ Go) g (G1 ++ G2 ++ Go))
    as (lp' & E & Hh' & Hav); [by destruct buy|done|].
  eexists. split_and!.
  - rewrite remove_run by (eapply gl_load, Hh; by left). simpl. rewrite Hb, Hs.
    rewrite (decide_False (P := Some _ ≠ _)) by (intros []; done).
    rewrite decide_False by (intros []; done). mrun. exact E.
  - split; [by destruct buy|..|done|done]; by destruct buy.
  - split_and!; [by destruct buy..|]. destruct buy; simpl; by rewrite Hav.
Qed.

Lemma upd_split l1 h l2 h' :
  NoDup (g_ptr <$> l1 ++ h :: l2) → g_ptr h' = g_ptr h →
  upd h' <$> (l1 ++ h :: l2) = l1 ++ h' :: l2.
Proof.
  intros Hnd Hp. rewrite fmap_app, fmap_cons in Hnd.
  apply NoDup_app in Hnd as (_ & Hd & [Hn _]%NoDup_cons).
  rewrite fmap_app, fmap_cons, upd_same by done. f_equal; [|f_equal];
    apply fmap_id_in; intros x Hx; apply upd_other; rewrite Hp; intros E.
  - apply (Hd (g_ptr x)); [by apply list_elem_of_fmap_2|]. rewrite E. by left.
  - apply Hn. rewrite <- E. by apply list_elem_of_fmap_2.
Qed.

Lemma chained_skip s G1 h g G2 :
  chained s (G1 ++ h :: g :: G2) → chained s (G1 ++ g_set_next (g_next g) h :: G2).
Proof.
  revert s. induction G1 as [|a G1 IH]; intros s; simpl.
  - by intros (? & ? & ?).
  - intros [? ?]. split; [done|]. by apply IH.
Qed.

(** A new next pointer in one level. *)
Lemma heap_set_next b all h n :
  let h' := g_set_next n h in
  let lp := mstore (price_level_pool b) (g_ptr h) (g_obj h') in
  heap_ok (order_pool b) (price_level_pool b) (price_levels b) all → h ∈ all →
  writes [g_ptr h] (price_level_pool b) lp ∧
  heap_ok (order_pool b) lp (price_levels b) (upd h' <$> all).
Proof.
  intros h' lp Hh Hin. pose proof (h_levels _ _ _ _ Hh h Hin) as Hokh.
  assert (is_Some (mload (price_level_pool b) (g_ptr h))) as Hsome by (rewrite (gl_load _ _ _ Hokh); done).
  assert (writes [g_ptr h] (price_level_pool b) lp) as Hw by (apply writes_one; [by left|done]).
  split; [done|]. eapply (heap_update _ _ _ _ _ _ h h' Hh Hin); try done; [apply Hh| |..].
  - eapply ObjectPool.writes_wf; [done|apply Hh].
  - destruct Hokh as [_ Hu Hr Hru Ho]. split; [by apply mload_mstore_eq| |by apply Hr|done|done].
    by eapply ObjectPool.writes_in_use.
  - intros p Hp Hne. split; [by apply mload_mstore_ne|].
    by eapply ObjectPool.writes_in_use.
  - intros q Hq. by left.
Qed.

(** A linked level that is not the best of its side. *)
Lemma remove_mid buy b e G1 h g G1' G2 Go :
  view buy b (G1 ++ h :: g :: G1') G2 Go →
  ∃ b', removePriceLevel (Some (g_ptr g)) (mkSt b e) = Done (tt, mkSt b' e) ∧
        view buy b' (G1 ++ g_set_next (g_next g) h :: G1') G2 Go ∧ removed b b'.
Proof.
  intros Hv. pose proof (view_nodup _ _ _ _ _ Hv) as Hnd.
  pose proof (view_length _ _ _ _ _ Hv) as Hlen. rewrite length_app in Hlen. simpl in Hlen.
  pose proof Hv as [Hh Hc1 Hc2 Hs1 Hs2].
  set (h' := g_set_next (g_next g) h). set (all := (G1 ++ h :: g :: G1') ++ G2 ++ Go) in *.
  assert (h ∈ all ∧ g ∈ all) as [Hin Hing] by (unfold all; set_solver).
  assert (g_buy g = buy) as Hb.
  { rewrite Forall_forall in Hs1. apply Hs1. set_solver. }
  pose proof (h_levels _ _ _ _ Hh h Hin) as Hokh.
  destruct (heap_set_next b all h (g_next g) Hh Hin) as [Hw Hh1]. fold h' in Hw, Hh1.
  set (lp1 := mstore (price_level_pool b) (g_ptr h) (g_obj h')) in *.
  assert (upd h' <$> all = (G1 ++ h' :: g :: G1') ++ G2 ++ Go) as Hupd.
  { assert (all = G1 ++ h :: (g :: G1' ++ G2 ++ Go)) as E by (unfold all; by rewrite <- app_assoc).
    rewrite E, upd_split; [by rewrite <- app_assoc|rewrite <- E; apply Hh|done]. }
  rewrite Hupd in Hh1.
  destruct (release_run (set_price_level_pool lp1 b) e _ g ((G1 ++ h' :: G1') ++ G2 ++ Go) Hh1)
    as (lp' & E & Hh' & Hav); [solve_Permutation|].
  assert (Some (g_ptr g) ≠ best buy b ∧ best buy b ≠ None) as [Hne Hnn].
  { pose proof (chained_start _ _ Hc1) as ->. destruct G1 as [|a G1]; simpl; (split; [|done]);
      intros [= Ep]; rewrite ?fmap_cons, ?fmap_app in Hnd; apply NoDup_cons in Hnd as [Hn _];
      apply Hn; rewrite <- Ep; set_solver. }
  eexists. split_and!.
  - rewrite remove_run by (eapply gl_load, Hh; done). simpl. rewrite Hb.
    rewrite (decide_True (P := Some _ ≠ _)) by done. rewrite decide_True by done. rewrite bind_bind.
    rewrite (bind_done _ _ _ (Some (g_ptr h)) (mkSt b e)).
    2:{ eapply (remove_walk b all _ G1 h g G1'); [done|unfold all; set_solver|done|done|lia]. }
    rewrite (bind_done _ _ _ tt (mkSt (set_price_level_pool lp1 b) e)).
    2:{ apply in_levels_done. rewrite (assign_done _ _ _ (g_obj h)) by apply Hokh. done. }
    exact E.
  - split; simpl; [exact Hh'|..|done].
    + apply chained_skip. by destruct buy.
    + by destruct buy.
    + apply Forall_app in Hs1 as [? Hs1]. apply Forall_cons in Hs1 as [? Hs1].
      apply Forall_cons in Hs1 as [_ Hs1]. by apply Forall_app; split; [|constructor].
  - split_and!; [done..|]. simpl. rewrite Hav. f_equal. simpl. by eapply ObjectPool.writes_avail.
Qed.

(** A level that is not linked, while its side has levels: the walk runs off the
    end of the chain. *)
Lemma remove_off_crash buy b e g G1 G2 Go :
  view buy b G1 G2 Go → g ∈ Go → g_buy g = buy → G1 ≠ [] →
  removePriceLevel (Some (g_ptr g)) (mkSt b e) = UB NullDeref.
Proof.
  intros Hv Hg Hb Hne. pose proof (view_length _ _ _ _ _ Hv) as Hlen.
  pose proof Hv as [Hh Hc1 _ _ _]. destruct G1 as [|c G1]; [done|].
  assert (g ∈ (c :: G1) ++ G2 ++ Go) as Hin by set_solver.
  assert (g ∉ c :: G1) as Hn.
  { intros Hn. pose proof (h_nodup _ _ _ _ Hh) as Hnd. rewrite fmap_app in Hnd.
    apply NoDup_app in Hnd as (_ & Hd & _). apply (Hd (g_ptr g)); apply list_elem_of_fmap_2;
      [done|set_solver]. }
  assert (Some (g_ptr g) ≠ best buy b) as Hs.
  { destruct Hc1 as [-> _]. intros [= Hp]. apply Hn.
    rewrite (heap_unique _ _ _ _ g c Hh) by (done || set_solver). by left. }
  rewrite remove_run by (eapply gl_load, Hh; done). simpl. rewrite Hb.
  rewrite (decide_True (P := Some _ ≠ _)) by done.
  rewrite decide_True by (destruct Hc1 as [-> _]; done). rewrite bind_bind.
  apply bind_ub. eapply (remove_walk_off b _ _ c G1); [done|set_solver|done..|].
  simpl in Hlen. lia.
Qed.

(** The same with no level linked on its side: the successor it was given when it
    was made becomes the best level. *)
Lemma remove_off buy b e g G2 Go1 Go2 :
  view buy b [] G2 (Go1 ++ g :: Go2) → g_buy g = buy →
  ∃ b', removePriceLevel (Some (g_ptr g)) (mkSt b e) = Done (tt, mkSt b' e) ∧
        best buy b' = g_next g ∧ removed b b' ∧
        (g_next g = None → view buy b' [] G2 (Go1 ++ Go2)).
Proof.
  intros [Hh Hc1 Hc2 Hs1 Hs2] Hb. simpl in Hc1.
  destruct (release_run (set_best buy (g_next g) b) e ([] ++ G2 ++ Go1 ++ g :: Go2) g
              ([] ++ G2 ++ Go1 ++ Go2))
    as (lp' & E & Hh' & Hav); [by destruct buy|solve_Permutation|].
  eexists. split_and!.
  - rewrite remove_run by (eapply gl_load, Hh; set_solver). simpl. rewrite Hb, Hc1.
    rewrite (decide_True (P := Some _ ≠ _)) by done.
    rewrite decide_False by (intros []; done). mrun. exact E.
  - by destruct buy.
  - split_and!; [by destruct buy..|]. destruct buy; simpl; by rewrite Hav.
  - intros Hn. split; [by destruct buy| |by destruct buy|done|done]. destruct buy; exact Hn.
Qed.
End remove.

(** ** [insertPriceLevel] and [getPriceLevel] *)

Section insert.
Implicit Types (b : OrderBook) (e : Env) (g h : GLevel) (G Go : list GLevel) (buy : bool).

Fixpoint g_skip (side : OrderSide) (p : PriceT) G : list GLevel :=
  match G with
  | [] => []
  | g :: G' => if BookSpec.better side (g_price g) p then g_skip side p G' else G
  end.

Lemma g_skip_lvl side p G : g_lvl <$> g_skip side p G = BookSpec.skip_better side p (g_lvl <$> G).
Proof.
  induction G as [|g G IH]; [done|]. simpl. unfold g_price.
  by destruct (BookSpec.better _ _ _).
Qed.

Lemma g_skip_suffix side p G : ∃ G0, G = G0 ++ g_skip side p G.
Proof.
  induction G as [|g G [G0 IH]]; [by exists []|]. simpl.
  destruct (BookSpec.better _ _ _); [|by exists []].
  exists (g :: G0). simpl. by rewrite <- IH.
Qed.

(** The new level comes first exactly when the walk does not leave the best one. *)
Lemma g_skip_start side p g G :
  NoDup (g_ptr <$> g :: G) →
  start (g_skip side p (g :: G)) = start (g :: G) ↔ BookSpec.better side (g_price g) p = false.
Proof.
  intros Hnd. simpl. destruct (BookSpec.better _ _ _); [|by split].
  split; [|done]. intros Hs. destruct (g_skip_suffix side p G) as [G0 HG].
  destruct (g_skip side p G) as [|h G'] eqn:E; [done|]. unfold start in Hs. simpl in Hs.
  apply NoDup_cons in Hnd as [Hn _]. exfalso. apply Hn.
  injection Hs as <-. rewrite HG. apply list_elem_of_fmap_2. set_solver.
Qed.

Lemma insert_walk b all s side p G e fuel :
  heap_ok (order_pool b) (price_level_pool b) (price_levels b) all →
  G ⊆ all → chained s G → (length G < fuel)%nat →
  iterate fuel
    (insert_step (λ q, if decide (side = OrderSide.BUY) then p <? q else q <? p)) s (mkSt b e) =
    Done (start (g_skip side p G), mkSt b e).
Proof.
  intros Hh. revert s fuel. induction G as [|g G IH]; intros s fuel Hsub Hc Hf;
    (destruct fuel as [|fuel]; [simpl in *; lia|]).
  - simpl in Hc. subst s. by apply iterate_inr.
  - pose proof (chained_load _ _ _ _ _ e Hh (Hsub g ltac:(by left)) Hc) as Hl.
    assert (insert_step (λ q, if decide (side = OrderSide.BUY) then p <? q else q <? p) s (mkSt b e) =
      Done (if BookSpec.better side (g_price g) p then inl (g_next g) else inr s, mkSt b e)) as Hstep.
    { unfold insert_step. rewrite decide_False by (destruct Hc as [-> _]; done).
      rewrite (bind_done _ _ _ _ _ Hl).
      change (OrdersPriceLevel.getPrice (g_obj g)) with (g_price g).
      change (if decide (side = OrderSide.BUY) then p <? g_price g else g_price g <? p)
        with (BookSpec.better side (g_price g) p).
      by destruct (BookSpec.better _ _ _). }
    simpl. destruct (BookSpec.better _ _ _).
    + rewrite (iterate_inl _ _ _ _ _ _ Hstep).
      apply IH; [set_solver|by destruct Hc|simpl in *; lia].
    + rewrite (iterate_inr _ _ _ _ _ _ Hstep). by destruct Hc as [-> _].
Qed.

(** The level that [insertPriceLevel] makes. *)
Definition new_level (side : OrderSide) (price : PriceT) (i : nat) G : GLevel :=
  mkG i (start (g_skip side price G)) [] (BookSpec.mkLevel price side []).

Definition comes_first (side : OrderSide) (price : PriceT) G : bool :=
  match G with [] => true | g :: _ => negb (BookSpec.better side (g_price g) price) end.

Lemma comes_first_start side price G :
  NoDup (g_ptr <$> G) →
  start (g_skip side price G) = start G ↔ comes_first side price G = true.
Proof.
  intros Hnd. destruct G as [|g G]; [done|]. rewrite g_skip_start by done.
  simpl. by destruct (BookSpec.better _ _ _).
Qed.

(** The new level in the pool and in the map. *)
Lemma insert_alloc op lp pm all side price G :
  heap_ok op lp pm all → entry pm price = None → (2 ≤ ObjectPool.avail lp)%nat →
  ∃ i lp',
    ObjectPool.getObject (OrdersPriceLevel.make side price (start (g_skip side price G))) lp =
      Done (i, lp') ∧
    heap_ok op lp' (<[price := Some i]> pm) (new_level side price i G :: all).
Proof.
  intros Hh Hent Hav. set (x := OrdersPriceLevel.make _ _ _).
  set (i := ObjectPool.next_free lp).
  destruct (ObjectPool.getObject_done x lp) as (j & E & Hwf); [apply Hh|done|].
  pose proof (h_lpool _ _ _ _ Hh) as Hlp.
  exists i. eexists. split; [exact E|]. apply (heap_new_level _ _ _ _ (new_level side price i G));
    [|split|done|..|done].
  - eapply heap_frame; [exact Hh|apply Hh|done|by intros| |done].
    intros p Hp. rewrite ObjectPool.take_block_load by done.
    rewrite decide_False; [split; [done|apply ObjectPool.take_block_in_use; [done|by right]]|].
    intros ->. by apply (ObjectPool.next_free_not_in_use lp).
  - rewrite ObjectPool.take_block_load by done. by rewrite decide_True.
  - apply ObjectPool.take_block_in_use; [done|by left].
  - split_and!; [done|apply NoDup_nil_2|done|constructor].
  - by intros q ?%not_elem_of_nil.
  - constructor.
  - intros h Hin Hp. apply (ObjectPool.next_free_not_in_use lp); [done|].
    simpl in Hp. unfold i in Hp. rewrite <- Hp. by apply Hh.
Qed.

(** [insertPriceLevel] once its walk is done. *)
Lemma insert_walked buy b e side price G1 G2 Go :
  view buy b G1 G2 Go → is_buy side = buy →
  insertPriceLevel price side price (mkSt b e) =
    (let nxt := start (g_skip side price G1) in
     i ← in_levels (ObjectPool.getObject (OrdersPriceLevel.make side price nxt));
     set_price_levels_at price (Some i);;
     (if decide (nxt = start G1) then mmodify (with_book (set_best buy (Some i))) else mret tt);;
     mret (Some i)) (mkSt b e).
Proof.
  intros Hv Hside. pose proof (view_length _ _ _ _ _ Hv) as Hlen.
  pose proof Hv as [Hh Hc1 _ _ _]. pose proof (chained_start _ _ Hc1) as Hst.
  rewrite Hst in Hc1. unfold insertPriceLevel. rewrite bind_get.
  change (if decide (side = OrderSide.BUY) then best_bids (book (mkSt b e)) else best_asks (book (mkSt b e)))
    with (if decide (side = OrderSide.BUY) then best_bids b else best_asks b).
  assert ((if decide (side = OrderSide.BUY) then best_bids b else best_asks b) = start G1) as ->.
  { rewrite <- Hst, <- Hside. unfold is_buy, best.
    by destruct (decide (side = OrderSide.BUY)) as [->|?]; [|rewrite bool_decide_eq_false_2]. }
  rewrite (bind_done _ _ _ (start (g_skip side price G1)) (mkSt b e)).
  2:{ eapply insert_walk; [exact Hh|set_solver|done|]. by apply Nat.lt_succ_r. }
  rewrite <- Hside. unfold is_buy, set_best.
  by destruct (decide (side = OrderSide.BUY)) as [->|?]; [|rewrite bool_decide_eq_false_2].
Qed.

Lemma insert_prog buy b e side price G1 G2 Go i lp' :
  view buy b G1 G2 Go → is_buy side = buy →
  ObjectPool.getObject (OrdersPriceLevel.make side price (start (g_skip side price G1)))
    (price_level_pool b) = Done (i, lp') →
  insertPriceLevel price side price (mkSt b e) =
    let b1 := set_price_levels (<[price := Some i]> (price_levels b)) (set_price_level_pool lp' b) in
    Done (Some i, mkSt (if comes_first side price G1 then set_best buy (Some i) b1 else b1) e).
Proof.
  intros Hv Hside E. pose proof (comes_first_start side price _ (view_nodup _ _ _ _ _ Hv)) as Hcf.
  rewrite (insert_walked buy b e side price G1 G2 Go) by done. simpl.
  rewrite (bind_done _ _ _ i (mkSt (set_price_level_pool lp' b) e)) by (by apply in_levels_done).
  unfold set_price_levels_at, member. mrun. case_decide as Hd; mrun.
  - by rewrite (proj1 Hcf Hd).
  - destruct (comes_first _ _ _); [by destruct Hd; apply Hcf|]. done.
Qed.

(** A level is made, entered in the map and, when it comes first, linked. *)
Lemma insert_run buy b e side price G1 G2 Go :
  view buy b G1 G2 Go → is_buy side = buy → entry (price_levels b) price = None →
  (2 ≤ ObjectPool.avail (price_level_pool b))%nat →
  ∃ i b',
    let g := new_level side price i G1 in
    insertPriceLevel price side price (mkSt b e) = Done (Some i, mkSt b' e) ∧
    (if comes_first side price G1 then view buy b' (g :: G1) G2 Go
     else view buy b' G1 G2 (g :: Go)) ∧
    ticker_id b' = ticker_id b ∧ order_pool b' = order_pool b.
Proof.
  intros Hv Hside Hent Hav.
  pose proof (comes_first_start side price _ (view_nodup _ _ _ _ _ Hv)) as Hcf.
  pose proof Hv as [Hh Hc1 Hc2 Hs1 Hs2].
  destruct (insert_alloc _ _ _ _ side price G1 Hh Hent Hav) as (i & lp' & E & Hh').
  eexists i, _. split_and!; [by eapply insert_prog| | |]; destruct (comes_first _ _ _);
    try (by destruct buy).
  - assert (start (g_skip side price G1) = start G1) as Hst by (by apply Hcf).
    split; simpl; [by destruct buy| | |by constructor|done]; [|by destruct buy].
    split; [by destruct buy|]. simpl. rewrite Hst, <- (chained_start _ _ Hc1). done.
  - split; simpl; [|by destruct buy..|done|done].
    revert Hh'. apply heap_perm. solve_Permutation.
Qed.

Lemma insert_exhausted buy b e side price G1 G2 Go :
  view buy b G1 G2 Go → is_buy side = buy →
  ObjectPool.avail (price_level_pool b) = 1%nat →
  insertPriceLevel price side price (mkSt b e) = Exited "Buffer is full.".
Proof.
  intros Hv Hside Hav. rewrite (insert_walked buy b e side price G1 G2 Go) by done. simpl.
  apply bind_exited, in_levels_exited, ObjectPool.getObject_exhausted; [|done].
  apply (v_heap _ _ _ _ _ Hv).
Qed.

Lemma get_level_found b e price side create p :
  entry (price_levels b) price = Some p →
  getPriceLevel price side create (mkSt b e) = Done (Some p, mkSt (touch price b) e).
Proof.
  intros He. unfold getPriceLevel, getPriceLevelIndex.
  by rewrite (bind_done _ _ _ _ _ (price_levels_at_run price b e)), He.
Qed.

Lemma get_level_missing b e price side create :
  entry (price_levels b) price = None →
  getPriceLevel price side create (mkSt b e) =
    if create then insertPriceLevel price side price (mkSt (touch price b) e)
    else Done (None, mkSt (touch price b) e).
Proof.
  intros He. unfold getPriceLevel, getPriceLevelIndex.
  rewrite (bind_done _ _ _ _ _ (price_levels_at_run price b e)), He. by destruct create.
Qed.
End insert.
End BookLevels.
