(* ===== verification/BookRefine.v ===== *)
(** The pointer code of OrderBook.v implements the specification of BookSpec.v:
    matching, [add] and [cancel]. *)

From S2P Require Import Prelude Types Memory ObjectPool PriceLevel LFQueue TimeUtils.
From S2P Require Import OrderBook BookSpec BookHeap BookLevels.
Local Open Scope Z_scope.

Module BookRefine.
Import OrderBook BookHeap BookLevels.

(** ** The environment *)

Lemma pushes_wf {T} (xs : list T) q : LFQueue.wf q → LFQueue.wf (BookSpec.pushes xs q).
Proof.
  revert q. induction xs as [|x xs IH]; intros q Hq; [done|]. by apply IH, LFQueue.pushed_wf.
Qed.

Lemma env_ok_emit rs us i n e : env_ok e → env_ok (BookSpec.emit rs us i n e).
Proof. intros [? ?]. split; by apply pushes_wf. Qed.

Lemma emit_emit rs1 us1 i1 n1 rs2 us2 i2 n2 e :
  BookSpec.emit rs2 us2 i2 n2 (BookSpec.emit rs1 us1 i1 n1 e) =
  BookSpec.emit (rs1 ++ rs2) (us1 ++ us2) (i1 + i2) (n1 + n2) e.
Proof.
  unfold BookSpec.emit, BookSpec.pushes, BookSpec.trade_id_after; simpl. f_equal.
  - by rewrite foldl_app.
  - by rewrite foldl_app.
  - by rewrite (Nat.add_comm i1), Nat.iter_add.
  - lia.
Qed.

Lemma emit_nil e : BookSpec.emit [] [] 0 0 e = e.
Proof. by destruct e. Qed.

Lemma pushes_snoc {T} xs (x : T) q :
  BookSpec.pushes (xs ++ [x]) q = LFQueue.pushed x (BookSpec.pushes xs q).
Proof. unfold BookSpec.pushes. by rewrite foldl_app. Qed.

(** The environment of a running operation is always some [emit] of the one it
    started in. *)
Lemma update_done u b rs us i n e :
  env_ok e →
  push_update u (mkSt b (BookSpec.emit rs us i n e)) =
    Done (tt, mkSt b (BookSpec.emit rs (us ++ [u]) i n e)).
Proof.
  intros He. rewrite (push_update_done _ _ _ (env_ok_emit rs us i n e He)).
  unfold BookSpec.emit. by rewrite pushes_snoc.
Qed.

Lemma response_done r b rs us i n e :
  env_ok e →
  push_response r (mkSt b (BookSpec.emit rs us i n e)) =
    Done (tt, mkSt b (BookSpec.emit (rs ++ [r]) us i n e)).
Proof.
  intros He. rewrite (push_response_done _ _ _ (env_ok_emit rs us i n e He)).
  unfold BookSpec.emit. by rewrite pushes_snoc.
Qed.

Lemma bind_response {B} r (k : unit → M St B) b rs us i n e :
  env_ok e →
  (x ← push_response r; k x) (mkSt b (BookSpec.emit rs us i n e)) =
    k tt (mkSt b (BookSpec.emit (rs ++ [r]) us i n e)).
Proof. intros He. by apply bind_done, response_done. Qed.

Lemma bind_update {B} u (k : unit → M St B) b rs us i n e :
  env_ok e →
  (x ← push_update u; k x) (mkSt b (BookSpec.emit rs us i n e)) =
    k tt (mkSt b (BookSpec.emit rs (us ++ [u]) i n e)).
Proof. intros He. by apply bind_done, update_done. Qed.

Lemma bind_now `{Clock} {B} (k : NsTimestampT → M St B) b rs us i n e :
  (x ← now; k x) (mkSt b (BookSpec.emit rs us i n e)) =
    k (timestamp (n + clock_reads e)%nat) (mkSt b (BookSpec.emit rs us i (S n) e)).
Proof. done. Qed.

Lemma bind_trade_id {B} (k : TradeIdT → M St B) b rs us i n e :
  (x ← post_increment_trade_id; k x) (mkSt b (BookSpec.emit rs us i n e)) =
    k (BookSpec.trade_id_after i (next_trade_id e)) (mkSt b (BookSpec.emit rs us (S i) n e)).
Proof. done. Qed.

(** Running a computation whose result is known, and the pushes and readings of
    the environment. *)
Ltac run H := rewrite (bind_done _ _ _ _ _ H); cbn [book env].
Ltac run_env :=
  repeat first [ rewrite bind_bind | rewrite bind_ret | rewrite bind_now | rewrite bind_trade_id
               | rewrite bind_update by done | rewrite bind_response by done ].

(** ** One trade *)

Section match_.
Context `{Clock}.
Implicit Types (b : OrderBook) (e : Env) (g h : GLevel) (G Go : list GLevel) (buy : bool).

(** The level after its oldest order has traded [f]. *)
Definition after_fill (f : QuantityT) q ps (o : Order) (os : list Order) g : GLevel :=
  if decide (Order.quantity o - f = 0) then g_set_orders ps os g
  else g_set_orders (q :: ps) (Order.set_quantity (Order.quantity o - f) o :: os) g.

(** What matching leaves alone. *)
Definition matched b b' : Prop :=
  ticker_id b' = ticker_id b ∧ msize (order_pool b') = msize (order_pool b) ∧
  ObjectPool.avail (order_pool b') = ObjectPool.avail (order_pool b) ∧
  (ObjectPool.avail (price_level_pool b) ≤ ObjectPool.avail (price_level_pool b'))%nat.

(** The order at the head of a level, as it is in memory. *)
Lemma top_order op l q ps o os :
  PriceLevel.level_rep op l (q :: ps) (o :: os) →
  ∃ o1, mload op q = Some o1 ∧ o = Order.unlink o1.
Proof. intros (_ & _ & _ & Hf). apply Forall2_cons in Hf as [Hh _]. by apply PriceLevel.holds_load. Qed.

(** Writing back what a list operation did to the level [g], whose orders are now
    old ones of it or in blocks that were free. *)
Lemma view_put_new buy b op' g ps os G1 G2 Go :
  view buy b G1 G2 Go → g ∈ G1 ++ G2 ++ Go →
  let g' := g_set_orders ps os g in
  ObjectPool.wf op' →
  (∀ q, ObjectPool.in_use (order_pool b) q → q ∉ g_ring g →
        mload op' q = mload (order_pool b) q ∧ ObjectPool.in_use op' q) →
  (∀ q, q ∈ ps → ObjectPool.in_use op' q ∧
        (q ∈ g_ring g ∨ ¬ ObjectPool.in_use (order_pool b) q)) →
  PriceLevel.level_rep op' (g_obj g') ps os → Forall (order_ok (g_price g)) os →
  view buy (put_level (g_ptr g) op' (g_obj g') b)
    (upd g' <$> G1) (upd g' <$> G2) (upd g' <$> Go).
Proof.
  intros Hv Hg g' Hwf Ho Hps Hrep Hos. pose proof (view_elem _ _ _ _ _ _ Hv Hg) as Hok.
  pose proof (v_heap _ _ _ _ _ Hv) as Hh.
  assert (is_Some (mload (price_level_pool b) (g_ptr g))) as Hs by (eexists; apply Hok).
  assert (writes [g_ptr g] (price_level_pool b) (mstore (price_level_pool b) (g_ptr g) (g_obj g')))
    as Hwl by (apply writes_one; [by left|done]).
  apply (view_upd buy b _ G1 G2 Go g); try done.
  apply (heap_update (order_pool b) (price_level_pool b) _ _ _ _ g); try done.
  - eapply ObjectPool.writes_wf; [done|apply Hh].
  - split; [by apply mload_mstore_eq| |done| |done].
    + eapply ObjectPool.writes_in_use; [done|apply Hok].
    + intros q Hq. by apply Hps.
  - intros p Hp Hn. split; [|by eapply ObjectPool.writes_in_use].
    eapply writes_load; [done|]. set_solver.
  - intros q Hq. destruct (Hps q Hq) as [_ [?|Hn]]; [by left|right].
    intros h Hh' Hq'. apply Hn. by eapply gl_ring_used; [apply Hh|].
Qed.

Lemma view_put buy b op' g ps os G1 G2 Go :
  view buy b G1 G2 Go → g ∈ G1 ++ G2 ++ Go →
  let g' := g_set_orders ps os g in
  writes (g_ring g) (order_pool b) op' →
  PriceLevel.level_rep op' (g_obj g') ps os → ps ⊆ g_ring g → Forall (order_ok (g_price g)) os →
  view buy (put_level (g_ptr g) op' (g_obj g') b)
    (upd g' <$> G1) (upd g' <$> G2) (upd g' <$> Go).
Proof.
  intros Hv Hg g' Hw Hrep Hsub Hos. apply view_put_new; try done.
  - eapply ObjectPool.writes_wf; [done|]. apply (v_heap _ _ _ _ _ Hv).
  - intros q Hq Hn. split; [by eapply writes_load|by eapply ObjectPool.writes_in_use].
  - intros q Hq%Hsub. split; [|by left]. eapply ObjectPool.writes_in_use; [done|].
    by apply (view_elem _ _ _ _ _ _ Hv Hg).
Qed.

Lemma put_matched b i op' l X :
  writes X (order_pool b) op' → is_Some (mload (price_level_pool b) i) →
  matched b (put_level i op' l b).
Proof.
  intros Hw Hs. split_and!; [done|by eapply writes_size|by eapply ObjectPool.writes_avail|].
  apply Nat.eq_le_incl. symmetry. eapply ObjectPool.writes_avail.
  by apply (writes_one _ i l [i]); [left|].
Qed.

Lemma matched_trans b1 b2 b3 : matched b1 b2 → matched b2 b3 → matched b1 b3.
Proof. intros (?&?&?&?) (?&?&?&?). split_and!; [congruence..|lia]. Qed.

(** Books that differ in their orders and in null entries only. *)
Definition agree b1 b : Prop :=
  ticker_id b1 = ticker_id b ∧ price_level_pool b1 = price_level_pool b ∧
  best_bids b1 = best_bids b ∧ best_asks b1 = best_asks b ∧
  ∀ x, entry (price_levels b1) x = entry (price_levels b) x.

Lemma touch_agree x op b : agree (touch x (set_order_pool op b)) b.
Proof.
  destruct (touch_fields x (set_order_pool op b)) as (? & ? & ? & ? & ?).
  split_and!; try done. intros y. by rewrite touch_entry.
Qed.

Lemma put_agree buy b1 b i op l G1 G2 Go :
  agree b1 b → view buy (put_level i op l b) G1 G2 Go → view buy (put_level i op l b1) G1 G2 Go.
Proof.
  intros (? & El & ? & ? & ?) Hv. eapply view_ext; [done..| |done|done|done].
  unfold put_level. cbn [price_level_pool set_price_level_pool]. by rewrite El.
Qed.

Lemma put_matched_agree b1 b i op l X :
  agree b1 b → writes X (order_pool b) op → is_Some (mload (price_level_pool b) i) →
  matched b (put_level i op l b1).
Proof.
  intros (Et & El & _) Hw Hs. destruct (put_matched b i op l X Hw Hs) as (? & ? & ? & Hle).
  split_and!; [by rewrite <- Et|done|done|].
  unfold put_level in *. cbn [price_level_pool set_price_level_pool] in *. by rewrite El.
Qed.

(** The environment after one trade. *)
Definition emit_fill (tid : TickerIdT) order_id client_id side (fill : BookSpec.Fill) e : Env :=
  BookSpec.emit
    (BookSpec.fill_responses tid order_id client_id side (clock_reads e) fill)
    (BookSpec.fill_updates tid side (next_trade_id e) (clock_reads e) fill) 1 4 e.

(** A trade that fills the maker: the level loses its oldest order. *)
Lemma match_fills b e g q ps o1 os op2 order_id client_id side quantity :
  mload (price_level_pool b) (g_ptr g) = Some (g_obj g) →
  mload (order_pool b) q = Some o1 → env_ok e →
  entry (price_levels b) (Order.limit_price o1) = Some (g_ptr g) →
  0 < Order.quantity o1 ≤ quantity → quantity < 2 ^ 32 →
  let op1 := mstore (order_pool b) q (Order.set_quantity 0 o1) in
  let l' := g_obj (g_set_orders ps os g) in
  PriceLevel.cancel (Order.order_id o1) (PriceLevel.mkSt op1 (g_obj g)) =
    Done (Some q, PriceLevel.mkSt op2 l') →
  mload op2 q = Some (Order.unlink (Order.set_quantity 0 o1)) →
  match_ order_id client_id side quantity (Some q) (mkSt b e) =
    Done (quantity - Order.quantity o1,
      mkSt (put_level (g_ptr g) op2 l' (touch (Order.limit_price o1) (set_order_pool op1 b)))
        (emit_fill (ticker_id b) order_id client_id side
          (BookSpec.mkFill (Order.unlink o1) (Order.quantity o1)) e)).
Proof.
  intros Hl Ho1 He Hent Hq Hq' op1 l' Ec Hq2.
  assert (mload op1 q = Some (Order.set_quantity 0 o1)) as Hl1 by (by apply mload_mstore_eq).
  destruct (touch_fields (Order.limit_price o1) (set_order_pool op1 b)) as (Ft & Fo & Fl & Fb & Fa).
  unfold match_, member. rewrite bind_gets. cbn [book env].
  rewrite <- (emit_nil e) at 1. run (order_at_done b (BookSpec.emit [] [] 0 0 e) q o1 Ho1).
  replace (Z.min quantity (Order.quantity o1)) with (Order.quantity o1) by lia. run_env.
  lazymatch goal with |- _ (mkSt _ ?e1) = _ =>
    rewrite (bind_done _ _ _ tt (mkSt (set_order_pool op1 b) e1)) end.
  2:{ apply in_orders_done. rewrite (assign_done _ _ _ o1) by done. by rewrite Z.sub_diag. }
  lazymatch goal with |- _ (mkSt _ ?e1) = _ => run (order_at_done (set_order_pool op1 b) e1 q _ Hl1) end.
  rewrite decide_True by done. run_env.
  change (Order.limit_price (Order.set_quantity 0 o1)) with (Order.limit_price o1).
  change (Order.order_id (Order.set_quantity 0 o1)) with (Order.order_id o1).
  lazymatch goal with |- _ (mkSt _ ?e1) = _ =>
    rewrite (bind_done _ _ _ _ _ (get_level_found (set_order_pool op1 b) e1 _ side false _ Hent)) end.
  rewrite bind_bind.
  lazymatch goal with |- _ (mkSt _ ?e1) = _ =>
    rewrite (bind_done _ _ _ _ _ (on_level_done (PriceLevel.cancel (Order.order_id o1)) _ e1
      (g_ptr g) (g_obj g) _ op2 l' ltac:(rewrite Fl; exact Hl) ltac:(rewrite Fo; exact Ec))) end.
  rewrite bind_ret.
  lazymatch goal with |- _ (mkSt ?b1 ?e1) = _ => run (order_at_done b1 e1 q _ Hq2) end.
  change (Order.limit_price (Order.unlink _)) with (Order.limit_price o1).
  run_env. rewrite u32_id by lia. unfold emit_fill, BookSpec.fill_updates.
  rewrite decide_True by (unfold BookSpec.maker_left; simpl; lia). reflexivity.
Qed.

(** A trade that leaves something of the maker. *)
Lemma match_reduces b e q o1 order_id client_id side quantity :
  mload (order_pool b) q = Some o1 → env_ok e →
  0 < quantity < Order.quantity o1 → Order.quantity o1 < 2 ^ 32 →
  match_ order_id client_id side quantity (Some q) (mkSt b e) =
    Done (0,
      mkSt (set_order_pool (mstore (order_pool b) q
              (Order.set_quantity (Order.quantity o1 - quantity) o1)) b)
        (emit_fill (ticker_id b) order_id client_id side
          (BookSpec.mkFill (Order.unlink o1) quantity) e)).
Proof.
  intros Ho1 He Hq Hq'. set (o2 := Order.set_quantity _ o1).
  set (op1 := mstore (order_pool b) q o2).
  assert (mload op1 q = Some o2) as Hl1 by (by apply mload_mstore_eq).
  unfold match_, member. rewrite bind_gets. cbn [book env].
  rewrite <- (emit_nil e) at 1. run (order_at_done b (BookSpec.emit [] [] 0 0 e) q o1 Ho1).
  replace (Z.min quantity (Order.quantity o1)) with quantity by lia. run_env.
  lazymatch goal with |- _ (mkSt _ ?e1) = _ =>
    rewrite (bind_done _ _ _ tt (mkSt (set_order_pool op1 b) e1)) end.
  2:{ apply in_orders_done. rewrite (assign_done _ _ _ o1) by done. by rewrite u32_id by lia. }
  lazymatch goal with |- _ (mkSt _ ?e1) = _ => run (order_at_done (set_order_pool op1 b) e1 q _ Hl1) end.
  rewrite decide_False by (simpl; lia). run_env.
  lazymatch goal with |- _ (mkSt _ ?e1) = _ => run (order_at_done (set_order_pool op1 b) e1 q _ Hl1) end.
  run_env. rewrite Z.sub_diag. unfold emit_fill, BookSpec.fill_updates.
  rewrite decide_False by (unfold BookSpec.maker_left; simpl; lia). reflexivity.
Qed.

Lemma pool_store_same {T} (p : ObjectPool T) i x : mload p i = Some x → mstore p i x = p.
Proof.
  simpl. destruct (ObjectPool.store p !! i) as [[y a]|] eqn:E; simpl; [|done].
  intros [= <-]. rewrite list_insert_id by done. by destruct p.
Qed.

(** One trade against the oldest order of a level. *)
Lemma match_run buy b e g q ps o os G1 G2 Go order_id client_id side quantity :
  view buy b G1 G2 Go → g ∈ G1 ++ G2 ++ Go → g_ring g = q :: ps → g_orders g = o :: os →
  env_ok e → 0 < quantity < 2 ^ 32 →
  let f := Z.min quantity (Order.quantity o) in
  let g' := after_fill f q ps o os g in
  ∃ b',
    match_ order_id client_id side quantity (Some q) (mkSt b e) =
      Done (quantity - f,
        mkSt b' (emit_fill (ticker_id b) order_id client_id side (BookSpec.mkFill o f) e)) ∧
    view buy b' (upd g' <$> G1) (upd g' <$> G2) (upd g' <$> Go) ∧ matched b b'.
Proof.
  intros Hv Hg Hring Hords He Hq. pose proof (view_elem _ _ _ _ _ _ Hv Hg) as Hok.
  pose proof (gl_rep _ _ _ Hok) as Hrep. pose proof (gl_orders _ _ _ Hok) as Hoo.
  rewrite Hring, Hords in Hrep. rewrite Hords in Hoo.
  apply Forall_cons in Hoo as [[Hprice Hqty] Hos].
  destruct (top_order _ _ _ _ _ _ Hrep) as (o1 & Ho1 & ->). cbn in Hprice, Hqty.
  change (Order.quantity (Order.unlink o1)) with (Order.quantity o1).
  assert (is_Some (mload (price_level_pool b) (g_ptr g))) as Hs by (eexists; apply Hok).
  assert (∀ n, writes (g_ring g) (order_pool b) (mstore (order_pool b) q (Order.set_quantity n o1)))
    as Hw1 by (intros; apply writes_one; [rewrite Hring; by left|done]).
  unfold after_fill. destruct (decide (quantity < Order.quantity o1)) as [Hlt|Hge].
  - rewrite Z.min_l by lia. rewrite decide_False by (cbn; lia). rewrite Z.sub_diag.
    eexists. split; [apply (match_reduces b e q o1); [done..|lia|lia]|].
    set (op1 := mstore _ _ _).
    pose proof (PriceLevel.level_rep_quantity _ _ _ _ _ _ (Order.quantity o1 - quantity) _ Hrep Ho1) as Hrep1.
    match goal with |- context [g_set_orders ?p ?o g] => set (os1 := o) end.
    assert (put_level (g_ptr g) op1 (g_obj (g_set_orders (q :: ps) os1 g)) b = set_order_pool op1 b) as E.
    { unfold put_level. rewrite pool_store_same; [by destruct b|]. rewrite (gl_load _ _ _ Hok).
      unfold g_obj; simpl. by rewrite Hring. }
    rewrite <- E. split; [|by eapply put_matched; [apply Hw1|]].
    apply view_put; [done|done|apply Hw1| |by rewrite Hring|].
    + unfold g_obj in *; simpl. by rewrite Hring in *.
    + constructor; [|done]. split; simpl; [done|lia].
  - rewrite Z.min_r by lia. rewrite decide_True by (cbn; lia).
    pose proof (PriceLevel.level_rep_quantity _ _ _ _ _ _ 0 _ Hrep Ho1) as Hrep1.
    destruct (PriceLevel.cancel_top_spec _ _ _ _ _ _ Hrep1) as (op2 & Ec & Hq2 & Hw2 & Hrep2).
    assert (writes (g_ring g) (order_pool b) op2) as Hw
      by (eapply writes_trans; [apply Hw1|by rewrite Hring]).
    assert (entry (price_levels b) (Order.limit_price o1) = Some (g_ptr g)) as Hent
      by (rewrite Hprice; by apply (heap_entry _ _ _ _ _ (v_heap _ _ _ _ _ Hv))).
    eexists. split; [by apply (match_fills b e g q ps o1 os op2); [apply Hok|..|lia|lia|exact Ec|exact Hq2]|].
    pose proof (touch_agree (Order.limit_price o1) (mstore (order_pool b) q (Order.set_quantity 0 o1)) b)
      as Ha.
    split; [apply (put_agree buy _ b); [done|]|eapply (put_matched_agree _ b); [done..|apply Hs]].
    apply view_put; try done. rewrite Hring. set_solver.
Qed.

(** *** The loop *)

Lemma take_levels_zero c ls : BookSpec.take_levels c 0 ls = ([], 0, ls).
Proof. by destruct ls. Qed.

(** What is left of a queue after its oldest order has traded [f]. *)
Definition queue_left (f : QuantityT) (o : Order) (os : list Order) : list Order :=
  if decide (Order.quantity o - f = 0) then os
  else Order.set_quantity (Order.quantity o - f) o :: os.

Definition levels_left (os : list Order) (l : BookSpec.Level) ls : list BookSpec.Level :=
  match os with [] => ls | _ => BookSpec.set_orders os l :: ls end.

(** Matching, one trade at a time. *)
Lemma take_levels_step c q l ls o os :
  0 < q → c (BookSpec.price l) = true → BookSpec.orders l = o :: os → 0 < Order.quantity o →
  BookSpec.take_levels c q (l :: ls) =
    let f := Z.min q (Order.quantity o) in
    let '(fs, q', r) :=
      BookSpec.take_levels c (q - f) (levels_left (queue_left f o os) l ls) in
    (BookSpec.mkFill o f :: fs, q', r).
Proof.
  intros Hq Hc Hos Hqo. simpl. rewrite decide_False, Hc, Hos by lia. simpl.
  rewrite (decide_False (P := q = 0)) by lia. unfold queue_left.
  set (f := Z.min q (Order.quantity o)). case_decide as Hz.
  - destruct os as [|o2 os]; simpl; [by destruct (BookSpec.take_levels _ _ _) as [[] ?]|].
    case_decide as Hz2; [by rewrite Hz2|]. rewrite Hc.
    destruct (decide (Order.quantity o2 - _ = 0)); [|done].
    destruct (BookSpec.take_orders _ os) as [[fs q'] [|o3 os']]; [|done].
    by destruct (BookSpec.take_levels _ _ _) as [[] ?].
  - assert (q - f = 0) as -> by lia. simpl. done.
Qed.

Context (order_id : OrderIdT) (client_id : ClientIdT) (side : OrderSide) (crosses : PriceT → bool).

(** Levels that have orders, and what a step leaves of the first of them. *)
Definition glevels_left g G : list GLevel := match g_ring g with [] => G | _ => g :: G end.

Lemma ring_orders op lp g : gl_ok op lp g → length (g_ring g) = length (g_orders g).
Proof. intros Hok. destruct (gl_rep _ _ _ Hok) as (_ & _ & _ & Hf). by eapply Forall2_length. Qed.

Lemma check_step_run opp b e g o os G1 G2 Go quantity :
  view opp b (g :: G1) G2 Go → g_orders g = o :: os → crosses (g_price g) = true →
  env_ok e → 0 < quantity < 2 ^ 32 →
  let f := Z.min quantity (Order.quantity o) in
  ∃ b' g',
    check_step order_id client_id side (best opp) crosses quantity (mkSt b e) =
      Done (inl (quantity - f),
        mkSt b' (emit_fill (ticker_id b) order_id client_id side (BookSpec.mkFill o f) e)) ∧
    view opp b' (glevels_left g' G1) G2 Go ∧ matched b b' ∧
    g_lvl g' = BookSpec.set_orders (queue_left f o os) (g_lvl g) ∧
    length (g_ring g') = length (g_orders g') ∧
    length (g_ring g) = (length (g_ring g') + if decide (Order.quantity o - f = 0)%Z then 1 else 0)%nat.
Proof.
  intros Hv Hos Hc He Hq f. assert (g ∈ (g :: G1) ++ G2 ++ Go) as Hin by by left.
  pose proof (view_elem _ _ _ _ _ _ Hv Hin) as Hok.
  pose proof (ring_orders _ _ _ Hok) as Hlen. rewrite Hos in Hlen.
  destruct (g_ring g) as [|q ps] eqn:Hring; [done|].
  destruct (match_run opp b e g q ps o os _ _ _ order_id client_id side quantity Hv Hin Hring Hos He Hq)
    as (b1 & E & Hv1 & Hm). fold f in E, Hv1. set (g' := after_fill f q ps o os g) in *.
  assert (g_ptr g' = g_ptr g) as Hptr by (unfold g', after_fill; by case_decide).
  assert (∀ h, h ∈ G1 ++ G2 ++ Go → upd g' h = h) as Hu.
  { intros h Hh. apply upd_other. rewrite Hptr. intros Ep.
    pose proof (h_nodup _ _ _ _ (v_heap _ _ _ _ _ Hv)) as Hnd.
    apply NoDup_cons in Hnd as [Hn _]. apply Hn. rewrite <- Ep. by apply list_elem_of_fmap_2. }
  rewrite fmap_cons, (upd_same g' g), !fmap_id_in in Hv1 by (done || (intros; apply Hu; set_solver)).
  destruct (v_chain1 _ _ _ _ _ Hv) as [Hb _]. destruct (v_chain1 _ _ _ _ _ Hv1) as [Hb1 _].
  set (e1 := emit_fill _ _ _ _ _ _) in *.
  assert (check_step order_id client_id side (best opp) crosses quantity (mkSt b e) =
    ((if decide (head (g_ring g') = nullptr) then removePriceLevel (Some (g_ptr g')) else mret tt);;
     mret (inl (quantity - f))) (mkSt b1 e1)) as Hrun.
  { unfold check_step, member. rewrite decide_False by lia. rewrite bind_gets. cbn [book].
    rewrite Hb, decide_False by done. run (level_at_done b e _ _ (gl_load _ _ _ Hok)).
    change (OrdersPriceLevel.getPrice (g_obj g)) with (g_price g). rewrite Hc.
    change (OrdersPriceLevel.top (g_obj g)) with (head (g_ring g)). rewrite Hring. run E.
    rewrite bind_gets. cbn [book]. rewrite Hb1.
    assert (mload (price_level_pool b1) (g_ptr g') = Some (g_obj g')) as Hl1
      by (eapply gl_load, view_elem; [exact Hv1|by left]).
    by run (level_at_done b1 e1 _ _ Hl1). }
  assert (g_lvl g' = BookSpec.set_orders (queue_left f o os) (g_lvl g)) as Hlvl
    by (unfold g', after_fill, queue_left;
        by destruct (decide (Order.quantity o - f = 0))).
  assert (S (length ps) = (length (g_ring g') + if decide (Order.quantity o - f = 0)%Z then 1 else 0)%nat)
    as Hl by (unfold g', after_fill; destruct (decide (Order.quantity o - f = 0)); simpl; lia).
  assert (length (g_ring g') = length (g_orders g')) as Hro
    by (eapply ring_orders, view_elem; [exact Hv1|by left]).
  rewrite Hrun. destruct (g_ring g') as [|q' ps'] eqn:Er; simpl.
  - destruct (remove_head opp b1 e1 g' G1 G2 Go Hv1) as (b2 & E2 & Hv2 & Et & Eo & Ea).
    exists b2, g'. unfold glevels_left. rewrite Er. split_and!; [by run E2|done| |done..].
    apply (matched_trans _ b1); [done|]. split_and!; [done|by rewrite Eo..|lia].
  - exists b1, g'. unfold glevels_left. by rewrite Er.
Qed.

Lemma glevels_left_lvl g G os l :
  g_lvl g = BookSpec.set_orders os l → length (g_ring g) = length (g_orders g) →
  g_lvl <$> glevels_left g G = levels_left os l (g_lvl <$> G).
Proof.
  unfold glevels_left, g_orders. intros Hl. rewrite Hl. simpl.
  destruct (g_ring g), os; intros ?; try done. simpl. by rewrite Hl.
Qed.

(** The state after the trades [fs]. *)
Definition emit_fills (tid : TickerIdT) (fs : list BookSpec.Fill) e : Env :=
  BookSpec.emit
    (BookSpec.fills_responses tid order_id client_id side (clock_reads e) fs)
    (BookSpec.fills_updates tid side (next_trade_id e) (clock_reads e) fs)
    (length fs) (4 * length fs) e.

Lemma emit_fills_cons tid fill fs e :
  emit_fills tid fs (emit_fill tid order_id client_id side fill e) = emit_fills tid (fill :: fs) e.
Proof.
  unfold emit_fills, emit_fill. rewrite emit_emit.
  replace (4 + 4 * length fs)%nat with (4 * length (fill :: fs))%nat by (simpl; lia). done.
Qed.

(** The turn that ends the loop. *)
Definition stops G1 (quantity : QuantityT) : Prop :=
  quantity = 0 ∨ match G1 with [] => True | g :: _ => crosses (g_price g) = false end.

Lemma stops_or_goes G1 quantity :
  stops G1 quantity ∨
  ∃ g G, G1 = g :: G ∧ quantity ≠ 0 ∧ crosses (g_price g) = true.
Proof.
  destruct (decide (quantity = 0)); [by left; left|].
  destruct G1 as [|g G]; [by left; right|].
  destruct (crosses (g_price g)) eqn:E; [right; eauto|by left; right].
Qed.

Lemma check_step_stops opp b e G1 G2 Go quantity :
  view opp b G1 G2 Go →
  stops G1 quantity →
  check_step order_id client_id side (best opp) crosses quantity (mkSt b e) =
    Done (inr quantity, mkSt b e) ∧
  BookSpec.take_levels crosses quantity (g_lvl <$> G1) = ([], quantity, g_lvl <$> G1).
Proof.
  intros Hv Hs. destruct (decide (quantity = 0)) as [->|Hnz]; [by rewrite take_levels_zero|].
  destruct Hs as [?|Hs]; [done|]. unfold check_step, member.
  rewrite (decide_False (P := quantity = 0)) by done. rewrite bind_gets. cbn [book].
  destruct G1 as [|g G1]; [by rewrite (v_chain1 _ _ _ _ _ Hv)|].
  pose proof (v_chain1 _ _ _ _ _ Hv) as [-> _]. rewrite decide_False by done.
  unfold g_price in Hs. split.
  - run (level_at_done b e _ _ (gl_load _ _ _ (view_elem _ _ _ _ _ g Hv ltac:(by left)))).
    change (OrdersPriceLevel.getPrice (g_obj g)) with (BookSpec.price (g_lvl g)). by rewrite Hs.
  - simpl. rewrite decide_False by done. by rewrite Hs.
Qed.

(** The loop of [checkForMatch] trades as [take_levels] says; it ends within any
    fuel above the number of orders on the side. *)
Lemma match_loop opp b e G1 G2 Go quantity fuel :
  view opp b G1 G2 Go → Forall nonempty G1 → env_ok e → 0 ≤ quantity < 2 ^ 32 →
  ((if decide (quantity = 0)%Z then 0 else length (G1 ≫= g_ring)) < fuel)%nat →
  let '(fs, q', ls) := BookSpec.take_levels crosses quantity (g_lvl <$> G1) in
  ∃ b' G1',
    iterate fuel (check_step order_id client_id side (best opp) crosses) quantity (mkSt b e) =
      Done (q', mkSt b' (emit_fills (ticker_id b) fs e)) ∧
    view opp b' G1' G2 Go ∧ Forall nonempty G1' ∧ g_lvl <$> G1' = ls ∧ matched b b' ∧
    0 ≤ q' ≤ quantity.
Proof.
  revert b e G1 quantity. induction fuel as [|fuel IH]; intros b e G1 quantity Hv Hne He Hq Hf;
    [lia|].
  assert (matched b b) as Hrefl by (by split_and!).
  destruct (stops_or_goes G1 quantity) as [Hs|(g & G1' & -> & Hnz & Hc)].
  - destruct (check_step_stops opp b e G1 G2 Go quantity Hv Hs) as [Hstep ->].
    exists b, G1. rewrite (iterate_inr _ _ _ _ _ _ Hstep).
    unfold emit_fills. simpl. rewrite emit_nil. split_and!; try done; lia.
  - rename G1' into G1. rewrite decide_False in Hf by done.
    pose proof (view_elem _ _ _ _ _ g Hv ltac:(by left)) as Hok.
    apply Forall_cons in Hne as [Hneg Hne].
    destruct (g_orders g) as [|o os] eqn:Hos; [done|].
    pose proof (gl_orders _ _ _ Hok) as Hoo. rewrite Hos in Hoo.
    apply Forall_cons in Hoo as [[_ Hqo] _].
    destruct (check_step_run opp b e g o os G1 G2 Go quantity)
      as (b1 & g' & E & Hv1 & Hm1 & Hl1 & Hro & Hlen); [done..|lia|].
    set (f := Z.min quantity (Order.quantity o)) in *.
    rewrite fmap_cons, (take_levels_step _ _ _ _ o os) by (done || lia). fold f. cbv zeta.
    rewrite <- (glevels_left_lvl g' G1 _ _ Hl1 Hro).
    set (e1 := emit_fill _ _ _ _ _ _) in *.
    specialize (IH b1 e1 (glevels_left g' G1) (quantity - f) Hv1).
    destruct (BookSpec.take_levels _ _ _) as [[fs q'] ls].
    destruct IH as (b' & G1' & Eit & Hv' & Hne' & Hls & Hm & Hq'); [| |lia| |].
    + unfold glevels_left. destruct (g_ring g') eqn:Er; [done|]. constructor; [|done].
      unfold nonempty. intros Hn. by rewrite Hn in Hro.
    + by apply env_ok_emit.
    + pose proof (ring_orders _ _ _ Hok) as Hro1. rewrite Hos in Hro1. simpl in Hro1.
      rewrite bind_cons, length_app in Hf.
      destruct (decide (quantity - f = 0)); [lia|].
      rewrite decide_True in Hlen by lia. unfold glevels_left.
      destruct (g_ring g') eqn:Er; [simpl in *; lia|].
      rewrite bind_cons, length_app, Er. lia.
    + exists b', G1'. rewrite (iterate_inl _ _ _ _ _ _ E), Eit. unfold e1.
      pose proof Hm1 as (Ht & _). rewrite Ht, emit_fills_cons.
      split_and!; try done; [|lia|lia]. by eapply matched_trans.
Qed.
End match_.

(** ** [checkForMatch] *)

Section check.
Context `{Clock}.
Implicit Types (b : OrderBook) (e : Env) (g h : GLevel) (G Go : list GLevel) (buy : bool).

Lemma check_run order_id client_id side quantity limit_price b e :
  checkForMatch order_id client_id side quantity limit_price (mkSt b e) =
    iterate (S (msize (order_pool b)))
      (check_step order_id client_id side (best (negb (is_buy side)))
        (BookSpec.crosses side limit_price)) quantity (mkSt b e).
Proof. by destruct side. Qed.

Lemma match_book_erase side q limit_price G1 G2 Go :
  BookSpec.match_book side q limit_price (erase (is_buy side) G1 G2 Go) =
    let '(fs, q', ls) :=
      BookSpec.take_levels (BookSpec.crosses side limit_price) q (g_lvl <$> G2) in
    (fs, q', if is_buy side then BookSpec.mkBook (g_lvl <$> G1) ls (erase_off <$> Go)
             else BookSpec.mkBook ls (g_lvl <$> G1) (erase_off <$> Go)).
Proof.
  unfold BookSpec.match_book, is_buy.
  destruct (decide (side = OrderSide.BUY)) as [->|Hs]; simpl.
  - by destruct (BookSpec.take_levels _ _ _) as [[] ?].
  - rewrite bool_decide_eq_false_2 by done. simpl.
    by destruct (BookSpec.take_levels _ _ _) as [[] ?].
Qed.

(** [checkForMatch] is [match_book]; its loop ends. *)
Lemma check_refines order_id client_id side quantity limit_price b e G1 G2 Go :
  let buy := is_buy side in
  view buy b G1 G2 Go → Forall nonempty (G1 ++ G2 ++ Go) → env_ok e → 0 ≤ quantity < 2 ^ 32 →
  let '(fs, rem, A') := BookSpec.match_book side quantity limit_price (erase buy G1 G2 Go) in
  ∃ b' G2',
    checkForMatch order_id client_id side quantity limit_price (mkSt b e) =
      Done (rem, mkSt b' (emit_fills order_id client_id side (ticker_id b) fs e)) ∧
    view buy b' G1 G2' Go ∧ Forall nonempty (G1 ++ G2' ++ Go) ∧ A' = erase buy G1 G2' Go ∧
    matched b b' ∧ 0 ≤ rem ≤ quantity.
Proof.
  intros buy Hv Hne He Hq. rewrite match_book_erase. fold buy.
  apply Forall_app in Hne as [Hne1 [Hne2 Hneo]%Forall_app].
  pose proof (match_loop order_id client_id side (BookSpec.crosses side limit_price) (negb buy) b e
    G2 G1 Go quantity (S (msize (order_pool b))) (view_swap _ _ _ _ _ Hv) Hne2 He Hq) as Hl.
  destruct (BookSpec.take_levels _ _ _) as [[fs rem] ls].
  destruct Hl as (b' & G2' & E & Hv' & Hne' & Hls & Hm & Hr).
  { pose proof (heap_rings _ _ _ _ (v_heap _ _ _ _ _ Hv)) as Hb.
    rewrite !bind_app, !length_app in Hb. case_decide; lia. }
  exists b', G2'. rewrite check_run. split_and!; [done| | | |done|lia|lia].
  - apply view_swap in Hv'. by rewrite negb_involutive in Hv'.
  - by rewrite !Forall_app.
  - rewrite <- Hls. by destruct buy.
Qed.
End check.

(** ** Resting an order *)

Section rest.
Context `{Clock}.
Implicit Types (b : OrderBook) (e : Env) (g h : GLevel) (G Go : list GLevel) (buy : bool).

Lemma has_price_erase buy p G1 G2 Go :
  BookSpec.has_price p (BookSpec.all_levels (erase buy G1 G2 Go)) = true ↔
    ∃ g, g ∈ G1 ++ G2 ++ Go ∧ g_price g = p.
Proof.
  assert (BookSpec.all_levels (erase buy G1 G2 Go) ≡ₚ g_lvl <$> (G1 ++ G2 ++ Go)) as Hp.
  { unfold BookSpec.all_levels, erase; simpl. rewrite <- list_fmap_compose, !fmap_app.
    destruct buy; [done|]. solve_Permutation. }
  unfold BookSpec.has_price. rewrite existsb_exists. split.
  - intros (l & Hl & Hx%Z.eqb_eq). apply list_elem_of_In in Hl. rewrite Hp in Hl.
    apply list_elem_of_fmap in Hl as (g & -> & Hg). by exists g.
  - intros (g & Hg & <-). exists (g_lvl g). split; [|by apply Z.eqb_refl].
    apply list_elem_of_In. rewrite Hp. by apply list_elem_of_fmap_2.
Qed.

Lemma insert_level_erase side price os G1 G2 Go i :
  let buy := is_buy side in
  let g := g_set_orders [] os (new_level side price i G1) in
  BookSpec.insert_level (BookSpec.mkLevel price side os) (erase buy G1 G2 Go) =
    if comes_first side price G1 then erase buy (g :: G1) G2 Go else erase buy G1 G2 (g :: Go).
Proof.
  intros buy g. unfold BookSpec.insert_level, erase; simpl.
  assert ((if decide (side = OrderSide.BUY) then g_lvl <$> (if buy then G1 else G2)
           else g_lvl <$> (if buy then G2 else G1)) = g_lvl <$> G1) as ->
    by (unfold buy, is_buy; destruct (decide (side = OrderSide.BUY));
        [by rewrite bool_decide_eq_true_2|by rewrite bool_decide_eq_false_2]).
  assert (erase_off g = (BookSpec.mkLevel price side os,
    bool_decide (BookSpec.skip_better side price (g_lvl <$> G1) = []))) as Hoff.
  { unfold erase_off. f_equal. apply bool_decide_ext. simpl. rewrite <- g_skip_lvl. unfold start.
    by destruct (g_skip side price G1). }
  change (erase_off <$> g :: Go) with (erase_off g :: (erase_off <$> Go)). rewrite Hoff.
  unfold comes_first, buy, is_buy. destruct G1 as [|h G1]; simpl;
    [|fold (g_price h); destruct (BookSpec.better _ _ _); simpl];
    destruct (decide (side = OrderSide.BUY)) as [->|Hs]; try done;
    by rewrite (bool_decide_eq_false_2 _ Hs).
Qed.

Lemma upd_absent g g' l rest all :
  NoDup (g_ptr <$> all) → all ≡ₚ g :: rest → g_ptr g' = g_ptr g → l ⊆ rest → upd g' <$> l = l.
Proof.
  intros Hnd Hp Hg Hl. rewrite Hp in Hnd. apply NoDup_cons in Hnd as [Hn _].
  apply fmap_id_in. intros h Hh. apply upd_other. rewrite Hg. intros E.
  apply Hn. rewrite <- E. apply list_elem_of_fmap_2. by apply Hl.
Qed.

(** The level an order is put on: one of its price, or a new one. *)
Lemma level_for b e side price G1 G2 Go :
  let buy := is_buy side in
  view buy b G1 G2 Go → Forall nonempty (G1 ++ G2 ++ Go) →
  (entry (price_levels b) price = None → 2 ≤ ObjectPool.avail (price_level_pool b))%nat →
  ∃ b1 g G1' Go',
    getPriceLevel price side true (mkSt b e) = Done (Some (g_ptr g), mkSt b1 e) ∧
    view buy b1 G1' G2 Go' ∧ g ∈ G1' ++ G2 ++ Go' ∧ g_price g = price ∧
    (g_ring g = [] → g_side g = side) ∧
    ticker_id b1 = ticker_id b ∧ order_pool b1 = order_pool b ∧
    ∀ ps o, Order.limit_price o = price → Order.side o = side →
      let g' := g_set_orders ps (g_orders g ++ [o]) g in
      erase buy (upd g' <$> G1') (upd g' <$> G2) (upd g' <$> Go') =
        BookSpec.rest o (erase buy G1 G2 Go) ∧
      Forall nonempty (upd g' <$> (G1' ++ G2 ++ Go')).
Proof.
  intros buy Hv Hne Hav. pose proof (v_heap _ _ _ _ _ Hv) as Hh.
  destruct (touch_fields price b) as (Ft & Fo & Fl & _).
  destruct (entry (price_levels b) price) as [p|] eqn:Hent.
  - pose proof (proj1 (h_map _ _ _ _ Hh _ _) Hent) as (g & Hg & <- & <-).
    exists (touch (g_price g) b), g, G1, Go.
    split_and!; [by apply get_level_found|by apply touch_view|done|done| |done|done|].
    + intros Hr. pose proof (ring_orders _ _ _ (h_levels _ _ _ _ Hh g Hg)) as Hl.
      rewrite Forall_forall in Hne. specialize (Hne g Hg). rewrite Hr in Hl.
      unfold nonempty in Hne. by destruct (g_orders g).
    + intros ps o Hp Hs. simpl. split; [|apply nonempty_upd; [|done]].
      * unfold BookSpec.rest. rewrite Hp.
        rewrite (proj2 (has_price_erase buy _ _ _ _)) by (by exists g).
        by apply (erase_upd buy b G1 G2 Go g).
      * unfold nonempty, g_orders. simpl. by destruct (BookSpec.orders _).
  - specialize (Hav eq_refl). pose proof (touch_view buy price b G1 G2 Go Hv) as Hvt.
    destruct (insert_run buy (touch price b) e side price G1 G2 Go)
      as (i & b1 & E & Hv1 & Et & Eo); [done|done|by rewrite touch_entry|by rewrite Fl|].
    set (g := new_level side price i G1) in *.
    set (G1' := if comes_first side price G1 then g :: G1 else G1).
    set (Go' := if comes_first side price G1 then Go else g :: Go).
    assert (view buy b1 G1' G2 Go') as Hv' by (unfold G1', Go'; by destruct (comes_first _ _ _)).
    assert (G1' ++ G2 ++ Go' ≡ₚ g :: (G1 ++ G2 ++ Go)) as Hp
      by (unfold G1', Go'; destruct (comes_first _ _ _); solve_Permutation).
    exists b1, g, G1', Go'.
    split_and!; [by rewrite get_level_missing|done|rewrite Hp; by left|done|done|congruence..|].
    intros ps o Hop Hos g'.
    assert (∀ l, l ⊆ G1 ++ G2 ++ Go → upd g' <$> l = l) as Hu.
    { intros l. apply (upd_absent g g' l _ _ (h_nodup _ _ _ _ (v_heap _ _ _ _ _ Hv')) Hp eq_refl). }
    split.
    + unfold BookSpec.rest. rewrite Hop, Hos.
      destruct (BookSpec.has_price price _) eqn:Hhp.
      { apply has_price_erase in Hhp as (h & Hin & Hx). exfalso.
        by apply (heap_entry_None _ _ _ _ _ Hh) with h in Hent. }
      pose proof (insert_level_erase side price [o] G1 G2 Go i) as Hi. cbv zeta in Hi.
      fold buy in Hi. rewrite Hi.
      unfold G1', Go'. destruct (comes_first _ _ _); rewrite ?fmap_cons, ?(upd_same g' g) by done;
        rewrite !Hu by set_solver; by destruct buy.
    + rewrite Hp. simpl. rewrite (upd_same g' g) by done. constructor; [done|].
      by rewrite Hu.
Qed.

(** A new order at the end of a level. *)
Lemma add_order_run buy b e g x G1 G2 Go :
  view buy b G1 G2 Go → g ∈ G1 ++ G2 ++ Go → order_ok (g_price g) x → Order.unlink x = x →
  (g_ring g = [] → g_side g = Order.side x) → (2 ≤ ObjectPool.avail (order_pool b))%nat →
  ∃ i op1 ps b',
    let g' := g_set_orders ps (g_orders g ++ [x]) g in
    ObjectPool.getObject x (order_pool b) = Done (i, op1) ∧
    on_level (Some (g_ptr g)) (PriceLevel.add (Some i)) (mkSt (set_order_pool op1 b) e) =
      Done (tt, mkSt b' e) ∧
    view buy b' (upd g' <$> G1) (upd g' <$> G2) (upd g' <$> Go) ∧
    ticker_id b' = ticker_id b ∧
    S (ObjectPool.avail (order_pool b')) = ObjectPool.avail (order_pool b).
Proof.
  intros Hv Hg Hx Hux Hside Hav. pose proof (view_elem _ _ _ _ _ _ Hv Hg) as Hok.
  pose proof (v_heap _ _ _ _ _ Hv) as Hh. set (op := order_pool b) in *.
  assert (ObjectPool.wf op) as Hwfo by apply Hh.
  destruct (ObjectPool.getObject_done x op) as (j & E & Hwf); [done..|].
  set (i := ObjectPool.next_free op) in *.
  set (op1 := ObjectPool.set_next_free j (ObjectPool.take_block x op)) in *.
  assert (¬ ObjectPool.in_use op i) as Hfree by (by apply ObjectPool.next_free_not_in_use).
  assert (∀ q, q ≠ i → mload op1 q = mload op q) as Hsame
    by (intros; unfold op1; rewrite ObjectPool.take_block_load by done; by rewrite decide_False).
  assert (∀ q, ObjectPool.in_use op1 q ↔ q = i ∨ ObjectPool.in_use op q) as Hused
    by (intros; by apply ObjectPool.take_block_in_use).
  assert (i ∉ g_ring g) as Hni by (intros Hi; apply Hfree; by eapply gl_ring_used).
  assert (PriceLevel.level_rep op1 (g_obj g) (g_ring g) (g_orders g)) as Hrep.
  { eapply PriceLevel.level_rep_frame; [|apply Hok]. intros q Hq. apply Hsame. by intros ->. }
  assert (mload op1 i = Some x) as Hl
    by (unfold op1; rewrite ObjectPool.take_block_load by done; by rewrite decide_True).
  destruct (PriceLevel.add_spec _ _ _ _ _ _ Hrep Hl Hni)
    as (op2 & l' & Ea & Hrep' & Hw & Hnx & Hpr & Hsd).
  assert (l' = g_obj (g_set_orders (g_ring g ++ [i]) (g_orders g ++ [x]) g)) as ->.
  { destruct Hrep' as (Htop & _). unfold g_obj in *. simpl in *. destruct l'; simpl in *.
    f_equal; try done. rewrite Hsd. destruct (g_ring g); [|done]. symmetry. by apply Hside. }
  rewrite Hux in Hrep'.
  exists i, op1, (g_ring g ++ [i]), (put_level (g_ptr g) op2
    (g_obj (g_set_orders (g_ring g ++ [i]) (g_orders g ++ [x]) g)) b).
  split_and!; [exact E| |apply view_put_new|..]; try done.
  - rewrite (on_level_done (PriceLevel.add (Some i)) (set_order_pool op1 b) e _ (g_obj g) tt op2
      (g_obj (g_set_orders (g_ring g ++ [i]) (g_orders g ++ [x]) g))); [done|apply Hok|exact Ea].
  - by eapply ObjectPool.writes_wf.
  - intros q Hq Hn. split; [|eapply ObjectPool.writes_in_use; [done|]; apply Hused; by right].
    rewrite <- Hsame by (by intros ->). eapply writes_load; [done|].
    intros [->|?]%elem_of_cons; [by apply Hfree|done].
  - intros q Hq. rewrite (ObjectPool.writes_in_use _ _ _ _ Hw), Hused.
    apply elem_of_app in Hq as [Hq| ->%list_elem_of_singleton].
    + split; [right; by eapply gl_ring_used|by left].
    + split; [by left|by right].
  - apply Forall_app. split; [apply Hok|by constructor].
  - simpl. rewrite (ObjectPool.writes_avail _ _ _ Hw). unfold op1.
    rewrite ObjectPool.take_block_avail by done. fold op. lia.
Qed.
End rest.

(** ** [add] *)

Section add.
Context `{Clock}.
Implicit Types (b : OrderBook) (e : Env) (A : BookSpec.Book) (G Go : list GLevel) (buy : bool).

Lemma book_rep_view buy b A :
  book_rep b A ↔ ∃ G1 G2 Go,
    view buy b G1 G2 Go ∧ Forall nonempty (G1 ++ G2 ++ Go) ∧ A = erase buy G1 G2 Go.
Proof.
  unfold book_rep. destruct buy; [done|].
  split; intros (G1 & G2 & Go & Hv & Hne & ->); exists G2, G1, Go;
    (split_and!; [by apply view_swap in Hv| |done]); revert Hne;
    rewrite !Forall_app; tauto.
Qed.

(** The order that rests after matching has left [rem]. *)
Definition resting (tid : TickerIdT) order_id client_id side limit_price rem
    (fs : list BookSpec.Fill) e : Order :=
  Order.make tid order_id client_id (timestamp (S (clock_reads e) + 4 * length fs)) side rem
    limit_price.

(** The part of [add] behind matching. *)
Definition add_tail tid order_id client_id side limit_price remaining : M St unit :=
  if decide (remaining ≠ 0) then
    price_level ← getPriceLevel limit_price side true;
    ns ← now;
    order ← in_orders (ObjectPool.getObject
              (Order.make tid order_id client_id ns side remaining limit_price));
    on_level price_level (PriceLevel.add (Some order));;
    ns ← now;
    push_update (MarketUpdate.mk UpdateType.ADD tid order_id TradeId_INVALID side
                   remaining limit_price ns)
  else mret tt.

(** The environment at that point, and the final one. *)
Definition matched_env tid order_id client_id side q limit_price fs e : Env :=
  BookSpec.emit
    (BookSpec.add_responses tid order_id client_id side q limit_price (clock_reads e) fs)
    (BookSpec.fills_updates tid side (next_trade_id e) (S (clock_reads e)) fs)
    (length fs) (S (4 * length fs)) e.

Definition add_env tid order_id client_id side q limit_price fs rem e : Env :=
  BookSpec.emit
    (BookSpec.add_responses tid order_id client_id side q limit_price (clock_reads e) fs)
    (BookSpec.add_updates tid order_id side limit_price (next_trade_id e) (clock_reads e) fs rem)
    (length fs) ((if decide (rem = 0) then 1 else 3) + 4 * length fs) e.

Lemma add_matched order_id client_id side quantity limit_price b e G1 G2 Go :
  let buy := is_buy side in
  view buy b G1 G2 Go → Forall nonempty (G1 ++ G2 ++ Go) → env_ok e → 0 ≤ quantity < 2 ^ 32 →
  let '(fs, rem, A') := BookSpec.match_book side quantity limit_price (erase buy G1 G2 Go) in
  ∃ b' G2',
    add order_id client_id side quantity limit_price (mkSt b e) =
      add_tail (ticker_id b) order_id client_id side limit_price rem
        (mkSt b' (matched_env (ticker_id b) order_id client_id side quantity limit_price fs e)) ∧
    view buy b' G1 G2' Go ∧ Forall nonempty (G1 ++ G2' ++ Go) ∧ A' = erase buy G1 G2' Go ∧
    matched b b' ∧ 0 ≤ rem ≤ quantity.
Proof.
  intros buy Hv Hne He Hq.
  set (r := ClientResponse.mk ResponseType.ACCEPTED (ticker_id b) client_id order_id side quantity
              limit_price (timestamp (clock_reads e))).
  pose proof (check_refines order_id client_id side quantity limit_price b
    (BookSpec.emit [r] [] 0 1 e) G1 G2 Go Hv Hne (env_ok_emit _ _ _ _ _ He) Hq) as Hc.
  fold buy in Hc. destruct (BookSpec.match_book _ _ _ _) as [[fs rem] A'].
  destruct Hc as (b' & G2' & E & Hv' & Hne' & HA & Hm & Hr).
  exists b', G2'. split_and!; try done; [|lia..].
  unfold add, member. rewrite bind_gets. cbn [book env].
  rewrite <- (emit_nil e) at 1. run_env. cbn [app Nat.add]. fold r.
  rewrite (bind_done _ _ _ _ _ E). unfold emit_fills. rewrite emit_emit. done.
Qed.

(** Resting what is left. *)
Lemma add_tail_run order_id client_id side limit_price rem fs quantity b0 b e G1 G2 Go :
  let buy := is_buy side in
  view buy b G1 G2 Go → Forall nonempty (G1 ++ G2 ++ Go) → env_ok e → 0 < rem < 2 ^ 32 →
  ticker_id b = ticker_id b0 → (2 ≤ ObjectPool.avail (order_pool b))%nat →
  (entry (price_levels b) limit_price = None → 2 ≤ ObjectPool.avail (price_level_pool b))%nat →
  ∃ b',
    add_tail (ticker_id b0) order_id client_id side limit_price rem
      (mkSt b (matched_env (ticker_id b0) order_id client_id side quantity limit_price fs e)) =
      Done (tt, mkSt b' (add_env (ticker_id b0) order_id client_id side quantity limit_price fs rem e)) ∧
    book_rep b' (BookSpec.rest
      (resting (ticker_id b0) order_id client_id side limit_price rem fs e) (erase buy G1 G2 Go)) ∧
    ticker_id b' = ticker_id b ∧
    S (ObjectPool.avail (order_pool b')) = ObjectPool.avail (order_pool b).
Proof.
  intros buy Hv Hne He Hrem Ht Hav Hlav.
  set (x := resting (ticker_id b0) order_id client_id side limit_price rem fs e).
  unfold add_tail. rewrite decide_True by lia.
  set (e1 := matched_env _ _ _ _ _ _ _ _).
  destruct (level_for b e1 side limit_price G1 G2 Go Hv Hne Hlav)
    as (b1 & g & G1' & Go' & E1 & Hv1 & Hg & Hp & Hs & Et & Eo & Her). fold buy in Her.
  destruct (add_order_run buy b1 (BookSpec.emit [] [] 0 1 e1) g x G1' G2 Go')
    as (i & op1 & ps & b2 & E2 & E3 & Hv2 & Et2 & Eav); [done|done| |done|done|by rewrite Eo|].
  { rewrite Hp. split; [done|simpl; lia]. }
  destruct (Her ps x eq_refl eq_refl) as [HA Hne2].
  exists b2. split_and!; [| |congruence|by rewrite Eav, Eo].
  - rewrite (bind_done _ _ _ _ _ E1). rewrite <- (emit_nil e1) at 1. run_env.
    replace (0 + clock_reads e1)%nat with (S (clock_reads e) + 4 * length fs)%nat
      by (simpl; lia).
    rewrite (bind_done _ _ _ i (mkSt (set_order_pool op1 b1) (BookSpec.emit [] [] 0 1 e1))).
    2:{ apply in_orders_done. exact E2. }
    rewrite (bind_done _ _ _ _ _ E3). run_env.
    rewrite update_done by (by apply env_ok_emit). do 3 f_equal.
    unfold e1, matched_env, add_env. rewrite emit_emit, app_nil_r, Nat.add_0_r.
    unfold BookSpec.add_updates. rewrite !(decide_False (P := rem = 0)) by lia.
    replace (S (4 * length fs) + 2)%nat with (3 + 4 * length fs)%nat by lia.
    replace (1 + clock_reads (BookSpec.emit _ _ _ _ e))%nat
      with (2 + clock_reads e + 4 * length fs)%nat by (simpl; lia). done.
  - apply (book_rep_view buy). exists (upd (g_set_orders ps (g_orders g ++ [x]) g) <$> G1'), 
      (upd (g_set_orders ps (g_orders g ++ [x]) g) <$> G2),
      (upd (g_set_orders ps (g_orders g ++ [x]) g) <$> Go').
    rewrite <- !fmap_app. by rewrite <- HA.
Qed.

Lemma view_avail buy b G1 G2 Go :
  view buy b G1 G2 Go →
  (0 < ObjectPool.avail (order_pool b))%nat ∧ (0 < ObjectPool.avail (price_level_pool b))%nat.
Proof. intros [Hh _ _ _ _]. split; apply ObjectPool.avail_pos; apply Hh. Qed.

(** Without a free block the process ends. *)
Lemma add_tail_exits order_id client_id side limit_price rem tid b e G1 G2 Go :
  let buy := is_buy side in
  view buy b G1 G2 Go → Forall nonempty (G1 ++ G2 ++ Go) → rem ≠ 0 →
  ObjectPool.avail (order_pool b) = 1%nat ∨
    entry (price_levels b) limit_price = None ∧ ObjectPool.avail (price_level_pool b) = 1%nat →
  add_tail tid order_id client_id side limit_price rem (mkSt b e) = Exited "Buffer is full.".
Proof.
  intros buy Hv Hne Hrem Hav. unfold add_tail. rewrite decide_True by done.
  destruct (view_avail _ _ _ _ _ Hv) as [_ Hl].
  destruct (decide (entry (price_levels b) limit_price = None ∧
    ObjectPool.avail (price_level_pool b) = 1%nat)) as [[Hent Hlav]|Hlav].
  - destruct (touch_fields limit_price b) as (_ & Fo & Fl & _).
    apply bind_exited. rewrite get_level_missing by done.
    apply (insert_exhausted buy _ _ _ _ G1 G2 Go); [by apply touch_view|done|by rewrite Fl].
  - destruct Hav as [Hav|]; [|done].
    destruct (level_for b e side limit_price G1 G2 Go Hv Hne)
      as (b1 & g & G1' & Go' & E1 & Hv1 & _ & _ & _ & _ & Eo & _).
    { intros Hent. destruct (decide (ObjectPool.avail (price_level_pool b) = 1%nat)); [naive_solver|lia]. }
    rewrite (bind_done _ _ _ _ _ E1). rewrite <- (emit_nil e) at 1. run_env.
    apply bind_exited, in_orders_exited, ObjectPool.getObject_exhausted; [|by rewrite Eo].
    apply (v_heap _ _ _ _ _ Hv1).
Qed.

(** What [add] leaves when it returns. *)
Definition add_done order_id client_id side quantity limit_price b e
    (r : list BookSpec.Fill * QuantityT * BookSpec.Book) : Prop :=
  let '(fs, rem, A') := r in
  ∃ b',
    add order_id client_id side quantity limit_price (mkSt b e) =
      Done (tt, mkSt b'
        (add_env (ticker_id b) order_id client_id side quantity limit_price fs rem e)) ∧
    book_rep b' A' ∧ ticker_id b' = ticker_id b ∧
    (ObjectPool.avail (order_pool b') + (if decide (rem = 0)%Z then 0 else 1) =
      ObjectPool.avail (order_pool b))%nat.

Definition spec_add order_id client_id side quantity limit_price b e A :=
  BookSpec.add (ticker_id b) order_id client_id side quantity limit_price
    (λ i, timestamp (S (clock_reads e) + i)) A.

(** A pool would be used up: that of the orders, or that of the levels when matching
    leaves no level with the price. *)
Definition pools_used_up side quantity limit_price b A : Prop :=
  ObjectPool.avail (order_pool b) = 1%nat ∨
  ObjectPool.avail (price_level_pool b) = 1%nat ∧
  BookSpec.has_price limit_price
    (BookSpec.all_levels (BookSpec.match_book side quantity limit_price A).2) = false.

(** [add] always ends: as the specification says, or with the exit of a pool
    that has one free block left. *)
Lemma add_cases order_id client_id side quantity limit_price b e A :
  book_rep b A → env_ok e → 0 ≤ quantity < 2 ^ 32 →
  add_done order_id client_id side quantity limit_price b e
    (spec_add order_id client_id side quantity limit_price b e A) ∨
  add order_id client_id side quantity limit_price (mkSt b e) = Exited "Buffer is full." ∧
  pools_used_up side quantity limit_price b A.
Proof.
  unfold pools_used_up. intros (G1 & G2 & Go & Hv & Hne & ->)%(book_rep_view (is_buy side)) He Hq.
  pose proof (add_matched order_id client_id side quantity limit_price b e G1 G2 Go Hv Hne He Hq)
    as Hm. unfold spec_add, BookSpec.add.
  destruct (BookSpec.match_book _ _ _ _) as [[fs rem] A'].
  destruct Hm as (b1 & G2' & E & Hv1 & Hne1 & -> & (Ht & _ & Eo & El) & Hr).
  rewrite E. destruct (decide (rem = 0)) as [->|Hrem].
  { left. exists b1.
    split_and!; [|apply (book_rep_view (is_buy side)); by exists G1, G2', Go|done|by rewrite Nat.add_0_r].
    rewrite E. unfold add_tail, matched_env, add_env, BookSpec.add_updates.
    rewrite decide_False by (intros []; done). rewrite !decide_True by done. by rewrite app_nil_r. }
  destruct (view_avail _ _ _ _ _ Hv1) as [Ho Hl]. destruct (view_avail _ _ _ _ _ Hv) as [_ Hl0].
  destruct (decide (ObjectPool.avail (order_pool b1) = 1%nat ∨
    entry (price_levels b1) limit_price = None ∧ ObjectPool.avail (price_level_pool b1) = 1%nat))
    as [Hx|Hx].
  - right. split; [by eapply add_tail_exits|]. destruct Hx as [Hx|[Hn Hx]]; [left; lia|right].
    split; [lia|]. apply not_true_is_false. intros (h & Hin & Hp)%has_price_erase.
    by apply (heap_entry_None _ _ _ _ _ (v_heap _ _ _ _ _ Hv1)) with h in Hn.
  - left.
    destruct (add_tail_run order_id client_id side limit_price rem fs quantity b b1 e G1 G2' Go)
      as (b2 & E2 & Hrep & Ht2 & Ea); [done..|lia|done| | |].
    { destruct (decide (ObjectPool.avail (order_pool b1) = 1%nat)); [naive_solver|lia]. }
    { intros Hent. destruct (decide (ObjectPool.avail (price_level_pool b1) = 1%nat)); [naive_solver|lia]. }
    exists b2. rewrite E. split_and!; [done|done|congruence|].
    rewrite decide_False by done. lia.
Qed.
End add.
End BookRefine.
