(* ===== verification/BookCancel.v ===== *)
(** [cancel] of OrderBook.v implements [cancel] of BookSpec.v. *)

From S2P Require Import Prelude Types Memory ObjectPool PriceLevel LFQueue TimeUtils.
From S2P Require Import OrderBook BookSpec BookHeap BookLevels BookRefine.
Local Open Scope Z_scope.

Module BookCancel.
Import OrderBook BookHeap BookLevels BookRefine.

Section cancel.
Context `{Clock}.
Implicit Types (b : OrderBook) (e : Env) (A : BookSpec.Book) (g h : GLevel)
  (G Go : list GLevel) (buy : bool).

(** ** Running the code *)

(** The messages at the end of [cancel]. *)
Definition cancel_msg tid client_id order_id side limit_price (order : ptr) : M St unit :=
  if decide (order ≠ nullptr) then
    update_ns ← now;
    o ← order_at order;
    push_response (ClientResponse.mk ResponseType.CANCELED tid client_id order_id side
                     (Order.quantity o) limit_price update_ns);;
    o ← order_at order;
    push_update (MarketUpdate.mk UpdateType.REMOVE tid order_id TradeId_INVALID side
                   (Order.quantity o) limit_price update_ns)
  else
    ns ← now;
    push_response (ClientResponse.mk ResponseType.CANCEL_REJECTED tid client_id order_id
                     OrderSide.INVALID Quantity_INVALID Price_INVALID ns).

Definition rejected_env tid client_id order_id e : Env :=
  BookSpec.emit [BookSpec.rejected_response tid client_id order_id (clock_reads e)] [] 0 1 e.

Definition canceled_env tid client_id order_id side limit_price (o : Order) e : Env :=
  BookSpec.emit
    [BookSpec.canceled_response tid client_id order_id side limit_price (clock_reads e) o]
    [BookSpec.canceled_update tid order_id side limit_price (clock_reads e) o] 0 1 e.

Lemma msg_rejected tid client_id order_id side limit_price b e :
  env_ok e →
  cancel_msg tid client_id order_id side limit_price None (mkSt b e) =
    Done (tt, mkSt b (rejected_env tid client_id order_id e)).
Proof.
  intros He. unfold cancel_msg. rewrite decide_False by (intros []; done).
  rewrite <- (emit_nil e) at 1. run_env. by apply response_done.
Qed.

Lemma msg_canceled tid client_id order_id side limit_price q o b e :
  env_ok e → mload (order_pool b) q = Some o →
  cancel_msg tid client_id order_id side limit_price (Some q) (mkSt b e) =
    Done (tt, mkSt b (canceled_env tid client_id order_id side limit_price o e)).
Proof.
  intros He Ho. unfold cancel_msg. rewrite decide_True by done.
  rewrite <- (emit_nil e) at 1. run_env. run (order_at_done b (BookSpec.emit [] [] 0 1 e) q o Ho).
  run_env. rewrite (bind_done _ _ _ _ _ (order_at_done b _ q o Ho)). by apply update_done.
Qed.

Lemma cancel_missing client_id order_id side limit_price b e :
  entry (price_levels b) limit_price = None →
  cancel client_id order_id side limit_price (mkSt b e) =
    cancel_msg (ticker_id b) client_id order_id side limit_price None
      (mkSt (touch limit_price b) e).
Proof.
  intros Hent. unfold cancel, member. rewrite bind_gets. cbn [book].
  by rewrite (bind_done _ _ _ _ _ (get_level_missing b e _ side false Hent)).
Qed.

Lemma cancel_found client_id order_id side limit_price b e g g' r op' :
  entry (price_levels b) limit_price = Some (g_ptr g) →
  mload (price_level_pool b) (g_ptr g) = Some (g_obj g) →
  PriceLevel.cancel order_id (PriceLevel.mkSt (order_pool b) (g_obj g)) =
    Done (r, PriceLevel.mkSt op' (g_obj g')) →
  cancel client_id order_id side limit_price (mkSt b e) =
    ((if decide (head (g_ring g') = nullptr) then removePriceLevel (Some (g_ptr g)) else mret tt);;
     cancel_msg (ticker_id b) client_id order_id side limit_price r)
      (mkSt (put_level (g_ptr g) op' (g_obj g') (touch limit_price b)) e).
Proof.
  intros Hent Hl Hc. destruct (touch_fields limit_price b) as (_ & Fo & Fl & _).
  unfold cancel, member. rewrite bind_gets. cbn [book].
  rewrite (bind_done _ _ _ _ _ (get_level_found b e _ side false _ Hent)).
  rewrite decide_True by done. rewrite bind_bind.
  rewrite (bind_done _ _ _ _ _ (on_level_done (PriceLevel.cancel order_id) (touch limit_price b) e
    (g_ptr g) (g_obj g) r op' (g_obj g') ltac:(by rewrite Fl) ltac:(by rewrite Fo))).
  rewrite bind_bind.
  rewrite (bind_done _ _ _ _ _ (level_at_done (put_level (g_ptr g) op' (g_obj g') (touch limit_price b))
    e (g_ptr g) (g_obj g') ltac:(unfold put_level; cbn [price_level_pool set_price_level_pool];
      rewrite Fl; apply mload_mstore_eq; by eexists))).
  rewrite bind_bind. change (OrdersPriceLevel.top (g_obj g')) with (head (g_ring g')).
  reflexivity.
Qed.

(** ** Finding the level in the specification *)

Lemma all_levels_erase buy G1 G2 Go :
  BookSpec.all_levels (erase buy G1 G2 Go) ≡ₚ g_lvl <$> (G1 ++ G2 ++ Go).
Proof.
  unfold BookSpec.all_levels, erase; simpl. rewrite <- list_fmap_compose, !fmap_app.
  destruct buy; [done|]. solve_Permutation.
Qed.

Lemma find_erase buy b G1 G2 Go g :
  view buy b G1 G2 Go → g ∈ G1 ++ G2 ++ Go →
  ∃ i, list_find (λ l, BookSpec.price l = g_price g) (BookSpec.all_levels (erase buy G1 G2 Go)) =
    Some (i, g_lvl g).
Proof.
  intros Hv Hg. apply find_key; [|done|].
  - rewrite all_levels_erase. by apply list_elem_of_fmap_2.
  - intros l. rewrite all_levels_erase. intros (h & -> & Hh)%list_elem_of_fmap Hp.
    by rewrite (heap_unique_price _ _ _ _ h g (v_heap _ _ _ _ _ Hv)).
Qed.

Lemma find_erase_none buy b G1 G2 Go p :
  view buy b G1 G2 Go → entry (price_levels b) p = None →
  list_find (λ l, BookSpec.price l = p) (BookSpec.all_levels (erase buy G1 G2 Go)) = None.
Proof.
  intros Hv He. apply list_find_None. rewrite all_levels_erase. apply Forall_forall.
  intros l (g & -> & Hg)%list_elem_of_fmap.
  by apply (heap_entry_None _ _ _ _ _ (v_heap _ _ _ _ _ Hv)) with g in He.
Qed.

(** ** Removing the level *)

(** No other level of a side has the price of a level. *)
Lemma view_other_price buy b G1 G2 Go g h :
  view buy b G1 G2 Go → g ∈ G1 ++ G2 ++ Go → h ∈ G1 ++ G2 ++ Go → h ≠ g → g_price h ≠ g_price g.
Proof.
  intros Hv Hg Hh Hne Hp. apply Hne.
  by apply (heap_unique_price _ _ _ _ _ _ (v_heap _ _ _ _ _ Hv)).
Qed.

Lemma drop_linked b buy L1 g L2 G2 Go :
  view buy b (L1 ++ g :: L2) G2 Go →
  BookSpec.drop_price (g_price g) (g_lvl <$> (L1 ++ g :: L2)) = g_lvl <$> (L1 ++ L2).
Proof.
  intros Hv. pose proof (view_nodup _ _ _ _ _ Hv) as Hnd. rewrite !fmap_app, fmap_cons in *.
  apply (filter_key BookSpec.price); [done|]. rewrite <- fmap_app. intros l (h & -> & Hh)%list_elem_of_fmap.
  apply (view_other_price _ _ _ _ _ _ _ Hv); [set_solver..|]. intros ->.
  apply NoDup_app in Hnd as (_ & Hd & [Hn _]%NoDup_cons).
  apply elem_of_app in Hh as [Hh|Hh]; apply (list_elem_of_fmap_2 g_ptr) in Hh; [|done].
  apply (Hd _ Hh). by left.
Qed.

Lemma drop_other buy b G1 G2 Go g :
  view buy b G1 G2 Go → g ∈ G1 ++ Go →
  BookSpec.drop_price (g_price g) (g_lvl <$> G2) = g_lvl <$> G2.
Proof.
  intros Hv Hg. apply (filter_all (λ l, BookSpec.price l ≠ _)). intros l (h & -> & Hh)%list_elem_of_fmap.
  apply (view_other_price _ _ _ _ _ _ _ Hv); [set_solver..|]. intros ->.
  pose proof (h_nodup _ _ _ _ (v_heap _ _ _ _ _ Hv)) as Hnd. rewrite !fmap_app in Hnd.
  apply NoDup_app in Hnd as (_ & Hd1 & (_ & Hd2 & _)%NoDup_app).
  apply (list_elem_of_fmap_2 g_ptr) in Hh.
  apply elem_of_app in Hg as [Hg|Hg]; apply (list_elem_of_fmap_2 g_ptr) in Hg.
  - apply (Hd1 _ Hg). set_solver.
  - by apply (Hd2 _ Hh).
Qed.

Lemma remove_linked buy b e g G1 G2 Go :
  view buy b G1 G2 Go → g ∈ G1 →
  ∃ b' G1', removePriceLevel (Some (g_ptr g)) (mkSt b e) = Done (tt, mkSt b' e) ∧
    view buy b' G1' G2 Go ∧
    g_lvl <$> G1' = BookSpec.drop_price (g_price g) (g_lvl <$> G1) ∧ removed b b'.
Proof.
  intros Hv (L1 & L2 & ->)%list_elem_of_split. rewrite (drop_linked _ _ _ _ _ _ _ Hv).
  destruct L1 as [|h L1 _] using rev_ind.
  - destruct (remove_head buy b e g L2 G2 Go Hv) as (b' & E & Hv' & Hr). by exists b', L2.
  - rewrite <- app_assoc in Hv. simpl in Hv.
    destruct (remove_mid buy b e L1 h g L2 G2 Go Hv) as (b' & E & Hv' & Hr).
    exists b', (L1 ++ g_set_next (g_next g) h :: L2). split_and!; try done.
    by rewrite !fmap_app, fmap_cons, <- app_assoc.
Qed.

(** ** The cases of [cancel] *)

Lemma touch_agree_same x b : agree (touch x b) b.
Proof.
  destruct (touch_fields x b) as (? & ? & ? & ? & ?).
  split_and!; try done. intros y. by rewrite touch_entry.
Qed.

(** Taking an order off a level. *)
Lemma take_run buy b g G1 G2 Go order_id r os x :
  view buy b G1 G2 Go → g ∈ G1 ++ G2 ++ Go →
  PriceLevel.remove_first order_id (g_orders g) = Some (r, os) →
  ∃ q ps op',
    let g' := g_set_orders ps os g in
    let b1 := put_level (g_ptr g) op' (g_obj g') (touch x b) in
    PriceLevel.cancel order_id (PriceLevel.mkSt (order_pool b) (g_obj g)) =
      Done (Some q, PriceLevel.mkSt op' (g_obj g')) ∧
    mload op' q = Some r ∧ length ps = length os ∧
    view buy b1 (upd g' <$> G1) (upd g' <$> G2) (upd g' <$> Go) ∧ matched b b1.
Proof.
  intros Hv Hg Hrf. pose proof (view_elem _ _ _ _ _ _ Hv Hg) as Hok.
  pose proof (gl_rep _ _ _ Hok) as Hrep. pose proof (ring_orders _ _ _ Hok) as Hlen.
  assert (g_ring g ≠ []) as Hne.
  { intros Hr. rewrite Hr in Hlen. by destruct (g_orders g). }
  pose proof (PriceLevel.cancel_spec _ _ _ _ order_id Hrep Hne) as Hc. rewrite Hrf in Hc.
  destruct Hc as (ps1 & q & ps2 & os1 & os2 & op' & E & Hps & Hos & Hos' & Hl & _ & Hq & Hw & Hrep').
  exists q, (ps1 ++ ps2), op'. split_and!; [exact E|done| | |].
  - rewrite Hps, Hos, !length_app in Hlen. simpl in Hlen. subst os. rewrite !length_app. lia.
  - eapply put_agree; [apply touch_agree_same|]. apply view_put; try done.
    + rewrite Hps. set_solver.
    + subst os. pose proof (gl_orders _ _ _ Hok) as Ho. rewrite Hos in Ho.
      apply Forall_app in Ho as [? [_ ?]%Forall_cons]. by apply Forall_app.
  - eapply put_matched_agree; [apply touch_agree_same|done|]. eexists. apply Hok.
Qed.

(** Without the order nothing changes. *)
Lemma absent_run buy b g G1 G2 Go order_id x :
  view buy b G1 G2 Go → g ∈ G1 ++ G2 ++ Go → nonempty g →
  PriceLevel.remove_first order_id (g_orders g) = None →
  PriceLevel.cancel order_id (PriceLevel.mkSt (order_pool b) (g_obj g)) =
    Done (None, PriceLevel.mkSt (order_pool b) (g_obj g)) ∧ g_ring g ≠ [] ∧
  put_level (g_ptr g) (order_pool b) (g_obj g) (touch x b) = touch x b.
Proof.
  intros Hv Hg Hng Hrf. pose proof (view_elem _ _ _ _ _ _ Hv Hg) as Hok.
  pose proof (gl_rep _ _ _ Hok) as Hrep. pose proof (ring_orders _ _ _ Hok) as Hlen.
  assert (g_ring g ≠ []) as Hne.
  { intros Hr. rewrite Hr in Hlen. unfold nonempty in Hng. by destruct (g_orders g). }
  pose proof (PriceLevel.cancel_spec _ _ _ _ order_id Hrep Hne) as Hc. rewrite Hrf in Hc.
  destruct (touch_fields x b) as (Ft & Fo & Fl & Fb & Fa).
  split_and!; [done|done|]. unfold put_level. rewrite Fl.
  rewrite pool_store_same by apply Hok. unfold set_price_level_pool, set_order_pool; simpl.
  rewrite <- Fo, <- Fl. by destruct (touch x b).
Qed.

Lemma drop_upd buy b G1 G2 Go g g' G :
  view buy b G1 G2 Go → g ∈ G1 ++ G2 ++ Go → G ⊆ G1 ++ G2 ++ Go →
  g_ptr g' = g_ptr g → g_price g' = g_price g →
  BookSpec.drop_price (g_price g) (g_lvl <$> (upd g' <$> G)) =
    BookSpec.drop_price (g_price g) (g_lvl <$> G).
Proof.
  intros Hv Hg Hsub Hp Hpr. induction G as [|h G IH]; [done|].
  unfold BookSpec.drop_price in *. rewrite !fmap_cons, !filter_cons, IH by set_solver.
  unfold upd. destruct (decide (g_ptr h = g_ptr g')) as [E|]; [|done]. rewrite Hp in E.
  rewrite (heap_unique _ _ _ _ h g (v_heap _ _ _ _ _ Hv)) by (done || set_solver).
  by rewrite !decide_False by (unfold g_price in *; intros []; congruence).
Qed.

Lemma nonempty_lvls G ls :
  (∀ l, l ∈ g_lvl <$> G → l ∈ ls) → Forall (λ l, BookSpec.orders l ≠ []) ls → Forall nonempty G.
Proof.
  intros Hsub Hls. apply Forall_forall. intros g Hg.
  apply (proj1 (Forall_forall _ _) Hls (g_lvl g)), Hsub. by apply list_elem_of_fmap_2.
Qed.

Lemma drop_sub p ls l : l ∈ BookSpec.drop_price p ls → l ∈ ls.
Proof. unfold BookSpec.drop_price. by intros [_ ?]%list_elem_of_filter. Qed.

Lemma nonempty_orders G :
  Forall nonempty G → Forall (λ l, BookSpec.orders l ≠ []) (g_lvl <$> G).
Proof. intros HG. by apply Forall_fmap. Qed.

(** The spec's list of levels that are not linked, at a price. *)
Lemma find_off_none buy b G1 G2 Go g :
  view buy b G1 G2 Go → g ∈ G1 →
  list_find (λ x, BookSpec.price x.1 = g_price g) (erase_off <$> Go) = None.
Proof.
  intros Hv Hg. apply list_find_None, Forall_forall. intros x (h & -> & Hh)%list_elem_of_fmap.
  apply (view_other_price _ _ _ _ _ _ _ Hv); [set_solver..|]. intros ->.
  pose proof (h_nodup _ _ _ _ (v_heap _ _ _ _ _ Hv)) as Hnd. rewrite !fmap_app in Hnd.
  apply NoDup_app in Hnd as (_ & Hd & _).
  apply (Hd (g_ptr g)); [by apply list_elem_of_fmap_2|].
  apply elem_of_app. right. by apply list_elem_of_fmap_2.
Qed.

Lemma find_off buy b G1 G2 Go g :
  view buy b G1 G2 Go → g ∈ Go →
  ∃ i, list_find (λ x, BookSpec.price x.1 = g_price g) (erase_off <$> Go) = Some (i, erase_off g).
Proof.
  intros Hv Hg. apply (find_key (λ x, BookSpec.price x.1)); [by apply list_elem_of_fmap_2|done|].
  intros x (h & -> & Hh)%list_elem_of_fmap Hp.
  by rewrite (heap_unique_price _ _ _ _ h g (v_heap _ _ _ _ _ Hv)) by (done || set_solver).
Qed.

Lemma upd_elsewhere buy b G1 G2 Go g g' G :
  view buy b G1 G2 Go → g ∈ G1 ++ G2 ++ Go → G ⊆ G1 ++ G2 ++ Go → g ∉ G →
  g_ptr g' = g_ptr g → upd g' <$> G = G.
Proof.
  intros Hv Hg Hsub Hn Hp. apply fmap_id_in. intros h Hh. apply upd_other. rewrite Hp. intros E.
  apply Hn. by rewrite <- (heap_unique _ _ _ _ h g (v_heap _ _ _ _ _ Hv)) by (done || set_solver).
Qed.

(** The last order of a linked level: the level is removed. *)
Lemma cancel_last_linked client_id order_id side b e g r G1 G2 Go :
  let buy := g_buy g in
  view buy b G1 G2 Go → Forall nonempty (G1 ++ G2 ++ Go) → env_ok e → g ∈ G1 →
  PriceLevel.remove_first order_id (g_orders g) = Some (r, []) →
  ∃ b' A',
    cancel client_id order_id side (g_price g) (mkSt b e) =
      Done (tt, mkSt b' (canceled_env (ticker_id b) client_id order_id side (g_price g) r e)) ∧
    BookSpec.remove_level (g_price g) (erase buy G1 G2 Go) = Some A' ∧
    book_rep b' A' ∧ matched b b'.
Proof.
  intros buy Hv Hne He Hg Hrf. assert (g ∈ G1 ++ G2 ++ Go) as Hin by set_solver.
  destruct (take_run buy b g G1 G2 Go order_id r [] (g_price g) Hv Hin Hrf)
    as (q & ps & op' & Ec & Hq & Hl & Hv1 & Hm1).
  destruct ps; [|done]. set (g' := g_set_orders [] [] g) in *.
  set (b1 := put_level _ _ _ _) in *.
  destruct (remove_linked buy b1 e g' (upd g' <$> G1) (upd g' <$> G2) (upd g' <$> Go))
    as (b2 & G1' & E & Hv2 & HG1 & Ht & Eo & Ea); [done| |].
  { apply list_elem_of_fmap. exists g. by rewrite upd_same. }
  change (g_price g') with (g_price g) in HG1. change (g_ptr g') with (g_ptr g) in E.
  rewrite (drop_upd buy b G1 G2 Go g g' G1) in HG1 by (done || set_solver).
  pose proof (h_nodup _ _ _ _ (v_heap _ _ _ _ _ Hv)) as Hnd.
  assert (g ∉ G2 ++ Go) as Hnot.
  { intros Hn. rewrite fmap_app in Hnd. apply NoDup_app in Hnd as (_ & Hd & _).
    apply (Hd (g_ptr g)); by apply list_elem_of_fmap_2. }
  rewrite !(upd_elsewhere buy b G1 G2 Go g g') in Hv2 by (done || set_solver).
  exists b2, (erase buy G1' G2 Go). split_and!.
  - rewrite (cancel_found _ _ _ _ _ _ g g' (Some q) op'); [|by apply (heap_entry _ _ _ _ _
      (v_heap _ _ _ _ _ Hv))|by apply (view_elem _ _ _ _ _ _ Hv Hin)|exact Ec].
    simpl. run E. apply msg_canceled; [done|by rewrite Eo].
  - unfold BookSpec.remove_level. change (BookSpec.off (erase buy G1 G2 Go)) with (erase_off <$> Go).
    rewrite (find_off_none buy b G1 G2 Go g) by done. pose proof (drop_other buy b G1 G2 Go g Hv ltac:(set_solver)) as Hd.
    unfold erase; simpl. clearbody buy. destruct buy; by rewrite HG1, Hd.
  - apply (book_rep_view buy). exists G1', G2, Go. split_and!; [done| |done].
    apply Forall_app in Hne as [Hne1 Hne2]. apply Forall_app. split; [|done].
    apply (nonempty_lvls G1' (g_lvl <$> G1)); [|by apply nonempty_orders].
    intros l. rewrite HG1. apply drop_sub.
  - apply (matched_trans _ b1); [done|]. split_and!; [done|by rewrite Eo..|lia].
Qed.

(** The last order of a level that is not linked, its side having levels: the
    code runs off the end of their chain. *)
Lemma cancel_last_crash client_id order_id side b e g r G1 G2 Go :
  let buy := g_buy g in
  view buy b G1 G2 Go → g ∈ Go → G1 ≠ [] →
  PriceLevel.remove_first order_id (g_orders g) = Some (r, []) →
  cancel client_id order_id side (g_price g) (mkSt b e) = UB NullDeref.
Proof.
  intros buy Hv Hg Hne Hrf. assert (g ∈ G1 ++ G2 ++ Go) as Hin by set_solver.
  destruct (take_run buy b g G1 G2 Go order_id r [] (g_price g) Hv Hin Hrf)
    as (q & ps & op' & Ec & Hq & Hl & Hv1 & Hm1).
  destruct ps; [|done]. set (g' := g_set_orders [] [] g) in *.
  rewrite (cancel_found _ _ _ _ _ _ g g' (Some q) op'); [|by apply (heap_entry _ _ _ _ _
    (v_heap _ _ _ _ _ Hv))|by apply (view_elem _ _ _ _ _ _ Hv Hin)|exact Ec].
  apply bind_ub. simpl. change (g_ptr g) with (g_ptr g').
  eapply (remove_off_crash buy); [exact Hv1| |done|by destruct G1].
  apply list_elem_of_fmap. exists g. by rewrite upd_same.
Qed.

(** The same with no level linked on its side. *)
Lemma cancel_last_off client_id order_id side b e g r G2 Go1 Go2 :
  let buy := g_buy g in
  view buy b [] G2 (Go1 ++ g :: Go2) → Forall nonempty (G2 ++ Go1 ++ g :: Go2) → env_ok e →
  PriceLevel.remove_first order_id (g_orders g) = Some (r, []) →
  ∃ b',
    cancel client_id order_id side (g_price g) (mkSt b e) =
      Done (tt, mkSt b' (canceled_env (ticker_id b) client_id order_id side (g_price g) r e)) ∧
    best buy b' = g_next g ∧ matched b b' ∧
    (g_next g = None → book_rep b' (erase buy [] G2 (Go1 ++ Go2))).
Proof.
  intros buy Hv Hne He Hrf. set (Go := Go1 ++ g :: Go2) in *.
  assert (g ∈ [] ++ G2 ++ Go) as Hin by (unfold Go; set_solver).
  destruct (take_run buy b g [] G2 Go order_id r [] (g_price g) Hv Hin Hrf)
    as (q & ps & op' & Ec & Hq & Hl & Hv1 & Hm1).
  destruct ps; [|done]. set (g' := g_set_orders [] [] g) in *.
  set (b1 := put_level _ _ _ _) in *.
  pose proof (h_nodup _ _ _ _ (v_heap _ _ _ _ _ Hv)) as Hnd.
  rewrite app_nil_l, fmap_app in Hnd. apply NoDup_app in Hnd as (_ & Hd & Hndo).
  assert (upd g' <$> Go = Go1 ++ g' :: Go2) as E1 by (by apply upd_split).
  assert (upd g' <$> G2 = G2) as E2.
  { eapply upd_elsewhere; [exact Hv|exact Hin|set_solver| |done]. intros Hn.
    apply (Hd (g_ptr g)); apply list_elem_of_fmap_2; [done|unfold Go; set_solver]. }
  rewrite E1, E2 in Hv1.
  destruct (remove_off buy b1 e g' G2 Go1 Go2 Hv1 eq_refl) as (b2 & E & Hb & (Ht & Eo & Ea) & Hv2).
  exists b2. split_and!.
  - rewrite (cancel_found _ _ _ _ _ _ g g' (Some q) op'); [|by apply (heap_entry _ _ _ _ _
      (v_heap _ _ _ _ _ Hv))|by apply (view_elem _ _ _ _ _ _ Hv Hin)|exact Ec].
    simpl. run E. apply msg_canceled; [done|by rewrite Eo].
  - exact Hb.
  - apply (matched_trans _ b1); [done|]. split_and!; [done|by rewrite Eo..|lia].
  - intros Hn. apply (book_rep_view buy). exists [], G2, (Go1 ++ Go2).
    split_and!; [by apply Hv2| |done]. revert Hne. unfold Go.
    rewrite !Forall_app, Forall_cons. simpl. rewrite Forall_nil. tauto.
Qed.

(** Other orders are left at the price. *)
Lemma cancel_more client_id order_id side b e g r os G1 G2 Go :
  let buy := g_buy g in
  view buy b G1 G2 Go → Forall nonempty (G1 ++ G2 ++ Go) → env_ok e → g ∈ G1 ++ G2 ++ Go →
  PriceLevel.remove_first order_id (g_orders g) = Some (r, os) → os ≠ [] →
  ∃ b',
    cancel client_id order_id side (g_price g) (mkSt b e) =
      Done (tt, mkSt b' (canceled_env (ticker_id b) client_id order_id side (g_price g) r e)) ∧
    book_rep b' (BookSpec.update_price (g_price g) (BookSpec.set_orders os) (erase buy G1 G2 Go)) ∧
    matched b b'.
Proof.
  intros buy Hv Hne He Hin Hrf Hos.
  destruct (take_run buy b g G1 G2 Go order_id r os (g_price g) Hv Hin Hrf)
    as (q & ps & op' & Ec & Hq & Hl & Hv1 & Hm1).
  eexists. split_and!; [| |exact Hm1].
  - rewrite (cancel_found _ _ _ _ _ _ g (g_set_orders ps os g) (Some q) op'); [|by apply (heap_entry _ _ _ _ _
      (v_heap _ _ _ _ _ Hv))|by apply (view_elem _ _ _ _ _ _ Hv Hin)|exact Ec].
    rewrite decide_False by (destruct ps, os; done). rewrite bind_ret. by apply msg_canceled.
  - apply (book_rep_view buy). do 3 eexists. split_and!; [exact Hv1| |].
    + rewrite <- !fmap_app. by apply nonempty_upd.
    + symmetry. by apply (erase_upd buy b G1 G2 Go g).
Qed.

(** ** [cancel] *)

(** The linked levels of the side that orders of [s] rest on. *)
Definition linked_levels (s : OrderSide) A : list BookSpec.Level :=
  if decide (s = OrderSide.BUY) then BookSpec.bids A else BookSpec.asks A.

Lemma linked_erase g G1 G2 Go :
  linked_levels (g_side g) (erase (g_buy g) G1 G2 Go) = g_lvl <$> G1.
Proof.
  unfold linked_levels, g_buy, is_buy.
  destruct (decide (g_side g = OrderSide.BUY)) as [->|Hs]; [done|].
  by rewrite bool_decide_eq_false_2.
Qed.

(** What the code does on an order it cannot take out properly. *)
Definition breaks (order_id : OrderIdT) (limit_price : PriceT) A (o : outcome (unit * St)) : Prop :=
  ∃ l last, (l, last) ∈ BookSpec.off A ∧ BookSpec.price l = limit_price ∧
    ((linked_levels (BookSpec.side l) A ≠ [] ∧ o = UB NullDeref) ∨
     (linked_levels (BookSpec.side l) A = [] ∧ last = false ∧
      ∃ b' e', o = Done (tt, mkSt b' e') ∧ best (is_buy (BookSpec.side l)) b' ≠ None)).

(** The level an order is looked for on, in the specification. *)
Lemma cancel_spec_at buy b G1 G2 Go g order_id :
  view buy b G1 G2 Go → g ∈ G1 ++ G2 ++ Go →
  BookSpec.cancel order_id (g_price g) (erase buy G1 G2 Go) =
    match PriceLevel.remove_first order_id (g_orders g) with
    | None => BookSpec.Rejected
    | Some (o, []) =>
        match BookSpec.remove_level (g_price g) (erase buy G1 G2 Go) with
        | Some A' => BookSpec.Canceled o A'
        | None => BookSpec.Broken
        end
    | Some (o, os) =>
        BookSpec.Canceled o
          (BookSpec.update_price (g_price g) (BookSpec.set_orders os) (erase buy G1 G2 Go))
    end.
Proof.
  intros Hv Hg. destruct (find_erase buy b G1 G2 Go g Hv Hg) as [i E].
  unfold BookSpec.cancel. by rewrite E.
Qed.

Definition cancel_post client_id order_id side limit_price b e A : Prop :=
  let o := cancel client_id order_id side limit_price (mkSt b e) in
  match BookSpec.cancel order_id limit_price A with
  | BookSpec.Rejected =>
      ∃ b', o = Done (tt, mkSt b' (rejected_env (ticker_id b) client_id order_id e)) ∧
            book_rep b' A ∧ matched b b'
  | BookSpec.Canceled r A' =>
      ∃ b', o = Done (tt, mkSt b'
                  (canceled_env (ticker_id b) client_id order_id side limit_price r e)) ∧
            book_rep b' A' ∧ matched b b'
  | BookSpec.Broken => breaks order_id limit_price A o
  end.

Lemma touch_rep buy b G1 G2 Go x :
  view buy b G1 G2 Go → Forall nonempty (G1 ++ G2 ++ Go) →
  book_rep (touch x b) (erase buy G1 G2 Go) ∧ matched b (touch x b).
Proof.
  intros Hv Hne. destruct (touch_fields x b) as (Ft & Fo & Fl & Fb & Fa). split.
  - apply (book_rep_view buy). exists G1, G2, Go. split_and!; [by apply touch_view|done..].
  - split_and!; [done|by rewrite Fo..|by rewrite Fl].
Qed.

(** The last order of a level, removed as the specification says. *)
Lemma cancel_last client_id order_id side b e g r G1 G2 Go :
  view (g_buy g) b G1 G2 Go → Forall nonempty (G1 ++ G2 ++ Go) → env_ok e →
  g ∈ G1 ++ G2 ++ Go → PriceLevel.remove_first order_id (g_orders g) = Some (r, []) →
  cancel_post client_id order_id side (g_price g) b e (erase (g_buy g) G1 G2 Go).
Proof.
  intros Hv Hne He Hg Hrf. unfold cancel_post.
  rewrite (cancel_spec_at _ _ _ _ _ _ order_id Hv Hg), Hrf.
  assert (g ∈ G1 ∨ g ∈ Go) as [Hg1|Hgo].
  { pose proof (v_side2 _ _ _ _ _ Hv) as Hs. rewrite Forall_forall in Hs.
    rewrite !elem_of_app in Hg. destruct Hg as [?|[Hg|?]]; [by left| |by right].
    specialize (Hs g Hg). simpl in Hs. by destruct (g_buy g). }
  - destruct (cancel_last_linked client_id order_id side b e g r G1 G2 Go Hv Hne He Hg1 Hrf)
      as (b' & A' & E & -> & ? & ?). by exists b'.
  - pose proof (linked_erase g G1 G2 Go) as Hlk.
    destruct (find_off _ _ _ _ _ _ Hv Hgo) as [i Hf].
    unfold BookSpec.remove_level. change (BookSpec.off (erase _ G1 G2 Go)) with (erase_off <$> Go).
    rewrite Hf. unfold erase_off at 1. change (BookSpec.side (g_lvl g)) with (g_side g).
    change (if decide (g_side g = OrderSide.BUY) then _ else _)
      with (linked_levels (g_side g) (erase (g_buy g) G1 G2 Go)). rewrite Hlk.
    destruct G1 as [|h G1].
    + apply list_elem_of_split in Hgo as (Go1 & Go2 & ->).
      destruct (cancel_last_off client_id order_id side b e g r G2 Go1 Go2 Hv Hne He Hrf)
        as (b' & E & Hb & Hm & Hr). simpl. case_bool_decide as Hn.
      * exists b'. split_and!; [done| |done]. specialize (Hr Hn).
        rewrite fmap_app, fmap_cons, (filter_key (λ x, BookSpec.price x.1)), <- fmap_app; try done.
        rewrite <- fmap_app. intros x (k & -> & Hk)%list_elem_of_fmap.
        apply (view_other_price _ _ _ _ _ _ _ Hv); [set_solver..|]. intros ->.
        pose proof (h_nodup _ _ _ _ (v_heap _ _ _ _ _ Hv)) as Hnd.
        rewrite app_nil_l, !fmap_app, fmap_cons in Hnd.
        apply NoDup_app in Hnd as (_ & _ & (_ & Hd & [Hk2 _]%NoDup_cons)%NoDup_app).
        apply elem_of_app in Hk as [Hk|Hk]; apply (list_elem_of_fmap_2 g_ptr) in Hk; [|done].
        apply (Hd _ Hk). by left.
      * exists (g_lvl g), false. split_and!; [|done|].
        -- apply list_elem_of_fmap. exists g. split; [|set_solver].
           unfold erase_off. by rewrite bool_decide_eq_false_2.
        -- right. split_and!; [exact Hlk|done|]. exists b'. eexists. split; [exact E|].
           change (best (g_buy g) b' ≠ None). by rewrite Hb.
    + simpl. exists (g_lvl g), (bool_decide (g_next g = None)). split_and!; [|done|].
      * apply list_elem_of_fmap. by exists g.
      * left. split; [unfold g_side in Hlk; by rewrite Hlk|].
        by eapply cancel_last_crash.
Qed.

(** [cancel], whatever the order. *)
Lemma cancel_run client_id order_id side limit_price b e A :
  book_rep b A → env_ok e → cancel_post client_id order_id side limit_price b e A.
Proof.
  intros (G1 & G2 & Go & Hv & Hne & ->) He. pose proof (v_heap _ _ _ _ _ Hv) as Hh.
  destruct (entry (price_levels b) limit_price) as [p|] eqn:Hent.
  - pose proof (proj1 (h_map _ _ _ _ Hh _ _) Hent) as (g & Hg & <- & _).
    assert (∃ G1' G2', view (g_buy g) b G1' G2' Go ∧ Forall nonempty (G1' ++ G2' ++ Go) ∧
      erase true G1 G2 Go = erase (g_buy g) G1' G2' Go ∧ g ∈ G1' ++ G2' ++ Go)
      as (G1' & G2' & Hv' & Hne' & -> & Hg').
    { destruct (g_buy g); [by exists G1, G2|]. exists G2, G1.
      split_and!; [by apply view_swap in Hv| |done|set_solver].
      revert Hne. rewrite !Forall_app. tauto. }
    destruct (PriceLevel.remove_first order_id (g_orders g)) as [[r [|o os]]|] eqn:Hrf.
    + by eapply cancel_last.
    + unfold cancel_post. rewrite (cancel_spec_at _ _ _ _ _ _ order_id Hv' Hg'), Hrf.
      by apply cancel_more.
    + unfold cancel_post. rewrite (cancel_spec_at _ _ _ _ _ _ order_id Hv' Hg'), Hrf.
      assert (nonempty g) as Hng by (rewrite Forall_forall in Hne'; by apply Hne').
      destruct (absent_run _ _ _ _ _ _ order_id (g_price g) Hv' Hg' Hng Hrf) as (Ec & Hr & Ep).
      destruct (touch_rep _ _ _ _ _ (g_price g) Hv' Hne') as [? ?].
      exists (touch (g_price g) b). split_and!; [|done..].
      rewrite (cancel_found _ _ _ _ _ _ g g None (order_pool b));
        [|by apply (heap_entry _ _ _ _ _ Hh)|by apply (view_elem _ _ _ _ _ _ Hv' Hg')|exact Ec].
      rewrite decide_False by (by destruct (g_ring g)). rewrite bind_ret, Ep.
      by apply msg_rejected.
  - unfold cancel_post, BookSpec.cancel. rewrite (find_erase_none _ _ _ _ _ _ Hv Hent).
    destruct (touch_rep _ _ _ _ _ limit_price Hv Hne) as [? ?].
    exists (touch limit_price b). split_and!; [|done..].
    rewrite cancel_missing by done. by apply msg_rejected.
Qed.
End cancel.
End BookCancel.
