(* ===== verification/BookProps.v ===== *)
(** What the specification of an order book (BookSpec.v) guarantees: price-time
    priority and conservation of quantity in matching, and the invariant of a
    book. *)

From S2P Require Import Prelude Types PriceLevel LFQueue TimeUtils OrderBook BookSpec.
Local Open Scope Z_scope.

Module BookProps.
Import BookSpec.

(** ** Matching against one side *)

(** The orders of a side in order of priority, and those that may trade. *)
Definition side_orders (ls : list Level) : list Order := ls ≫= orders.
Fixpoint eligible (c : PriceT → bool) (ls : list Level) : list Order :=
  match ls with
  | [] => []
  | l :: ls => if c (price l) then orders l ++ eligible c ls else []
  end.

Definition order_sane (o : Order) : Prop := 0 < Order.quantity o < 2 ^ 32.
Definition level_sane (l : Level) : Prop :=
  orders l ≠ [] ∧ Forall (λ o, order_sane o ∧ Order.limit_price o = price l) (orders l).

Definition fill_ok (f : Fill) : Prop := 0 < fill_qty f ≤ Order.quantity (maker f).

Definition total_fills (fs : list Fill) : Z := foldr Z.add 0 (fill_qty <$> fs).
Definition total_orders (os : list Order) : Z := foldr Z.add 0 (Order.quantity <$> os).

Lemma total_fills_cons f fs : total_fills (f :: fs) = fill_qty f + total_fills fs.
Proof. done. Qed.

Lemma total_fills_app fs1 fs2 : total_fills (fs1 ++ fs2) = total_fills fs1 + total_fills fs2.
Proof.
  induction fs1 as [|f fs1 IH]; [done|]. simpl app. rewrite !total_fills_cons, IH. lia.
Qed.

Lemma total_orders_cons o os : total_orders (o :: os) = Order.quantity o + total_orders os.
Proof. done. Qed.

(** What trades [fs] leave of the queue [os] they go through: an order that is not
    used up stays at the front. *)
Fixpoint after_fills (fs : list Fill) (os : list Order) : list Order :=
  match fs, os with
  | [], _ => os
  | f :: fs, _ :: os =>
      if decide (maker_left f = 0) then after_fills fs os
      else Order.set_quantity (maker_left f) (maker f) :: os
  | _, [] => []
  end.

(** [fs] trades with a prefix of [os], in order, using up every maker but
    perhaps the last one. *)
Inductive takes : list Fill → list Order → Prop :=
| takes_nil os : takes [] os
| takes_all o fs os :
    takes fs os → takes (mkFill o (Order.quantity o) :: fs) (o :: os)
| takes_part o q os : 0 < q < Order.quantity o → takes [mkFill o q] (o :: os).

Lemma takes_app fs os1 fs2 os2 :
  takes fs os1 → maker <$> fs = os1 → Forall (λ f, maker_left f = 0) fs → takes fs2 os2 →
  takes (fs ++ fs2) (os1 ++ os2).
Proof.
  intros Ht. induction Ht as [os|o fs os Ht IH|o q os Hq]; simpl.
  - by intros <- _.
  - intros [= Hm] [_ Hz]%Forall_cons H2. constructor. by apply IH.
  - intros _ [Hz _]%Forall_cons. unfold maker_left in Hz. simpl in Hz. lia.
Qed.

Lemma takes_weaken fs os os' : takes fs os → takes fs (os ++ os').
Proof. induction 1; simpl; by constructor. Qed.

Lemma takes_prefix fs os : takes fs os → (maker <$> fs) `prefix_of` os.
Proof.
  induction 1 as [os|o fs os _ IH|o q os _]; simpl.
  - apply prefix_nil.
  - by apply prefix_cons.
  - apply prefix_cons, prefix_nil.
Qed.

(** One level. *)
Record level_taken (q : QuantityT) (os : list Order) (fs : list Fill) (q' : QuantityT)
    (r : list Order) : Prop := {
  lt_takes : takes fs os;
  lt_left : r = after_fills fs os;
  lt_qty : q = total_fills fs + q';
  lt_pos : 0 ≤ q';
  lt_fills : Forall fill_ok fs;
  lt_rest : q' ≠ 0 → r = [];
  lt_all : r = [] → maker <$> fs = os ∧ Forall (λ f, maker_left f = 0) fs;
  lt_sane : Forall order_sane r;
}.

Lemma take_orders_taken q os :
  0 ≤ q → Forall order_sane os →
  let '(fs, q', r) := take_orders q os in level_taken q os fs q' r.
Proof.
  revert q. induction os as [|o os IH]; intros q Hq Hs; simpl.
  { split; try done. constructor. }
  apply Forall_cons in Hs as [Ho Hs]. unfold order_sane in Ho.
  case_decide as Hq0.
  { split; try done; [constructor|by constructor]. }
  destruct (decide (Order.quantity o - Z.min q (Order.quantity o) = 0)) as [Hz|Hz].
  - rewrite Z.min_r by lia. specialize (IH (q - Order.quantity o) ltac:(lia) Hs).
    destruct (take_orders _ os) as [[fs q'] r]. destruct IH as [Ht Hl Hqt Hp Hf Hr Ha Hsr].
    cbv beta iota. split; try done.
    + by constructor.
    + cbn. unfold maker_left. cbn. by rewrite Z.sub_diag.
    + rewrite total_fills_cons. simpl. lia.
    + constructor; [|done]. unfold fill_ok. simpl. lia.
    + intros Hrn. destruct (Ha Hrn) as [Hm Hz']. split; [by rewrite fmap_cons, Hm|].
      constructor; [|done]. unfold maker_left. simpl. lia.
  - assert (q < Order.quantity o) by lia. rewrite Z.min_l in * by lia. split; try done.
    + constructor. lia.
    + cbn. unfold maker_left. cbn. case_decide; [lia|done].
    + rewrite total_fills_cons. simpl. unfold total_fills. simpl. lia.
    + lia.
    + constructor; [|done]. unfold fill_ok. simpl. lia.
    + lia.
    + constructor; [|done]. unfold order_sane. simpl. lia.
Qed.

Lemma after_fills_app fs1 os1 fs2 os2 :
  maker <$> fs1 = os1 → Forall (λ f, maker_left f = 0) fs1 →
  after_fills (fs1 ++ fs2) (os1 ++ os2) = after_fills fs2 os2.
Proof.
  revert os1. induction fs1 as [|f fs1 IH]; intros os1; simpl.
  - by intros <- _.
  - intros <- [Hf Hfs]%Forall_cons. simpl. rewrite decide_True by done. by apply IH.
Qed.

Lemma after_fills_weaken fs os os' :
  takes fs os → after_fills fs (os ++ os') = after_fills fs os ++ os'.
Proof.
  induction 1 as [os|o fs os Ht IH|o q os Hq]; [done| |].
  - cbn. unfold maker_left. cbn. by rewrite Z.sub_diag.
  - cbn. by destruct (decide _).
Qed.

(** *** A side *)

(** A level without its orders. *)
Definition key (l : Level) : PriceT * OrderSide := (price l, side l).

Record side_taken (c : PriceT → bool) (q : QuantityT) (ls : list Level) (fs : list Fill)
    (q' : QuantityT) (ls' : list Level) : Prop := {
  st_takes : takes fs (eligible c ls);
  st_left : side_orders ls' = after_fills fs (side_orders ls);
  st_qty : q = total_fills fs + q';
  st_pos : 0 ≤ q';
  st_fills : Forall fill_ok fs;
  st_rest : q' ≠ 0 → match ls' with [] => True | l :: _ => c (price l) = false end;
  st_keys : (key <$> ls') `suffix_of` (key <$> ls);
  st_sane : Forall level_sane ls';
}.

Lemma side_orders_cons l ls : side_orders (l :: ls) = orders l ++ side_orders ls.
Proof. done. Qed.

Lemma eligible_prefix c ls : eligible c ls `prefix_of` side_orders ls.
Proof.
  induction ls as [|l ls IH]; [done|]. cbn [eligible]. rewrite side_orders_cons.
  destruct (c (price l)); [by apply prefix_app|apply prefix_nil].
Qed.

Lemma level_sane_set l os :
  level_sane l → os ≠ [] → Forall order_sane os →
  Forall (λ o, Order.limit_price o = price l) os → level_sane (set_orders os l).
Proof. intros _ ? ? ?. split; [done|]. by apply Forall_and. Qed.

Lemma takes_limit p fs os :
  takes fs os → Forall (λ o, Order.limit_price o = p) os →
  Forall (λ o, Order.limit_price o = p) (after_fills fs os).
Proof.
  induction 1 as [os|o fs os Ht IH|o q os Hq]; [done|..]; intros [Ho Hos]%Forall_cons; cbn.
  - unfold maker_left. cbn. rewrite Z.sub_diag. simpl. by apply IH.
  - unfold maker_left. cbn. case_decide; [done|]. by constructor.
Qed.

Lemma take_levels_taken c q ls :
  0 ≤ q → Forall level_sane ls →
  let '(fs, q', ls') := take_levels c q ls in side_taken c q ls fs q' ls'.
Proof.
  revert q. induction ls as [|l ls IH]; intros q Hq Hs.
  { simpl. split; try done. constructor. }
  cbn [take_levels]. case_decide as Hq0.
  { subst q. split; try done. constructor. }
  destruct (c (price l)) eqn:Hc.
  2:{ split; try done. constructor. }
  pose proof Hs as [Hl Hs']%Forall_cons. pose proof Hl as [Hne Hos].
  assert (Forall order_sane (orders l)) as Hos1 by (eapply Forall_impl; [exact Hos|by intros ? []]).
  assert (Forall (λ o, Order.limit_price o = price l) (orders l)) as Hos2
    by (eapply Forall_impl; [exact Hos|by intros ? []]).
  pose proof (take_orders_taken q (orders l) Hq Hos1) as Ht.
  destruct (take_orders q (orders l)) as [[fs q'] r]. destruct Ht as [Ht Hle Hqt Hp Hf Hr Ha Hsr].
  destruct r as [|o r].
  - destruct (Ha eq_refl) as [Hm Hz]. specialize (IH q' Hp Hs').
    destruct (take_levels c q' ls) as [[fs' q''] ls'].
    destruct IH as [It Il Iq Ip If Ir Ik Is]. cbv beta iota. split; try done.
    + simpl. rewrite Hc. by apply takes_app.
    + rewrite side_orders_cons, after_fills_app by done. done.
    + rewrite total_fills_app. lia.
    + by apply Forall_app.
    + rewrite fmap_cons. by apply suffix_cons_r.
  - split; try done.
    + simpl. rewrite Hc. by apply takes_weaken.
    + rewrite !side_orders_cons, after_fills_weaken, <- Hle by done. done.
    + intros Hn. by specialize (Hr Hn).
    + constructor; [|done]. apply level_sane_set; [done..|].
      rewrite Hle. by apply takes_limit.
Qed.

(** *** Consequences *)

Lemma takes_mono fs os os' : takes fs os → os `prefix_of` os' → takes fs os'.
Proof. intros Ht [k ->]. by apply takes_weaken. Qed.

Lemma takes_Forall (P : Order → Prop) fs os :
  takes fs os → Forall P os → Forall (λ f, P (maker f)) fs.
Proof.
  induction 1 as [os|o fs os _ IH|o q os _]; [done|..]; intros [Ho Hos]%Forall_cons;
    constructor; auto.
Qed.

Lemma after_fills_total fs os :
  takes fs os → total_orders os = total_fills fs + total_orders (after_fills fs os).
Proof.
  induction 1 as [os|o fs os _ IH|o q os Hq]; [done|..]; rewrite total_orders_cons, total_fills_cons.
  - cbn [after_fills]. unfold maker_left. cbn. rewrite Z.sub_diag. simpl. rewrite IH. lia.
  - cbn [after_fills]. unfold maker_left. cbn. case_decide; [lia|].
    rewrite total_orders_cons. unfold total_fills. simpl. lia.
Qed.

Lemma eligible_crosses c ls :
  Forall level_sane ls → Forall (λ o, c (Order.limit_price o) = true) (eligible c ls).
Proof.
  induction ls as [|l ls IH]; [done|]. intros [[_ Hl] Hls]%Forall_cons. cbn [eligible].
  destruct (c (price l)) eqn:Hc; [|done]. apply Forall_app. split; [|by apply IH].
  eapply Forall_impl; [exact Hl|]. simpl. by intros o [_ ->].
Qed.

(** ** The invariant of a book *)

Record wf_keys (kb ka ko : list (PriceT * OrderSide)) : Prop := {
  wk_bids : StronglySorted (λ x y, y < x) kb.*1;
  wk_asks : StronglySorted Z.lt ka.*1;
  wk_uncrossed x y : x ∈ kb.*1 → y ∈ ka.*1 → x < y;
  wk_nodup : NoDup (kb ++ ka ++ ko).*1;
  wk_buy : Forall (λ k, k.2 = OrderSide.BUY) kb;
  wk_sell : Forall (λ k, k.2 ≠ OrderSide.BUY) ka;
}.

(** The linked levels are sorted and not crossed, a price has one level, and the
    orders of a level have its price and a quantity. *)
Record wf_book (A : Book) : Prop := {
  wb_keys : wf_keys (key <$> bids A) (key <$> asks A) (key <$> (off A).*1);
  wb_sane : Forall level_sane (all_levels A);
}.

Lemma empty_wf : wf_book empty_book.
Proof. split; [|constructor]. split; try constructor. by intros x y ?%not_elem_of_nil. Qed.

Lemma wf_keys_sub kb ka ko kb' ka' ko' :
  wf_keys kb ka ko → kb' `sublist_of` kb → ka' `sublist_of` ka → ko' `sublist_of` ko →
  wf_keys kb' ka' ko'.
Proof.
  intros [Hb Ha Hu Hnd Hbuy Hsell] Sb Sa So.
  assert (kb'.*1 `sublist_of` kb.*1 ∧ ka'.*1 `sublist_of` ka.*1) as [Sb1 Sa1]
    by (split; by apply fmap_sublist).
  split.
  - by eapply sorted_sublist.
  - by eapply sorted_sublist.
  - intros x y Hx Hy. by apply Hu; [apply (sublist_incl _ _ Sb1)|apply (sublist_incl _ _ Sa1)].
  - eapply sublist_NoDup; [exact Hnd|]. apply fmap_sublist. by repeat apply sublist_app.
  - by eapply Forall_sublist.
  - by eapply Forall_sublist.
Qed.

(** *** Matching keeps it *)

Definition opposite (s : OrderSide) (A : Book) : list Level :=
  if decide (s = OrderSide.BUY) then asks A else bids A.

Lemma match_book_taken s q lim A :
  0 ≤ q → wf_book A →
  let '(fs, q', A') := match_book s q lim A in
  side_taken (crosses s lim) q (opposite s A) fs q' (opposite s A') ∧ wf_book A' ∧
  (if decide (s = OrderSide.BUY) then bids A' = bids A else asks A' = asks A) ∧ off A' = off A.
Proof.
  intros Hq [Hk Hs]. unfold match_book, opposite.
  pose proof Hs as [Hsb [Hsa Hso]%Forall_app]%Forall_app.
  destruct (decide (s = OrderSide.BUY)).
  - pose proof (take_levels_taken (crosses s lim) q (asks A) Hq Hsa) as Ht.
    destruct (take_levels _ _ _) as [[fs q'] ls]. split_and!; [done| |done|done].
    destruct Ht as [_ _ _ _ _ _ Hkeys Hsane]. split; [simpl|unfold all_levels; simpl; by rewrite !Forall_app].
    eapply wf_keys_sub; [done|done| |done]. by apply suffix_sublist.
  - pose proof (take_levels_taken (crosses s lim) q (bids A) Hq Hsb) as Ht.
    destruct (take_levels _ _ _) as [[fs q'] ls]. split_and!; [done| |done|done].
    destruct Ht as [_ _ _ _ _ _ Hkeys Hsane]. split; [simpl|unfold all_levels; simpl; by rewrite !Forall_app].
    eapply wf_keys_sub; [done| |done|done]. by apply suffix_sublist.
Qed.

Lemma opposite_sane s A : wf_book A → Forall level_sane (opposite s A).
Proof.
  intros [_ [? [? _]%Forall_app]%Forall_app]. unfold opposite. by destruct (decide _).
Qed.

(** *** Resting keeps it *)

Definition uncrossed_by (s : OrderSide) (lim : PriceT) (A : Book) : Prop :=
  match opposite s A with [] => True | l :: _ => crosses s lim (price l) = false end.

Lemma key_at_price p f (ls : list Level) :
  (∀ l, key (f l) = key l) → key <$> (at_price p f <$> ls) = key <$> ls.
Proof.
  intros Hf. rewrite <- list_fmap_compose. apply list_fmap_ext. intros i l _.
  simpl. unfold at_price. by destruct (_ =? _).
Qed.

Lemma update_price_wf p f A :
  (∀ l, key (f l) = key l) →
  (∀ l, l ∈ all_levels A → price l = p → level_sane l → level_sane (f l)) →
  wf_book A → wf_book (update_price p f A).
Proof.
  intros Hf Hsf [Hk Hs].
  assert ((prod_map (at_price p f) id <$> off A).*1 = at_price p f <$> (off A).*1) as Hoff
    by (rewrite <- !list_fmap_compose; by apply list_fmap_ext).
  split; [unfold update_price; simpl; rewrite Hoff, !key_at_price by done; exact Hk|].
  unfold all_levels in *. cbn [bids asks off update_price]. rewrite Hoff, <- !fmap_app, Forall_fmap.
  rewrite Forall_forall in *. intros l Hl. simpl. unfold at_price.
  destruct (Z.eqb_spec (price l) p); [|by apply Hs]. apply Hsf; [done..|by apply Hs].
Qed.

Lemma sorted_head_all (s : OrderSide) lim A y :
  wf_book A → uncrossed_by s lim A → y ∈ price <$> opposite s A → crosses s lim y = false.
Proof.
  intros [[Hb Ha _ _ _ _] _] Hu Hy. unfold uncrossed_by, opposite, crosses in *.
  rewrite <- !list_fmap_compose in Hb, Ha.
  change (price <$> bids A) with ((fst ∘ key) <$> bids A) in *.
  destruct (decide (s = OrderSide.BUY)).
  - destruct (asks A) as [|l ls]; [by apply not_elem_of_nil in Hy|].
    apply StronglySorted_cons in Ha as [Ha _].
    rewrite fmap_cons in Hy. apply elem_of_cons in Hy as [->|Hy]; [done|].
    rewrite Forall_forall in Ha. specialize (Ha y Hy). simpl in Ha. lia.
  - destruct (bids A) as [|l ls]; [by apply not_elem_of_nil in Hy|].
    apply StronglySorted_cons in Hb as [Hb _].
    rewrite fmap_cons in Hy. apply elem_of_cons in Hy as [->|Hy]; [done|].
    rewrite Forall_forall in Hb. specialize (Hb y Hy). simpl in Hb. lia.
Qed.

Lemma at_price_other p f (ls : list Level) : p ∉ price <$> ls → at_price p f <$> ls = ls.
Proof.
  intros Hp. apply fmap_id_in. intros l Hl. unfold at_price.
  destruct (Z.eqb_spec (price l) p) as [E|]; [|done]. destruct Hp. rewrite <- E.
  by apply list_elem_of_fmap_2.
Qed.

Lemma drop_price_other p (ls : list Level) : p ∉ price <$> ls → drop_price p ls = ls.
Proof.
  intros Hp. apply filter_all. intros l Hl <-. apply Hp. by apply list_elem_of_fmap_2.
Qed.

Lemma has_price_false p ls : has_price p ls = false → p ∉ price <$> ls.
Proof.
  intros Hp (l & -> & Hl)%list_elem_of_fmap.
  assert (has_price (price l) ls = true); [|congruence].
  apply existsb_exists. exists l. split; [by apply list_elem_of_In|by apply Z.eqb_refl].
Qed.

Lemma keys_prices (ls : list Level) : (key <$> ls).*1 = price <$> ls.
Proof. rewrite <- list_fmap_compose. by apply list_fmap_ext. Qed.

(** A new level that comes first on its side. *)
Lemma new_best_bid l A :
  wf_keys (key <$> bids A) (key <$> asks A) (key <$> (off A).*1) →
  side l = OrderSide.BUY → price l ∉ price <$> all_levels A →
  (∀ x, x ∈ price <$> bids A → x < price l) → (∀ y, y ∈ price <$> asks A → price l < y) →
  wf_keys (key <$> l :: bids A) (key <$> asks A) (key <$> (off A).*1).
Proof.
  intros [Hb Ha Hu Hnd Hbuy Hsell] Hside Hnew Hx Hy. split; try done; rewrite ?fmap_cons.
  - apply StronglySorted_cons. split; [|done]. apply Forall_forall. intros x.
    rewrite keys_prices. apply Hx.
  - intros x y [->|Hin]%elem_of_cons; [|by apply Hu]. rewrite keys_prices. apply Hy.
  - rewrite <- !app_comm_cons, fmap_cons. apply NoDup_cons. split; [|done].
    rewrite <- !fmap_app, keys_prices. exact Hnew.
  - by constructor.
Qed.

Lemma new_best_ask l A :
  wf_keys (key <$> bids A) (key <$> asks A) (key <$> (off A).*1) →
  side l ≠ OrderSide.BUY → price l ∉ price <$> all_levels A →
  (∀ x, x ∈ price <$> asks A → price l < x) → (∀ y, y ∈ price <$> bids A → y < price l) →
  wf_keys (key <$> bids A) (key <$> l :: asks A) (key <$> (off A).*1).
Proof.
  intros [Hb Ha Hu Hnd Hbuy Hsell] Hside Hnew Hx Hy. split; try done; rewrite ?fmap_cons.
  - apply StronglySorted_cons. split; [|done]. apply Forall_forall. intros x.
    rewrite keys_prices. apply Hx.
  - intros x y Hin [->|Hin']%elem_of_cons; [|by apply Hu]. rewrite keys_prices in Hin. by apply Hy.
  - rewrite <- app_comm_cons, <- Permutation_middle, fmap_cons. apply NoDup_cons. split; [|done].
    rewrite <- !fmap_app, keys_prices. exact Hnew.
  - by constructor.
Qed.

Lemma new_off l flag A :
  wf_keys (key <$> bids A) (key <$> asks A) (key <$> (off A).*1) →
  price l ∉ price <$> all_levels A →
  wf_keys (key <$> bids A) (key <$> asks A) (key <$> ((l, flag) :: off A).*1).
Proof.
  intros [Hb Ha Hu Hnd Hbuy Hsell] Hnew. split; try done.
  rewrite !fmap_cons, app_assoc, <- Permutation_middle, fmap_cons. apply NoDup_cons.
  rewrite <- app_assoc. split; [|done]. rewrite <- !fmap_app, keys_prices. exact Hnew.
Qed.

Lemma insert_level_perm l A : all_levels (insert_level l A) ≡ₚ l :: all_levels A.
Proof.
  unfold insert_level, all_levels. destruct (decide (side l = OrderSide.BUY)).
  - destruct (bids A) as [|b ls] eqn:E; [done|]. destruct (better _ _ _); simpl; rewrite ?E;
      solve_Permutation.
  - destruct (asks A) as [|b ls] eqn:E; [|destruct (better _ _ _)]; simpl; rewrite ?E;
      solve_Permutation.
Qed.

(** What [insert_level] can do: the level becomes the best of its side, or stays
    off the chain. *)
Lemma insert_level_cases l A :
  wf_book A → uncrossed_by (side l) (price l) A → price l ∉ price <$> all_levels A →
  wf_keys (key <$> bids (insert_level l A)) (key <$> asks (insert_level l A))
    (key <$> (off (insert_level l A)).*1).
Proof.
  intros Hwf Hu Hnew. pose proof Hwf as [Hk _]. pose proof Hk as [Hb Ha _ _ _ _].
  rewrite keys_prices in Hb, Ha.
  assert (∀ x, x ∈ price <$> all_levels A → x ≠ price l) as Hne by (by intros x Hx ->).
  unfold all_levels in Hne. rewrite !fmap_app in Hne.
  pose proof (λ y, sorted_head_all (side l) (price l) A y Hwf Hu) as Hopp.
  unfold insert_level, opposite, crosses, better in *.
  destruct (decide (side l = OrderSide.BUY)) as [Hs|Hs].
  - assert (∀ y, y ∈ price <$> asks A → price l < y) as Hy
      by (intros y Hin; specialize (Hopp y Hin); lia).
    destruct (bids A) as [|b ls] eqn:EA; rewrite <- EA in *.
    { rewrite EA. apply (new_best_bid l A) in Hk; try done.
      - by rewrite EA in Hk.
      - rewrite EA. by intros x ?%not_elem_of_nil. }
    destruct (price l <? price b) eqn:Hlt; cbn [bids asks off]; [by apply new_off|].
    apply (new_best_bid l A); try done. intros x Hx.
    assert (x ≤ price b) by (rewrite EA, fmap_cons in Hx, Hb; apply StronglySorted_cons in Hb as [Hb _];
      apply elem_of_cons in Hx as [->|Hx]; [lia|]; rewrite Forall_forall in Hb; specialize (Hb x Hx); lia).
    assert (price b ≠ price l) by (apply Hne; rewrite EA; set_solver). lia.
  - assert (∀ y, y ∈ price <$> bids A → y < price l) as Hy
      by (intros y Hin; specialize (Hopp y Hin); lia).
    destruct (asks A) as [|b ls] eqn:EA; rewrite <- EA in *.
    { rewrite EA. apply (new_best_ask l A) in Hk; try done.
      - by rewrite EA in Hk.
      - rewrite EA. by intros x ?%not_elem_of_nil. }
    destruct (price b <? price l) eqn:Hlt; cbn [bids asks off]; [by apply new_off|].
    apply (new_best_ask l A); try done. intros x Hx.
    assert (price b ≤ x) by (rewrite EA, fmap_cons in Hx, Ha; apply StronglySorted_cons in Ha as [Ha _];
      apply elem_of_cons in Hx as [->|Hx]; [lia|]; rewrite Forall_forall in Ha; specialize (Ha x Hx); lia).
    assert (price b ≠ price l) by (apply Hne; rewrite EA; set_solver). lia.
Qed.

Lemma rest_wf o A :
  wf_book A → order_sane o → uncrossed_by (Order.side o) (Order.limit_price o) A →
  wf_book (rest o A).
Proof.
  intros Hwf Ho Hu. unfold rest. destruct (has_price _ _) eqn:Hp.
  - apply update_price_wf; [done| |done]. intros l _ Hl [_ Hs]. split; [by destruct (orders l)|].
    apply Forall_app. split; [exact Hs|]. constructor; [|done]. by split.
  - split; [apply insert_level_cases; [done..|by apply has_price_false]|].
    rewrite insert_level_perm. constructor; [|apply Hwf]. split; [done|]. by constructor; [split|].
Qed.

(** ** Adding and cancelling keep it *)

Lemma add_wf tid order_id client_id s q lim ns A :
  wf_book A → 0 ≤ q < 2 ^ 32 → wf_book (add tid order_id client_id s q lim ns A).2.
Proof.
  intros Hwf Hq. unfold add.
  pose proof (match_book_taken s q lim A ltac:(lia) Hwf) as Hm.
  destruct (match_book s q lim A) as [[fs rem] A']. destruct Hm as ([_ _ Hqt Hp Hf Hr _ _] & Hwf' & _).
  destruct (decide (rem = 0)); [done|]. apply rest_wf; [done| |].
  - unfold order_sane; simpl. assert (0 ≤ total_fills fs); [|lia].
    clear -Hf. induction Hf as [|f fs [Hf _] _ IH]; [done|]. rewrite total_fills_cons. lia.
  - unfold uncrossed_by. simpl. by apply Hr.
Qed.

Lemma remove_first_Forall (P : Order → Prop) id os o os' :
  PriceLevel.remove_first id os = Some (o, os') → Forall P os → P o ∧ Forall P os'.
Proof.
  revert o os'. induction os as [|x os IH]; intros o os'; [done|]. simpl.
  intros E [Hx Hos]%Forall_cons. destruct (decide _); [by simplify_eq|].
  destruct (PriceLevel.remove_first id os) as [[r os2]|]; simplify_eq/=.
  destruct (IH _ _ eq_refl Hos). split; [done|]. by constructor.
Qed.

Lemma remove_level_parts p A A' :
  remove_level p A = Some A' →
  bids A' `sublist_of` bids A ∧ asks A' `sublist_of` asks A ∧ off A' `sublist_of` off A.
Proof.
  unfold remove_level. destruct (list_find _ (off A)) as [[? [l last]]|]; intros E.
  - destruct (if decide _ then _ else _), last; simplify_eq. simpl.
    split_and!; [done..|apply filter_sublist].
  - simplify_eq. simpl. split_and!; [apply filter_sublist..|done].
Qed.

Lemma remove_level_sublist p A A' :
  remove_level p A = Some A' → all_levels A' `sublist_of` all_levels A.
Proof.
  intros (Sb & Sa & So)%remove_level_parts. unfold all_levels.
  repeat apply sublist_app; [done..|by apply fmap_sublist].
Qed.

Lemma remove_level_wf p A A' : wf_book A → remove_level p A = Some A' → wf_book A'.
Proof.
  intros [Hk Hs] E. pose proof (remove_level_parts p A A' E) as (Sb & Sa & So). split.
  - eapply wf_keys_sub; [exact Hk|by apply fmap_sublist..|]. by do 2 apply fmap_sublist.
  - by eapply Forall_sublist; [eapply remove_level_sublist|].
Qed.

Lemma cancel_wf order_id lim A o A' :
  wf_book A → cancel order_id lim A = Canceled o A' → wf_book A'.
Proof.
  intros Hwf. unfold cancel. destruct (list_find _ (all_levels A)) as [[i l]|] eqn:El; [|done].
  apply list_find_Some in El as (Hl & Hp & _). apply list_elem_of_lookup_2 in Hl.
  destruct (PriceLevel.remove_first order_id (orders l)) as [[r [|o2 os]]|] eqn:Er; [| |done].
  - destruct (remove_level lim A) as [A2|] eqn:Erm; [|done]. intros [= _ <-].
    by eapply remove_level_wf.
  - intros [= _ <-]. apply update_price_wf; [done| |done]. intros l' Hl' Hp' [_ Hs].
    split; [done|]. assert (l' = l) as ->.
    { eapply (NoDup_fmap_eq price); [|done|done|congruence].
      pose proof (wk_nodup _ _ _ (wb_keys _ Hwf)) as Hnd.
      by rewrite <- !fmap_app, keys_prices in Hnd. }
    by eapply remove_first_Forall in Hs as [_ ?].
Qed.
End BookProps.
