(* ===== verification/BookTheorems.v ===== *)
(** The theorems on the order book: the refinement of BookSpec.v by OrderBook.v,
    the states that are reachable from a new book, matching, and what the code
    does where it goes wrong. *)

From S2P Require Import Prelude Types Memory ObjectPool PriceLevel LFQueue TimeUtils.
From S2P Require Import OrderBook BookSpec BookHeap BookLevels BookRefine BookCancel BookProps.
Local Open Scope Z_scope.

Module BookTheorems.
Import OrderBook BookHeap BookRefine BookCancel.

(** ** Reachable states *)

Section reach.
Context `{Constants, Clock}.

(** [runs s A n]: a book made by the constructor is in state [s] after some calls
    that returned, its specification is [A], and [n] orders have rested so far. *)
Inductive runs : St → BookSpec.Book → nat → Prop :=
| runs_new tid e : env_ok e → runs (mkSt (ctor tid) e) BookSpec.empty_book 0
| runs_add s A n order_id client_id side q lim s' fs rem A' :
    runs s A n → 0 ≤ q < 2 ^ 32 →
    add order_id client_id side q lim s = Done (tt, s') →
    spec_add order_id client_id side q lim (book s) (env s) A = (fs, rem, A') →
    runs s' A' (n + if decide (rem = 0)%Z then 0 else 1)
| runs_cancel s A n client_id order_id side lim s' r A' :
    runs s A n →
    cancel client_id order_id side lim s = Done (tt, s') →
    BookSpec.cancel order_id lim A = BookSpec.Canceled r A' →
    runs s' A' n
| runs_reject s A n client_id order_id side lim s' :
    runs s A n →
    cancel client_id order_id side lim s = Done (tt, s') →
    BookSpec.cancel order_id lim A = BookSpec.Rejected →
    runs s' A n.

Lemma ctor_rep tid :
  (0 < MAX_ORDER_IDS)%nat → (0 < MAX_PRICE_LEVELS)%nat → book_rep (ctor tid) BookSpec.empty_book.
Proof.
  intros Ho Hl. exists [], [], []. split_and!; [|constructor|done].
  split; [|done..|constructor|constructor]. split.
  - by apply ObjectPool.pool_wf.
  - by apply ObjectPool.pool_wf.
  - by intros g ?%not_elem_of_nil.
  - apply NoDup_nil_2.
  - by intros g1 g2 q ?%not_elem_of_nil.
  - intros x p. split; [done|]. by intros (g & ?%not_elem_of_nil & _).
Qed.

(** What every reachable state satisfies. *)
Record sound (s : St) (A : BookSpec.Book) (n : nat) : Prop := {
  so_rep : book_rep (book s) A;
  so_env : env_ok (env s);
  so_wf : BookProps.wf_book A;
  so_pool : (ObjectPool.avail (order_pool (book s)) + n = MAX_ORDER_IDS)%nat;
}.

Lemma runs_sound s A n :
  (0 < MAX_ORDER_IDS)%nat → (0 < MAX_PRICE_LEVELS)%nat → runs s A n → sound s A n.
Proof.
  intros Ho Hl Hr. induction Hr as [tid e He|s A n oid cid sd q lim s' fs rem A' _ IH Hq E Es
    |s A n cid oid sd lim s' r A' _ IH E Es|s A n cid oid sd lim s' _ IH E Es].
  - split; [by apply ctor_rep|done|apply BookProps.empty_wf|].
    simpl. rewrite ObjectPool.ctor_avail. lia.
  - destruct IH as [Hrep He Hwf Hp], s as [b e].
    pose proof (BookProps.add_wf (ticker_id b) oid cid sd q lim
      (λ i, timestamp (S (clock_reads e) + i)) A Hwf Hq) as Hwf'.
    change (BookSpec.add _ _ _ _ _ _ _ _) with (spec_add oid cid sd q lim b e A) in Hwf'.
    destruct (add_cases oid cid sd q lim b e A Hrep He Hq) as [Hd|[Hx _]]; [|congruence].
    simpl in Es. rewrite Es in Hd, Hwf'. destruct Hd as (b' & E' & Hrep' & _ & Ha).
    rewrite E' in E. simplify_eq/=. split; [done|by apply env_ok_emit|done|]. simpl. lia.
  - destruct IH as [Hrep He Hwf Hp], s as [b e].
    pose proof (cancel_run cid oid sd lim b e A Hrep He) as Hc. unfold cancel_post in Hc.
    rewrite Es in Hc. destruct Hc as (b' & E' & Hrep' & Hm). rewrite E' in E. simplify_eq/=.
    destruct Hm as (_ & _ & Ha & _).
    split; [done|by apply env_ok_emit|by eapply BookProps.cancel_wf|]. simpl in *. lia.
  - destruct IH as [Hrep He Hwf Hp], s as [b e].
    pose proof (cancel_run cid oid sd lim b e A Hrep He) as Hc. unfold cancel_post in Hc.
    rewrite Es in Hc. destruct Hc as (b' & E' & Hrep' & Hm). rewrite E' in E. simplify_eq/=.
    destruct Hm as (_ & _ & Ha & _). split; [done|by apply env_ok_emit|done|]. simpl in *. lia.
Qed.

(** ** Matching *)

(** [checkForMatch] on the code and in the specification. *)
Definition match_run order_id client_id side quantity limit_price b e
    (r : list BookSpec.Fill * QuantityT * BookSpec.Book) : Prop :=
  let '(fs, rem, A') := r in
  ∃ b', checkForMatch order_id client_id side quantity limit_price (mkSt b e) =
          Done (rem, mkSt b' (emit_fills order_id client_id side (ticker_id b) fs e)) ∧
        book_rep b' A'.

Lemma match_runs order_id client_id side quantity limit_price b e A :
  book_rep b A → env_ok e → 0 ≤ quantity < 2 ^ 32 →
  match_run order_id client_id side quantity limit_price b e
    (BookSpec.match_book side quantity limit_price A).
Proof.
  intros (G1 & G2 & Go & Hv & Hne & ->)%(book_rep_view (is_buy side)) He Hq.
  pose proof (check_refines order_id client_id side quantity limit_price b e G1 G2 Go Hv Hne He Hq)
    as Hc. destruct (BookSpec.match_book _ _ _ _) as [[fs rem] A'].
  destruct Hc as (b' & G2' & E & Hv' & Hne' & -> & _ & _). exists b'. split; [done|].
  apply (book_rep_view (is_buy side)). by exists G1, G2', Go.
Qed.

(** The same with what [BookProps.match_book_taken] says of the trades. *)
Lemma match_runs_taken order_id client_id side quantity limit_price b e A :
  book_rep b A → BookProps.wf_book A → env_ok e → 0 ≤ quantity < 2 ^ 32 →
  ∃ fs rem b' A',
    checkForMatch order_id client_id side quantity limit_price (mkSt b e) =
      Done (rem, mkSt b' (emit_fills order_id client_id side (ticker_id b) fs e)) ∧
    book_rep b' A' ∧ BookProps.wf_book A' ∧
    BookProps.side_taken (BookSpec.crosses side limit_price) quantity
      (BookProps.opposite side A) fs rem (BookProps.opposite side A') ∧
    BookSpec.off A' = BookSpec.off A.
Proof.
  intros Hrep Hwf He Hq.
  pose proof (match_runs order_id client_id side quantity limit_price b e A Hrep He Hq) as Hr.
  pose proof (BookProps.match_book_taken side quantity limit_price A ltac:(lia) Hwf) as Hm.
  destruct (BookSpec.match_book _ _ _ _) as [[fs rem] A'].
  destruct Hr as (b' & E & Hrep'). destruct Hm as (? & ? & _ & ?).
  by exists fs, rem, b', A'.
Qed.
End reach.

(** ** A concrete book

    Three asks at 12, 10 and 11, in this order, with pools of eight blocks. *)

Definition small : Constants :=
  {| MAX_TICKERS := 2; MAX_ORDER_IDS := 8; MAX_PRICE_LEVELS := 8 |}.
Definition ticks : Clock := {| system_clock_now n := Z.of_nat n; ns_per_tick := 1 |}.
#[local] Existing Instances small ticks.

Definition env0 : Env :=
  mkEnv (LFQueue.ctor ClientResponse.default 32) (LFQueue.ctor MarketUpdate.default 32) 0 0.

Definition exec (m : M St unit) (s : St) : St :=
  match m s with Done (_, s') => s' | _ => s end.
Definition returns {A} (o : outcome A) : bool := match o with Done _ => true | _ => false end.

Definition s0 : St := mkSt (ctor 7) env0.
Definition s1 : St := exec (add 1 101 OrderSide.SELL 5 12) s0.
Definition s2 : St := exec (add 2 102 OrderSide.SELL 2 10) s1.
Definition s3 : St := exec (add 3 103 OrderSide.SELL 2 11) s2.

Definition sell (id cid qty ns lim : Z) : Order := Order.make 7 id cid ns OrderSide.SELL qty lim.
Definition ask (lim : Z) (os : list Order) : BookSpec.Level :=
  BookSpec.mkLevel lim OrderSide.SELL os.

Definition A1 : BookSpec.Book := BookSpec.mkBook [] [ask 12 [sell 1 101 5 1 12]] [].
Definition A2 : BookSpec.Book :=
  BookSpec.mkBook [] [ask 10 [sell 2 102 2 4 10]; ask 12 [sell 1 101 5 1 12]] [].
Definition A3 : BookSpec.Book :=
  BookSpec.mkBook [] [ask 10 [sell 2 102 2 4 10]; ask 12 [sell 1 101 5 1 12]]
    [(ask 11 [sell 3 103 2 7 11], false)].

Lemma runs_add_exec s A n oid cid sd q lim fs rem A' :
  runs s A n → 0 ≤ q < 2 ^ 32 → returns (add oid cid sd q lim s) = true →
  spec_add oid cid sd q lim (book s) (env s) A = (fs, rem, A') →
  runs (exec (add oid cid sd q lim) s) A' (n + if decide (rem = 0)%Z then 0 else 1).
Proof.
  intros Hr Hq Hd Hs. unfold exec. destruct (add oid cid sd q lim s) as [[[] s']| | |] eqn:E; try done.
  by eapply runs_add.
Qed.

Lemma runs0 : runs s0 BookSpec.empty_book 0.
Proof. apply runs_new. split; apply LFQueue.ctor_wf; lia. Qed.

Lemma runs1 : runs s1 A1 1.
Proof.
  apply (runs_add_exec s0 BookSpec.empty_book 0 1 101 OrderSide.SELL 5 12 [] 5);
    [apply runs0|lia|by vm_compute|by vm_compute].
Qed.

Lemma runs2 : runs s2 A2 2.
Proof.
  apply (runs_add_exec s1 A1 1 2 102 OrderSide.SELL 2 10 [] 2);
    [apply runs1|lia|by vm_compute|by vm_compute].
Qed.

Lemma runs3 : runs s3 A3 3.
Proof.
  apply (runs_add_exec s2 A2 2 3 103 OrderSide.SELL 2 11 [] 2);
    [apply runs2|lia|by vm_compute|by vm_compute].
Qed.

Lemma small_pos : (0 < MAX_ORDER_IDS)%nat ∧ (0 < MAX_PRICE_LEVELS)%nat.
Proof. split; vm_compute; lia. Qed.

Lemma sound3 : sound s3 A3 3.
Proof. apply runs_sound; [vm_compute; lia..|apply runs3]. Qed.
End BookTheorems.
