(* ===== verification/BookResults.v ===== *)
(** The results on the order book, each with an instance of it on the concrete
    book of BookTheorems.v (asks at 12, 10 and 11, entered in this order). *)

From S2P Require Import Prelude Types Memory ObjectPool PriceLevel LFQueue TimeUtils.
From S2P Require Import OrderBook BookSpec BookHeap BookLevels BookRefine BookCancel BookProps.
From S2P Require Import BookTheorems.
Local Open Scope Z_scope.

Module BookResults.
Import OrderBook BookHeap BookRefine BookCancel BookTheorems.

Section results.
Context `{Constants, Clock}.
Implicit Types (b : OrderBook) (e : Env) (A : BookSpec.Book) (s : St).

(** ** Refinement *)

(** C4: [add] implements its specification.  On a book in memory that represents
    [A] it returns, with the messages, trade ids and clock readings that
    [BookSpec.add] says, in a book that represents the specification's result, and
    one block less in the order pool when an order rests; or the process exits
    with "Buffer is full.", which needs an order pool with one free block left, or a
    level pool with one and no level of the price after matching.  It never runs into undefined behaviour or loops. *)
Theorem add_refines order_id client_id side quantity limit_price b e A :
  book_rep b A → env_ok e → 0 ≤ quantity < 2 ^ 32 →
  add_done order_id client_id side quantity limit_price b e
    (spec_add order_id client_id side quantity limit_price b e A) ∨
  add order_id client_id side quantity limit_price (mkSt b e) = Exited "Buffer is full." ∧
  pools_used_up side quantity limit_price b A.
Proof. apply add_cases. Qed.

(** C5: [cancel] implements its specification: an order that is there is taken
    out, with a CANCELED response and a REMOVE update carrying its quantity, and its
    level goes with its last order; otherwise the book is as before and the
    response is CANCEL_REJECTED.  In the one case the specification calls [Broken],
    the last order of a level that is not linked, the call dereferences a null
    pointer or leaves a best pointer on a side without levels. *)
Theorem cancel_refines client_id order_id side limit_price b e A :
  book_rep b A → env_ok e → cancel_post client_id order_id side limit_price b e A.
Proof. apply cancel_run. Qed.

(** The loop of [checkForMatch] ends and the calls it makes are safe: on every
    book it returns the quantity left over, with the trades of [match_book] in
    the queues, and the book it leaves represents what [match_book] leaves. *)
Theorem checkForMatch_refines order_id client_id side quantity limit_price b e A :
  book_rep b A → env_ok e → 0 ≤ quantity < 2 ^ 32 →
  match_run order_id client_id side quantity limit_price b e
    (BookSpec.match_book side quantity limit_price A).
Proof. apply match_runs. Qed.

(** ** Reachable books *)

(** C15: every state that calls of [add] and [cancel] lead to from a new book, as
    long as they return and no cancel takes out the last order of a level that is not
    linked (a cancel that may return too and leaves the best pointer of the side on a
    level that is gone: [best_bid_dangles] in UnitTests.v), represents the book that the same calls of the specification give; in it
    the linked bids fall and the linked asks rise strictly in price, every linked bid
    is below every linked ask, a price has one level, and every level has orders, of
    its price and with a quantity. *)
Theorem reachable_sorted s A n :
  (0 < MAX_ORDER_IDS)%nat → (0 < MAX_PRICE_LEVELS)%nat → runs s A n →
  book_rep (book s) A ∧ env_ok (env s) ∧ BookProps.wf_book A.
Proof. intros Ho Hl Hr. by destruct (runs_sound s A n Ho Hl Hr). Qed.

(** C33: the order pool is never given a block back: the free blocks and the orders
    that ever rested, cancelled and filled ones included, add up to
    [MAX_ORDER_IDS], and so fewer than [MAX_ORDER_IDS] orders can ever rest in a
    book. *)
Theorem order_pool_budget s A n :
  (0 < MAX_ORDER_IDS)%nat → (0 < MAX_PRICE_LEVELS)%nat → runs s A n →
  (ObjectPool.avail (order_pool (book s)) + n = MAX_ORDER_IDS ∧ n < MAX_ORDER_IDS)%nat.
Proof.
  intros Ho Hl Hr. destruct (runs_sound s A n Ho Hl Hr) as [(G1 & G2 & Go & Hv & _) _ _ Hp].
  split; [done|]. destruct (view_avail _ _ _ _ _ Hv) as [? _]. lia.
Qed.

(** ** Matching *)

(** C10: price-time priority.  The trades of [checkForMatch] are with a prefix of
    the crossing orders of the other side's linked levels, best price first and
    oldest first at a price; every maker but the last is used up, and what is left
    of the side is the other orders in their order, behind what is left of the
    last maker. *)
Theorem matching_priority order_id client_id side quantity limit_price b e A :
  book_rep b A → BookProps.wf_book A → env_ok e → 0 ≤ quantity < 2 ^ 32 →
  ∃ fs rem b' A',
    checkForMatch order_id client_id side quantity limit_price (mkSt b e) =
      Done (rem, mkSt b' (emit_fills order_id client_id side (ticker_id b) fs e)) ∧
    book_rep b' A' ∧
    BookProps.takes fs
      (BookProps.eligible (BookSpec.crosses side limit_price) (BookProps.opposite side A)) ∧
    BookProps.side_orders (BookProps.opposite side A') =
      BookProps.after_fills fs (BookProps.side_orders (BookProps.opposite side A)).
Proof.
  intros Hrep Hwf He Hq.
  destruct (match_runs_taken order_id client_id side quantity limit_price b e A Hrep Hwf He Hq)
    as (fs & rem & b' & A' & ? & ? & _ & [? ? _ _ _ _ _ _] & _). by exists fs, rem, b', A'.
Qed.

(** C17: matching conserves quantity: what comes in is traded or left over, every
    trade has a positive quantity that its maker has, and the other side's
    resting quantity falls by what is traded. *)
Theorem matching_conserves order_id client_id side quantity limit_price b e A :
  book_rep b A → BookProps.wf_book A → env_ok e → 0 ≤ quantity < 2 ^ 32 →
  ∃ fs rem b' A',
    checkForMatch order_id client_id side quantity limit_price (mkSt b e) =
      Done (rem, mkSt b' (emit_fills order_id client_id side (ticker_id b) fs e)) ∧
    book_rep b' A' ∧
    quantity = BookProps.total_fills fs + rem ∧ 0 ≤ rem ∧ Forall BookProps.fill_ok fs ∧
    BookProps.total_orders (BookProps.side_orders (BookProps.opposite side A)) =
      BookProps.total_fills fs +
      BookProps.total_orders (BookProps.side_orders (BookProps.opposite side A')).
Proof.
  intros Hrep Hwf He Hq.
  destruct (match_runs_taken order_id client_id side quantity limit_price b e A Hrep Hwf He Hq)
    as (fs & rem & b' & A' & ? & ? & _ & [Ht Hl ? ? ? _ _ _] & _).
  exists fs, rem, b', A'. split_and!; [done..|]. rewrite Hl.
  apply BookProps.after_fills_total. eapply BookProps.takes_mono; [exact Ht|].
  apply BookProps.eligible_prefix.
Qed.

(** C18: matching is complete and respects the limit: when quantity is left over the
    best linked level of the other side does not cross the limit any more, and
    every trade is at the maker's price, which crosses it. *)
Theorem matching_complete order_id client_id side quantity limit_price b e A :
  book_rep b A → BookProps.wf_book A → env_ok e → 0 ≤ quantity < 2 ^ 32 →
  ∃ fs rem b' A',
    checkForMatch order_id client_id side quantity limit_price (mkSt b e) =
      Done (rem, mkSt b' (emit_fills order_id client_id side (ticker_id b) fs e)) ∧
    book_rep b' A' ∧
    (rem ≠ 0 → BookProps.uncrossed_by side limit_price A') ∧
    Forall (λ f, BookSpec.crosses side limit_price (Order.limit_price (BookSpec.maker f)) = true)
      fs.
Proof.
  intros Hrep Hwf He Hq.
  destruct (match_runs_taken order_id client_id side quantity limit_price b e A Hrep Hwf He Hq)
    as (fs & rem & b' & A' & ? & ? & _ & [Ht _ _ _ _ Hr _ _] & _).
  exists fs, rem, b', A'. split_and!; [done..|].
  apply (BookProps.takes_Forall (λ o, BookSpec.crosses side limit_price (Order.limit_price o) = true)
    _ _ Ht). by apply BookProps.eligible_crosses, BookProps.opposite_sane.
Qed.

(** ** Where the code goes wrong *)

(** Cancelling the last order of a level that is not linked, while its side
    has linked levels, dereferences a null pointer. *)
Theorem cancel_unlinked_crashes client_id order_id side l last r b e A :
  book_rep b A → (l, last) ∈ BookSpec.off A →
  PriceLevel.remove_first order_id (BookSpec.orders l) = Some (r, []) →
  linked_levels (BookSpec.side l) A ≠ [] →
  cancel client_id order_id side (BookSpec.price l) (mkSt b e) = UB NullDeref.
Proof.
  intros Hrep Hin Hrf Hlk.
  apply (book_rep_view (is_buy (BookSpec.side l))) in Hrep as (G1 & G2 & Go & Hv & Hne & ->).
  apply list_elem_of_fmap in Hin as (g & Hl & Hg).
  injection Hl as -> _.
  change (is_buy (BookSpec.side (g_lvl g))) with (g_buy g) in Hv, Hlk.
  change (BookSpec.side (g_lvl g)) with (g_side g) in Hlk. rewrite linked_erase in Hlk.
  eapply cancel_last_crash; [exact Hv|done| |done]. by intros ->.
Qed.

(** C40: a level that is not linked never trades: [checkForMatch] leaves the levels
    off the links as they are, whatever their prices, and every maker is an order of
    a linked level of the other side. *)
Theorem unlinked_never_trade order_id client_id side quantity limit_price b e A :
  book_rep b A → BookProps.wf_book A → env_ok e → 0 ≤ quantity < 2 ^ 32 →
  ∃ fs rem b' A',
    checkForMatch order_id client_id side quantity limit_price (mkSt b e) =
      Done (rem, mkSt b' (emit_fills order_id client_id side (ticker_id b) fs e)) ∧
    book_rep b' A' ∧ BookSpec.off A' = BookSpec.off A ∧
    Forall (λ f, BookSpec.maker f ∈ BookProps.side_orders (BookProps.opposite side A)) fs.
Proof.
  intros Hrep Hwf He Hq.
  destruct (match_runs_taken order_id client_id side quantity limit_price b e A Hrep Hwf He Hq)
    as (fs & rem & b' & A' & ? & ? & _ & [Ht _ _ _ _ _ _ _] & ?).
  exists fs, rem, b', A'. split_and!; [done..|].
  apply (BookProps.takes_Forall
    (λ o, o ∈ BookProps.side_orders (BookProps.opposite side A)) _
    (BookProps.side_orders (BookProps.opposite side A))).
  - eapply BookProps.takes_mono; [exact Ht|]. apply BookProps.eligible_prefix.
  - by apply Forall_forall.
Qed.
End results.

(** ** On the concrete book *)

#[local] Existing Instances small ticks.

#[local] Opaque s3.

Lemma with_parts {X} (m : M St X) s o : m (mkSt (book s) (env s)) = o → m s = o.
Proof. by destruct s. Qed.

Definition trade_prices (s : St) : list PriceT :=
  MarketUpdate.price <$>
    filter (λ u, MarketUpdate.type u = UpdateType.TRADE)
      (LFQueue.contents (market_update_queue (env s))).

(** Price priority fails between linked and unlinked levels: with asks at 10,
    11 and 12, entered as 12, 10, 11, a bid for 5 up to 12 trades at 10 and at 12
    and passes over the ask at 11, which stays in the book. *)
Theorem crossing_order_skipped :
  runs s3 A3 3 ∧
  ∃ s' A', add 4 104 OrderSide.BUY 5 12 s3 = Done (tt, s') ∧ book_rep (book s') A' ∧
    trade_prices s' = [10; 12] ∧ BookSpec.off A' = [(ask 11 [sell 3 103 2 7 11], false)].
Proof.
  split; [apply runs3|].
  destruct sound3 as [Hrep He _ _].
  destruct (add_cases 4 104 OrderSide.BUY 5 12 (book s3) (env s3) A3 Hrep He ltac:(lia))
    as [Hd|[_ Hx]]; [|by destruct Hx as [Hx|[Hx _]]; vm_compute in Hx].
  assert (∀ s', add 4 104 OrderSide.BUY 5 12 s3 = Done (tt, s') → trade_prices s' = [10; 12])
    as Ht.
  { intros s' E. assert (s' = exec (add 4 104 OrderSide.BUY 5 12) s3) as ->
      by (unfold exec; by rewrite E). by vm_compute. }
  unfold add_done in Hd. destruct (spec_add _ _ _ _ _ _ _ _) as [[fs rem] A'] eqn:Es.
  vm_compute in Es. injection Es as <- <- <-.
  destruct Hd as (b' & E & Hrep' & _). eexists _, _.
  split_and!; [exact (with_parts _ _ _ E)|exact Hrep'| |done].
  exact (Ht _ (with_parts _ _ _ E)).
Qed.

(** A price has one level for both sides: what is left of a bid at 11, after
    it has traded at 10, is queued behind the ask at 11 that it crosses, on a level
    of the side SELL. *)
Theorem bid_joins_ask_level :
  runs s3 A3 3 ∧
  ∃ s' A', add 4 104 OrderSide.BUY 3 11 s3 = Done (tt, s') ∧ book_rep (book s') A' ∧
    BookSpec.off A' =
      [(ask 11 [sell 3 103 2 7 11; Order.make 7 4 104 14 OrderSide.BUY 1 11], false)].
Proof.
  split; [apply runs3|].
  destruct sound3 as [Hrep He _ _].
  destruct (add_cases 4 104 OrderSide.BUY 3 11 (book s3) (env s3) A3 Hrep He ltac:(lia))
    as [Hd|[_ Hx]]; [|by destruct Hx as [Hx|[Hx _]]; vm_compute in Hx].
  unfold add_done in Hd. destruct (spec_add _ _ _ _ _ _ _ _) as [[fs rem] A'] eqn:Es.
  vm_compute in Es. injection Es as <- <- <-.
  destruct Hd as (b' & E & Hrep' & _).
  eexists _, _. split_and!; [exact (with_parts _ _ _ E)|exact Hrep'|done].
Qed.

(** ** Instances *)

Lemma rep3 : book_rep (book s3) A3 ∧ env_ok (env s3) ∧ BookProps.wf_book A3.
Proof. destruct sound3 as [Hrep He Hwf _]. exact (conj Hrep (conj He Hwf)). Qed.

Lemma add_refines_witness :
  (book_rep (book s3) A3 ∧ env_ok (env s3) ∧ 0 ≤ 5 < 2 ^ 32) ∧
  add_done 4 104 OrderSide.BUY 5 12 (book s3) (env s3)
    (spec_add 4 104 OrderSide.BUY 5 12 (book s3) (env s3) A3).
Proof.
  destruct rep3 as (Hrep & He & _). split; [split_and!; [done|done|lia|lia]|].
  destruct (add_refines 4 104 OrderSide.BUY 5 12 (book s3) (env s3) A3 Hrep He ltac:(lia))
    as [Hd|[_ Hx]]; [exact Hd|by destruct Hx as [Hx|[Hx _]]; vm_compute in Hx].
Defined.

Lemma cancel_refines_witness :
  (book_rep (book s3) A3 ∧ env_ok (env s3)) ∧
  (∃ s', cancel 102 2 OrderSide.SELL 10 s3 = Done (tt, s') ∧
         book_rep (book s')
           (BookSpec.mkBook [] [ask 12 [sell 1 101 5 1 12]] (BookSpec.off A3))) ∧
  (∃ s', cancel 102 9 OrderSide.SELL 10 s3 = Done (tt, s') ∧ book_rep (book s') A3).
Proof.
  destruct rep3 as (Hrep & He & _). split; [by split|split].
  - destruct (cancel_refines 102 2 OrderSide.SELL 10 (book s3) (env s3) A3 Hrep He)
      as (b' & E & Hrep' & _). eexists. split; [exact (with_parts _ _ _ E)|exact Hrep'].
  - destruct (cancel_refines 102 9 OrderSide.SELL 10 (book s3) (env s3) A3 Hrep He)
      as (b' & E & Hrep' & _). eexists. split; [exact (with_parts _ _ _ E)|exact Hrep'].
Defined.

Lemma checkForMatch_refines_witness :
  (book_rep (book s3) A3 ∧ env_ok (env s3) ∧ 0 ≤ 5 < 2 ^ 32) ∧
  ∃ s', checkForMatch 4 104 OrderSide.BUY 5 11 s3 = Done (3, s').
Proof.
  destruct rep3 as (Hrep & He & _). split; [split_and!; [done|done|lia|lia]|].
  destruct (checkForMatch_refines 4 104 OrderSide.BUY 5 11 (book s3) (env s3) A3 Hrep He
    ltac:(lia)) as (b' & E & _). eexists. exact (with_parts _ _ _ E).
Defined.

Lemma reachable_sorted_witness : runs s3 A3 3 ∧ book_rep (book s3) A3 ∧ BookProps.wf_book A3.
Proof.
  split; [apply runs3|].
  destruct (reachable_sorted s3 A3 3 (proj1 small_pos) (proj2 small_pos) runs3) as (Hb & _ & Hw).
  exact (conj Hb Hw).
Defined.

Lemma order_pool_budget_witness :
  runs s3 A3 3 ∧ (ObjectPool.avail (order_pool (book s3)) + 3 = 8)%nat.
Proof.
  split; [apply runs3|].
  exact (proj1 (order_pool_budget s3 A3 3 (proj1 small_pos) (proj2 small_pos) runs3)).
Defined.

Lemma matching_priority_witness :
  (book_rep (book s3) A3 ∧ BookProps.wf_book A3 ∧ env_ok (env s3)) ∧
  ∃ fs rem s', checkForMatch 4 104 OrderSide.BUY 5 12 s3 = Done (rem, s') ∧
    BookProps.takes fs [sell 2 102 2 4 10; sell 1 101 5 1 12].
Proof.
  destruct rep3 as (Hrep & He & Hwf). split; [by split_and!|].
  destruct (matching_priority 4 104 OrderSide.BUY 5 12 (book s3) (env s3) A3 Hrep Hwf He
    ltac:(lia)) as (fs & rem & b' & A' & E & _ & Ht & _).
  exists fs, rem. eexists. split; [exact (with_parts _ _ _ E)|exact Ht].
Defined.

Lemma matching_conserves_witness :
  (book_rep (book s3) A3 ∧ BookProps.wf_book A3 ∧ env_ok (env s3)) ∧
  ∃ fs rem s', checkForMatch 4 104 OrderSide.BUY 5 11 s3 = Done (rem, s') ∧
    5 = BookProps.total_fills fs + rem.
Proof.
  destruct rep3 as (Hrep & He & Hwf). split; [by split_and!|].
  destruct (matching_conserves 4 104 OrderSide.BUY 5 11 (book s3) (env s3) A3 Hrep Hwf He
    ltac:(lia)) as (fs & rem & b' & A' & E & _ & Hq & _).
  exists fs, rem. eexists. split; [exact (with_parts _ _ _ E)|exact Hq].
Defined.

Lemma matching_complete_witness :
  (book_rep (book s3) A3 ∧ BookProps.wf_book A3 ∧ env_ok (env s3)) ∧
  ∃ rem s' A', checkForMatch 4 104 OrderSide.BUY 5 11 s3 = Done (rem, s') ∧
    book_rep (book s') A' ∧ (rem ≠ 0 → BookProps.uncrossed_by OrderSide.BUY 11 A').
Proof.
  destruct rep3 as (Hrep & He & Hwf). split; [by split_and!|].
  destruct (matching_complete 4 104 OrderSide.BUY 5 11 (book s3) (env s3) A3 Hrep Hwf He
    ltac:(lia)) as (fs & rem & b' & A' & E & Hrep' & Hu & _).
  exists rem. eexists _, A'. split_and!; [exact (with_parts _ _ _ E)|exact Hrep'|exact Hu].
Defined.

Lemma unlinked_never_trade_witness :
  (book_rep (book s3) A3 ∧ BookProps.wf_book A3 ∧ env_ok (env s3)) ∧
  ∃ rem s' A', checkForMatch 4 104 OrderSide.BUY 5 12 s3 = Done (rem, s') ∧
    book_rep (book s') A' ∧ BookSpec.off A' = [(ask 11 [sell 3 103 2 7 11], false)].
Proof.
  destruct rep3 as (Hrep & He & Hwf). split; [by split_and!|].
  destruct (unlinked_never_trade 4 104 OrderSide.BUY 5 12 (book s3) (env s3) A3 Hrep Hwf He
    ltac:(lia)) as (fs & rem & b' & A' & E & Hrep' & Ho & _).
  exists rem. eexists _, A'. split_and!; [exact (with_parts _ _ _ E)|exact Hrep'|exact Ho].
Defined.

Lemma cancel_unlinked_crashes_witness :
  (book_rep (book s3) A3 ∧ (ask 11 [sell 3 103 2 7 11], false) ∈ BookSpec.off A3) ∧
  cancel 103 3 OrderSide.SELL 11 s3 = UB NullDeref.
Proof.
  assert ((ask 11 [sell 3 103 2 7 11], false) ∈ BookSpec.off A3) as Hin by by left.
  destruct rep3 as (Hrep & _). split; [by split|].
  apply with_parts, (cancel_unlinked_crashes 103 3 OrderSide.SELL _ false (sell 3 103 2 7 11) (book s3)
    (env s3) A3 Hrep Hin); [by vm_compute|by vm_compute].
Defined.
End BookResults.
