(* ===== verification/FlatBook.v ===== *)
(** The order book as it is meant: two queues of orders in price-time priority,
    without levels.

    [flat] forgets the levels of the abstract book of BookSpec.v.  As long as no
    level is off the links, matching and cancelling are those of the queues, and so
    is resting an order whose price has a level on its side already or is ahead of
    all levels of its side ([joins_or_leads]). *)

From S2P Require Import Prelude Types PriceLevel LFQueue TimeUtils OrderBook BookSpec BookProps.
Local Open Scope Z_scope.

Module FlatBook.
Import BookSpec BookProps.
Implicit Types (ls : list Level) (os : list Order) (A : Book) (s : OrderSide).

(** ** The queues *)

Record Flat := mkFlat { flat_bids : list Order; flat_asks : list Order }.

Definition own (s : OrderSide) (F : Flat) : list Order :=
  if decide (s = OrderSide.BUY) then flat_bids F else flat_asks F.
Definition other (s : OrderSide) (F : Flat) : list Order :=
  if decide (s = OrderSide.BUY) then flat_asks F else flat_bids F.
Definition with_own (s : OrderSide) (os : list Order) (F : Flat) : Flat :=
  if decide (s = OrderSide.BUY) then mkFlat os (flat_asks F) else mkFlat (flat_bids F) os.
Definition with_other (s : OrderSide) (os : list Order) (F : Flat) : Flat :=
  if decide (s = OrderSide.BUY) then mkFlat (flat_bids F) os else mkFlat os (flat_asks F).

(** A quantity against a queue, from its front, while the orders cross. *)
Fixpoint take_flat (c : PriceT → bool) (q : QuantityT) (os : list Order) :
    list Fill * QuantityT * list Order :=
  match os with
  | [] => ([], q, [])
  | o :: os' =>
      if decide (q = 0) then ([], q, os)
      else if c (Order.limit_price o) then
        let f := Z.min q (Order.quantity o) in
        if decide (Order.quantity o - f = 0) then
          let '(fs, q', r) := take_flat c (q - f) os' in (mkFill o f :: fs, q', r)
        else ([mkFill o f], q - f, Order.set_quantity (Order.quantity o - f) o :: os')
      else ([], q, os)
  end.

(** An order goes behind all orders that it is not ahead of in price. *)
Fixpoint insert_flat (s : OrderSide) (o : Order) (os : list Order) : list Order :=
  match os with
  | [] => [o]
  | x :: os' =>
      if better s (Order.limit_price o) (Order.limit_price x) then o :: os
      else x :: insert_flat s o os'
  end.

Fixpoint remove_flat (id : OrderIdT) (p : PriceT) (os : list Order) : option (Order * list Order) :=
  match os with
  | [] => None
  | o :: os' =>
      if decide (Order.order_id o = id ∧ Order.limit_price o = p) then Some (o, os')
      else '(r, os'') ← remove_flat id p os'; Some (r, o :: os'')
  end.

Definition flat_match (s : OrderSide) (q : QuantityT) (lim : PriceT) (F : Flat) :
    list Fill * QuantityT * Flat :=
  let '(fs, rem, os) := take_flat (crosses s lim) q (other s F) in (fs, rem, with_other s os F).

Definition flat_add (tid : TickerIdT) (order_id : OrderIdT) (client_id : ClientIdT)
    (s : OrderSide) (q : QuantityT) (lim : PriceT) (ns : nat → NsTimestampT) (F : Flat) :
    list Fill * QuantityT * Flat :=
  let '(fs, rem, F) := flat_match s q lim F in
  if decide (rem = 0) then (fs, rem, F)
  else
    let o := Order.make tid order_id client_id (ns (4 * length fs)%nat) s rem lim in
    (fs, rem, with_own s (insert_flat s o (own s F)) F).

Definition flat_cancel (order_id : OrderIdT) (lim : PriceT) (F : Flat) : option (Order * Flat) :=
  match remove_flat order_id lim (flat_bids F) with
  | Some (o, os) => Some (o, mkFlat os (flat_asks F))
  | None => '(o, os) ← remove_flat order_id lim (flat_asks F); Some (o, mkFlat (flat_bids F) os)
  end.

(** The price is one of the side's, or ahead of all of them. *)
Definition joins_or_leads (s : OrderSide) (p : PriceT) (F : Flat) : Prop :=
  p ∈ Order.limit_price <$> own s F ∨
  Forall (λ o, better s p (Order.limit_price o) = true) (own s F).

(** ** Forgetting the levels *)

Definition flat (A : Book) : Flat := mkFlat (side_orders (bids A)) (side_orders (asks A)).

Definition same_side (s : OrderSide) (A : Book) : list Level :=
  if decide (s = OrderSide.BUY) then bids A else asks A.

Lemma own_flat s A : own s (flat A) = side_orders (same_side s A).
Proof. unfold own, same_side. by destruct (decide _). Qed.

Lemma other_flat s A : other s (flat A) = side_orders (opposite s A).
Proof. unfold other, opposite. by destruct (decide _). Qed.

Lemma level_sane_head l :
  level_sane l → ∃ o os, orders l = o :: os ∧ Order.limit_price o = price l.
Proof.
  intros [Hne Ho]. destruct (orders l) as [|o os]; [done|]. exists o, os. split; [done|].
  by apply Forall_cons in Ho as [[_ ?] _].
Qed.

Lemma level_sane_prices l : level_sane l → Forall (λ o, Order.limit_price o = price l) (orders l).
Proof. intros [_ Ho]. eapply Forall_impl; [exact Ho|]. by intros o []. Qed.

(** ** Matching *)

Lemma take_flat_zero c os : take_flat c 0 os = ([], 0, os).
Proof. by destruct os. Qed.

Lemma take_flat_app c q os rest :
  Forall (λ o, c (Order.limit_price o) = true) os →
  take_flat c q (os ++ rest) =
    let '(fs, q', r) := take_orders q os in
    match r with
    | [] => let '(fs', q'', r') := take_flat c q' rest in (fs ++ fs', q'', r')
    | _ => (fs, q', r ++ rest)
    end.
Proof.
  intros Hc. revert q. induction Hc as [|o os Ho _ IH]; intros q; simpl.
  { by destruct (take_flat c q rest) as [[]]. }
  destruct (decide (q = 0)) as [->|Hq]; [done|]. rewrite Ho.
  destruct (decide (Order.quantity o - Z.min q (Order.quantity o) = 0)); [|done].
  rewrite IH. destruct (take_orders _ os) as [[fs q'] [|x r]]; [|done].
  by destruct (take_flat c q' rest) as [[]].
Qed.

Lemma take_flat_levels c q ls :
  Forall level_sane ls →
  take_flat c q (side_orders ls) =
    let '(fs, q', ls') := take_levels c q ls in (fs, q', side_orders ls').
Proof.
  intros Hs. revert q. induction Hs as [|l ls Hl _ IH]; intros q; [done|].
  rewrite side_orders_cons. cbn [take_levels].
  destruct (decide (q = 0)) as [->|Hq]; [apply take_flat_zero|].
  destruct (c (price l)) eqn:Hc.
  - rewrite take_flat_app.
    + destruct (take_orders q (orders l)) as [[fs q'] [|x r]]; [|done].
      rewrite IH. by destruct (take_levels c q' ls) as [[]].
    + eapply Forall_impl; [by apply level_sane_prices|]. by intros o ->.
  - destruct (level_sane_head l Hl) as (o & os & E & Ho). rewrite side_orders_cons, E. simpl.
    by rewrite decide_False, Ho, Hc.
Qed.

Lemma flat_match_book s q lim A :
  wf_book A →
  flat_match s q lim (flat A) =
    let '(fs, rem, A') := match_book s q lim A in (fs, rem, flat A').
Proof.
  intros Hwf. unfold flat_match. rewrite other_flat, take_flat_levels by (by apply opposite_sane).
  unfold opposite, match_book, with_other.
  destruct (decide (s = OrderSide.BUY)); by destruct (take_levels _ _ _) as [[]].
Qed.

(** ** Resting an order *)

Lemma insert_flat_behind s o os1 os2 :
  Forall (λ x, better s (Order.limit_price o) (Order.limit_price x) = false) os1 →
  insert_flat s o (os1 ++ os2) = os1 ++ insert_flat s o os2.
Proof. induction 1 as [|x os1 Hx _ IH]; [done|]. simpl. by rewrite Hx, IH. Qed.

Lemma insert_flat_front s o os :
  Forall (λ x, better s (Order.limit_price o) (Order.limit_price x) = true) os →
  insert_flat s o os = o :: os.
Proof. destruct 1 as [|x os Hx _]; [done|]. simpl. by rewrite Hx. Qed.

(** The prices of a side, best first. *)
Definition sorted_side (s : OrderSide) (ls : list Level) : Prop :=
  StronglySorted (λ a b, better s a b = true) (price <$> ls).

Lemma wf_sorted_side s A : wf_book A → sorted_side s (same_side s A).
Proof.
  intros [[Hb Ha _ _ _ _] _]. rewrite keys_prices in Hb, Ha.
  unfold sorted_side, same_side, better. destruct (decide (s = OrderSide.BUY)).
  - eapply sorted_impl; [|exact Hb]. intros x y ?. simpl in *. lia.
  - eapply sorted_impl; [|exact Ha]. intros x y ?. simpl in *. lia.
Qed.

Lemma side_orders_worse s p ls :
  Forall level_sane ls → Forall (λ x, better s p x = true) (price <$> ls) →
  Forall (λ o, better s p (Order.limit_price o) = true) (side_orders ls).
Proof.
  induction 1 as [|l ls Hl _ IH]; [done|]. rewrite fmap_cons, side_orders_cons.
  intros [Hp Hps]%Forall_cons. apply Forall_app. split; [|by apply IH].
  eapply Forall_impl; [by apply level_sane_prices|]. by intros o ->.
Qed.

Lemma better_irrefl s p : better s p p = false.
Proof. unfold better. case_decide; lia. Qed.

Lemma better_asym s p x : better s x p = true → better s p x = false.
Proof. unfold better. case_decide; lia. Qed.

(** Appending to the level of the price is inserting behind its orders. *)
Lemma append_flat s o ls :
  Forall level_sane ls → sorted_side s ls → Order.limit_price o ∈ price <$> ls →
  side_orders (at_price (Order.limit_price o) (λ l, set_orders (orders l ++ [o]) l) <$> ls) =
    insert_flat s o (side_orders ls).
Proof.
  intros Hs. unfold sorted_side.
  induction Hs as [|l ls Hl Hls IH]; rewrite ?fmap_cons; [by intros _ ?%not_elem_of_nil|].
  intros [Hw Hso]%StronglySorted_cons Hp. rewrite !side_orders_cons.
  pose proof (level_sane_prices l Hl) as Hlp. unfold at_price at 1.
  destruct (Z.eqb_spec (price l) (Order.limit_price o)) as [E|Hne].
  - rewrite at_price_other; [|intros Hin; rewrite Forall_forall in Hw; specialize (Hw _ Hin);
      by rewrite E, better_irrefl in Hw].
    rewrite insert_flat_behind; [|eapply Forall_impl; [exact Hlp|]; intros x ->; rewrite E;
      apply better_irrefl].
    rewrite insert_flat_front by (apply side_orders_worse; [done|by rewrite <- E]).
    simpl. by rewrite <- app_assoc.
  - apply elem_of_cons in Hp as [Hp|Hp]; [done|].
    rewrite IH by done. rewrite insert_flat_behind; [done|].
    eapply Forall_impl; [exact Hlp|]. intros x ->. apply better_asym.
    rewrite Forall_forall in Hw. by apply Hw.
Qed.

Lemma side_price_order p ls :
  Forall level_sane ls → p ∈ Order.limit_price <$> side_orders ls ↔ p ∈ price <$> ls.
Proof.
  induction 1 as [|l ls Hl _ IH]; [done|].
  rewrite side_orders_cons, fmap_app, fmap_cons, elem_of_app, elem_of_cons, IH.
  assert (p ∈ Order.limit_price <$> orders l ↔ p = price l) as ->; [|done].
  destruct (level_sane_head l Hl) as (o & os & E & Ho). pose proof (level_sane_prices l Hl) as Hp.
  rewrite Forall_forall in Hp. split.
  - intros (x & -> & Hx)%list_elem_of_fmap. by apply Hp.
  - intros ->. rewrite E, fmap_cons, Ho. by left.
Qed.

Lemma same_side_sane s A : wf_book A → Forall level_sane (same_side s A).
Proof.
  intros [_ [? [? _]%Forall_app]%Forall_app]. unfold same_side. by destruct (decide _).
Qed.

Lemma has_price_true p ls : p ∈ price <$> ls → has_price p ls = true.
Proof.
  intros (l & -> & Hl)%list_elem_of_fmap. apply existsb_exists. exists l.
  split; [by apply list_elem_of_In|by apply Z.eqb_refl].
Qed.

Lemma has_price_absent p ls : p ∉ price <$> ls → has_price p ls = false.
Proof.
  intros Hp. apply not_true_is_false. intros (l & Hl & E)%existsb_exists.
  apply Hp. apply Z.eqb_eq in E as <-. apply list_elem_of_fmap_2. by apply list_elem_of_In.
Qed.

(** A price that leads its side and does not cross the other has no level. *)
Lemma leads_absent s p A :
  wf_book A → off A = [] → uncrossed_by s p A →
  Forall (λ x, better s p x = true) (price <$> same_side s A) → p ∉ price <$> all_levels A.
Proof.
  intros Hwf Hoff Hu Hl Hp. unfold all_levels in Hp. rewrite Hoff in Hp. simpl in Hp.
  rewrite app_nil_r, fmap_app in Hp.
  assert (p ∈ price <$> same_side s A ∨ p ∈ price <$> opposite s A) as [Hs|Ho].
  { unfold same_side, opposite. destruct (decide _); set_solver. }
  - rewrite Forall_forall in Hl. specialize (Hl _ Hs). by rewrite better_irrefl in Hl.
  - pose proof (sorted_head_all s p A p Hwf Hu Ho) as Hc. unfold crosses in Hc.
    case_decide; lia.
Qed.

Lemma rest_flat o A :
  let s := Order.side o in
  wf_book A → off A = [] → uncrossed_by s (Order.limit_price o) A →
  joins_or_leads s (Order.limit_price o) (flat A) →
  flat (rest o A) = with_own s (insert_flat s o (own s (flat A))) (flat A) ∧ off (rest o A) = [].
Proof.
  intros s Hwf Hoff Hu. set (p := Order.limit_price o) in *.
  pose proof (same_side_sane s A Hwf) as Hsane. pose proof (wf_sorted_side s A Hwf) as Hsort.
  unfold joins_or_leads. rewrite own_flat, (side_price_order p) by done.
  assert (∀ x, x ∈ price <$> opposite s A → x ≠ p) as Hopp.
  { intros x Hx ->. pose proof (sorted_head_all s p A p Hwf Hu Hx) as Hc.
    unfold crosses in Hc. case_decide; lia. }
  intros [Hj|Hl].
  - unfold rest. fold p. rewrite has_price_true.
    2:{ unfold all_levels. rewrite !fmap_app. unfold same_side in Hj. destruct (decide _); set_solver. }
    unfold update_price. rewrite Hoff. split; [|done].
    pose proof (append_flat s o (same_side s A) Hsane Hsort Hj) as Ha. fold p in Ha.
    pose proof (at_price_other p (λ l, set_orders (orders l ++ [o]) l) (opposite s A)) as Ho.
    unfold flat, with_own, same_side, opposite in *. cbn [bids asks flat_bids flat_asks] in *.
    destruct (decide (s = OrderSide.BUY)); rewrite Ha, Ho; try done; intros Hin; by apply (Hopp p).
  - assert (Forall (λ x, better s p x = true) (price <$> same_side s A)) as Hlead.
    { apply Forall_fmap. rewrite Forall_forall in Hl.
      rewrite Forall_forall in Hsane. rewrite Forall_forall. intros l Hin.
      destruct (level_sane_head l (Hsane _ Hin)) as (x & xs & E & Hx). simpl. rewrite <- Hx.
      apply Hl. apply list_elem_of_bind. exists l. split; [rewrite E; by left|done]. }
    pose proof (leads_absent s p A Hwf Hoff Hu Hlead) as Habs.
    unfold rest. fold p. rewrite has_price_absent by done.
    rewrite insert_flat_front by done.
    unfold insert_level. cbn [side price]. fold s. unfold same_side, flat, with_own in *.
    destruct (decide (s = OrderSide.BUY)); cbn [flat_bids flat_asks].
    + destruct (bids A) as [|b ls] eqn:E; [done|].
      rewrite fmap_cons in Hlead. apply Forall_cons in Hlead as [Hb _].
      rewrite (better_asym s (price b) p) by done. cbn [bids asks off].
      by rewrite Hoff, side_orders_cons.
    + destruct (asks A) as [|b ls] eqn:E; [done|].
      rewrite fmap_cons in Hlead. apply Forall_cons in Hlead as [Hb _].
      rewrite (better_asym s (price b) p) by done. cbn [bids asks off].
      by rewrite Hoff, side_orders_cons.
Qed.

(** [add] on a book without levels off the links. *)
Lemma add_flat tid order_id client_id s q lim ns A :
  wf_book A → off A = [] → 0 ≤ q < 2 ^ 32 → joins_or_leads s lim (flat A) →
  let '(fs, rem, A') := add tid order_id client_id s q lim ns A in
  flat_add tid order_id client_id s q lim ns (flat A) = (fs, rem, flat A') ∧
  wf_book A' ∧ off A' = [].
Proof.
  intros Hwf Hoff Hq Hj. pose proof (add_wf tid order_id client_id s q lim ns A Hwf Hq) as Hwf'.
  unfold flat_add, add in *. rewrite flat_match_book by done.
  pose proof (match_book_taken s q lim A ltac:(lia) Hwf) as Hm.
  destruct (match_book s q lim A) as [[fs rem] A']. destruct Hm as ([_ _ _ _ _ Hr _ _] & Hw & Hs & Ho).
  destruct (decide (rem = 0)); [by rewrite Ho|].
  set (o := Order.make _ _ _ _ _ _ _) in *.
  destruct (rest_flat o A') as [-> Hoff']; [done|by rewrite Ho|by apply Hr| |done].
  change (Order.side o) with s. change (Order.limit_price o) with lim.
  unfold joins_or_leads in *. rewrite own_flat in *. unfold same_side in *.
  destruct (decide (s = OrderSide.BUY)); by rewrite Hs.
Qed.

(** ** Cancelling *)

Lemma remove_flat_other id p ls :
  Forall level_sane ls → p ∉ price <$> ls → remove_flat id p (side_orders ls) = None.
Proof.
  intros Hs Hp. assert (∀ o, o ∈ side_orders ls → Order.limit_price o ≠ p) as Ho.
  { intros o Hin <-. apply Hp, (side_price_order (Order.limit_price o) ls Hs).
    by apply list_elem_of_fmap_2. }
  clear Hs Hp. induction (side_orders ls) as [|o os IH]; [done|]. simpl.
  rewrite decide_False by (intros [_ E]; by apply (Ho o (list_elem_of_here _ _))).
  rewrite IH; [done|]. intros x Hx. apply Ho. by right.
Qed.

Lemma remove_flat_app id p os1 os2 :
  remove_flat id p (os1 ++ os2) =
    match remove_flat id p os1 with
    | Some (r, os1') => Some (r, os1' ++ os2)
    | None => '(r, os2') ← remove_flat id p os2; Some (r, os1 ++ os2')
    end.
Proof.
  induction os1 as [|o os1 IH]; simpl.
  { by destruct (remove_flat id p os2) as [[]|]. }
  destruct (decide _); [done|]. rewrite IH.
  destruct (remove_flat id p os1) as [[]|]; [done|]. simpl.
  by destruct (remove_flat id p os2) as [[]|].
Qed.

Lemma remove_flat_same id p os :
  Forall (λ o, Order.limit_price o = p) os → remove_flat id p os = PriceLevel.remove_first id os.
Proof.
  induction 1 as [|o os Ho _ IH]; [done|]. simpl. rewrite IH.
  destruct (decide (Order.order_id o = id)).
  - by rewrite decide_True.
  - by rewrite decide_False by (by intros []).
Qed.

(** A side with the level [l] of the price [p]. *)
Lemma remove_flat_side id p ls1 l ls2 :
  Forall level_sane (ls1 ++ l :: ls2) → NoDup (price <$> ls1 ++ l :: ls2) → price l = p →
  remove_flat id p (side_orders (ls1 ++ l :: ls2)) =
    '(r, os) ← PriceLevel.remove_first id (orders l);
    Some (r, side_orders ls1 ++ os ++ side_orders ls2).
Proof.
  intros [Hs1 [Hl Hs2]%Forall_cons]%Forall_app Hnd <-.
  rewrite fmap_app, fmap_cons in Hnd. apply NoDup_app in Hnd as (_ & Hd & [Hn2 _]%NoDup_cons).
  assert (price l ∉ price <$> ls1) as Hn1 by (intros Hin; apply (Hd _ Hin); by left).
  unfold side_orders at 1. rewrite bind_app, bind_cons. fold (side_orders ls1) (side_orders ls2).
  rewrite remove_flat_app, (remove_flat_other id _ ls1), remove_flat_app by done.
  rewrite (remove_flat_same id _ (orders l)) by (by apply level_sane_prices).
  destruct (PriceLevel.remove_first id (orders l)) as [[r os]|]; [done|]. simpl.
  by rewrite remove_flat_other.
Qed.

(** What [cancel] makes of a side with the level. *)
Lemma at_price_side p f ls1 l ls2 :
  NoDup (price <$> ls1 ++ l :: ls2) → price l = p →
  at_price p f <$> ls1 ++ l :: ls2 = ls1 ++ f l :: ls2.
Proof.
  intros Hnd <-. rewrite fmap_app, fmap_cons in Hnd. rewrite fmap_app, fmap_cons.
  apply NoDup_app in Hnd as (_ & Hd & [Hn2 _]%NoDup_cons).
  rewrite !at_price_other by (done || (intros Hin; apply (Hd _ Hin); by left)).
  unfold at_price. by rewrite Z.eqb_refl.
Qed.

Lemma drop_price_side p ls1 l ls2 :
  NoDup (price <$> ls1 ++ l :: ls2) → price l = p → drop_price p (ls1 ++ l :: ls2) = ls1 ++ ls2.
Proof.
  intros Hnd <-. apply filter_key; [done|]. intros x Hx E.
  rewrite fmap_app, fmap_cons in Hnd. rewrite (Permutation_app_comm (price <$> ls1)) in Hnd.
  simpl in Hnd. apply NoDup_cons in Hnd as [Hn _]. apply Hn. rewrite <- E, <- fmap_app.
  apply list_elem_of_fmap_2. apply elem_of_app in Hx. apply elem_of_app. tauto.
Qed.

(** The levels after the order of a level is taken out: [os] are left in it. *)
Definition level_after (p : PriceT) os ls : list Level :=
  match os with
  | [] => drop_price p ls
  | _ => at_price p (set_orders os) <$> ls
  end.

Lemma level_after_other p os ls : p ∉ price <$> ls → level_after p os ls = ls.
Proof. intros Hp. destruct os; [by apply drop_price_other|by apply at_price_other]. Qed.

Lemma level_after_side p os ls1 l ls2 :
  NoDup (price <$> ls1 ++ l :: ls2) → price l = p →
  side_orders (level_after p os (ls1 ++ l :: ls2)) = side_orders ls1 ++ os ++ side_orders ls2.
Proof.
  intros Hnd Hp. unfold side_orders. destruct os as [|o os]; simpl.
  - rewrite (drop_price_side p) by done. by rewrite bind_app.
  - rewrite at_price_side by done. by rewrite bind_app, bind_cons.
Qed.

Lemma cancel_levels id p A i l :
  off A = [] → list_find (λ l, price l = p) (all_levels A) = Some (i, l) →
  cancel id p A =
    match PriceLevel.remove_first id (orders l) with
    | None => Rejected
    | Some (r, os) =>
        Canceled r (mkBook (level_after p os (bids A)) (level_after p os (asks A)) [])
    end.
Proof.
  intros Hoff El. unfold cancel. rewrite El.
  destruct (PriceLevel.remove_first id (orders l)) as [[r [|o os]]|]; [| |done].
  - unfold remove_level. by rewrite Hoff.
  - unfold update_price. by rewrite Hoff.
Qed.

Lemma cancel_flat id p A :
  wf_book A → off A = [] →
  match cancel id p A with
  | Rejected => flat_cancel id p (flat A) = None
  | Canceled r A' => flat_cancel id p (flat A) = Some (r, flat A') ∧ wf_book A' ∧ off A' = []
  | Broken => False
  end.
Proof.
  intros Hwf Hoff. pose proof Hwf as [[_ _ _ Hnd _ _] Hs].
  pose proof (λ r A', cancel_wf id p A r A' Hwf) as Hwf'.
  unfold all_levels in Hs. rewrite Hoff in Hnd, Hs. cbn in Hnd, Hs.
  rewrite app_nil_r, <- fmap_app, keys_prices, fmap_app in Hnd. rewrite app_nil_r in Hs.
  apply Forall_app in Hs as [Hsb Hsa]. apply NoDup_app in Hnd as (Hnb & Hd & Hna).
  unfold flat_cancel, flat. cbn [flat_bids flat_asks].
  destruct (list_find (λ l, price l = p) (all_levels A)) as [[i l]|] eqn:El.
  - rewrite (cancel_levels id p A i l Hoff El) in *.
    apply list_find_Some in El as (Hl & Hp & _). apply list_elem_of_lookup_2 in Hl.
    unfold all_levels in Hl. rewrite Hoff in Hl. simpl in Hl. rewrite app_nil_r in Hl.
    apply elem_of_app in Hl as [(ls1 & ls2 & E)%list_elem_of_split|(ls1 & ls2 & E)%list_elem_of_split].
    + assert (p ∉ price <$> asks A) as Ho.
      { apply Hd. rewrite <- Hp, E. apply list_elem_of_fmap_2, elem_of_app. right. by left. }
      rewrite E in Hsb, Hnb. rewrite E, (remove_flat_side id p ls1 l ls2) by done.
      rewrite (remove_flat_other id p (asks A)) by done.
      destruct (PriceLevel.remove_first id (orders l)) as [[r os]|]; [|done]. simpl.
      rewrite level_after_side, level_after_other by done. rewrite E in Hwf'.
      split_and!; [done| |done]. rewrite <- (level_after_other p os (asks A) Ho). by eapply Hwf'.
    + assert (p ∉ price <$> bids A) as Ho.
      { intros Hin. apply (Hd p Hin). rewrite <- Hp, E. apply list_elem_of_fmap_2, elem_of_app.
        right. by left. }
      rewrite E in Hsa, Hna. rewrite E, (remove_flat_side id p ls1 l ls2) by done.
      rewrite (remove_flat_other id p (bids A)) by done.
      destruct (PriceLevel.remove_first id (orders l)) as [[r os]|]; [|done]. simpl.
      rewrite level_after_side, level_after_other by done. rewrite E in Hwf'.
      split_and!; [done| |done]. rewrite <- (level_after_other p os (bids A) Ho). by eapply Hwf'.
  - unfold cancel. rewrite El. apply list_find_None in El.
    assert (∀ ls, ls ⊆ all_levels A → p ∉ price <$> ls) as Habs.
    { intros ls Hls (l & -> & Hl)%list_elem_of_fmap. rewrite Forall_forall in El.
      by apply (El l (Hls l Hl)). }
    unfold all_levels in Habs.
    rewrite !remove_flat_other; [done|done|apply Habs; set_solver|done|apply Habs; set_solver].
Qed.
End FlatBook.
