(* ===== verification/FlatResults.v ===== *)
(** The results that the order book is a price-time priority book (FlatBook.v) as
    long as each order that comes in has a price of its side or one ahead of its
    side, each with an instance on the concrete book of BookTheorems.v. *)

From S2P Require Import Prelude Types Memory ObjectPool PriceLevel LFQueue TimeUtils.
From S2P Require Import OrderBook BookSpec BookHeap BookLevels BookRefine BookCancel BookProps.
From S2P Require Import BookTheorems FlatBook.
Local Open Scope Z_scope.

Module FlatResults.
Import OrderBook BookHeap BookRefine BookCancel BookTheorems FlatBook.

(** A book in memory that stands for two queues of orders. *)
Definition book_flat (b : OrderBook) (F : Flat) : Prop :=
  ∃ A, book_rep b A ∧ BookProps.wf_book A ∧ BookSpec.off A = [] ∧ flat A = F.

(** The queues are in price order and do not cross. *)
Record priority_sorted (F : Flat) : Prop := {
  ps_bids : StronglySorted (λ x y, Order.limit_price y ≤ Order.limit_price x) (flat_bids F);
  ps_asks : StronglySorted (λ x y, Order.limit_price x ≤ Order.limit_price y) (flat_asks F);
  ps_uncrossed x y : x ∈ flat_bids F → y ∈ flat_asks F → Order.limit_price x < Order.limit_price y;
}.

Lemma side_orders_sorted (R : Z → Z → Prop) (ls : list BookSpec.Level) :
  (∀ p, R p p) → Forall BookProps.level_sane ls → StronglySorted R (BookSpec.price <$> ls) →
  StronglySorted (λ x y, R (Order.limit_price x) (Order.limit_price y)) (BookProps.side_orders ls).
Proof.
  intros HR. induction 1 as [|l ls Hl Hls IH]; [constructor|].
  rewrite fmap_cons, BookProps.side_orders_cons. intros [Hp Hs]%StronglySorted_cons.
  pose proof (level_sane_prices l Hl) as Hlp. rewrite Forall_forall in Hlp.
  apply StronglySorted_app. split_and!.
  - intros x y Hx Hy. rewrite (Hlp x Hx).
    rewrite Forall_forall in Hp. apply Hp, (side_price_order _ ls Hls).
    by apply list_elem_of_fmap_2.
  - induction (BookSpec.orders l) as [|o os IHo]; [constructor|]. apply StronglySorted_cons. split.
    + apply Forall_forall. intros x Hx. rewrite (Hlp o), (Hlp x); [done|by right|by left].
    + apply IHo. intros x Hx. apply Hlp. by right.
  - by apply IH.
Qed.

Lemma flat_sorted A : BookProps.wf_book A → priority_sorted (flat A).
Proof.
  intros [[Hb Ha Hu _ _ _] [Hsb [Hsa _]%Forall_app]%Forall_app].
  rewrite !BookProps.keys_prices in *. split; simpl.
  - apply (side_orders_sorted (λ x y, y ≤ x)); [by intros p|done|].
    eapply sorted_impl; [|exact Hb]. intros x y. simpl. lia.
  - apply (side_orders_sorted Z.le); [by intros p|done|].
    eapply sorted_impl; [|exact Ha]. intros x y. simpl. lia.
  - intros x y Hx Hy. apply Hu; [apply (side_price_order _ _ Hsb)|apply (side_price_order _ _ Hsa)];
      by apply list_elem_of_fmap_2.
Qed.

Section results.
Context `{Constants, Clock}.
Implicit Types (b : OrderBook) (e : Env) (F : Flat) (s : St).

Definition flat_added order_id client_id side q lim s F : list BookSpec.Fill * QuantityT * Flat :=
  flat_add (ticker_id (book s)) order_id client_id side q lim
    (λ i, timestamp (S (clock_reads (env s)) + i)%nat) F.

Lemma add_flat_run order_id client_id side q lim b e F :
  book_flat b F → env_ok e → 0 ≤ q < 2 ^ 32 → joins_or_leads side lim F →
  (let '(fs, rem, F') := flat_added order_id client_id side q lim (mkSt b e) F in
   ∃ b', add order_id client_id side q lim (mkSt b e) =
           Done (tt, mkSt b' (add_env (ticker_id b) order_id client_id side q lim fs rem e)) ∧
         book_flat b' F') ∨
  add order_id client_id side q lim (mkSt b e) = Exited "Buffer is full.".
Proof.
  intros (A & Hrep & Hwf & Hoff & <-) He Hq Hj.
  pose proof (add_flat (ticker_id b) order_id client_id side q lim
    (λ i, timestamp (S (clock_reads e) + i)%nat) A Hwf Hoff Hq Hj) as Hf.
  destruct (add_cases order_id client_id side q lim b e A Hrep He Hq) as [Hd|[Hx _]]; [left|by right].
  unfold add_done, spec_add, flat_added in *. cbn [book env].
  destruct (BookSpec.add _ _ _ _ _ _ _ A) as [[fs rem] A']. destruct Hf as (-> & ? & ?).
  destruct Hd as (b' & E & ? & _). exists b'. split; [exact E|by exists A'].
Qed.

Lemma cancel_flat_run client_id order_id side lim b e F :
  book_flat b F → env_ok e →
  match flat_cancel order_id lim F with
  | Some (o, F') =>
      ∃ b', cancel client_id order_id side lim (mkSt b e) =
              Done (tt, mkSt b' (canceled_env (ticker_id b) client_id order_id side lim o e)) ∧
            book_flat b' F'
  | None =>
      ∃ b', cancel client_id order_id side lim (mkSt b e) =
              Done (tt, mkSt b' (rejected_env (ticker_id b) client_id order_id e)) ∧
            book_flat b' F
  end.
Proof.
  intros (A & Hrep & Hwf & Hoff & <-) He.
  pose proof (cancel_flat order_id lim A Hwf Hoff) as Hf.
  pose proof (cancel_run client_id order_id side lim b e A Hrep He) as Hc.
  unfold cancel_post in Hc. destruct (BookSpec.cancel order_id lim A) as [|o A'|]; [| |done].
  - rewrite Hf. destruct Hc as (b' & E & ? & _). exists b'. split; [exact E|by exists A].
  - destruct Hf as (-> & ? & ?). destruct Hc as (b' & E & ? & _).
    exists b'. split; [exact E|by exists A'].
Qed.

(** C1: on a book that stands for two queues, [add] of an order whose price its side
    has, or is ahead of its side, is what a price-time priority book does: it trades
    with the front of the other queue while that crosses the limit, the rest goes
    behind all orders of its price or a better one, and the messages are those of
    these trades; or the process exits because a pool is used up. *)
Theorem add_price_time order_id client_id side q lim b e F :
  book_flat b F → env_ok e → 0 ≤ q < 2 ^ 32 → joins_or_leads side lim F →
  (let '(fs, rem, F') := flat_added order_id client_id side q lim (mkSt b e) F in
   ∃ b', add order_id client_id side q lim (mkSt b e) =
           Done (tt, mkSt b' (add_env (ticker_id b) order_id client_id side q lim fs rem e)) ∧
         book_flat b' F') ∨
  add order_id client_id side q lim (mkSt b e) = Exited "Buffer is full.".
Proof. apply add_flat_run. Qed.

(** C2: on such a book [cancel] always returns: it takes the oldest order with the
    id and the price out of its queue, with a CANCELED response and a REMOVE update,
    or rejects the request and leaves the queues. *)
Theorem cancel_price_time client_id order_id side lim b e F :
  book_flat b F → env_ok e →
  match flat_cancel order_id lim F with
  | Some (o, F') =>
      ∃ b', cancel client_id order_id side lim (mkSt b e) =
              Done (tt, mkSt b' (canceled_env (ticker_id b) client_id order_id side lim o e)) ∧
            book_flat b' F'
  | None =>
      ∃ b', cancel client_id order_id side lim (mkSt b e) =
              Done (tt, mkSt b' (rejected_env (ticker_id b) client_id order_id e)) ∧
            book_flat b' F
  end.
Proof. apply cancel_flat_run. Qed.

(** [calm s F]: [s] is reached from a new book by calls that return, whose orders
    have a price of their side or one ahead of it, and the same calls on two queues
    give [F]. *)
Inductive calm : St → Flat → Prop :=
| calm_new tid e : env_ok e → calm (mkSt (ctor tid) e) (mkFlat [] [])
| calm_add s F order_id client_id side q lim s' :
    calm s F → 0 ≤ q < 2 ^ 32 → joins_or_leads side lim F →
    add order_id client_id side q lim s = Done (tt, s') →
    calm s' (flat_added order_id client_id side q lim s F).2
| calm_cancel s F client_id order_id side lim s' :
    calm s F → cancel client_id order_id side lim s = Done (tt, s') →
    calm s' (match flat_cancel order_id lim F with Some (_, F') => F' | None => F end).

(** C3: a book that such calls lead to stands for the queues that a price-time
    priority book has after them, and these are sorted by price and not crossed. *)
Theorem calm_price_time s F :
  (0 < MAX_ORDER_IDS)%nat → (0 < MAX_PRICE_LEVELS)%nat → calm s F →
  book_flat (book s) F ∧ priority_sorted F ∧ env_ok (env s).
Proof.
  intros Ho Hl Hc.
  assert (book_flat (book s) F ∧ env_ok (env s)) as [Hb He].
  { induction Hc as [tid e He|s F oid cid sd q lim s' _ [Hb He] Hq Hj E
      |s F cid oid sd lim s' _ [Hb He] E].
    - split; [|done]. exists BookSpec.empty_book.
      split_and!; [by apply ctor_rep|apply BookProps.empty_wf|done..].
    - destruct s as [b e]. destruct (add_flat_run oid cid sd q lim b e F Hb He Hq Hj) as [Hd|Hx];
        [|congruence].
      destruct (flat_added _ _ _ _ _ _ _) as [[fs rem] F']. destruct Hd as (b' & E' & Hb').
      rewrite E' in E. simplify_eq/=. split; [done|by apply env_ok_emit].
    - destruct s as [b e]. pose proof (cancel_flat_run cid oid sd lim b e F Hb He) as Hd.
      destruct (flat_cancel oid lim F) as [[o F']|]; destruct Hd as (b' & E' & Hb');
        rewrite E' in E; simplify_eq/=; (split; [done|by apply env_ok_emit]). }
  split_and!; [done| |done]. destruct Hb as (A & _ & Hwf & _ & <-). by apply flat_sorted.
Qed.
End results.

(** ** Instances: the concrete book with asks at 10 and 12 *)

#[local] Existing Instances small ticks.

Definition F2 : Flat := mkFlat [] [sell 2 102 2 4 10; sell 1 101 5 1 12].

Lemma sound2 : sound s2 A2 2.
Proof. apply runs_sound; [vm_compute; lia..|apply runs2]. Qed.

#[local] Opaque s1 s2.

Lemma flat2 : book_flat (book s2) F2 ∧ env_ok (env s2).
Proof.
  destruct sound2 as [Hrep He Hwf _]. split; [|exact He].
  exists A2. split; [exact Hrep|split; [exact Hwf|by split]].
Qed.

Lemma leads_empty s p os : own s os = [] → joins_or_leads s p os.
Proof. intros E. right. by rewrite E. Qed.

Lemma add_price_time_witness :
  (book_flat (book s2) F2 ∧ env_ok (env s2) ∧ 0 ≤ 3 < 2 ^ 32 ∧
   joins_or_leads OrderSide.BUY 11 F2) ∧
  ∃ b' e', add 3 103 OrderSide.BUY 3 11 (mkSt (book s2) (env s2)) = Done (tt, mkSt b' e') ∧
    book_flat b'
      (mkFlat [Order.make 7 3 103 11 OrderSide.BUY 1 11] [sell 1 101 5 1 12]).
Proof.
  destruct flat2 as [Hf He]. pose proof (leads_empty OrderSide.BUY 11 F2 eq_refl) as Hj.
  split; [split; [exact Hf|split; [exact He|split; [lia|exact Hj]]]|].
  destruct (add_price_time 3 103 OrderSide.BUY 3 11 (book s2) (env s2) F2 Hf He ltac:(lia) Hj)
    as [Hd|Hx].
  - destruct (flat_added _ _ _ _ _ _ _) as [[fs rem] F'] eqn:Es.
    vm_compute in Es. injection Es as <- <- <-. destruct Hd as (b' & E & Hb').
    eexists b', _. split; [exact E|exact Hb'].
  - exfalso. assert (returns (add 3 103 OrderSide.BUY 3 11 (mkSt (book s2) (env s2))) = true) as Hr
      by (by vm_compute).
    rewrite Hx in Hr. discriminate Hr.
Defined.

Lemma cancel_price_time_witness :
  (book_flat (book s2) F2 ∧ env_ok (env s2)) ∧
  ∃ b' e', cancel 102 2 OrderSide.SELL 10 (mkSt (book s2) (env s2)) = Done (tt, mkSt b' e') ∧
    book_flat b' (mkFlat [] [sell 1 101 5 1 12]).
Proof.
  destruct flat2 as [Hf He]. split; [exact (conj Hf He)|].
  destruct (cancel_price_time 102 2 OrderSide.SELL 10 (book s2) (env s2) F2 Hf He) as (b' & E & Hb').
  eexists b', _. split; [exact E|exact Hb'].
Defined.

Lemma calm1 : calm s0 (mkFlat [] []).
Proof. apply calm_new. split; apply LFQueue.ctor_wf; lia. Qed.

Lemma calm_price_time_witness :
  calm s1 (mkFlat [] [sell 1 101 5 1 12]) ∧ book_flat (book s1) (mkFlat [] [sell 1 101 5 1 12]).
Proof.
  assert (calm s1 (mkFlat [] [sell 1 101 5 1 12])) as Hc.
  { assert (add 1 101 OrderSide.SELL 5 12 s0 = Done (tt, s1)) as E by (by vm_compute).
    exact (calm_add s0 _ 1 101 OrderSide.SELL 5 12 s1 calm1 ltac:(lia)
      (leads_empty OrderSide.SELL 12 (mkFlat [] []) eq_refl) E). }
  split; [exact Hc|].
  exact (proj1 (calm_price_time s1 _ (proj1 small_pos) (proj2 small_pos) Hc)).
Defined.
End FlatResults.
