(* ===== verification/Exchange.v ===== *)
(** include/cppexchange/cppexchange.h, class Exchange: the books of the tickers,
    the counters of order and trade ids and the three queues; [run] takes requests
    off the request queue and hands them to the book of their ticker.

    A book lives in the map: the code makes each with [new], keeps the only pointer
    to it there, and never replaces or deletes it. *)

From S2P Require Import Prelude Types Memory ObjectPool PriceLevel LFQueue TimeUtils OrderBook.
Local Open Scope Z_scope.

Module Exchange.

(** [env] holds the response queue, the update queue, [next_trade_id] and the
    clock: what the books are given. *)
Record Exchange := mkExchange {
  running : bool;
  next_order_id : OrderIdT;
  order_books_map : gmap Z (option OrderBook);
  next_request : ptr;
  client_request_queue : LFQueue ClientRequest;
  env : OrderBook.Env;
}.

Definition set_running r x :=
  mkExchange r (next_order_id x) (order_books_map x) (next_request x) (client_request_queue x) (env x).
Definition set_next_order_id i x :=
  mkExchange (running x) i (order_books_map x) (next_request x) (client_request_queue x) (env x).
Definition set_order_books_map m x :=
  mkExchange (running x) (next_order_id x) m (next_request x) (client_request_queue x) (env x).
Definition set_next_request p x :=
  mkExchange (running x) (next_order_id x) (order_books_map x) p (client_request_queue x) (env x).
Definition set_client_request_queue q x :=
  mkExchange (running x) (next_order_id x) (order_books_map x) (next_request x) q (env x).
Definition set_env e x :=
  mkExchange (running x) (next_order_id x) (order_books_map x) (next_request x)
    (client_request_queue x) e.

(** [order_books_map[ticker_id]]: a missing key is entered with a null pointer. *)
Definition getOrderBook (ticker_id : TickerIdT) : M Exchange (option OrderBook) :=
  x ← mget;
  match order_books_map x !! ticker_id with
  | Some b => mret b
  | None =>
      mmodify (set_order_books_map (<[ticker_id := None]> (order_books_map x)));;
      mret None
  end.

(** Calling a method of the book at [ticker_id]. *)
Definition on_book {A} (ticker_id : TickerIdT) (book : option OrderBook)
    (m : M OrderBook.St A) : M Exchange A :=
  match book with
  | None => mub NullDeref
  | Some b =>
      zoom (λ x, OrderBook.mkSt b (env x))
        (λ s x, set_env (OrderBook.env s)
                  (set_order_books_map
                     (<[ticker_id := Some (OrderBook.book s)]> (order_books_map x)) x))
        m
  end.

(** [next_order_id++] *)
Definition getNextOrderId : M Exchange OrderIdT :=
  x ← mget;
  mmodify (set_next_order_id (u32 (next_order_id x + 1)));;
  mret (next_order_id x).

Section ops.
Context `{Constants, Clock}.

Definition addTicker (ticker_id : TickerIdT) : M Exchange unit :=
  x ← mget;
  ASSERT (bool_decide (size (order_books_map x) ≠ MAX_TICKERS)) "Max tickers count reached";;
  if bool_decide (is_Some (order_books_map x !! ticker_id)) then mret tt
  else mmodify (set_order_books_map
         (<[ticker_id := Some (OrderBook.ctor ticker_id)]> (order_books_map x))).

Definition addOrder (ticker_id : TickerIdT) (client_id : ClientIdT) (side : OrderSide)
    (quantity : QuantityT) (limit_price : PriceT) : M Exchange unit :=
  order_book ← getOrderBook ticker_id;
  order_id ← getNextOrderId;
  on_book ticker_id order_book (OrderBook.add order_id client_id side quantity limit_price).

Definition cancelOrder (ticker_id : TickerIdT) (client_id : ClientIdT) (order_id : OrderIdT)
    (side : OrderSide) (limit_price : PriceT) : M Exchange unit :=
  order_book ← getOrderBook ticker_id;
  on_book ticker_id order_book (OrderBook.cancel client_id order_id side limit_price).

Definition in_requests {A} : M (LFQueue ClientRequest) A → M Exchange A :=
  zoom client_request_queue set_client_request_queue.

Definition processRequest : M Exchange unit :=
  x ← mget;
  r ← in_requests (LFQueue.item_at (next_request x));
  match ClientRequest.type r with
  | RequestType.INVALID => mret tt
  | RequestType.ADD =>
      addOrder (ClientRequest.ticker_id r) (ClientRequest.client_id r) (ClientRequest.side r)
        (ClientRequest.quantity r) (ClientRequest.limit_price r)
  | RequestType.CANCEL =>
      cancelOrder (ClientRequest.ticker_id r) (ClientRequest.client_id r)
        (ClientRequest.order_id r) (ClientRequest.side r) (ClientRequest.limit_price r)
  end.

(** The body of the loop of [run]. *)
Definition run_body : M Exchange unit :=
  p ← in_requests LFQueue.pop;
  mmodify (set_next_request p);;
  if decide (p ≠ nullptr) then processRequest else mret tt.

(** [run], for [fuel] tests of [running]: another thread clears it. *)
Definition run (fuel : nat) : M Exchange unit :=
  iterate fuel
    (λ _ : unit, x ← mget; if running x then run_body;; mret (inl tt) else mret (inr tt)) tt.

(** The constructor: the tickers are added one by one. *)
Fixpoint addTickers (ticker_ids : list TickerIdT) : M Exchange unit :=
  match ticker_ids with
  | [] => mret tt
  | t :: ts => addTicker t;; addTickers ts
  end.

Definition ctor (requests : LFQueue ClientRequest) (responses : LFQueue ClientResponse)
    (updates : LFQueue MarketUpdate) (ticker_ids : list TickerIdT) : outcome (unit * Exchange) :=
  addTickers ticker_ids
    (mkExchange false 1 ∅ nullptr requests (OrderBook.mkEnv responses updates 1 0)).

(** [start] sets the flag and starts the thread that runs [run]; [stop] clears it
    and waits for the thread. *)
Definition start : M Exchange unit := mmodify (set_running true).
Definition stop : M Exchange unit := mmodify (set_running false).
End ops.
End Exchange.
Abbreviation Exchange := Exchange.Exchange.
