(* ===== verification/ExchangeProps.v ===== *)
(** Lemmas on the exchange: what each operation does on every branch, the
    invariant of its state, and one turn of the loop of [run]. *)

From S2P Require Import Prelude Types Memory ObjectPool PriceLevel LFQueue TimeUtils.
From S2P Require Import OrderBook BookSpec BookHeap BookLevels BookRefine BookCancel BookProps.
From S2P Require Import BookTheorems Exchange.
Local Open Scope Z_scope.

Module ExchangeProps.
Import Exchange BookRefine BookCancel.

Section props.
Context `{Constants, Clock}.
Implicit Types (x : Exchange) (b : OrderBook) (t : TickerIdT).

Definition known x t b : Prop := order_books_map x !! t = Some (Some b).
Definition unknown x t : Prop :=
  order_books_map x !! t = None ∨ order_books_map x !! t = Some None.

(** Every book stands for one of the specification, and the queues have slots. *)
Record exchange_ok x : Prop := {
  xo_books t b : known x t b → OrderBook.ticker_id b = t ∧ ∃ A, BookHeap.book_rep b A;
  xo_env : BookHeap.env_ok (env x);
  xo_queue : LFQueue.wf (client_request_queue x);
}.

(** ** The operations *)

Lemma getOrderBook_known x t b : known x t b → getOrderBook t x = Done (Some b, x).
Proof. intros Hb. unfold getOrderBook. rewrite bind_get. by rewrite Hb. Qed.

Lemma getOrderBook_unknown x t :
  unknown x t → ∃ x', getOrderBook t x = Done (None, x').
Proof.
  unfold getOrderBook. rewrite bind_get. intros [->| ->]; by eexists.
Qed.

(** The state after a call on the book at [t]. *)
Definition with_result t (s : OrderBook.St) x : Exchange :=
  set_env (OrderBook.env s)
    (set_order_books_map (<[t := Some (OrderBook.book s)]> (order_books_map x)) x).

Lemma addOrder_known x t b client_id side q lim :
  known x t b →
  addOrder t client_id side q lim x =
    let x1 := set_next_order_id (u32 (next_order_id x + 1)) x in
    match OrderBook.add (next_order_id x) client_id side q lim (OrderBook.mkSt b (env x)) with
    | Done (_, s) => Done (tt, with_result t s x1)
    | Exited m => Exited m
    | UB f => UB f
    | Timeout => Timeout
    end.
Proof.
  intros Hb. unfold addOrder. rewrite (bind_done _ _ _ _ _ (getOrderBook_known _ _ _ Hb)).
  unfold getNextOrderId. rewrite bind_bind, bind_get, bind_bind, bind_modify, bind_ret.
  unfold on_book, zoom. cbn [env set_next_order_id].
  by destruct (OrderBook.add _ _ _ _ _ _) as [[[] s]| | |].
Qed.

Lemma cancelOrder_known x t b client_id order_id side lim :
  known x t b →
  cancelOrder t client_id order_id side lim x =
    match OrderBook.cancel client_id order_id side lim (OrderBook.mkSt b (env x)) with
    | Done (_, s) => Done (tt, with_result t s x)
    | Exited m => Exited m
    | UB f => UB f
    | Timeout => Timeout
    end.
Proof.
  intros Hb. unfold cancelOrder. rewrite (bind_done _ _ _ _ _ (getOrderBook_known _ _ _ Hb)).
  unfold on_book, zoom. by destruct (OrderBook.cancel _ _ _ _ _) as [[[] s]| | |].
Qed.

Lemma addOrder_unknown x t client_id side q lim :
  unknown x t → addOrder t client_id side q lim x = UB NullDeref.
Proof.
  intros (x' & E)%getOrderBook_unknown. unfold addOrder. by rewrite (bind_done _ _ _ _ _ E).
Qed.

Lemma cancelOrder_unknown x t client_id order_id side lim :
  unknown x t → cancelOrder t client_id order_id side lim x = UB NullDeref.
Proof.
  intros (x' & E)%getOrderBook_unknown. unfold cancelOrder. by rewrite (bind_done _ _ _ _ _ E).
Qed.

Lemma known_or_unknown x t : (∃ b, known x t b) ∨ unknown x t.
Proof.
  unfold known, unknown. destruct (order_books_map x !! t) as [[b|]|]; eauto.
Qed.

Lemma addTicker_full x t :
  size (order_books_map x) = MAX_TICKERS → addTicker t x = Exited "Max tickers count reached".
Proof.
  intros Hs. unfold addTicker. rewrite bind_get, (bool_decide_eq_false_2 (size _ ≠ _)) by (intros Hn; by apply Hn). done.
Qed.

Lemma addTicker_room x t :
  size (order_books_map x) ≠ MAX_TICKERS →
  addTicker t x =
    Done (tt, if bool_decide (is_Some (order_books_map x !! t)) then x
              else set_order_books_map (<[t := Some (OrderBook.ctor t)]> (order_books_map x)) x).
Proof.
  intros Hs. unfold addTicker. rewrite bind_get, (bool_decide_eq_true_2 (size _ ≠ _)) by done.
  rewrite bind_assert_true. by case_bool_decide.
Qed.

(** ** The loop of [run] *)

(** What [processRequest] does with a request, the request given. *)
Definition handle (r : ClientRequest) : M Exchange unit :=
  match ClientRequest.type r with
  | RequestType.INVALID => mret tt
  | RequestType.ADD =>
      addOrder (ClientRequest.ticker_id r) (ClientRequest.client_id r) (ClientRequest.side r)
        (ClientRequest.quantity r) (ClientRequest.limit_price r)
  | RequestType.CANCEL =>
      cancelOrder (ClientRequest.ticker_id r) (ClientRequest.client_id r)
        (ClientRequest.order_id r) (ClientRequest.side r) (ClientRequest.limit_price r)
  end.

(** The state with the oldest request taken off the queue. *)
Definition taken q x : Exchange :=
  set_next_request (Some (LFQueue.next_read_index_ (client_request_queue x)))
    (set_client_request_queue q x).

Lemma run_body_pops x r rs :
  LFQueue.wf (client_request_queue x) → LFQueue.contents (client_request_queue x) = r :: rs →
  ∃ q, run_body x = handle r (taken q x) ∧ LFQueue.wf q ∧ LFQueue.contents q = rs ∧
       LFQueue.data_ q = LFQueue.data_ (client_request_queue x).
Proof.
  intros Hq Hc. destruct (LFQueue.pop_cons _ _ _ Hq Hc) as (q & E & Hwf & Hd & Hr & Hrs & _).
  exists q. split_and!; [|done..]. unfold run_body, in_requests.
  rewrite (bind_done _ _ _ _ _ (zoom_done client_request_queue set_client_request_queue _ _ _ _ E)).
  rewrite bind_modify, decide_True by done. fold (taken q x).
  unfold processRequest. rewrite bind_get. unfold in_requests. cbn [next_request taken set_next_request].
  rewrite (bind_done _ _ _ r (taken q x)); [done|].
  rewrite (zoom_done client_request_queue set_client_request_queue _ _ r q); [by destruct x|].
  apply LFQueue.item_at_done. by rewrite Hd.
Qed.

Lemma run_body_serves x r rs :
  LFQueue.wf (client_request_queue x) → LFQueue.contents (client_request_queue x) = r :: rs →
  ∃ q, run_body x = handle r (taken q x) ∧ LFQueue.wf q ∧ LFQueue.contents q = rs.
Proof.
  intros Hq Hc. destruct (run_body_pops x r rs Hq Hc) as (q & ? & ? & ? & _). by exists q.
Qed.

Lemma run_body_idle x :
  LFQueue.wf (client_request_queue x) → LFQueue.contents (client_request_queue x) = [] →
  run_body x = Done (tt, set_next_request nullptr x).
Proof.
  intros Hq Hc. unfold run_body, in_requests.
  rewrite (bind_done _ _ _ _ _ (zoom_done client_request_queue set_client_request_queue _ _ _ _
    (LFQueue.pop_nil _ Hq Hc))).
  rewrite bind_modify, decide_False by (intros []; done). by destruct x.
Qed.

(** Requests are handled without touching the request queue. *)
Lemma handle_queue r x x' :
  handle r x = Done (tt, x') → client_request_queue x' = client_request_queue x.
Proof.
  unfold handle. destruct (ClientRequest.type r); [by intros [= <-]|..];
    destruct (known_or_unknown x (ClientRequest.ticker_id r)) as [[b Hb]|Hu].
  - rewrite (addOrder_known _ _ _ _ _ _ _ Hb). simpl.
    destruct (OrderBook.add _ _ _ _ _ _) as [[[] s]| | |]; try done. by intros [= <-].
  - by rewrite addOrder_unknown.
  - rewrite (cancelOrder_known _ _ _ _ _ _ _ Hb).
    destruct (OrderBook.cancel _ _ _ _ _) as [[[] s]| | |]; try done. by intros [= <-].
  - by rewrite cancelOrder_unknown.
Qed.

(** Nor the books of other tickers. *)
Lemma handle_other r x x' t :
  handle r x = Done (tt, x') → t ≠ ClientRequest.ticker_id r →
  order_books_map x' !! t = order_books_map x !! t.
Proof.
  intros E Ht. revert E.
  unfold handle. destruct (ClientRequest.type r); [by intros [= <-]|..];
    destruct (known_or_unknown x (ClientRequest.ticker_id r)) as [[b Hb]|Hu].
  - rewrite (addOrder_known _ _ _ _ _ _ _ Hb). simpl.
    destruct (OrderBook.add _ _ _ _ _ _) as [[[] s]| | |]; try done. intros [= <-]. simpl.
    by rewrite lookup_insert_ne.
  - by rewrite addOrder_unknown.
  - rewrite (cancelOrder_known _ _ _ _ _ _ _ Hb).
    destruct (OrderBook.cancel _ _ _ _ _) as [[[] s]| | |]; try done. intros [= <-]. simpl.
    by rewrite lookup_insert_ne.
  - by rewrite cancelOrder_unknown.
Qed.

(** The request queue and the pointer to the request do not matter to a request. *)
Definition reset (p : ptr) (q : LFQueue ClientRequest) x : Exchange :=
  set_next_request p (set_client_request_queue q x).

Definition map_state {A} (f : Exchange → Exchange) (o : outcome (A * Exchange)) :
    outcome (A * Exchange) :=
  match o with
  | Done (a, x) => Done (a, f x)
  | Exited m => Exited m
  | UB u => UB u
  | Timeout => Timeout
  end.

Lemma handle_reset r p q x : handle r (reset p q x) = map_state (reset p q) (handle r x).
Proof.
  unfold handle. destruct (ClientRequest.type r); [done|..];
    destruct (known_or_unknown x (ClientRequest.ticker_id r)) as [[b Hb]|Hu].
  - rewrite (addOrder_known x _ b), (addOrder_known (reset p q x) _ b) by done.
    change (next_order_id (reset p q x)) with (next_order_id x).
    change (env (reset p q x)) with (env x). cbv zeta.
    by destruct (OrderBook.add _ _ _ _ _ _) as [[[] s]| | |].
  - by rewrite !addOrder_unknown.
  - rewrite (cancelOrder_known x _ b), (cancelOrder_known (reset p q x) _ b) by done.
    change (env (reset p q x)) with (env x).
    by destruct (OrderBook.cancel _ _ _ _ _) as [[[] s]| | |].
  - by rewrite !cancelOrder_unknown.
Qed.

(** Requests one after the other, and turns of the loop of [run]. *)
Fixpoint handle_all (rs : list ClientRequest) : M Exchange unit :=
  match rs with
  | [] => mret tt
  | r :: rs => handle r;; handle_all rs
  end.

Fixpoint turns (n : nat) : M Exchange unit :=
  match n with
  | O => mret tt
  | S n => run_body;; turns n
  end.

Lemma turns_serve rs p0 q0 x :
  LFQueue.wf q0 → LFQueue.contents q0 = rs →
  ∃ p q, LFQueue.wf q ∧ LFQueue.contents q = [] ∧
    turns (length rs) (reset p0 q0 x) = map_state (reset p q) (handle_all rs x).
Proof.
  revert p0 q0 x. induction rs as [|r rs IH]; intros p0 q0 x Hq Hc; [by exists p0, q0|].
  destruct (run_body_serves (reset p0 q0 x) r rs Hq Hc) as (q1 & E & Hq1 & Hc1).
  set (p1 := Some (LFQueue.next_read_index_ q0)).
  change (taken q1 (reset p0 q0 x)) with (reset p1 q1 x) in E. rewrite handle_reset in E.
  simpl. unfold mbind, M_bind. rewrite E.
  destruct (handle r x) as [[[] x']|m|u|]; simpl; [by apply IH|..];
    exists None, (LFQueue.ctor ClientRequest.default 1);
    (split_and!; [apply LFQueue.ctor_wf; lia|apply LFQueue.ctor_contents|done]).
Qed.

(** ** The invariant *)

(** Requests the code handles properly: of a known ticker, with a quantity of 32
    bits, and not a cancel of the last order of a level that is not linked. *)
Definition good_request x (r : ClientRequest) : Prop :=
  match ClientRequest.type r with
  | RequestType.INVALID => True
  | RequestType.ADD =>
      0 ≤ ClientRequest.quantity r < 2 ^ 32 ∧ ∃ b, known x (ClientRequest.ticker_id r) b
  | RequestType.CANCEL =>
      ∃ b, known x (ClientRequest.ticker_id r) b ∧
        ∀ A, BookHeap.book_rep b A →
          BookSpec.cancel (ClientRequest.order_id r) (ClientRequest.limit_price r) A ≠ BookSpec.Broken
  end.

Lemma with_result_ok x t b b' e' A' i :
  exchange_ok x → known x t b → OrderBook.ticker_id b' = OrderBook.ticker_id b →
  BookHeap.book_rep b' A' → BookHeap.env_ok e' →
  exchange_ok (with_result t (OrderBook.mkSt b' e') (set_next_order_id i x)).
Proof.
  intros [Hb He Hq] Hk Ht Hrep He'. split; [|done|done]. intros t' b2 Hk'.
  unfold known in Hk'. simpl in Hk'. destruct (decide (t' = t)) as [->|Hne].
  - rewrite lookup_insert_eq in Hk'. simplify_eq. destruct (Hb t b Hk) as [<- _].
    split; [done|]. by exists A'.
  - rewrite lookup_insert_ne in Hk' by done. by apply Hb.
Qed.

Lemma handle_ok x r :
  exchange_ok x → good_request x r →
  (∃ x', handle r x = Done (tt, x') ∧ exchange_ok x') ∨ handle r x = Exited "Buffer is full.".
Proof.
  intros Hx Hg. unfold handle. unfold good_request in Hg.
  destruct (ClientRequest.type r); [left; by exists x|..].
  - destruct Hg as [Hq [b Hb]]. rewrite (addOrder_known _ _ b) by done. cbv zeta.
    destruct (xo_books _ Hx _ _ Hb) as (Ht & A & Hrep).
    destruct (add_cases (next_order_id x) (ClientRequest.client_id r) (ClientRequest.side r)
      (ClientRequest.quantity r) (ClientRequest.limit_price r) b (env x) A Hrep (xo_env _ Hx) Hq)
      as [Hd|[-> _]]; [left|by right].
    destruct (spec_add _ _ _ _ _ _ _ _) as [[fs rem] A']. destruct Hd as (b' & -> & Hrep' & Ht' & _).
    eexists. split; [done|]. eapply with_result_ok; try done. by apply env_ok_emit, Hx.
  - destruct Hg as (b & Hb & Hnb). rewrite (cancelOrder_known _ _ b) by done.
    destruct (xo_books _ Hx _ _ Hb) as (Ht & A & Hrep). specialize (Hnb A Hrep).
    pose proof (cancel_run (ClientRequest.client_id r) (ClientRequest.order_id r)
      (ClientRequest.side r) (ClientRequest.limit_price r) b (env x) A Hrep (xo_env _ Hx)) as Hc.
    unfold cancel_post in Hc. left.
    destruct (BookSpec.cancel _ _ A) as [|o A'|]; [..|done];
      destruct Hc as (b' & -> & Hrep' & (Ht' & _)); eexists; (split; [done|]);
      replace x with (set_next_order_id (next_order_id x) x) at 2 by (by destruct x);
      (eapply with_result_ok; try done); by apply env_ok_emit, Hx.
Qed.

(** A turn on a request the code handles properly, or on no request. *)
Lemma turn_cases x :
  exchange_ok x →
  (∀ r rs, LFQueue.contents (client_request_queue x) = r :: rs → good_request x r) →
  (∃ x', run_body x = Done (tt, x') ∧ exchange_ok x' ∧
         LFQueue.contents (client_request_queue x') =
           tail (LFQueue.contents (client_request_queue x)) ∧
         match LFQueue.contents (client_request_queue x) with
         | [] => x' = set_next_request nullptr x
         | r :: _ => ∃ q, handle r (taken q x) = Done (tt, x')
         end) ∨
  run_body x = Exited "Buffer is full.".
Proof.
  intros Hx Hg. pose proof (xo_queue _ Hx) as Hq.
  destruct (LFQueue.contents (client_request_queue x)) as [|r rs] eqn:Hc.
  - left. exists (set_next_request nullptr x). split_and!; [by apply run_body_idle| |done|done].
    destruct Hx. by split.
  - destruct (run_body_serves x r rs Hq Hc) as (q & -> & Hwf & Hcq).
    specialize (Hg r rs eq_refl).
    assert (exchange_ok (taken q x)) as Hx' by (destruct Hx; by split).
    destruct (handle_ok (taken q x) r Hx' Hg) as [(x' & E & Hok)|E]; [left|by right].
    exists x'. split_and!; [done|done| |by exists q]. by rewrite (handle_queue _ _ _ E).
Qed.

Lemma addTicker_ok x t x' :
  (0 < MAX_ORDER_IDS)%nat → (0 < MAX_PRICE_LEVELS)%nat →
  exchange_ok x → addTicker t x = Done (tt, x') → exchange_ok x'.
Proof.
  intros Ho Hl [Hb He Hq] E.
  destruct (decide (size (order_books_map x) = MAX_TICKERS)) as [Hs|Hs].
  { by rewrite addTicker_full in E. }
  rewrite addTicker_room in E by done. simplify_eq. case_bool_decide; [done|].
  split; [|done|done]. intros t' b. unfold known. simpl. destruct (decide (t' = t)) as [->|Hne].
  - rewrite lookup_insert_eq. intros [= <-]. split; [done|].
    exists BookSpec.empty_book. by apply BookTheorems.ctor_rep.
  - rewrite lookup_insert_ne by done. apply Hb.
Qed.

Lemma addTicker_size x t x' :
  (size (order_books_map x) ≤ MAX_TICKERS)%nat → addTicker t x = Done (tt, x') →
  (size (order_books_map x') ≤ MAX_TICKERS)%nat.
Proof.
  intros Hs E. destruct (decide (size (order_books_map x) = MAX_TICKERS)).
  { by rewrite addTicker_full in E. }
  rewrite addTicker_room in E by done. simplify_eq. case_bool_decide as Hi; [done|]. simpl.
  rewrite map_size_insert_None; [lia|]. by apply eq_None_not_Some.
Qed.

(** All books are as they were made. *)
Definition fresh x : Prop :=
  ∀ t o, order_books_map x !! t = Some o → o = Some (OrderBook.ctor t).

Lemma addTicker_fresh x t x' :
  fresh x → addTicker t x = Done (tt, x') →
  fresh x' ∧ known x' t (OrderBook.ctor t) ∧
  (∀ t', is_Some (order_books_map x !! t') → is_Some (order_books_map x' !! t')).
Proof.
  intros Hf E. destruct (decide (size (order_books_map x) = MAX_TICKERS)).
  { by rewrite addTicker_full in E. }
  rewrite addTicker_room in E by done. simplify_eq. unfold known.
  case_bool_decide as Hi.
  - destruct Hi as [o Ho]. split_and!; [done| |done]. by rewrite Ho, (Hf _ _ Ho).
  - split_and!; simpl.
    + intros t' o. destruct (decide (t' = t)) as [->|]; simpl.
      * rewrite lookup_insert_eq. by intros [= <-].
      * rewrite lookup_insert_ne by done. apply Hf.
    + by rewrite lookup_insert_eq.
    + intros t'. destruct (decide (t' = t)) as [->|]; [by rewrite lookup_insert_eq|].
      by rewrite lookup_insert_ne.
Qed.

Lemma addTickers_sound ts x x' :
  (0 < MAX_ORDER_IDS)%nat → (0 < MAX_PRICE_LEVELS)%nat →
  exchange_ok x → (size (order_books_map x) ≤ MAX_TICKERS)%nat → fresh x →
  addTickers ts x = Done (tt, x') →
  exchange_ok x' ∧ (size (order_books_map x') ≤ MAX_TICKERS)%nat ∧
  (∀ t, t ∈ ts ∨ is_Some (order_books_map x !! t) → known x' t (OrderBook.ctor t)).
Proof.
  intros Ho Hl. revert x. induction ts as [|t ts IH]; intros x Hx Hs Hf E.
  - simpl in E. injection E as <-. split_and!; [done|done|].
    intros t [?%not_elem_of_nil|[o Hi]]; [done|]. unfold known. by rewrite Hi, (Hf _ _ Hi).
  - simpl in E. apply bind_inv_done in E as ([] & x1 & E1 & E).
    destruct (addTicker_fresh _ _ _ Hf E1) as (Hf1 & Hk & Hkeep).
    destruct (IH x1) as (? & ? & Hall);
      [by eapply addTicker_ok|by eapply addTicker_size|done|done|].
    split_and!; [done|done|]. intros t' [[->|Hin]%elem_of_cons|Hi]; apply Hall.
    + right. unfold known in Hk. by rewrite Hk.
    + by left.
    + right. by apply Hkeep.
Qed.

(** ** Order ids *)

Lemma handle_id r x x' :
  handle r x = Done (tt, x') →
  next_order_id x' =
    if decide (ClientRequest.type r = RequestType.ADD) then u32 (next_order_id x + 1)
    else next_order_id x.
Proof.
  unfold handle. destruct (ClientRequest.type r); [by intros [= <-]|..];
    destruct (known_or_unknown x (ClientRequest.ticker_id r)) as [[b Hb]|Hu].
  - rewrite (addOrder_known _ _ _ _ _ _ _ Hb). simpl.
    destruct (OrderBook.add _ _ _ _ _ _) as [[[] s]| | |]; try done. by intros [= <-].
  - by rewrite addOrder_unknown.
  - rewrite (cancelOrder_known _ _ _ _ _ _ _ Hb).
    destruct (OrderBook.cancel _ _ _ _ _) as [[[] s]| | |]; try done. by intros [= <-].
  - by rewrite cancelOrder_unknown.
Qed.

Lemma handle_all_ids rs x x' :
  0 ≤ next_order_id x < 2 ^ 32 → handle_all rs x = Done (tt, x') →
  next_order_id x' =
    u32 (next_order_id x +
         Z.of_nat (length (filter (λ r, ClientRequest.type r = RequestType.ADD) rs))).
Proof.
  revert x. induction rs as [|r rs IH]; intros x Hi E.
  { simpl in *. injection E as <-. by rewrite Z.add_0_r, u32_id. }
  simpl in E. apply bind_inv_done in E as ([] & x1 & E1 & E). apply handle_id in E1.
  rewrite filter_cons. case_decide as Ha.
  - rewrite (IH x1); [|rewrite E1; by apply Z.mod_pos_bound|done].
    rewrite E1. unfold u32. rewrite Zplus_mod_idemp_l. f_equal. simpl. lia.
  - rewrite (IH x1); [by rewrite E1|by rewrite E1|done].
Qed.
End props.
End ExchangeProps.
