(* ===== verification/Sequencer.v ===== *)
(** include/communication/fifo_sequencer.h: requests are collected with the time
    they were received at, then sorted by it and pushed to the request queue.

    [std::sort] is a class: a permutation that is sorted for [operator<], which is
    all the C++ standard says of it; it need not keep the order of requests with
    the same time.  The merge sort of stdpp, which does, is one instance, and
    sorting the reversed list another. *)

From S2P Require Import Prelude Types LFQueue.
Local Open Scope Z_scope.

Module FifoSequencer.

Definition MAX_PENDING_REQUESTS : nat := 1024.

Record ReceiveTimeClientRequest := mkReceived {
  receive_timestamp : NsTimestampT;
  request : ClientRequest;
}.

(** [operator<] *)
Definition before (a b : ReceiveTimeClientRequest) : Prop :=
  receive_timestamp a < receive_timestamp b.

Record FifoSequencer := mkSequencer {
  requests : LFQueue ClientRequest;
  pending_requests : list ReceiveTimeClientRequest;
  pending_requests_index : nat;
}.

Definition set_requests q s := mkSequencer q (pending_requests s) (pending_requests_index s).
Definition set_pending ps s := mkSequencer (requests s) ps (pending_requests_index s).
Definition set_index i s := mkSequencer (requests s) (pending_requests s) i.

Definition ctor (requests : LFQueue ClientRequest) : FifoSequencer :=
  mkSequencer requests
    (replicate MAX_PENDING_REQUESTS (mkReceived 0 ClientRequest.default)) 0.

Definition addRequest (request : ClientRequest) (timestamp : NsTimestampT) : M FifoSequencer unit :=
  s ← mget;
  (if decide (pending_requests_index s = MAX_PENDING_REQUESTS)
   then FATAL "Too many pending requests." else mret tt);;
  let i := pending_requests_index s in
  mmodify (set_index (S i));;
  if decide (i < length (pending_requests s))%nat
  then mmodify (set_pending (<[i := mkReceived timestamp request]> (pending_requests s)))
  else mexit "std::out_of_range".

(** *** std::sort *)

Class StdSort := std_sort : list ReceiveTimeClientRequest → list ReceiveTimeClientRequest.
Class StdSortLaws `{StdSort} : Prop := {
  std_sort_perm l : std_sort l ≡ₚ l;
  std_sort_sorted l : StronglySorted (λ a b, ¬ before b a) (std_sort l);
}.

Section ops.
Context `{StdSort}.

Fixpoint publish (rs : list ReceiveTimeClientRequest) : M FifoSequencer unit :=
  match rs with
  | [] => mret tt
  | r :: rs => zoom requests set_requests (LFQueue.push (request r));; publish rs
  end.

Definition sequenceAndPublish : M FifoSequencer unit :=
  s ← mget;
  let n := pending_requests_index s in
  let sorted := std_sort (take n (pending_requests s)) in
  mmodify (set_pending (sorted ++ drop n (pending_requests s)));;
  s ← mget;
  publish (take n (pending_requests s));;
  mmodify (set_index 0).
End ops.

(** ** Instances of the sort *)

Definition not_after (a b : ReceiveTimeClientRequest) : Prop :=
  receive_timestamp a ≤ receive_timestamp b.

#[export] Instance not_after_dec a b : Decision (not_after a b).
Proof. unfold not_after. apply _. Defined.
#[export] Instance not_after_total : Total not_after.
Proof. intros a b. unfold not_after. lia. Qed.
#[export] Instance not_after_trans : Transitive not_after.
Proof. intros a b c. unfold not_after. lia. Qed.

Definition stable_sort : StdSort := merge_sort not_after.
Definition reversing_sort : StdSort := λ l, merge_sort not_after (rev l).

Lemma merge_sort_sorted l : StronglySorted (λ a b, ¬ before b a) (merge_sort not_after l).
Proof.
  eapply sorted_impl; [|by apply (StronglySorted_merge_sort not_after)].
  intros a b. unfold not_after, before. lia.
Qed.

Lemma stable_sort_laws : @StdSortLaws stable_sort.
Proof. split; intros l; [apply merge_sort_Permutation|apply merge_sort_sorted]. Qed.

Lemma reversing_sort_laws : @StdSortLaws reversing_sort.
Proof.
  split; intros l; [|apply merge_sort_sorted]. unfold std_sort, reversing_sort.
  rewrite merge_sort_Permutation. symmetry. apply Permutation_rev.
Qed.

(** ** Lemmas *)

(** Requests at increasing times have one sorted order. *)
Lemma sorted_unique l l' :
  StronglySorted before l → l' ≡ₚ l → StronglySorted (λ a b, ¬ before b a) l' → l' = l.
Proof.
  intros Hs. revert l'. induction Hs as [|a l Hs IH Ha]; intros l' Hp Hs'.
  { by apply Permutation_nil_r in Hp. }
  destruct l' as [|b l']; [by apply Permutation_nil_l in Hp|].
  apply StronglySorted_cons in Hs' as [Hb Hs'].
  assert (a = b) as <-.
  { assert (b ∈ a :: l) as [->|Hin]%elem_of_cons by (rewrite <- Hp; by left); [done|].
    assert (a ∈ b :: l') as [->|Hin']%elem_of_cons by (rewrite Hp; by left); [done|].
    rewrite Forall_forall in Ha, Hb. by destruct (Hb a Hin' (Ha b Hin)). }
  f_equal. apply IH; [|done]. by apply Permutation_cons_inv in Hp.
Qed.

Section facts.
Context `{StdSortLaws}.
Implicit Types (s : FifoSequencer) (r : ReceiveTimeClientRequest).

Definition wf s : Prop :=
  LFQueue.wf (requests s) ∧ length (pending_requests s) = MAX_PENDING_REQUESTS ∧
  (pending_requests_index s ≤ MAX_PENDING_REQUESTS)%nat.

(** The requests that wait. *)
Definition pending s : list ReceiveTimeClientRequest :=
  take (pending_requests_index s) (pending_requests s).

Lemma addRequest_room s req ts :
  wf s → (pending_requests_index s < MAX_PENDING_REQUESTS)%nat →
  ∃ s', addRequest req ts s = Done (tt, s') ∧ wf s' ∧ requests s' = requests s ∧
        pending s' = pending s ++ [mkReceived ts req].
Proof.
  intros (Hq & Hl & Hi) Hlt. eexists. split.
  { unfold addRequest. rewrite bind_get, (decide_False (P := _ = MAX_PENDING_REQUESTS)) by lia.
    rewrite bind_ret, bind_modify.
    rewrite decide_True by (rewrite Hl; done). done. }
  split_and!; [split_and!; simpl; [done|by rewrite length_insert|lia]|done|].
  unfold pending. simpl.
  rewrite (take_S_r _ _ (mkReceived ts req)) by (apply list_lookup_insert_eq; lia).
  by rewrite take_insert_ge by lia.
Qed.

Lemma addRequest_full s req ts :
  pending_requests_index s = MAX_PENDING_REQUESTS →
  addRequest req ts s = Exited "Too many pending requests.".
Proof. intros Hi. unfold addRequest. by rewrite bind_get, (decide_True (P := _ = MAX_PENDING_REQUESTS)). Qed.

Lemma publish_run rs s :
  LFQueue.wf (requests s) →
  ∃ q, publish rs s = Done (tt, set_requests q s) ∧ LFQueue.wf q ∧
       LFQueue.capacity q = LFQueue.capacity (requests s) ∧
       (length (LFQueue.contents (requests s)) + length rs ≤ LFQueue.capacity (requests s) →
        LFQueue.contents q = LFQueue.contents (requests s) ++ (request <$> rs))%nat.
Proof.
  revert s. induction rs as [|r rs IH]; intros s Hq.
  { exists (requests s). split_and!; [by destruct s|done..|]. intros _. by rewrite app_nil_r. }
  destruct (IH (set_requests (LFQueue.pushed (request r) (requests s)) s))
    as (q & E & Hwf & Hcap & Hc); [by apply LFQueue.pushed_wf|].
  exists q. simpl in Hcap, Hc. rewrite LFQueue.pushed_capacity in Hcap, Hc.
  split_and!; [|done..|].
  - simpl. rewrite (bind_done _ _ _ _ _ (zoom_done requests set_requests _ _ _ _
      (LFQueue.push_run (request r) _ Hq))). exact E.
  - intros Hlen. simpl in Hlen.
    rewrite LFQueue.pushed_contents in Hc by (done || lia).
    rewrite Hc, <- app_assoc; [done|]. rewrite length_app. simpl. lia.
Qed.

Lemma sequence_run s :
  wf s → (length (LFQueue.contents (requests s)) + pending_requests_index s ≤
          LFQueue.capacity (requests s))%nat →
  ∃ s', sequenceAndPublish s = Done (tt, s') ∧ wf s' ∧ pending s' = [] ∧
        LFQueue.contents (requests s') =
          LFQueue.contents (requests s) ++ (request <$> std_sort (pending s)).
Proof.
  intros (Hq & Hl & Hi) Hcap. set (n := pending_requests_index s) in *.
  set (sorted := std_sort (pending s)).
  assert (length sorted = n) as Hlen.
  { unfold sorted. rewrite (Permutation_length (std_sort_perm _)). unfold pending.
    rewrite length_take. fold n. lia. }
  set (s1 := set_pending (sorted ++ drop n (pending_requests s)) s).
  assert (take n (pending_requests s1) = sorted) as Ht by (simpl; by rewrite take_app_length').
  destruct (publish_run sorted s1 Hq) as (q & E & Hwf & Hc & Hcont).
  exists (set_index 0 (set_requests q s1)). split_and!; [|split_and!; [done| |simpl; lia]|done|].
  - unfold sequenceAndPublish. rewrite bind_get. cbv zeta. fold n.
    change (take n (pending_requests s)) with (pending s). fold sorted.
    rewrite bind_modify, bind_get. fold s1. rewrite Ht.
    by rewrite (bind_done _ _ _ _ _ E).
  - simpl. rewrite length_app, length_drop. lia.
  - apply Hcont. simpl. rewrite Hlen. exact Hcap.
Qed.
End facts.
End FifoSequencer.
Abbreviation FifoSequencer := FifoSequencer.FifoSequencer.
