(* ===== verification/ComponentResults.v ===== *)
(** The results on the components below the order book: the price level, the
    object pool, the queue and the sequencer, each with a concrete instance. *)

From S2P Require Import Prelude Types Memory ObjectPool PriceLevel LFQueue Sequencer.
Local Open Scope Z_scope.

Module ComponentResults.

(** ** The price level *)

Section level.
Context {Mem : Type} `{MemoryLaws Mem Order}.
Import PriceLevel.

(** [OrdersPriceLevel::add] appends the order to the queue of the level, in
    whatever memory the orders are: the links of the ring are set right, the
    level keeps its price and its successor, takes the side of its first order, and
    nothing is stored outside the orders of the level and the new one. *)
Theorem level_add_appends (m : Mem) l ps os p o :
  level_rep m l ps os → mload m p = Some o → p ∉ ps →
  ∃ m' l',
    add (Some p) (mkSt m l) = Done (tt, mkSt m' l') ∧
    level_rep m' l' (ps ++ [p]) (os ++ [Order.unlink o]) ∧
    writes (p :: ps) m m' ∧
    OrdersPriceLevel.next_price_level l' = OrdersPriceLevel.next_price_level l ∧
    OrdersPriceLevel.price_level l' = OrdersPriceLevel.price_level l ∧
    OrdersPriceLevel.side l' =
      match ps with [] => Order.side o | _ => OrdersPriceLevel.side l end.
Proof. apply add_spec. Qed.

(** C29: [OrdersPriceLevel::cancel] takes the oldest order with the id out of the
    queue of a level that has orders, wherever it stands, and returns it with its
    links cleared; without such an order it returns null and changes nothing.  The
    search ends within one turn per object of the memory. *)
Theorem level_cancel_removes (m : Mem) l ps os id :
  level_rep m l ps os → ps ≠ [] →
  match remove_first id os with
  | Some (r, os') =>
      ∃ ps1 q ps2 os1 os2 m',
        let l' := OrdersPriceLevel.set_top_order (head (ps1 ++ ps2)) l in
        cancel id (mkSt m l) = Done (Some q, mkSt m' l') ∧
        ps = ps1 ++ q :: ps2 ∧ os = os1 ++ r :: os2 ∧ os' = os1 ++ os2 ∧
        length ps1 = length os1 ∧ Forall (λ o, Order.order_id o ≠ id) os1 ∧
        mload m' q = Some r ∧ writes ps m m' ∧ level_rep m' l' (ps1 ++ ps2) os'
  | None => cancel id (mkSt m l) = Done (None, mkSt m l)
  end.
Proof. apply cancel_spec. Qed.

(** [cancel] on a level without orders dereferences the null [top_order]:
    the callers must not let an empty level stay in the map. *)
Theorem level_cancel_empty_crashes (m : Mem) l id :
  OrdersPriceLevel.top_order l = nullptr → cancel id (mkSt m l) = UB NullDeref.
Proof.
  intros Hl. unfold cancel. rewrite bind_get. cbn [this mem]. rewrite Hl.
  apply bind_ub, iterate_ub. unfold find_step. by apply bind_ub.
Qed.

(** The price of a level can be set only while it has no orders; otherwise the
    process exits. *)
Theorem setPriceLevel_guarded (m : Mem) l ps os price :
  level_rep m l ps os →
  setPriceLevel price (mkSt m l) =
    match os with
    | [] => Done (tt, mkSt m (OrdersPriceLevel.mk (OrdersPriceLevel.next_price_level l) price
                               nullptr (OrdersPriceLevel.side l)))
    | _ => Exited "Attempting to change the price level for existing orders."
    end.
Proof.
  intros (Ht & _ & _ & Hf). unfold setPriceLevel, member. rewrite bind_gets. cbn [this].
  rewrite Ht. destruct Hf as [|p o ps os]; [|done].
  rewrite bool_decide_eq_true_2 by done. rewrite bind_assert_true.
  unfold set_member, mmodify, set_this. cbn [this mem]. by rewrite Ht.
Qed.
End level.

(** Two orders in variables 0 and 1, the first on a level of its own. *)
Definition ord (id : OrderIdT) : Order := Order.make 7 id 100 0 OrderSide.BUY 5 10.
Definition ringed (p : ptr) (o : Order) : Order := Order.set_previous p (Order.set_next p o).
Definition mem2 : gmap nat Order := {[ 0%nat := ringed (Some 0%nat) (ord 1); 1%nat := ord 2 ]}.
Definition lvl (p : ptr) : OrdersPriceLevel :=
  OrdersPriceLevel.mk nullptr 10 p OrderSide.BUY.

Lemma rep2 : PriceLevel.level_rep mem2 (lvl (Some 0%nat)) [0%nat] [ord 1].
Proof.
  split_and!; [done|apply NoDup_singleton|by split_and!|].
  constructor; [done|constructor].
Qed.

Lemma level_add_appends_witness :
  (PriceLevel.level_rep mem2 (lvl (Some 0%nat)) [0%nat] [ord 1] ∧
   mload mem2 1%nat = Some (ord 2) ∧ 1%nat ∉ [0%nat]) ∧
  ∃ m' l', PriceLevel.add (Some 1%nat) (PriceLevel.mkSt mem2 (lvl (Some 0%nat))) =
             Done (tt, PriceLevel.mkSt m' l') ∧
           PriceLevel.level_rep m' l' [0%nat; 1%nat] [ord 1; ord 2].
Proof.
  assert (1%nat ∉ [0%nat]) as Hn by set_solver.
  split; [split_and!; [apply rep2|done|done]|].
  destruct (level_add_appends mem2 _ _ _ 1%nat (ord 2) rep2 eq_refl Hn)
    as (m' & l' & E & Hrep & _). by exists m', l'.
Defined.

Lemma level_cancel_removes_witness :
  (PriceLevel.level_rep mem2 (lvl (Some 0%nat)) [0%nat] [ord 1] ∧ [0%nat] ≠ []) ∧
  (∃ m', PriceLevel.cancel 1 (PriceLevel.mkSt mem2 (lvl (Some 0%nat))) =
           Done (Some 0%nat, PriceLevel.mkSt m' (lvl None))) ∧
  PriceLevel.cancel 9 (PriceLevel.mkSt mem2 (lvl (Some 0%nat))) =
    Done (None, PriceLevel.mkSt mem2 (lvl (Some 0%nat))).
Proof.
  split_and!; [apply rep2|done| |].
  - destruct (level_cancel_removes mem2 _ _ _ 1 rep2 ltac:(done))
      as (ps1 & q & ps2 & os1 & os2 & m' & E & Hps & _).
    destruct ps1 as [|? [|? ?]]; simplify_eq/=. by exists m'.
  - exact (level_cancel_removes mem2 _ _ _ 9 rep2 ltac:(done)).
Defined.

Lemma level_cancel_empty_crashes_witness :
  OrdersPriceLevel.top_order (lvl None) = nullptr ∧
  PriceLevel.cancel 1 (PriceLevel.mkSt mem2 (lvl None)) = UB NullDeref.
Proof. split; [done|]. by apply (level_cancel_empty_crashes mem2). Defined.

Lemma setPriceLevel_guarded_witness :
  PriceLevel.level_rep mem2 (lvl (Some 0%nat)) [0%nat] [ord 1] ∧
  PriceLevel.setPriceLevel 11 (PriceLevel.mkSt mem2 (lvl (Some 0%nat))) =
    Exited "Attempting to change the price level for existing orders.".
Proof. split; [apply rep2|]. apply (setPriceLevel_guarded mem2 _ _ _ 11 rep2). Defined.

(** ** The object pool *)

Section pool.
Context {T : Type}.
Implicit Types (p : ObjectPool T) (x : T).
Import ObjectPool.

(** C39: with two blocks available [getObject] hands out a block that was not in
    use, holding the new object, and leaves every block in use as it is. *)
Theorem getObject_fresh x p :
  wf p → (2 ≤ avail p)%nat →
  ∃ i p', getObject x p = Done (i, p') ∧ wf p' ∧ ¬ in_use p i ∧ (avail p' = avail p - 1)%nat ∧
    (∀ k, in_use p' k ↔ k = i ∨ in_use p k) ∧
    (∀ k, mload p' k = if decide (k = i) then Some x else mload p k).
Proof. apply getObject_facts. Qed.

(** C34: a pool made for [n] objects hands out [n - 1] of them, in distinct blocks
    that hold the objects, and the process exits at the [n]-th, although a block
    was available for it. *)
Theorem pool_capacity (d : T) n xs :
  (0 < n)%nat →
  ((length xs < n)%nat →
   ∃ js p, getObjects xs (ctor d n) = Done (js, p) ∧ wf p ∧ NoDup js ∧
           Forall2 (λ i x, mload p i = Some x) js xs ∧ (avail p + length xs = n)%nat) ∧
  (length xs = n → getObjects xs (ctor d n) = Exited "Buffer is full.").
Proof.
  intros Hn. pose proof (pool_wf d n Hn) as Hwf. pose proof (ctor_avail d n) as Hav. split.
  - intros Hlt. destruct (getObjects_facts xs (ctor d n) Hwf)
      as (js & p & E & Hwf' & Ha & Hnd & _ & Hl & _); [by rewrite Hav|].
    exists js, p. split_and!; try done. by rewrite <- Hav.
  - intros Hlen. apply getObjects_exhausted; [done|]. by rewrite Hav.
Qed.

(** [releaseObject] makes exactly a block in use available again, keeping its
    object; releasing an available block or an address past the store ends the
    process. *)
Theorem releaseObject_guarded p i :
  wf p →
  (in_use p i →
   ∃ p', releaseObject i p = Done (tt, p') ∧ wf p' ∧ (∀ k, mload p' k = mload p k) ∧
         (∀ k, in_use p' k ↔ in_use p k ∧ k ≠ i) ∧ avail p' = S (avail p)) ∧
  (is_available p i = true →
   releaseObject i p = Exited "Attempting to free an already available ObjectBlock.") ∧
  ((length (store p) ≤ i)%nat →
   releaseObject i p = Exited "Element being freed does not belong to this object pool.").
Proof.
  intros Hwf. split_and!.
  - intros Hi. destruct (release_facts p i Hwf Hi) as (p' & E & ? & ? & ? & ? & _). by exists p'.
  - intros (b & Hb & Ha)%is_available_lookup. unfold releaseObject. rewrite bind_get.
    rewrite bool_decide_eq_true_2 by (by eapply lookup_lt_Some). rewrite bind_assert_true.
    rewrite (bind_done _ _ _ _ _ (block_at_done _ _ _ Hb)). by rewrite Ha.
  - intros Hi. unfold releaseObject. rewrite bind_get.
    rewrite bool_decide_eq_false_2 by lia. done.
Qed.

(** [updateNextFree] ends on every store: the cursor goes on, round the store,
    to the first available block from where it stands, and the process exits when
    no block is available. *)
Theorem updateNextFree_first_fit p :
  (next_free p < length (store p))%nat →
  updateNextFree p =
    match first_available p (rotation (length (store p)) (next_free p)) with
    | Some j => Done (tt, set_next_free j p)
    | None => Exited "Buffer is full."
    end.
Proof. apply updateNextFree_spec. Qed.
End pool.

Definition pool3 : ObjectPool nat := ObjectPool.ctor 0%nat 3.
Definition pool3' : ObjectPool nat :=
  ObjectPool.mkPool [ObjectPool.mkBlock 5%nat false; ObjectPool.mkBlock 0%nat true;
                     ObjectPool.mkBlock 0%nat true] 1.

Lemma getObject_fresh_witness :
  (ObjectPool.wf pool3' ∧ (2 ≤ ObjectPool.avail pool3')%nat) ∧
  ∃ i p', ObjectPool.getObject 8%nat pool3' = Done (i, p') ∧ ¬ ObjectPool.in_use pool3' i ∧
          mload p' 0%nat = Some 5%nat.
Proof.
  split; [by vm_compute; split; [|lia]|].
  destruct (getObject_fresh 8%nat pool3' eq_refl ltac:(vm_compute; lia))
    as (i & p' & E & _ & Hi & _ & _ & Hl).
  exists i, p'. split_and!; [done|done|]. rewrite Hl. rewrite decide_False; [done|].
  intros <-. by apply Hi.
Defined.

Lemma pool_capacity_witness :
  (0 < 3)%nat ∧
  (∃ js p, ObjectPool.getObjects [4; 5]%nat pool3 = Done (js, p) ∧ NoDup js) ∧
  ObjectPool.getObjects [4; 5; 6]%nat pool3 = Exited "Buffer is full.".
Proof.
  split_and!; [lia|..].
  - destruct (proj1 (pool_capacity 0%nat 3 [4; 5]%nat ltac:(lia)) ltac:(simpl; lia))
      as (js & p & E & _ & Hnd & _). by exists js, p.
  - by apply (proj2 (pool_capacity 0%nat 3 [4; 5; 6]%nat ltac:(lia))).
Defined.

Lemma releaseObject_guarded_witness :
  (ObjectPool.wf pool3' ∧ ObjectPool.in_use pool3' 0) ∧
  (∃ p', ObjectPool.releaseObject 0 pool3' = Done (tt, p') ∧ ObjectPool.avail p' = 3%nat) ∧
  ObjectPool.releaseObject 2 pool3' =
    Exited "Attempting to free an already available ObjectBlock." ∧
  ObjectPool.releaseObject 3 pool3' =
    Exited "Element being freed does not belong to this object pool.".
Proof.
  split_and!; [done|done|..].
  - destruct (proj1 (releaseObject_guarded pool3' 0 eq_refl) eq_refl) as (p' & E & _ & _ & _ & Ha).
    by exists p'.
  - by apply (proj1 (proj2 (releaseObject_guarded pool3' 2 eq_refl))).
  - apply (proj2 (proj2 (releaseObject_guarded pool3' 3 eq_refl))). simpl. lia.
Defined.

Lemma updateNextFree_first_fit_witness :
  (ObjectPool.next_free (ObjectPool.set_next_free 0 pool3') < 3)%nat ∧
  ObjectPool.updateNextFree (ObjectPool.set_next_free 0 pool3') = Done (tt, pool3').
Proof.
  split; [simpl; lia|].
  exact (updateNextFree_first_fit (ObjectPool.set_next_free 0 pool3') ltac:(simpl; lia)).
Defined.

(** ** The queue *)

Section queue.
Context {T : Type}.
Implicit Types (q : LFQueue T) (x : T) (xs : list T).
Import LFQueue.

(** The queue is first in, first out: items pushed within its capacity (its
    size less one) come behind those that are in it, and popping and reading them
    gives all of them in order. *)
Theorem queue_fifo xs q :
  wf q → (length (contents q) + length xs ≤ capacity q)%nat →
  ∃ q1 q2, push_all xs q = Done (tt, q1) ∧ contents q1 = contents q ++ xs ∧
    pop_items (length (contents q ++ xs)) q1 = Done (contents q ++ xs, q2) ∧
    contents q2 = [] ∧ wf q2.
Proof.
  intros Hwf Hlen. destruct (push_all_run xs q Hwf Hlen) as (q1 & E1 & Hwf1 & _ & Hc1 & _).
  destruct (pop_items_run q1 Hwf1) as (q2 & E2 & Hwf2 & Hc2 & _). rewrite Hc1 in E2.
  by exists q1, q2.
Qed.

(** C35: the push that fills the last slot makes the queue empty: [push] does not
    look at the read cursor, and all items, the new one included, are lost. *)
Theorem queue_overflow xs x q :
  wf q → (length (contents q) + length xs = capacity q)%nat →
  ∃ q', push_all (xs ++ [x]) q = Done (tt, q') ∧ contents q' = [] ∧
        pop q' = Done (nullptr, q').
Proof.
  intros Hwf Hlen. destruct (push_all_overflow xs x q Hwf Hlen) as (q' & E & Hwf' & Hc).
  exists q'. split_and!; [done|done|]. by apply pop_nil.
Qed.

(** The pointer that [pop] returns stays good while no push overflows the
    queue: the consumer may read the item although the slot counts as free. *)
Theorem queue_slot_stable q x xs ys :
  wf q → contents q = x :: xs → (length xs + length ys ≤ capacity q)%nat →
  ∃ i q1 q2, pop q = Done (Some i, q1) ∧ push_all ys q1 = Done (tt, q2) ∧
             item_at (Some i) q2 = Done (x, q2).
Proof.
  intros Hwf Hc Hlen. destruct (pop_cons q x xs Hwf Hc) as (q1 & E & Hwf1 & Hd & Hx & Hc1 & Hr).
  destruct (push_all_slot ys q1 (next_read_index_ q) x Hwf1) as (q2 & E2 & Hx2).
  - by rewrite Hr, Hd.
  - by rewrite Hd.
  - unfold capacity in *. by rewrite Hc1, Hd.
  - exists (next_read_index_ q), q1, q2. split_and!; [done|done|]. by apply item_at_done.
Qed.
End queue.

Definition queue4 : LFQueue nat := LFQueue.mkQueue [7; 0; 0; 9]%nat 1 3.

Lemma queue_fifo_witness :
  (LFQueue.wf queue4 ∧ LFQueue.contents queue4 = [9; 7]%nat) ∧
  ∃ q1 q2, LFQueue.push_all [5]%nat queue4 = Done (tt, q1) ∧
           LFQueue.pop_items 3 q1 = Done ([9; 7; 5]%nat, q2).
Proof.
  assert (LFQueue.wf queue4) as Hwf by (split; simpl; lia).
  split; [by split|].
  destruct (queue_fifo [5]%nat queue4 Hwf ltac:(vm_compute; lia)) as (q1 & q2 & E1 & _ & E2 & _).
  by exists q1, q2.
Defined.

Lemma queue_overflow_witness :
  (LFQueue.wf queue4 ∧ (length (LFQueue.contents queue4) + 1 = LFQueue.capacity queue4)%nat) ∧
  ∃ q', LFQueue.push_all [5; 6]%nat queue4 = Done (tt, q') ∧ LFQueue.contents q' = [].
Proof.
  assert (LFQueue.wf queue4) as Hwf by (split; simpl; lia).
  split; [by split|].
  destruct (queue_overflow [5]%nat 6%nat queue4 Hwf eq_refl) as (q' & E & Hc & _). by exists q'.
Defined.

Lemma queue_slot_stable_witness :
  (LFQueue.wf queue4 ∧ LFQueue.contents queue4 = [9; 7]%nat) ∧
  ∃ i q1 q2, LFQueue.pop queue4 = Done (Some i, q1) ∧
    LFQueue.push_all [5; 6]%nat q1 = Done (tt, q2) ∧ LFQueue.item_at (Some i) q2 = Done (9%nat, q2).
Proof.
  assert (LFQueue.wf queue4) as Hwf by (split; simpl; lia).
  split; [by split|].
  exact (queue_slot_stable queue4 9%nat [7]%nat [5; 6]%nat Hwf eq_refl ltac:(vm_compute; lia)).
Defined.

(** ** The sequencer *)

Section sequencer.
Context `{FifoSequencer.StdSortLaws}.
Import FifoSequencer.

(** [sequenceAndPublish] pushes all waiting requests, each once, ordered by
    the time they were received at, behind what is in the request queue, as long
    as that has room, and none waits afterwards. *)
Theorem sequencer_publishes_sorted s :
  wf s → (length (LFQueue.contents (requests s)) + pending_requests_index s ≤
          LFQueue.capacity (requests s))%nat →
  ∃ s' sorted, sequenceAndPublish s = Done (tt, s') ∧ wf s' ∧ pending s' = [] ∧
    sorted ≡ₚ pending s ∧ StronglySorted (λ a b, ¬ before b a) sorted ∧
    LFQueue.contents (requests s') = LFQueue.contents (requests s) ++ (request <$> sorted).
Proof.
  intros Hwf Hcap. destruct (sequence_run s Hwf Hcap) as (s' & E & Hwf' & Hp & Hc).
  exists s', (std_sort (pending s)).
  split_and!; [done..|apply std_sort_perm|apply std_sort_sorted|done].
Qed.

(** Requests received at increasing times are published in the order they
    arrived in, whatever the sort. *)
Theorem sequencer_keeps_arrival_order s :
  wf s → (length (LFQueue.contents (requests s)) + pending_requests_index s ≤
          LFQueue.capacity (requests s))%nat →
  StronglySorted before (pending s) →
  ∃ s', sequenceAndPublish s = Done (tt, s') ∧
    LFQueue.contents (requests s') = LFQueue.contents (requests s) ++ (request <$> pending s).
Proof.
  intros Hwf Hcap Hs. destruct (sequence_run s Hwf Hcap) as (s' & E & _ & _ & Hc).
  exists s'. rewrite Hc. split; [done|]. do 2 f_equal.
  apply sorted_unique; [done|apply std_sort_perm|apply std_sort_sorted].
Qed.

(** [addRequest] keeps the requests in the order they come, and the process
    exits when 1024 of them wait. *)
Theorem addRequest_appends s req ts :
  wf s →
  if decide (pending_requests_index s = MAX_PENDING_REQUESTS)
  then addRequest req ts s = Exited "Too many pending requests."
  else ∃ s', addRequest req ts s = Done (tt, s') ∧ wf s' ∧ requests s' = requests s ∧
             pending s' = pending s ++ [mkReceived ts req].
Proof.
  intros Hwf. case_decide as Hi; [by apply addRequest_full|].
  apply addRequest_room; [done|]. destruct Hwf as (_ & _ & ?). lia.
Qed.
End sequencer.

Definition request_of (client : ClientIdT) : ClientRequest :=
  ClientRequest.mk RequestType.ADD 1 client 0 OrderSide.BUY 5 10.
Definition sequencer0 : FifoSequencer :=
  FifoSequencer.ctor (LFQueue.ctor ClientRequest.default 8).
Definition received (s : FifoSequencer) (client : ClientIdT) (ts : NsTimestampT) : FifoSequencer :=
  match FifoSequencer.addRequest (request_of client) ts s with Done (_, s') => s' | _ => s end.
Definition sequencer2 (ts1 ts2 : NsTimestampT) : FifoSequencer :=
  received (received sequencer0 1 ts1) 2 ts2.

(** Requests with equal times may be published in another order than they
    arrived in: [std::sort] need not be stable, and with a sort that satisfies
    its laws but is not, two of them change places. *)
Theorem sequencer_not_stable :
  ∃ S : FifoSequencer.StdSort, FifoSequencer.StdSortLaws ∧
  ∃ s', FifoSequencer.sequenceAndPublish (sequencer2 5 5) = Done (tt, s') ∧
    (FifoSequencer.request <$> FifoSequencer.pending (sequencer2 5 5)) =
      [request_of 1; request_of 2] ∧
    LFQueue.contents (FifoSequencer.requests s') = [request_of 2; request_of 1].
Proof.
  exists FifoSequencer.reversing_sort. split; [apply FifoSequencer.reversing_sort_laws|].
  eexists. split_and!; by vm_compute.
Qed.

Lemma sequencer2_wf ts1 ts2 : FifoSequencer.wf (sequencer2 ts1 ts2).
Proof.
  split_and!; [split; simpl; lia|by vm_compute|]. unfold FifoSequencer.MAX_PENDING_REQUESTS.
  change (FifoSequencer.pending_requests_index (sequencer2 ts1 ts2)) with 2%nat. lia.
Qed.

Lemma sequencer_publishes_sorted_witness :
  FifoSequencer.wf (sequencer2 9 4) ∧
  ∃ s', @FifoSequencer.sequenceAndPublish FifoSequencer.stable_sort (sequencer2 9 4) =
          Done (tt, s') ∧ FifoSequencer.pending s' = [].
Proof.
  split; [apply sequencer2_wf|].
  destruct (@sequencer_publishes_sorted _ FifoSequencer.stable_sort_laws (sequencer2 9 4)
    (sequencer2_wf 9 4) ltac:(vm_compute; lia)) as (s' & so & E & _ & Hp & _).
  by exists s'.
Defined.

Lemma sequencer_keeps_arrival_order_witness :
  FifoSequencer.wf (sequencer2 4 9) ∧
  ∃ s', @FifoSequencer.sequenceAndPublish FifoSequencer.reversing_sort (sequencer2 4 9) =
          Done (tt, s') ∧
        LFQueue.contents (FifoSequencer.requests s') = [request_of 1; request_of 2].
Proof.
  split; [apply sequencer2_wf|].
  apply (@sequencer_keeps_arrival_order _ FifoSequencer.reversing_sort_laws (sequencer2 4 9)
    (sequencer2_wf 4 9)); [vm_compute; lia|].
  vm_compute. repeat constructor.
Defined.

Lemma addRequest_appends_witness :
  FifoSequencer.wf (sequencer2 4 9) ∧
  ∃ s', FifoSequencer.addRequest (request_of 3) 11 (sequencer2 4 9) = Done (tt, s') ∧
        length (FifoSequencer.pending s') = 3%nat.
Proof.
  split; [apply sequencer2_wf|].
  destruct (addRequest_appends (sequencer2 4 9) (request_of 3) 11 (sequencer2_wf 4 9))
    as (s' & E & _ & _ & Hp).
  exists s'. split; [done|]. by rewrite Hp.
Defined.
End ComponentResults.
