(* ===== verification/ExchangeResults.v ===== *)
(** The results on the exchange, each with an instance on an exchange of two
    tickers. *)

From S2P Require Import Prelude Types Memory ObjectPool PriceLevel LFQueue TimeUtils.
From S2P Require Import OrderBook BookSpec BookHeap BookLevels BookRefine BookCancel BookProps.
From S2P Require Import BookTheorems Exchange ExchangeProps.
Local Open Scope Z_scope.

Module ExchangeResults.
Import Exchange ExchangeProps BookRefine BookCancel BookTheorems.

Section results.
Context `{Constants, Clock}.
Implicit Types (x : Exchange) (b : OrderBook) (t : TickerIdT).

(** An exchange that is made has a book for each of its tickers, standing for
    the empty book, at most [MAX_TICKERS] of them, and satisfies the invariant of
    its state. *)
Theorem ctor_sound requests responses updates ts x :
  (0 < MAX_ORDER_IDS)%nat → (0 < MAX_PRICE_LEVELS)%nat →
  LFQueue.wf requests → LFQueue.wf responses → LFQueue.wf updates →
  ctor requests responses updates ts = Done (tt, x) →
  exchange_ok x ∧ (size (order_books_map x) ≤ MAX_TICKERS)%nat ∧
  (∀ t, t ∈ ts → known x t (OrderBook.ctor t)).
Proof.
  intros Ho Hl Hq Hr Hu E.
  unfold ctor in E. set (x0 := mkExchange _ _ _ _ _ _) in E.
  destruct (addTickers_sound ts x0 x Ho Hl) as (? & ? & Hall); [| | |exact E|].
  - split; [|by split|done]. intros t b Hk. unfold known in Hk. simpl in Hk.
    by rewrite lookup_empty in Hk.
  - simpl. rewrite map_size_empty. lia.
  - intros t o. simpl. by rewrite lookup_empty.
  - split_and!; [done|done|]. intros t Ht. apply Hall. by left.
Qed.

(** [addTicker] never replaces a book: a ticker that is there is left alone, a
    new one gets a new book; but in a full exchange the process exits, also when
    the ticker is there. *)
Theorem addTicker_spec x t :
  addTicker t x =
    if decide (size (order_books_map x) = MAX_TICKERS)
    then Exited "Max tickers count reached"
    else Done (tt,
      match order_books_map x !! t with
      | Some _ => x
      | None => set_order_books_map (<[t := Some (OrderBook.ctor t)]> (order_books_map x)) x
      end).
Proof.
  case_decide as Hs; [by apply addTicker_full|]. rewrite addTicker_room by done.
  case_bool_decide as Hi; destruct (order_books_map x !! t); try done.
  by destruct Hi.
Qed.

(** C19: an ADD request for a ticker the exchange has goes to the book of that
    ticker under the next order id, which is counted up at the width of the type;
    the book does what its specification says, and nothing else changes; or the
    process exits because a pool of the book is used up. *)
Theorem addOrder_routes x t b A client_id side q lim :
  exchange_ok x → known x t b → BookHeap.book_rep b A → 0 ≤ q < 2 ^ 32 →
  (let '(fs, rem, A') := spec_add (next_order_id x) client_id side q lim b (env x) A in
   ∃ b', addOrder t client_id side q lim x =
           Done (tt, with_result t
             (OrderBook.mkSt b'
               (add_env t (next_order_id x) client_id side q lim fs rem (env x)))
             (set_next_order_id (u32 (next_order_id x + 1)) x)) ∧
         BookHeap.book_rep b' A') ∨
  addOrder t client_id side q lim x = Exited "Buffer is full.".
Proof.
  intros Hx Hb Hrep Hq. rewrite (addOrder_known _ _ b) by done. cbv zeta.
  destruct (xo_books _ Hx _ _ Hb) as (<- & _).
  destruct (add_cases (next_order_id x) client_id side q lim b (env x) A Hrep (xo_env _ Hx) Hq)
    as [Hd|[-> _]]; [left|by right].
  destruct (spec_add _ _ _ _ _ _ _ _) as [[fs rem] A']. destruct Hd as (b' & -> & Hrep' & _).
  by exists b'.
Qed.

(** A request for a ticker the exchange does not have is not rejected: the
    look-up enters a null pointer in the map and the call on it is undefined. *)
Theorem unknown_ticker_crashes x t client_id order_id side q lim :
  unknown x t →
  addOrder t client_id side q lim x = UB NullDeref ∧
  cancelOrder t client_id order_id side lim x = UB NullDeref.
Proof. intros Hu. split; [by apply addOrder_unknown|by apply cancelOrder_unknown]. Qed.

(** Turns of the loop of [run] serve the requests of the queue in order: as
    many turns as there are requests do what handling these requests one after the
    other does, faults included, and leave the queue empty. *)
Theorem run_serves_in_order x :
  LFQueue.wf (client_request_queue x) →
  ∃ p q, LFQueue.wf q ∧ LFQueue.contents q = [] ∧
    turns (length (LFQueue.contents (client_request_queue x))) x =
      map_state (reset p q) (handle_all (LFQueue.contents (client_request_queue x)) x).
Proof.
  intros Hq.
  destruct (turns_serve _ (next_request x) (client_request_queue x) x Hq eq_refl)
    as (p & q & Hwf & Hc & E).
  exists p, q. split_and!; [done..|]. rewrite <- E. by destruct x.
Qed.

(** C21: a turn of the loop of [run] keeps the invariant and does not fault when the
    oldest request, if there is one, is one the code handles properly
    ([good_request]: of a known ticker, and not a cancel of the last order of a level
    that is not linked): it takes that request off the queue and handles it, and
    does nothing when there is none; the only other outcome is the exit with
    "Buffer is full." on a pool that is used up. *)
Theorem run_turn_safe x :
  exchange_ok x →
  (∀ r rs, LFQueue.contents (client_request_queue x) = r :: rs → good_request x r) →
  (∃ x', run_body x = Done (tt, x') ∧ exchange_ok x' ∧
         LFQueue.contents (client_request_queue x') =
           tail (LFQueue.contents (client_request_queue x)) ∧
         match LFQueue.contents (client_request_queue x) with
         | [] => x' = set_next_request nullptr x
         | r :: _ => ∃ q, handle r (taken q x) = Done (tt, x')
         end) ∨
  run_body x = Exited "Buffer is full.".
Proof. intros Hx Hg. by apply turn_cases. Qed.

(** A request touches the book of its own ticker only. *)
Theorem requests_isolated r x x' t :
  handle r x = Done (tt, x') → t ≠ ClientRequest.ticker_id r →
  order_books_map x' !! t = order_books_map x !! t.
Proof. apply handle_other. Qed.

(** Order ids are given out one after the other: after the requests [rs] the
    counter has gone up by the number of ADD requests among them, round at 32
    bits, so that ids repeat only after [2 ^ 32] orders. *)
Theorem order_ids_consecutive rs x x' :
  0 ≤ next_order_id x < 2 ^ 32 → handle_all rs x = Done (tt, x') →
  next_order_id x' =
    u32 (next_order_id x +
         Z.of_nat (length (filter (λ r, ClientRequest.type r = RequestType.ADD) rs))).
Proof. intros Hi E. by apply handle_all_ids. Qed.
End results.

(** ** An exchange of the tickers 7 and 8 *)

#[local] Existing Instances small ticks.

Definition add_request (client : ClientIdT) (side : OrderSide) (q lim : Z) : ClientRequest :=
  ClientRequest.mk RequestType.ADD 7 client OrderId_INVALID side q lim.
Definition requests2 : LFQueue ClientRequest :=
  LFQueue.pushed (add_request 102 OrderSide.BUY 2 10)
    (LFQueue.pushed (add_request 101 OrderSide.SELL 5 10) (LFQueue.ctor ClientRequest.default 8)).

Definition made : outcome (unit * Exchange) :=
  ctor requests2 (LFQueue.ctor ClientResponse.default 32) (LFQueue.ctor MarketUpdate.default 32) [7].
Definition x0 : Exchange :=
  match made with
  | Done (_, x) => x
  | _ => mkExchange false 1 ∅ nullptr requests2 env0
  end.

Definition is_done {A} (o : outcome A) : bool := match o with Done _ => true | _ => false end.

Lemma x0_made : made = Done (tt, x0).
Proof. by vm_compute. Qed.

Lemma queue_ok {T} (d : T) n : (0 < n)%nat → LFQueue.wf (LFQueue.ctor d n).
Proof. apply LFQueue.ctor_wf. Qed.

Lemma requests2_wf : LFQueue.wf requests2.
Proof. apply LFQueue.pushed_wf, LFQueue.pushed_wf, LFQueue.ctor_wf. lia. Qed.

Lemma x0_known : known x0 7 (OrderBook.ctor 7).
Proof. by vm_compute. Qed.

Lemma x0_ok : exchange_ok x0.
Proof.
  split; [|split; apply queue_ok; lia|apply requests2_wf].
  intros t b Hk. destruct (decide (t = 7)) as [->|Hne].
  - unfold known in Hk. rewrite x0_known in Hk. injection Hk as <-. split; [done|].
    exists BookSpec.empty_book. apply ctor_rep; vm_compute; lia.
  - unfold known in Hk. exfalso. revert Hk.
    change (order_books_map x0) with ({[ 7 := Some (OrderBook.ctor 7) ]} : gmap Z (option OrderBook)).
    by rewrite lookup_singleton_ne.
Qed.

Lemma x0_contents : LFQueue.contents (client_request_queue x0) =
  [add_request 101 OrderSide.SELL 5 10; add_request 102 OrderSide.BUY 2 10].
Proof. by vm_compute. Qed.

Lemma ctor_sound_witness :
  (LFQueue.wf requests2 ∧ made = Done (tt, x0)) ∧
  exchange_ok x0 ∧ known x0 7 (OrderBook.ctor 7).
Proof.
  split; [split; [apply requests2_wf|apply x0_made]|].
  destruct (ctor_sound requests2 (LFQueue.ctor ClientResponse.default 32)
    (LFQueue.ctor MarketUpdate.default 32) [7] x0) as (Hok & _ & Hk);
    [vm_compute; lia|vm_compute; lia|apply requests2_wf|apply queue_ok; lia|apply queue_ok; lia
    |apply x0_made|].
  split; [done|]. apply Hk. by left.
Defined.

Lemma addOrder_routes_witness :
  (exchange_ok x0 ∧ known x0 7 (OrderBook.ctor 7) ∧
   BookHeap.book_rep (OrderBook.ctor 7) BookSpec.empty_book ∧ 0 ≤ 5 < 2 ^ 32) ∧
  ∃ x', addOrder 7 101 OrderSide.SELL 5 10 x0 = Done (tt, x') ∧ next_order_id x' = 2.
Proof.
  assert (BookHeap.book_rep (OrderBook.ctor 7) BookSpec.empty_book) as Hrep
    by (apply ctor_rep; vm_compute; lia).
  split; [split_and!; [apply x0_ok|apply x0_known|done|lia|lia]|].
  destruct (addOrder_routes x0 7 (OrderBook.ctor 7) BookSpec.empty_book 101 OrderSide.SELL 5 10
    x0_ok x0_known Hrep ltac:(lia)) as [Hd|Hx].
  - destruct (spec_add _ _ _ _ _ _ _ _) as [[fs rem] A']. destruct Hd as (b' & E & _).
    eexists. split; [exact E|done].
  - exfalso. assert (is_done (addOrder 7 101 OrderSide.SELL 5 10 x0) = true) as Hd by (by vm_compute).
    by rewrite Hx in Hd.
Defined.

Lemma unknown_ticker_crashes_witness :
  unknown x0 9 ∧ addOrder 9 101 OrderSide.SELL 5 10 x0 = UB NullDeref.
Proof.
  assert (unknown x0 9) as Hu by (left; by vm_compute).
  split; [done|]. apply (unknown_ticker_crashes x0 9 101 0 OrderSide.SELL 5 10 Hu).
Defined.

Definition both : list ClientRequest :=
  [add_request 101 OrderSide.SELL 5 10; add_request 102 OrderSide.BUY 2 10].
Definition x2 : Exchange := match handle_all both x0 with Done (_, x) => x | _ => x0 end.

Lemma x2_step : handle_all both x0 = Done (tt, x2).
Proof. by vm_compute. Qed.

Lemma x2_id : next_order_id x2 = 3.
Proof. by vm_compute. Qed.

Lemma reset_id p q x : next_order_id (reset p q x) = next_order_id x.
Proof. by destruct x. Qed.

Lemma run_serves_in_order_witness :
  LFQueue.wf (client_request_queue x0) ∧
  ∃ x', turns 2 x0 = Done (tt, x') ∧ LFQueue.contents (client_request_queue x') = [] ∧
        next_order_id x' = 3.
Proof.
  split; [apply requests2_wf|].
  destruct (run_serves_in_order x0 requests2_wf) as (p & q & _ & Hc & E).
  rewrite x0_contents in E. fold both in E. rewrite x2_step in E.
  exists (reset p q x2). split; [exact E|split; [exact Hc|]].
  exact (eq_trans (reset_id p q x2) x2_id).
Defined.

Lemma good_head x r0 rs0 :
  LFQueue.contents (client_request_queue x) = r0 :: rs0 → good_request x r0 →
  ∀ r rs, LFQueue.contents (client_request_queue x) = r :: rs → good_request x r.
Proof. intros E Hg r rs E'. rewrite E in E'. by injection E' as <- _. Qed.

Lemma run_turn_safe_witness :
  exchange_ok x0 ∧ good_request x0 (add_request 101 OrderSide.SELL 5 10) ∧
  ∃ x', run_body x0 = Done (tt, x') ∧ exchange_ok x'.
Proof.
  assert (good_request x0 (add_request 101 OrderSide.SELL 5 10)) as Hg
    by (split; [simpl; lia|exists (OrderBook.ctor 7); apply x0_known]).
  split; [apply x0_ok|split; [exact Hg|]].
  destruct (run_turn_safe x0 x0_ok (good_head _ _ _ x0_contents Hg)) as [(x' & E & Hok & _)|Hx].
  - exists x'. split; [exact E|exact Hok].
  - exfalso. assert (is_done (run_body x0) = true) as Hd by (by vm_compute).
    rewrite Hx in Hd. discriminate Hd.
Defined.

Definition x1 : Exchange :=
  match handle (add_request 101 OrderSide.SELL 5 10) x0 with Done (_, x) => x | _ => x0 end.

Lemma x1_step : handle (add_request 101 OrderSide.SELL 5 10) x0 = Done (tt, x1).
Proof. by vm_compute. Qed.

Lemma requests_isolated_witness :
  handle (add_request 101 OrderSide.SELL 5 10) x0 = Done (tt, x1) ∧ 8 ≠ 7 ∧
  order_books_map x1 !! 8 = order_books_map x0 !! 8.
Proof.
  split_and!; [apply x1_step|done|].
  apply (requests_isolated (add_request 101 OrderSide.SELL 5 10) x0 x1 8 x1_step). done.
Defined.

Lemma order_ids_consecutive_witness :
  0 ≤ next_order_id x0 < 2 ^ 32 ∧
  handle_all [add_request 101 OrderSide.SELL 5 10] x0 = Done (tt, x1) ∧ next_order_id x1 = 2.
Proof.
  assert (handle_all [add_request 101 OrderSide.SELL 5 10] x0 = Done (tt, x1)) as E
    by (simpl; by rewrite (bind_done _ _ _ _ _ x1_step)).
  split_and!; [by vm_compute|by vm_compute|done|].
  apply (order_ids_consecutive [add_request 101 OrderSide.SELL 5 10] x0 x1);
    [vm_compute; by split|done].
Defined.
End ExchangeResults.
