(* ===== verification/ExchangeThreads.v ===== *)
(** cppexchange.h with its threads: [start] sets the flag and starts the thread
    that runs [run], [stop] clears the flag and joins it, clients push requests.
    [act_step] is one step of one of them: a command of the main thread up to the
    next point where it may wait, a test of the flag or a turn of the loop of
    [run], a push; [exec] and [run_of] are their interleavings.

    A turn and a push are single steps: QueueThreads.v shows that the queue between
    the two threads behaves as if its calls took effect at one instant, and nothing
    else of the exchange is shared but the flag.  The flag, a plain bool in the code, is
    read and written here as an atomic; FlagRace.v adds to these steps an account of
    what the C++ standard says of the plain bool. *)

From S2P Require Import Prelude Types Memory ObjectPool PriceLevel LFQueue TimeUtils.
From S2P Require Import OrderBook BookHeap Exchange ExchangeProps Runs.

Module ExchangeThreads.
Import Exchange ExchangeProps.

Section threads.
Context `{Constants, Clock}.
Implicit Types (x y : Exchange).

(** ** The threads *)

(** The thread of the exchange: before the test of [running], in the loop, done. *)
Inductive runner := R_test | R_body | R_done.

(** The thread that owns the exchange: between calls, in [start] after the flag is
    set, in [stop] after it is cleared. *)
Inductive owner := M_idle | M_start | M_join.

(** [run_thread] is joinable when there is a runner. *)
Record live := mkLive { exch : Exchange; run_thread : option runner; owner_at : owner }.

(** How the process ends: [std::terminate] by the assignment to a joinable thread,
    the exception of joining a thread that is not joinable, an exit, a fault. *)
Inductive ending := Terminate | SystemError | Exit (msg : string) | Undefined (f : fault).

Inductive process := Live (s : live) | Ended (e : ending).

Inductive command := Start | Stop.
Inductive act := Owner (c : command) | Runner | Client (r : ClientRequest).

(** The state after a computation that only changes the state. *)
Definition after (m : M Exchange unit) x : Exchange :=
  match m x with Done (_, x') => x' | _ => x end.

(** [start] and [stop]; [None] while the thread waits. *)
Definition owner_step (c : command) (s : live) : option process :=
  match owner_at s with
  | M_idle =>
      Some (Live match c with
                 | Start => mkLive (after start (exch s)) (run_thread s) M_start
                 | Stop => mkLive (after stop (exch s)) (run_thread s) M_join
                 end)
  | M_start =>
      Some match run_thread s with
           | None => Live (mkLive (exch s) (Some R_test) M_idle)
           | Some _ => Ended Terminate
           end
  | M_join =>
      match run_thread s with
      | None => Some (Ended SystemError)
      | Some R_done => Some (Live (mkLive (exch s) None M_idle))
      | Some _ => None
      end
  end.

(** [run]: the test of the loop and its body. *)
Definition runner_step (s : live) : option process :=
  match run_thread s with
  | None | Some R_done => None
  | Some R_test =>
      Some (Live (mkLive (exch s) (Some (if running (exch s) then R_body else R_done)) (owner_at s)))
  | Some R_body =>
      match run_body (exch s) with
      | Done (_, x) => Some (Live (mkLive x (Some R_test) (owner_at s)))
      | Exited m => Some (Ended (Exit m))
      | UB f => Some (Ended (Undefined f))
      | Timeout => None
      end
  end.

Definition client_step (r : ClientRequest) (s : live) : option process :=
  match in_requests (LFQueue.push r) (exch s) with
  | Done (_, x) => Some (Live (mkLive x (run_thread s) (owner_at s)))
  | Exited m => Some (Ended (Exit m))
  | UB f => Some (Ended (Undefined f))
  | Timeout => None
  end.

Definition act_step (a : act) (s : live) : option process :=
  match a with
  | Owner c => owner_step c s
  | Runner => runner_step s
  | Client r => client_step r s
  end.

(** ** Interleavings *)

Definition requests (s : live) : list ClientRequest :=
  LFQueue.contents (client_request_queue (exch s)).

(** A client pushes while there is room. *)
Definition disciplined (a : act) (s : live) : Prop :=
  ∀ r, a = Client r → length (requests s) < LFQueue.capacity (client_request_queue (exch s)).

Inductive exec : live → list act → process → Prop :=
| exec_nil s : exec s [] (Live s)
| exec_step s acts s' a p :
    exec s acts (Live s') → disciplined a s' → act_step a s' = Some p →
    exec s (acts ++ [a]) p.

(** The requests pushed. *)
Definition pushed (acts : list act) : list ClientRequest :=
  omap (λ a, match a with Client r => Some r | _ => None end) acts.

(** An infinite run; a thread may also do nothing for a while. *)
Definition run_of (σ : nat → process) (l : nat → option act) : Prop :=
  ∀ n, match σ n with
       | Ended e => σ (S n) = Ended e
       | Live s =>
           match l n with
           | None => σ (S n) = Live s
           | Some a => disciplined a s ∧ act_step a s = Some (σ (S n))
           end
       end.

(** Weak fairness: a thread that can go on does so after a while. *)
Definition runner_turn (σ : nat → process) (l : nat → option act) (n : nat) : Prop :=
  l n = Some Runner ∨ ∀ s, σ n = Live s → runner_step s = None.
Definition owner_turn (σ : nat → process) (l : nat → option act) (n : nat) : Prop :=
  (∃ c, l n = Some (Owner c)) ∨
  ∀ s, σ n = Live s → owner_at s = M_idle ∨ owner_step Start s = None.
Definition fair (σ : nat → process) (l : nat → option act) : Prop :=
  Runs.infinitely_often (runner_turn σ l) ∧ Runs.infinitely_often (owner_turn σ l).

(** ** What the threads serve *)

(** The part of the state that requests work on, from [y]; the rest from [x]. *)
Definition frame x y : Exchange :=
  mkExchange (running x) (next_order_id y) (order_books_map y) (next_request x)
    (client_request_queue x) (env y).

(** Two states that agree on the part of [y]. *)
Lemma frame_other x x' y :
  x = frame x y → next_order_id x' = next_order_id x → order_books_map x' = order_books_map x →
  env x' = env x → x' = frame x' y.
Proof.
  intros Hf E1 E2 E3. rewrite Hf in E1, E2, E3. simpl in *. unfold frame.
  rewrite <- E1, <- E2, <- E3. by destruct x'.
Qed.

Lemma handle_frame r x y : handle r (frame x y) = map_state (frame x) (handle r y).
Proof.
  unfold handle. destruct (ClientRequest.type r); [done|..];
    destruct (known_or_unknown y (ClientRequest.ticker_id r)) as [[b Hb]|Hu].
  - rewrite (addOrder_known y _ b), (addOrder_known (frame x y) _ b) by done.
    change (next_order_id (frame x y)) with (next_order_id y).
    change (env (frame x y)) with (env y). cbv zeta.
    by destruct (OrderBook.add _ _ _ _ _ _) as [[[] s]| | |].
  - by rewrite !addOrder_unknown.
  - rewrite (cancelOrder_known y _ b), (cancelOrder_known (frame x y) _ b) by done.
    change (env (frame x y)) with (env y).
    by destruct (OrderBook.cancel _ _ _ _ _) as [[[] s]| | |].
  - by rewrite !cancelOrder_unknown.
Qed.

Lemma handle_all_snoc rs r x : handle_all (rs ++ [r]) x = (handle_all rs;; handle r) x.
Proof.
  revert x. induction rs as [|r' rs IH]; intros x; simpl.
  - rewrite bind_ret. unfold mbind, M_bind. by destruct (handle r x) as [[[] ?]| | |].
  - unfold mbind, M_bind in *. destruct (handle r' x) as [[[] x1]| | |]; [|done..]. apply IH.
Qed.

(** The first of the requests [rs], served one after the other, make the state of [s]
    from [x]; those not served yet are in the queue. *)
Definition served_by x (rs : list ClientRequest) (s : live) : Prop :=
  ∃ served y, handle_all served x = Done (tt, y) ∧ rs = served ++ requests s ∧
    exch s = frame (exch s) y ∧ LFQueue.wf (client_request_queue (exch s)).

(** The states in which a call of the owner ends the process: [start] when the last
    thread was not joined, [stop] when there is no thread to join. *)
Definition misused (e : ending) (s : live) : Prop :=
  match e with
  | Terminate => owner_at s = M_start ∧ run_thread s ≠ None
  | SystemError => owner_at s = M_join ∧ run_thread s = None
  | _ => False
  end.

(** [p] is what serving the first of the requests [rs] makes of [x]: a state after
    some of them, the exit or fault of the next, or the end by a misuse of [start]
    and [stop] in such a state. *)
Definition explained x (rs : list ClientRequest) (p : process) : Prop :=
  match p with
  | Live s => served_by x rs s
  | Ended (Exit m) => ∃ served, served `prefix_of` rs ∧ handle_all served x = Exited m
  | Ended (Undefined f) => ∃ served, served `prefix_of` rs ∧ handle_all served x = UB f
  | Ended e => ∃ s, served_by x rs s ∧ misused e s
  end.

Lemma runner_explained x rs s p :
  explained x rs (Live s) → runner_step s = Some p → explained x rs p.
Proof.
  intros (served & y & Hy & -> & Hf & Hwf) E. unfold runner_step in E.
  destruct (run_thread s) as [[]|]; [..|done|done].
  { injection E as <-. by exists served, y. }
  destruct (requests s) as [|r rs] eqn:Hr.
  - rewrite (run_body_idle _ Hwf Hr) in E. injection E as <-. exists served, y.
    unfold requests in *. simpl. rewrite Hr. split_and!; [done|done| |done].
    by apply (frame_other _ _ _ Hf).
  - destruct (run_body_serves _ r rs Hwf Hr) as (q & Eb & Hq & Hc). rewrite Eb in E.
    assert (handle_all (served ++ [r]) x = handle r y) as Hs
      by (rewrite handle_all_snoc; by rewrite (bind_done _ _ _ _ _ Hy)).
    assert (served ++ [r] `prefix_of` served ++ r :: rs) as Hpre
      by (apply prefix_app; by exists rs).
    assert (taken q (exch s) = frame (taken q (exch s)) y) as Ht
      by (by apply (frame_other _ _ _ Hf)).
    rewrite Ht, handle_frame in E.
    destruct (handle r y) as [[[] y']|m|f|]; simpl in E;
      [|injection E as <-; by eexists..|done]. injection E as <-.
    exists (served ++ [r]), y'. unfold requests. simpl. rewrite Hc, <- app_assoc. done.
Qed.

Lemma owner_explained x rs c s p :
  explained x rs (Live s) → owner_step c s = Some p → explained x rs p.
Proof.
  intros (served & y & Hy & -> & Hf & Hwf) E.
  assert (∀ b t m, explained x (served ++ requests s) (Live (mkLive (set_running b (exch s)) t m)))
    as Hset.
  { intros b t m. exists served, y. split_and!; [done|done| |done].
    by apply (frame_other _ _ _ Hf). }
  assert (∀ t m, explained x (served ++ requests s) (Live (mkLive (exch s) t m))) as Hsame
    by (intros t m; by exists served, y).
  unfold owner_step in E. destruct (owner_at s) eqn:Hm.
  - injection E as <-. destruct c; apply Hset.
  - injection E as <-. destruct (run_thread s) eqn:Ht; [|apply Hsame].
    exists s. split; [by exists served, y|]. by split; [|rewrite Ht].
  - destruct (run_thread s) as [[]|] eqn:Ht; try done; injection E as <-; [apply Hsame|].
    exists s. split; [by exists served, y|done].
Qed.

Lemma client_explained x rs r s p :
  explained x rs (Live s) → disciplined (Client r) s → client_step r s = Some p →
  explained x (rs ++ [r]) p.
Proof.
  intros (served & y & Hy & -> & Hf & Hwf) Hd E. unfold client_step, in_requests in E.
  rewrite (zoom_done _ _ _ _ _ _ (LFQueue.push_run r _ Hwf)) in E. injection E as <-.
  exists served, y. unfold requests. simpl.
  rewrite LFQueue.pushed_contents by (done || by apply (Hd r)).
  split_and!; [done|by rewrite app_assoc| |by apply LFQueue.pushed_wf].
  by apply (frame_other _ _ _ Hf).
Qed.

Lemma exec_explained x rs s acts p :
  explained x rs (Live s) → exec s acts p → explained x (rs ++ pushed acts) p.
Proof.
  intros Hs. induction 1 as [s|s acts s' a p _ IH Hd E]; [by rewrite app_nil_r|].
  specialize (IH Hs). unfold pushed in *. rewrite omap_app, app_assoc.
  destruct a as [c| |r]; simpl; rewrite ?app_nil_r.
  - by eapply owner_explained.
  - by eapply runner_explained.
  - by eapply client_explained.
Qed.

(** An ended process ended by the last step. *)
Lemma exec_ended s acts e :
  exec s acts (Ended e) →
  ∃ acts' a s', acts = acts' ++ [a] ∧ exec s acts' (Live s') ∧ act_step a s' = Some (Ended e).
Proof. inversion 1; subst. eauto 10. Qed.

(** [Terminate] and [SystemError] are steps of the owner in a state of misuse. *)
Lemma act_misused a s e :
  act_step a s = Some (Ended e) → e = Terminate ∨ e = SystemError →
  (∃ c, a = Owner c) ∧ misused e s.
Proof.
  intros E He. destruct a as [c| |r]; simpl in E.
  - split; [by exists c|]. unfold owner_step in E.
    destruct (owner_at s) eqn:Hm; [done|..]; destruct (run_thread s) as [[]|] eqn:Ht;
      try done; injection E as <-; simpl; rewrite ?Ht; done.
  - exfalso. unfold runner_step in E. destruct (run_thread s) as [[]|]; try done.
    destruct (run_body (exch s)) as [[[] x]| | |]; try done; injection E as <-; by destruct He.
  - exfalso. unfold client_step in E.
    destruct (in_requests _ _) as [[[] x]| | |]; try done; injection E as <-; by destruct He.
Qed.

(** ** The join of [stop] *)

Definition invariant (s : live) : Prop :=
  exchange_ok (exch s) ∧ (owner_at s = M_join → running (exch s) = false).

(** The requests that are served are ones the code handles properly. *)
Definition serves_good (p : process) : Prop :=
  ∀ s r rs, p = Live s → run_thread s = Some R_body → requests s = r :: rs →
    good_request (exch s) r.

Lemma handle_running r x x' : handle r x = Done (tt, x') → running x' = running x.
Proof.
  intros E. pose proof (handle_frame r x x) as Hf. replace (frame x x) with x in Hf by (by destruct x).
  rewrite E in Hf. simpl in Hf. by injection Hf as ->.
Qed.

Lemma runner_invariant s p :
  invariant s → serves_good (Live s) → runner_step s = Some p →
  (∃ s', p = Live s' ∧ invariant s' ∧ owner_at s' = owner_at s ∧ running (exch s') = running (exch s))
  ∨ p = Ended (Exit "Buffer is full.").
Proof.
  intros [Hx Hj] Hg E. unfold runner_step in E.
  destruct (run_thread s) as [[]|] eqn:Ht; [..|done|done].
  { injection E as <-. left. by eexists. }
  pose proof (xo_queue _ Hx) as Hq. destruct (requests s) as [|r rs] eqn:Hr.
  - rewrite (run_body_idle _ Hq Hr) in E. injection E as <-. left. eexists.
    split_and!; [done| |done|done]. split; [|exact Hj]. by destruct Hx; split.
  - destruct (run_body_serves _ r rs Hq Hr) as (q & Eb & Hwf & _). rewrite Eb in E.
    assert (exchange_ok (taken q (exch s))) as Hx' by (by destruct Hx; split).
    destruct (handle_ok (taken q (exch s)) r Hx' (Hg s r rs eq_refl Ht Hr)) as [(x' & E' & Hok)|E'];
      rewrite E' in E; injection E as <-; [left|by right].
    pose proof (handle_running _ _ _ E') as Hrun. simpl in Hrun.
    eexists. split_and!; [done| |done|done]. split; [done|]. simpl. by rewrite Hrun.
Qed.

Lemma runner_enabled s :
  invariant s → serves_good (Live s) → run_thread s = Some R_test ∨ run_thread s = Some R_body →
  runner_step s ≠ None.
Proof.
  intros [Hx Hj] Hg Ht E. unfold runner_step in E. destruct Ht as [Ht|Ht]; rewrite Ht in E; [done|].
  pose proof (xo_queue _ Hx) as Hq. destruct (requests s) as [|r rs] eqn:Hr.
  - by rewrite (run_body_idle _ Hq Hr) in E.
  - destruct (run_body_serves _ r rs Hq Hr) as (q & Eb & Hwf & _). rewrite Eb in E.
    assert (exchange_ok (taken q (exch s))) as Hx' by (by destruct Hx; split).
    by destruct (handle_ok (taken q (exch s)) r Hx' (Hg s r rs eq_refl Ht Hr)) as [(x' & E' & Hok)|E'];
      rewrite E' in E.
Qed.

Lemma client_invariant r s p :
  invariant s → client_step r s = Some p →
  ∃ s', p = Live s' ∧ invariant s' ∧ owner_at s' = owner_at s ∧ run_thread s' = run_thread s.
Proof.
  intros [Hx Hj] E. unfold client_step, in_requests in E.
  rewrite (zoom_done _ _ _ _ _ _ (LFQueue.push_run r _ (xo_queue _ Hx))) in E.
  injection E as <-. eexists. split_and!; [done| |done|done]. split; [|exact Hj].
  destruct Hx. split; [done|done|]. by apply LFQueue.pushed_wf.
Qed.

(** [stop] waits for a runner that tests the flag or is in a turn, with [v] steps of
    the runner to go. *)
Definition stopping (v : nat) (p : process) : Prop :=
  ∃ s, p = Live s ∧ invariant s ∧ owner_at s = M_join ∧
    ((run_thread s = Some R_test ∧ v = 1) ∨ (run_thread s = Some R_body ∧ v = 2)).
Definition finished (p : process) : Prop :=
  (∃ s, p = Live s ∧ invariant s ∧ owner_at s = M_join ∧ run_thread s = Some R_done) ∨
  p = Ended (Exit "Buffer is full.").
(** The join has returned, or a pool was used up in the last turn. *)
Definition stopped (p : process) : Prop :=
  (∃ s, p = Live s ∧ exchange_ok (exch s) ∧ owner_at s = M_idle ∧ run_thread s = None) ∨
  p = Ended (Exit "Buffer is full.").

Section runs.
Context (σ : nat → process) (l : nat → option act).
Context (Hrun : run_of σ l) (Hgood : ∀ n, serves_good (σ n)).

Lemma stopping_progress : Runs.progress σ (runner_turn σ l) stopping finished.
Proof.
  intros n v (s & Hs & Hi & Hm & Ht). pose proof (Hrun n) as Hn. pose proof (Hgood n) as Hg.
  rewrite Hs in Hn, Hg.
  assert (runner_turn σ l n → l n = Some Runner) as Hturn.
  { intros [?|Hno]; [done|]. exfalso. apply (runner_enabled s Hi Hg); [|by apply Hno].
    destruct Ht as [[? _]|[? _]]; eauto. }
  destruct (l n) as [[c| |r]|] eqn:Hl.
  - destruct Hn as [_ E]. exfalso. unfold act_step, owner_step in E.
    rewrite Hm in E. by destruct Ht as [[Ht _]|[Ht _]]; rewrite Ht in E.
  - destruct Hn as [_ E]. simpl in E.
    destruct (runner_invariant s _ Hi Hg E) as [(s' & Hp & Hi' & Hm' & Hr)|Hp]; [|left; by right].
    unfold runner_step in E. destruct Ht as [[Ht ->]|[Ht ->]]; rewrite Ht in E.
    + left. left. exists s'. rewrite (proj2 Hi Hm), Hp in E. injection E as E.
      split_and!; [done|done|by rewrite Hm'|by subst s'].
    + right. exists 1. split; [|split; [lia|intros _; lia]]. exists s'.
      split_and!; [done|done|by rewrite Hm'|]. left. split; [|done].
      destruct (run_body (exch s)) as [[[] x]| | |]; try done; injection E as E.
      * rewrite <- E in Hp. by injection Hp as <-.
      * by rewrite <- E in Hp.
      * by rewrite <- E in Hp.
  - destruct Hn as [_ E]. destruct (client_invariant r s _ Hi E) as (s' & Hp & Hi' & Hm' & Ht').
    right. exists v. split; [|split; [lia|intros Hx%Hturn; done]]. exists s'.
    by rewrite Hm', Ht'.
  - right. exists v. split; [|split; [lia|intros Hx%Hturn; done]]. exists s.
    split_and!; done.
Qed.

Lemma finished_progress :
  Runs.progress σ (owner_turn σ l) (λ _, finished) stopped.
Proof.
  intros n v [(s & Hs & Hi & Hm & Ht)|Hs]; pose proof (Hrun n) as Hn; rewrite Hs in Hn;
    [|left; by right].
  assert (owner_turn σ l n → ∃ c, l n = Some (Owner c)) as Hturn.
  { intros [?|Hno]; [done|]. exfalso. destruct (Hno s Hs) as [Hidle|E]; [congruence|].
    unfold owner_step in E. by rewrite Hm, Ht in E. }
  assert (finished (σ (S n)) → (∀ c, l n ≠ Some (Owner c)) →
    stopped (σ (S n)) ∨ ∃ v', finished (σ (S n)) ∧ v' ≤ v ∧ (owner_turn σ l n → v' < v)) as Hstay.
  { intros Hf Hl. right. exists v. split; [done|]. split; [done|].
    intros [c Hc]%Hturn. by destruct (Hl c). }
  destruct (l n) as [[c| |r]|] eqn:Hl.
  - destruct Hn as [_ E]. left. left. unfold act_step, owner_step in E. rewrite Hm, Ht in E.
    injection E as <-. eexists. split_and!; [done|apply Hi|done|done].
  - destruct Hn as [_ E]. unfold act_step, runner_step in E. by rewrite Ht in E.
  - destruct Hn as [_ E]. destruct (client_invariant r s _ Hi E) as (s' & Hp & Hi' & Hm' & Ht').
    apply Hstay; [|done]. left. exists s'. by rewrite Hm', Ht'.
  - apply Hstay; [|done]. rewrite Hn. left. by exists s.
Qed.

Lemma join_returns n s :
  fair σ l → σ n = Live s → invariant s → owner_at s = M_join → run_thread s ≠ None →
  ∃ m, n ≤ m ∧ stopped (σ m).
Proof.
  intros [Hfr Hfo] Hs Hi Hm Ht.
  assert (∃ m, n ≤ m ∧ finished (σ m)) as (m & Hle & Hf).
  { destruct (run_thread s) as [[]|] eqn:E; [..|done].
    - apply (Runs.leads_to _ _ _ _ n 1 Hfr stopping_progress). exists s. eauto 10.
    - apply (Runs.leads_to _ _ _ _ n 2 Hfr stopping_progress). exists s. eauto 10.
    - exists n. split; [done|]. left. by exists s. }
  destruct (Runs.leads_to _ _ _ _ m 0 Hfo finished_progress Hf) as (m' & Hle' & Hst).
  exists m'. split; [lia|done].
Qed.
(** The call of [stop] leaves the flag cleared and waits for the runner. *)
Lemma stop_waits s :
  exchange_ok (exch s) → owner_at s = M_idle →
  ∃ s', act_step (Owner Stop) s = Some (Live s') ∧ invariant s' ∧ owner_at s' = M_join ∧
    run_thread s' = run_thread s.
Proof.
  intros Hx Hm. unfold act_step, owner_step. rewrite Hm. eexists. split_and!; [done| |done|done].
  split; [|done]. by destruct Hx; split.
Qed.

Lemma stop_call_returns n s :
  fair σ l → σ n = Live s → exchange_ok (exch s) → owner_at s = M_idle →
  run_thread s ≠ None → l n = Some (Owner Stop) → ∃ m, n < m ∧ stopped (σ m).
Proof.
  intros Hfair Hs Hx Hm Ht Hl. destruct (stop_waits s Hx Hm) as (s' & E & Hi & Hm' & Ht').
  pose proof (Hrun n) as Hn. rewrite Hs, Hl, E in Hn. destruct Hn as [_ [= Hn]].
  destruct (join_returns (S n) s' Hfair (eq_sym Hn) Hi Hm') as (m & Hle & Hst); [congruence|].
  exists m. split; [lia|done].
Qed.
End runs.
End threads.
End ExchangeThreads.
