(* ===== verification/Benchmark.v ===== *)
(** standalone/benchmark_exchange_mt.cpp: a program that runs the exchange against a
    thread that sends requests and one that counts the responses.

    Four threads take steps: [main], the producer, the consumer and the thread of the
    exchange, which is that of ExchangeThreads.v.  A step is a call on a queue or one
    access to the atomics; QueueThreads.v says that calls on a queue may be seen as
    single steps.  The numbers of the program are a class, as are the limits of
    constants.h; [NUM_PRODUCERS] is 1.  Nobody pops the queue of market updates, which
    wraps round.  What is printed, and the statistics on the latencies, are left
    out. *)

From S2P Require Import Prelude Types LFQueue TimeUtils OrderBook Exchange ExchangeThreads.

Module Benchmark.
Import ExchangeThreads.

Class Sizes := {
  TOTAL_ORDERS : nat;
  MAX_IN_FLIGHT : nat;
  WARMUP_ORDERS : nat;
  Q : nat;
}.

Definition Sizes_code : Sizes := {|
  TOTAL_ORDERS := Z.to_nat 5000000;
  MAX_IN_FLIGHT := 1;
  WARMUP_ORDERS := Z.to_nat 5000;
  Q := Z.to_nat (Z.shiftl 1 21);
|}.

(** The steady clock: its readings, in nanoseconds. *)
Class SteadyClock := { now_ns : nat → Z }.

Definition ticker_id : TickerIdT := 0%Z.
Definition order_request (p : nat) : ClientRequest :=
  ClientRequest.mk RequestType.ADD ticker_id (u32 (Z.of_nat p)) OrderId_INVALID OrderSide.BUY 1%Z 100%Z.

(** Where [main] is: before [exchange.start()] and in it, in the warm-up before the
    [i]-th push and in the loop that waits for its response, before [go] is set, in
    the two joins, before [exchange.stop()] and in it, and at the end. *)
Inductive main :=
| B_start
| B_started
| B_push (i : nat)
| B_wait (i : nat)
| B_go
| B_join_producer
| B_join_consumer
| B_stop
| B_stopped
| B_done.

(** Not started; in the loop on [go]; in the loop on the number of requests in
    flight, before the load of [sent] and, with the value loaded, before the load of
    [received]; before [sent.fetch_add]; before the store to [send_ts]; before the
    push.  The code leaves the order of the two loads open; only the producer writes
    [sent], so the value it loads is the same in either order. *)
Inductive producer :=
| P_none
| P_go
| P_wait
| P_room (n : nat)
| P_take
| P_time (idx : nat)
| P_push
| P_done.

(** Not started; in the loop on [go]; before the test of the loop, the pop, the
    reading of the clock, [received.fetch_add], the reading of the response. *)
Inductive consumer :=
| C_none
| C_go
| C_test
| C_pop
| C_time (resp : ptr)
| C_count (resp : ptr) (t1 : Z)
| C_read (resp : ptr) (t1 : Z)
| C_done.

Record bench := mkBench {
  sys : live;
  at_main : main;
  prod : producer;
  cons : consumer;
  send_ts : list Z;
  latencies : list Z;
  sent : nat;
  received : nat;
  go : bool;
  readings : nat;
}.

Definition set_sys x s := mkBench x (at_main s) (prod s) (cons s) (send_ts s) (latencies s)
  (sent s) (received s) (go s) (readings s).
Definition set_main pc s := mkBench (sys s) pc (prod s) (cons s) (send_ts s) (latencies s)
  (sent s) (received s) (go s) (readings s).
Definition set_prod pc s := mkBench (sys s) (at_main s) pc (cons s) (send_ts s) (latencies s)
  (sent s) (received s) (go s) (readings s).
Definition set_cons pc s := mkBench (sys s) (at_main s) (prod s) pc (send_ts s) (latencies s)
  (sent s) (received s) (go s) (readings s).
Definition set_send_ts l s := mkBench (sys s) (at_main s) (prod s) (cons s) l (latencies s)
  (sent s) (received s) (go s) (readings s).
Definition set_latencies l s := mkBench (sys s) (at_main s) (prod s) (cons s) (send_ts s) l
  (sent s) (received s) (go s) (readings s).
Definition set_sent n s := mkBench (sys s) (at_main s) (prod s) (cons s) (send_ts s) (latencies s)
  n (received s) (go s) (readings s).
Definition set_received n s := mkBench (sys s) (at_main s) (prod s) (cons s) (send_ts s)
  (latencies s) (sent s) n (go s) (readings s).
Definition set_go b s := mkBench (sys s) (at_main s) (prod s) (cons s) (send_ts s) (latencies s)
  (sent s) (received s) b (readings s).
Definition set_readings n s := mkBench (sys s) (at_main s) (prod s) (cons s) (send_ts s)
  (latencies s) (sent s) (received s) (go s) n.

(** What a step leads to; [None] in place of it while the thread is blocked or has
    ended. *)
Inductive result := Running (s : bench) | Crashed (e : ending).

Section steps.
Context `{Constants, Clock, Sizes, SteadyClock}.

(** A step of the exchange or of the thread that owns it, then [k]. *)
Definition in_sys (s : bench) (p : option process) (k : bench → bench) : option result :=
  match p with
  | Some (Live x) => Some (Running (k (set_sys x s)))
  | Some (Ended e) => Some (Crashed e)
  | None => None
  end.

(** A call on the queue of responses. *)
Definition in_responses {A} : M (LFQueue ClientResponse) A → M Exchange A :=
  zoom (λ x, OrderBook.client_response_queue (Exchange.env x))
    (λ q x, Exchange.set_env
       (OrderBook.mkEnv q (OrderBook.market_update_queue (Exchange.env x))
          (OrderBook.next_trade_id (Exchange.env x)) (OrderBook.clock_reads (Exchange.env x))) x).

Definition on_responses {A} (s : bench) (m : M (LFQueue ClientResponse) A)
    (k : A → bench → bench) : option result :=
  match in_responses m (exch (sys s)) with
  | Done (a, x) => Some (Running (k a (set_sys (mkLive x (run_thread (sys s)) (owner_at (sys s))) s)))
  | Exited m => Some (Crashed (Exit m))
  | UB f => Some (Crashed (Undefined f))
  | Timeout => None
  end.

Definition main_step (s : bench) : option result :=
  match at_main s with
  | B_start => in_sys s (owner_step Start (sys s)) (set_main B_started)
  | B_started => in_sys s (owner_step Start (sys s)) (set_main (B_push 0))
  | B_push i =>
      if decide (i < WARMUP_ORDERS)
      then in_sys s (client_step (order_request 0) (sys s)) (set_main (B_wait i))
      else Some (Running (set_main B_go (set_prod P_go (set_cons C_go
             (set_send_ts (replicate TOTAL_ORDERS 0%Z) s)))))
  | B_wait i =>
      on_responses s LFQueue.pop (λ p, set_main (if decide (p = nullptr) then B_wait i else B_push (S i)))
  | B_go => Some (Running (set_main B_join_producer (set_go true s)))
  | B_join_producer =>
      match prod s with P_done => Some (Running (set_main B_join_consumer s)) | _ => None end
  | B_join_consumer =>
      match cons s with C_done => Some (Running (set_main B_stop s)) | _ => None end
  | B_stop => in_sys s (owner_step Stop (sys s)) (set_main B_stopped)
  | B_stopped => in_sys s (owner_step Stop (sys s)) (set_main B_done)
  | B_done => None
  end.

(** [sent - received], after [n] was loaded from [sent]; the counters are of type
    [size_t]. *)
Definition in_flight (n : nat) (s : bench) : Z := u64 (Z.of_nat n - Z.of_nat (received s)).

Definition producer_step (s : bench) : option result :=
  match prod s with
  | P_none | P_done => None
  | P_go => Some (Running (set_prod (if go s then P_wait else P_go) s))
  | P_wait => Some (Running (set_prod (P_room (sent s)) s))
  | P_room n =>
      Some (Running (set_prod
        (if decide (Z.of_nat MAX_IN_FLIGHT ≤ in_flight n s)%Z then P_wait else P_take) s))
  | P_take =>
      Some (Running (set_prod (if decide (TOTAL_ORDERS ≤ sent s) then P_done else P_time (sent s))
        (set_sent (S (sent s)) s)))
  | P_time idx =>
      Some (if decide (idx < length (send_ts s))
            then Running (set_prod P_push (set_readings (S (readings s))
                   (set_send_ts (<[idx := now_ns (readings s)]> (send_ts s)) s)))
            else Crashed (Undefined IndexOutOfRange))
  | P_push => in_sys s (client_step (order_request 0) (sys s)) (set_prod P_wait)
  end.

(** What the consumer does with a response. *)
Definition record (resp : ClientResponse) (t1 : Z) (s : bench) : result :=
  if decide (ClientResponse.type resp ≠ ResponseType.ACCEPTED) then Running s
  else
    let oid0 := Z.to_nat (u32 (ClientResponse.order_id resp - 1)) in
    if decide (oid0 < WARMUP_ORDERS) then Running s
    else
      let idx := oid0 - WARMUP_ORDERS in
      if decide (TOTAL_ORDERS ≤ idx) then Running s
      else match send_ts s !! idx with
           | Some t => Running (set_latencies (latencies s ++ [t1 - t]%Z) s)
           | None => Crashed (Undefined IndexOutOfRange)
           end.

Definition consumer_step (s : bench) : option result :=
  match cons s with
  | C_none | C_done => None
  | C_go => Some (Running (set_cons (if go s then C_test else C_go) s))
  | C_test =>
      Some (Running (set_cons (if decide (received s < TOTAL_ORDERS) then C_pop else C_done) s))
  | C_pop => on_responses s LFQueue.pop (λ p, set_cons (C_time p))
  | C_time p =>
      Some (Running (set_cons
        (if decide (p = nullptr) then C_test else C_count p (now_ns (readings s)))
        (set_readings (S (readings s)) s)))
  | C_count p t1 => Some (Running (set_cons (C_read p t1) (set_received (S (received s)) s)))
  | C_read p t1 =>
      match in_responses (LFQueue.item_at p) (exch (sys s)) with
      | Done (resp, _) => Some (record resp t1 (set_cons C_test s))
      | Exited m => Some (Crashed (Exit m))
      | UB f => Some (Crashed (Undefined f))
      | Timeout => None
      end
  end.

Definition exchange_step (s : bench) : option result := in_sys s (runner_step (sys s)) id.

(** ** Runs *)

Inductive thread := Main | Producer | Consumer | Runner.

#[export] Instance thread_eq_dec : EqDecision thread.
Proof. solve_decision. Defined.

Definition thread_step (t : thread) : bench → option result :=
  match t with
  | Main => main_step
  | Producer => producer_step
  | Consumer => consumer_step
  | Runner => exchange_step
  end.

(** The constructed exchange and the threads before their first step. *)
Definition initial (x : Exchange) : bench :=
  mkBench (mkLive x None M_idle) B_start P_none C_none [] [] 0 0 false 0.

Definition constructed : outcome (unit * Exchange) :=
  Exchange.ctor (LFQueue.ctor ClientRequest.default Q) (LFQueue.ctor ClientResponse.default Q)
    (LFQueue.ctor MarketUpdate.default Q) [ticker_id].

(** The state after a turn of [t]; a thread that is blocked lets its turn pass. *)
Definition turn (t : thread) (r : result) : result :=
  match r with
  | Running s => match thread_step t s with Some r => r | None => Running s end
  | Crashed e => Crashed e
  end.

(** The states when the scheduler [l] gives out the turns. *)
Fixpoint scheduled (l : nat → thread) (r : result) (n : nat) : result :=
  match n with
  | O => r
  | S n => turn (l n) (scheduled l r n)
  end.
End steps.
End Benchmark.
