(* ===== verification/BenchmarkProps.v ===== *)
(** Lemmas on the benchmark: the exchange while it gets bids of one price, the
    invariant of the four threads, and the progress of a fair run. *)

From S2P Require Import Prelude Types Memory ObjectPool PriceLevel LFQueue QueueThreads TimeUtils.
From S2P Require Import OrderBook BookSpec BookHeap BookRefine BookTheorems Exchange ExchangeProps.
From S2P Require Import ExchangeThreads Runs Benchmark.

Module BenchmarkProps.
Import BookHeap BookRefine Exchange ExchangeProps ExchangeThreads Benchmark.

Section props.
Context `{Constants, Clock, Sizes, SteadyClock}.
Implicit Types (x : Exchange) (s : bench) (n k j m : nat).

(** The numbers of the program fit the queues and the limits of the exchange. *)
Record sizes_ok : Prop := {
  so_flight : 0 < MAX_IN_FLIGHT < Q;
  so_orders : WARMUP_ORDERS + TOTAL_ORDERS < MAX_ORDER_IDS;
  so_width : (Z.of_nat (WARMUP_ORDERS + TOTAL_ORDERS) + 1 < 2 ^ 32)%Z;
  so_levels : 1 < MAX_PRICE_LEVELS;
  so_tickers : 0 < MAX_TICKERS;
}.

(** ** The exchange *)

(** The book after [k] bids for 1 at 100. *)
Definition bids_at k (A : BookSpec.Book) : Prop :=
  BookSpec.asks A = [] ∧ BookSpec.off A = [] ∧
  match k with
  | O => BookSpec.bids A = []
  | S _ => ∃ os, BookSpec.bids A = [BookSpec.mkLevel 100%Z OrderSide.BUY os]
  end.

Lemma bid_matches k A : bids_at k A → BookSpec.match_book OrderSide.BUY 1%Z 100%Z A = ([], 1%Z, A).
Proof. intros (Ha & _). destruct A; simpl in *; subst; by vm_compute. Qed.

Lemma bid_rests tid oid cid ns k A :
  bids_at k A →
  ∃ A', BookSpec.add tid oid cid OrderSide.BUY 1%Z 100%Z ns A = ([], 1%Z, A') ∧ bids_at (S k) A'.
Proof.
  intros HA. unfold BookSpec.add. rewrite (bid_matches k A HA). eexists. split; [done|].
  destruct HA as (Ha & Ho & Hb), A as [bs as_ off]. simpl in *. subst.
  destruct k as [|k]; [subst bs|destruct Hb as [os ->]].
  - by split_and!; [..|eexists].
  - by split_and!; [..|eexists].
Qed.

Lemma bid_level k A : bids_at (S k) A → BookSpec.has_price 100%Z (BookSpec.all_levels A) = true.
Proof. intros (Ha & Ho & os & Hb). unfold BookSpec.all_levels. by rewrite Hb. Qed.

Definition responses x : LFQueue ClientResponse := OrderBook.client_response_queue (env x).

(** The response to the request with index [m]. *)
Definition answers m (r : ClientResponse) : Prop :=
  ClientResponse.type r = ResponseType.ACCEPTED ∧ ClientResponse.order_id r = (Z.of_nat m + 1)%Z.

(** The exchange when [n] requests have been pushed, [k] handled, and [j] responses
    taken. *)
Record carries n k j x : Prop := {
  ca_ok : exchange_ok x;
  ca_order : j ≤ k ≤ n;
  ca_id : next_order_id x = (Z.of_nat k + 1)%Z;
  ca_book : ∃ b A, known x ticker_id b ∧ book_rep b A ∧ bids_at k A ∧
    ObjectPool.avail (OrderBook.order_pool b) + k = MAX_ORDER_IDS ∧
    (k = 0 → ObjectPool.avail (OrderBook.price_level_pool b) = MAX_PRICE_LEVELS);
  ca_requests : LFQueue.contents (client_request_queue x) = replicate (n - k) (order_request 0);
  ca_room : LFQueue.capacity (client_request_queue x) = Q - 1;
  ca_responses : Forall2 answers (seq j (k - j)) (LFQueue.contents (responses x));
  ca_responses_room : LFQueue.capacity (responses x) = Q - 1;
}.

(** The consumer's pointer to the response with index [m]. *)
Definition slot x (i : nat) m : Prop :=
  QueueThreads.held (responses x) (Some i) ∧
  ∃ r, LFQueue.data_ (responses x) !! i = Some r ∧ answers m r.

Lemma slot_same x x' i m : responses x' = responses x → slot x i m → slot x' i m.
Proof. unfold slot. by intros ->. Qed.

(** A request is pushed. *)
Lemma carries_push n k j x :
  carries n k j x → n - k < Q - 1 →
  ∃ q, in_requests (LFQueue.push (order_request 0)) x = Done (tt, set_client_request_queue q x) ∧
       carries (S n) k j (set_client_request_queue q x).
Proof.
  intros Hc Hroom. pose proof (xo_queue _ (ca_ok _ _ _ _ Hc)) as Hq.
  exists (LFQueue.pushed (order_request 0) (client_request_queue x)). split.
  { unfold in_requests. by rewrite (zoom_done _ _ _ _ _ _ (LFQueue.push_run _ _ Hq)). }
  pose proof (ca_order _ _ _ _ Hc) as Ho. destruct Hc as [Hok _ Hid Hb Hr Hcap Hp Hpcap].
  split; simpl; try done.
  - destruct Hok. split; [done|done|]. by apply LFQueue.pushed_wf.
  - lia.
  - rewrite LFQueue.pushed_contents; [|done|rewrite Hr, length_replicate; lia].
    rewrite Hr. replace (S n - k) with ((n - k) + 1) by lia. by rewrite replicate_add.
  - by rewrite LFQueue.pushed_capacity.
Qed.

(** The oldest request is handled. *)
Lemma bid_handled n k j x :
  sizes_ok → carries n k j x → k < WARMUP_ORDERS + TOTAL_ORDERS →
  ∃ b' e', handle (order_request 0) x =
      Done (tt, with_result ticker_id (OrderBook.mkSt b' e')
        (set_next_order_id (Z.of_nat (S k) + 1)%Z x)) ∧
    OrderBook.client_response_queue e' =
      LFQueue.pushed (ClientResponse.mk ResponseType.ACCEPTED ticker_id 0%Z (Z.of_nat k + 1)%Z
        OrderSide.BUY 1%Z 100%Z (timestamp (OrderBook.clock_reads (env x)))) (responses x) ∧
    env_ok e' ∧ OrderBook.ticker_id b' = ticker_id ∧
    (∃ A', book_rep b' A' ∧ bids_at (S k) A') ∧
    ObjectPool.avail (OrderBook.order_pool b') + S k = MAX_ORDER_IDS.
Proof.
  intros Hsz Hc Hk. destruct (ca_book _ _ _ _ Hc) as (b & A & Hb & Hrep & HA & Hpool & Hlpool).
  pose proof (ca_ok _ _ _ _ Hc) as Hok. destruct (xo_books _ Hok _ _ Hb) as [Ht _].
  unfold handle. cbn [order_request ClientRequest.type ClientRequest.ticker_id
    ClientRequest.client_id ClientRequest.side ClientRequest.quantity ClientRequest.limit_price].
  change (u32 (Z.of_nat 0)) with 0%Z. rewrite (addOrder_known _ _ b) by done. cbv zeta.
  pose proof (ca_id _ _ _ _ Hc) as Hid.
  destruct (add_cases (next_order_id x) 0%Z OrderSide.BUY 1%Z 100%Z b (env x) A Hrep (xo_env _ Hok)
    ltac:(lia)) as [Hd|[_ Hx]].
  - destruct (bid_rests (OrderBook.ticker_id b) (next_order_id x) 0%Z
      (λ i, timestamp (S (OrderBook.clock_reads (env x)) + i)) k A HA) as (A' & EA & HA').
    unfold spec_add in Hd. rewrite EA in Hd. destruct Hd as (b' & -> & Hrep' & Ht' & Hav).
    rewrite Hid, u32_id by (pose proof (so_width Hsz); lia).
    replace (Z.of_nat k + 1 + 1)%Z with (Z.of_nat (S k) + 1)%Z by lia.
    eexists b', _. split; [done|]. split_and!.
    + simpl. by rewrite Ht.
    + apply env_ok_emit, Hok.
    + congruence.
    + by exists A'.
    + simpl in Hav. lia.
  - exfalso. pose proof (so_orders Hsz). pose proof (so_levels Hsz).
    destruct Hx as [Hx|[Hx Hp]]; [lia|]. rewrite (bid_matches k A HA) in Hp. simpl in Hp.
    destruct k as [|k]; [specialize (Hlpool eq_refl); lia|]. by rewrite (bid_level k A HA) in Hp.
Qed.

Lemma carries_handled n k j x :
  sizes_ok → carries n k j x → k < WARMUP_ORDERS + TOTAL_ORDERS → k - j < Q - 1 →
  ∃ x', handle (order_request 0) x = Done (tt, x') ∧ carries (S n) (S k) j x' ∧
        ∀ i m, slot x i m → slot x' i m.
Proof.
  intros Hsz Hc Hk Hroom.
  destruct (bid_handled n k j x Hsz Hc Hk) as (b' & e' & E & Hq & He & Ht & (A' & Hrep & HA) & Hav).
  destruct (ca_book _ _ _ _ Hc) as (b & A & Hb & _).
  pose proof (ca_ok _ _ _ _ Hc) as Hok. destruct (xo_books _ Hok _ _ Hb) as [Htb _].
  destruct (xo_env _ Hok) as [Hwf _]. fold (responses x) in Hwf.
  pose proof (ca_order _ _ _ _ Hc) as Ho. pose proof (Forall2_length _ _ _ (ca_responses _ _ _ _ Hc)) as Hl.
  rewrite length_seq in Hl.
  assert (length (LFQueue.contents (responses x)) < LFQueue.capacity (responses x)) as Hlt
    by (rewrite (ca_responses_room _ _ _ _ Hc); lia).
  eexists. split; [exact E|]. split.
  - destruct Hc as [_ _ Hid _ Hr Hcap Hp Hpcap]. split; simpl; try done.
    + eapply with_result_ok; try done. congruence.
    + lia.
    + exists b', A'. unfold known. simpl. rewrite lookup_insert_eq. split_and!; try done; lia.
    + unfold responses. simpl. rewrite Hq, LFQueue.pushed_contents by done.
      replace (S k - j) with ((k - j) + 1) by lia. rewrite seq_app. simpl.
      apply Forall2_app; [done|]. constructor; [|done]. split; [done|]. simpl. lia.
    + unfold responses. simpl. by rewrite Hq, LFQueue.pushed_capacity.
  - intros i m [Hh (r & Hr & Ha)]. unfold slot, responses. simpl. rewrite Hq. split.
    + intros i' [= <-]. simpl. rewrite length_insert. by apply Hh.
    + exists r. split; [|done]. simpl. rewrite list_lookup_insert_ne; [done|].
      apply not_eq_sym. by apply QueueThreads.held_not_written.
Qed.

(** A turn of the loop of the exchange. *)
Lemma carries_idle n j x :
  carries n n j x → ∃ x', run_body x = Done (tt, x') ∧ carries n n j x' ∧
    running x' = running x ∧ ∀ i m, slot x i m → slot x' i m.
Proof.
  intros Hc. pose proof (xo_queue _ (ca_ok _ _ _ _ Hc)) as Hq.
  exists (set_next_request nullptr x). split_and!; [apply run_body_idle; [done|]| |done|done].
  - by rewrite (ca_requests _ _ _ _ Hc), Nat.sub_diag.
  - destruct Hc as [Hok ?????]. split; try done. by destruct Hok; split.
Qed.

Lemma carries_turn n k j x :
  sizes_ok → carries n k j x → k < n → n ≤ WARMUP_ORDERS + TOTAL_ORDERS → k - j < Q - 1 →
  ∃ x', run_body x = Done (tt, x') ∧ carries n (S k) j x' ∧
    running x' = running x ∧ ∀ i m, slot x i m → slot x' i m.
Proof.
  intros Hsz Hc Hlt Hn Hroom. pose proof (xo_queue _ (ca_ok _ _ _ _ Hc)) as Hq.
  pose proof (ca_requests _ _ _ _ Hc) as Hr. pose proof (ca_order _ _ _ _ Hc) as Ho.
  replace (n - k) with (S (n - S k)) in Hr by lia.
  destruct (run_body_pops x _ _ Hq Hr) as (q & -> & Hwf & Hcq & Hd).
  assert (carries (n - 1) k j (taken q x)) as Hc'.
  { destruct Hc as [Hok ??????]. split; try done; simpl.
    - destruct Hok. by split.
    - lia.
    - rewrite Hcq. f_equal. lia.
    - unfold LFQueue.capacity. by rewrite Hd. }
  destruct (carries_handled _ _ _ _ Hsz Hc' ltac:(lia) Hroom) as (x' & E & Hc2 & Hs).
  exists x'. replace (S (n - 1)) with n in Hc2 by lia. split_and!; [done|done| |].
  - by rewrite (handle_running _ _ _ E).
  - intros i m Hi. by apply Hs.
Qed.

(** A response is taken. *)
Definition with_responses (q : LFQueue ClientResponse) x : Exchange :=
  set_env (OrderBook.mkEnv q (OrderBook.market_update_queue (env x))
    (OrderBook.next_trade_id (env x)) (OrderBook.clock_reads (env x))) x.

Lemma with_responses_ok q x : exchange_ok x → LFQueue.wf q → exchange_ok (with_responses q x).
Proof. intros [Hb [_ Hu] Hq] Hwf. by split. Qed.

Lemma in_responses_done {A} (m : M (LFQueue ClientResponse) A) a q x :
  m (responses x) = Done (a, q) → in_responses m x = Done (a, with_responses q x).
Proof. intros E. unfold in_responses, zoom. fold (responses x). by rewrite E. Qed.

Lemma with_same x : with_responses (responses x) x = x.
Proof. by destruct x as [??? ? ? []]. Qed.

Lemma carries_no_response n k x :
  carries n k k x → in_responses LFQueue.pop x = Done (nullptr, x).
Proof.
  intros Hc. destruct (xo_env _ (ca_ok _ _ _ _ Hc)) as [Hwf _].
  rewrite (in_responses_done _ nullptr (responses x)); [by rewrite with_same|].
  apply LFQueue.pop_nil; [done|]. pose proof (ca_responses _ _ _ _ Hc) as Hr.
  rewrite Nat.sub_diag in Hr. by inversion Hr.
Qed.

Lemma carries_response n k j x :
  carries n k j x → j < k →
  ∃ i q, in_responses LFQueue.pop x = Done (Some i, with_responses q x) ∧
         carries n k (S j) (with_responses q x) ∧ slot (with_responses q x) i j.
Proof.
  intros Hc Hlt. destruct (xo_env _ (ca_ok _ _ _ _ Hc)) as [Hwf _]. fold (responses x) in Hwf.
  pose proof (ca_responses _ _ _ _ Hc) as Hr. replace (k - j) with (S (k - S j)) in Hr by lia.
  simpl in Hr. apply Forall2_cons_inv_l in Hr as (r & rs & Ha & Hr & Hcont).
  destruct (LFQueue.pop_cons _ _ _ Hwf Hcont) as (q & E & Hwf' & Hd & Hx & Hrs & Hri).
  exists (LFQueue.next_read_index_ (responses x)), q. split; [by apply in_responses_done|]. split.
  - pose proof (ca_order _ _ _ _ Hc). destruct Hc as [Hok ??????]. split; try done.
    + by apply with_responses_ok.
    + lia.
    + unfold responses. simpl. by rewrite Hrs.
    + unfold responses. simpl. unfold LFQueue.capacity. by rewrite Hd.
  - unfold slot, responses. simpl. split.
    + intros i [= <-]. rewrite Hd. destruct Hwf. done.
    + exists r. by rewrite Hd.
Qed.

(** ** The threads *)

(** How many requests the exchange has handled, the program pushed, and how many
    responses it took. *)
Definition handled s : nat := Z.to_nat (next_order_id (exch (sys s)) - 1).

Definition issued s : nat :=
  match prod s with P_time _ | P_push | P_done => sent s - 1 | _ => sent s end.
Definition pushed s : nat :=
  match at_main s with
  | B_start | B_started => 0
  | B_push i => i
  | B_wait i => S i
  | _ => WARMUP_ORDERS + issued s
  end.

Definition popped s : nat :=
  match cons s with C_time (Some _) | C_count _ _ => S (received s) | _ => received s end.
Definition answered s : nat :=
  match at_main s with
  | B_start | B_started => 0
  | B_push i | B_wait i => i
  | _ => WARMUP_ORDERS + popped s
  end.

(** How many requests have a time in [send_ts], and how many latencies there are. *)
Definition stamped s : nat :=
  match prod s with P_time _ | P_done => sent s - 1 | _ => sent s end.
Definition recorded s : nat :=
  match cons s with C_read _ _ => received s - 1 | _ => received s end.

(** The thread of the exchange runs. *)
Definition going (y : live) : Prop :=
  owner_at y = M_idle ∧ running (exch y) = true ∧
  (run_thread y = Some R_test ∨ run_thread y = Some R_body).

Definition main_ok s : Prop :=
  match at_main s with
  | B_start => run_thread (sys s) = None ∧ owner_at (sys s) = M_idle
  | B_started =>
      run_thread (sys s) = None ∧ owner_at (sys s) = M_start ∧ running (exch (sys s)) = true
  | B_push i => going (sys s) ∧ handled s = i ∧ i ≤ WARMUP_ORDERS
  | B_wait i => going (sys s) ∧ i < WARMUP_ORDERS
  | B_go | B_join_producer | B_join_consumer | B_stop => going (sys s)
  | B_stopped =>
      owner_at (sys s) = M_join ∧ running (exch (sys s)) = false ∧ is_Some (run_thread (sys s))
  | B_done => run_thread (sys s) = None
  end.

Definition threads_ok s : Prop :=
  match at_main s with
  | B_start | B_started | B_push _ | B_wait _ => prod s = P_none ∧ cons s = C_none ∧ go s = false
  | B_go => prod s = P_go ∧ cons s = C_go ∧ go s = false
  | B_join_producer => prod s ≠ P_none ∧ cons s ≠ C_none ∧ go s = true
  | B_join_consumer => prod s = P_done ∧ cons s ≠ C_none ∧ go s = true
  | B_stop | B_stopped | B_done => prod s = P_done ∧ cons s = C_done
  end.

Definition prod_ok s : Prop :=
  match prod s with
  | P_none => sent s = 0
  | P_go => sent s = 0
  | P_wait => sent s ≤ TOTAL_ORDERS ∧ sent s ≤ received s + MAX_IN_FLIGHT
  | P_room n => n = sent s ∧ sent s ≤ TOTAL_ORDERS ∧ sent s ≤ received s + MAX_IN_FLIGHT
  | P_take => sent s ≤ TOTAL_ORDERS ∧ sent s < received s + MAX_IN_FLIGHT
  | P_time idx => sent s = S idx ∧ idx < TOTAL_ORDERS ∧ sent s ≤ received s + MAX_IN_FLIGHT
  | P_push => 0 < sent s ≤ TOTAL_ORDERS ∧ sent s ≤ received s + MAX_IN_FLIGHT
  | P_done => sent s = S TOTAL_ORDERS ∧ TOTAL_ORDERS ≤ received s + MAX_IN_FLIGHT
  end.

(** The request [idx] was sent at one reading of the clock, and [t] is a later one. *)
Definition measured s (idx : nat) (t : Z) : Prop :=
  ∃ a b, a < b < readings s ∧ send_ts s !! idx = Some (now_ns a) ∧ t = now_ns b.

Definition cons_ok s : Prop :=
  match cons s with
  | C_none | C_go => received s = 0
  | C_test => received s ≤ TOTAL_ORDERS
  | C_pop => received s < TOTAL_ORDERS
  | C_time None => received s < TOTAL_ORDERS
  | C_time (Some i) =>
      received s < TOTAL_ORDERS ∧ slot (exch (sys s)) i (WARMUP_ORDERS + received s)
  | C_count p t1 =>
      received s < TOTAL_ORDERS ∧ measured s (received s) t1 ∧
      ∃ i, p = Some i ∧ slot (exch (sys s)) i (WARMUP_ORDERS + received s)
  | C_read p t1 =>
      0 < received s ≤ TOTAL_ORDERS ∧ measured s (received s - 1) t1 ∧
      ∃ i, p = Some i ∧ slot (exch (sys s)) i (WARMUP_ORDERS + (received s - 1))
  | C_done => received s = TOTAL_ORDERS
  end.

Record times_ok s : Prop := {
  tk_length : prod s ≠ P_none → length (send_ts s) = TOTAL_ORDERS;
  tk_sent idx : idx < stamped s → ∃ a, a < readings s ∧ send_ts s !! idx = Some (now_ns a);
  tk_count : length (latencies s) = recorded s;
  tk_latency idx d : latencies s !! idx = Some d →
    ∃ t ts, measured s idx t ∧ send_ts s !! idx = Some ts ∧ d = (t - ts)%Z;
}.

Record inv s : Prop := {
  iv_carries : carries (pushed s) (handled s) (answered s) (exch (sys s));
  iv_main : main_ok s;
  iv_threads : threads_ok s;
  iv_prod : prod_ok s;
  iv_cons : cons_ok s;
  iv_times : times_ok s;
}.

(** ** What is left to do *)

Definition main_rank s : nat :=
  match at_main s with
  | B_start => 2 * WARMUP_ORDERS + 13
  | B_started => 2 * WARMUP_ORDERS + 12
  | B_push i => 2 * (WARMUP_ORDERS - i) + 9
  | B_wait i => 2 * (WARMUP_ORDERS - i) + 8
  | B_go => 7
  | B_join_producer => 6
  | B_join_consumer => 5
  | B_stop => 4
  | B_stopped => 3
  | B_done => 0
  end.

Definition prod_rank s : nat :=
  match prod s with
  | P_none | P_go => 4 * TOTAL_ORDERS + 3
  | P_wait | P_room _ => 4 * (TOTAL_ORDERS - sent s) + 2
  | P_take => 4 * (TOTAL_ORDERS - sent s) + 1
  | P_time idx => 4 * (TOTAL_ORDERS - idx)
  | P_push => 4 * (TOTAL_ORDERS - sent s) + 3
  | P_done => 0
  end.

Definition cons_rank s : nat :=
  match cons s with
  | C_none | C_go => 4 * TOTAL_ORDERS + 2
  | C_test | C_pop | C_time None => 4 * (TOTAL_ORDERS - received s) + 1
  | C_time (Some _) => 4 * (TOTAL_ORDERS - received s)
  | C_count _ _ => 4 * (TOTAL_ORDERS - received s) - 1
  | C_read _ _ => 4 * (TOTAL_ORDERS - received s) + 2
  | C_done => 0
  end.

Definition runner_rank s : nat :=
  match run_thread (sys s) with Some R_test | Some R_body => 1 | _ => 0 end.

Definition work s : nat :=
  main_rank s + (WARMUP_ORDERS + TOTAL_ORDERS - handled s) + prod_rank s + cons_rank s
  + runner_rank s.

(** The thread whose step the others wait for, and its distance from that step. *)
Definition main_goes s : bool :=
  match at_main s, prod s, cons s with
  | B_join_producer, P_done, _ => true
  | B_join_consumer, _, C_done => true
  | _, _, _ => false
  end.
Definition consumer_goes s : bool :=
  match cons s with
  | C_go | C_time (Some _) | C_count _ _ | C_read _ _ => true
  | C_test => bool_decide (received s = TOTAL_ORDERS) || bool_decide (answered s < handled s)
  | _ => bool_decide (answered s < handled s)
  end.

Definition needs s : thread :=
  match at_main s with
  | B_wait i => if decide (handled s = i) then Runner else Main
  | B_join_producer | B_join_consumer =>
      if main_goes s then Main
      else if consumer_goes s then Consumer
      else if decide (handled s < pushed s) then Runner
      else Producer
  | B_stopped => match run_thread (sys s) with Some R_done => Main | _ => Runner end
  | _ => Main
  end.

Definition dist s : nat :=
  match needs s with
  | Runner =>
      match run_thread (sys s), at_main s with
      | Some R_test, B_stopped => 0
      | Some R_test, _ => 1
      | Some R_body, B_stopped => 1
      | _, _ => 0
      end
  | Consumer =>
      match cons s with
      | C_test => if decide (received s < TOTAL_ORDERS) then 1 else 0
      | C_time None => 2
      | _ => 0
      end
  | Producer => match prod s with P_wait => 1 | _ => 0 end
  | Main => 0
  end.

Definition measure s : nat := 4 * work s + dist s.

(** A step of [t] leads towards the end, or is not the one that is waited for. *)
Definition progresses (t : thread) s s' : Prop :=
  measure s' < measure s ∨ measure s' = measure s ∧ needs s' = needs s ∧ needs s ≠ t.

Definition stepped (t : thread) s : Prop :=
  match thread_step t s with
  | Some r => ∃ s', r = Running s' ∧ inv s' ∧ progresses t s s'
  | None => needs s ≠ t ∨ at_main s = B_done
  end.

Lemma dist_le s : dist s ≤ 3.
Proof. unfold dist. repeat (case_match; try lia). Qed.

Lemma progress_work t s s' : work s' < work s → progresses t s s'.
Proof. intros Hw. left. unfold measure. pose proof (dist_le s'). lia. Qed.

Lemma progress_same t s : needs s ≠ t → progresses t s s.
Proof. intros Hn. by right. Qed.

Lemma carries_handled_id n k j x : carries n k j x → Z.to_nat (next_order_id x - 1) = k.
Proof. intros Hc. rewrite (ca_id _ _ _ _ Hc). lia. Qed.

Lemma carries_running r n k j x : carries n k j x → carries n k j (set_running r x).
Proof. intros [[] ?????]. by split. Qed.

(** Steps of main and of the exchange leave the other threads as they are. *)
Lemma cons_ok_sys y pc s :
  (∀ i m, slot (exch (sys s)) i m → slot (exch y) i m) → cons_ok s →
  cons_ok (set_main pc (set_sys y s)).
Proof.
  intros Hs. unfold cons_ok. simpl. destruct (cons s) as [| | | |[i|]|p t1|p t1|]; try done.
  - intros [? ?]. split; [done|by apply Hs].
  - intros (? & Hm & i & -> & ?). split; [done|]. split; [exact Hm|]. exists i. split; [done|by apply Hs].
  - intros (? & Hm & i & -> & ?). split; [done|]. split; [exact Hm|]. exists i. split; [done|by apply Hs].
Qed.

Lemma inv_sys y pc s k :
  let s' := set_main pc (set_sys y s) in
  inv s → cons_ok s' →
  carries (pushed s') k (answered s') (exch y) → main_ok s' → threads_ok s' → inv s'.
Proof.
  intros s' [_ _ _ Hp _ [Hl Hs Hr Ht]] Hc Hca Hm Hth. split; [|done..|by split].
  unfold handled. simpl. by rewrite (carries_handled_id _ _ _ _ Hca).
Qed.

Lemma main_pushes i s :
  sizes_ok → inv s → at_main s = B_push i → stepped Main s.
Proof.
  intros Hsz Hi E. pose proof Hi as [Hc Hm Ht Hp Hco Htm].
  unfold stepped. simpl. unfold main_step. rewrite E. unfold main_ok, threads_ok in Hm, Ht.
  rewrite E in Hm, Ht. destruct Hm as (Hg & Hh & Hle), Ht as (Epr & Eco & Ego).
  unfold pushed, answered in Hc. rewrite E in Hc. pose proof (ca_order _ _ _ _ Hc) as Ho.
  case_decide as Hw.
  - destruct (carries_push _ _ _ _ Hc) as (q & Eq & Hc'); [pose proof (so_flight Hsz); lia|].
    unfold client_step. rewrite Eq. simpl. eexists. split; [done|]. split.
    + apply inv_sys with (handled s); [done|exact Hco|exact Hc'|done..].
    + apply progress_work. unfold work, main_rank, prod_rank, cons_rank, runner_rank, handled.
      simpl. rewrite E, Epr, Eco. unfold handled in Hh. rewrite Hh. lia.
  - unfold prod_ok, cons_ok in Hp, Hco. rewrite Epr in Hp. rewrite Eco in Hco.
    assert (i = WARMUP_ORDERS) as -> by lia.
    eexists. split; [done|]. split.
    + split; try done.
      * unfold pushed, answered, issued, popped. simpl. rewrite Hp, Hco, !Nat.add_0_r. exact Hc.
      * split; simpl; [intros _; apply length_replicate|..].
        -- intros idx. unfold stamped. simpl. rewrite Hp. lia.
        -- destruct Htm. rewrite tk_count0. unfold recorded. by rewrite Eco.
        -- destruct Htm. intros idx d Hd. exfalso. apply lookup_lt_Some in Hd.
           rewrite tk_count0 in Hd. unfold recorded in Hd. rewrite Eco in Hd. lia.
    + apply progress_work. unfold work, main_rank, prod_rank, cons_rank, runner_rank, handled.
      simpl. rewrite E, Epr, Eco. lia.
Qed.


Lemma main_waits i s : sizes_ok → inv s → at_main s = B_wait i → stepped Main s.
Proof.
  intros Hsz Hi E. pose proof Hi as [Hc Hm Ht Hp Hco Htm].
  unfold stepped. simpl. unfold main_step. rewrite E. unfold main_ok, threads_ok in Hm, Ht.
  rewrite E in Hm, Ht. destruct Hm as (Hg & Hlt).
  unfold pushed, answered in Hc. rewrite E in Hc. pose proof (ca_order _ _ _ _ Hc) as Ho.
  unfold on_responses. destruct (decide (handled s = i)) as [Hh|Hh].
  - rewrite Hh in Hc. rewrite (carries_no_response _ _ _ Hc). simpl. eexists. split; [done|].
    replace (set_main (B_wait i) _) with s; [|by destruct s as [[] ?]; simpl in *; subst].
    split; [done|]. apply progress_same. unfold needs. rewrite E. by rewrite decide_True.
  - assert (handled s = S i) as Hk by lia. rewrite Hk in Hc.
    destruct (carries_response _ _ _ _ Hc ltac:(lia)) as (j & q & -> & Hc' & _). simpl.
    eexists. split; [done|]. split.
    + destruct Ht as (? & Eco & ?).
      apply inv_sys with (S i); [done|unfold cons_ok in *; simpl; by rewrite Eco in *|..].
      * exact Hc'.
      * split; [exact Hg|]. split; [|lia]. unfold handled. simpl. by apply carries_handled_id in Hc'.
      * unfold threads_ok. done.
    + apply progress_work. unfold work, main_rank, prod_rank, cons_rank, runner_rank, handled.
      simpl. rewrite E. lia.
Qed.


Lemma main_starts s :
  inv s → at_main s = B_start ∨ at_main s = B_started → stepped Main s.
Proof.
  intros Hi E. pose proof Hi as [Hc Hm Ht Hp Hco Htm].
  unfold stepped. simpl. unfold main_step, main_ok, threads_ok, pushed, answered, owner_step in *.
  destruct E as [E|E]; rewrite E in *.
  - destruct Hm as [Hr Ho]. rewrite Ho, Hr. simpl. eexists. split; [done|]. split.
    + apply inv_sys with (handled s); [done|exact Hco|by apply carries_running|done..].
    + apply progress_work. unfold work, main_rank, prod_rank, cons_rank, runner_rank, handled.
      simpl. rewrite E, Hr. lia.
  - destruct Hm as (Hr & Ho & Hrun). rewrite Ho, Hr. simpl. eexists. split; [done|]. split.
    + pose proof (ca_order _ _ _ _ Hc) as Hk.
      apply inv_sys with (handled s); [done|exact Hco|done| |done].
      split; [by split_and!; [..|left]|]. split; [|lia]. by unfold handled in *; simpl; lia.
    + apply progress_work. unfold work, main_rank, prod_rank, cons_rank, runner_rank, handled.
      simpl. rewrite E, Hr. lia.
Qed.

Lemma main_joins s :
  inv s → at_main s = B_go ∨ at_main s = B_join_producer ∨ at_main s = B_join_consumer →
  stepped Main s.
Proof.
  intros Hi E. pose proof Hi as [Hc Hm Ht Hp Hco Htm].
  unfold stepped. simpl. unfold main_step, main_ok, threads_ok, pushed, answered in *.
  destruct E as [E|[E|E]]; rewrite E in *.
  - destruct Ht as (Hpr & Hcn & Hgo). eexists. split; [done|]. split.
    + split; try done; [|by destruct Htm; split].
      unfold threads_ok. simpl. by rewrite Hpr, Hcn.
    + apply progress_work. unfold work, main_rank, prod_rank, cons_rank, runner_rank, handled.
      simpl. rewrite E. lia.
  - destruct Ht as (Hpr & Hcn & Hgo). destruct (prod s) eqn:Epr;
      try (left; unfold needs, main_goes; rewrite E, Epr; by repeat case_match).
    eexists. split; [done|]. split.
    + split; try done; by destruct Htm; split.
    + apply progress_work. unfold work, main_rank, prod_rank, cons_rank, runner_rank, handled.
      simpl. rewrite E. lia.
  - destruct Ht as (Hpr & Hcn & Hgo). destruct (cons s) eqn:Ecn;
      try (left; unfold needs, main_goes; rewrite E, Ecn; by repeat case_match).
    eexists. split; [done|]. split.
    + split; try done; by destruct Htm; split.
    + apply progress_work. unfold work, main_rank, prod_rank, cons_rank, runner_rank, handled.
      simpl. rewrite E. lia.
Qed.

Lemma main_stops s : inv s → at_main s = B_stop ∨ at_main s = B_stopped → stepped Main s.
Proof.
  intros Hi E. pose proof Hi as [Hc Hm Ht Hp Hco Htm].
  unfold stepped. simpl. unfold main_step, main_ok, threads_ok, pushed, answered, owner_step in *.
  destruct E as [E|E]; rewrite E in *.
  - destruct Hm as (Ho & Hr & Hrt). rewrite Ho. simpl. eexists. split; [done|]. split.
    + apply inv_sys with (handled s); [done|exact Hco|by apply carries_running| |done].
      split_and!; [done|done|]. destruct Hrt as [Hrt|Hrt]; simpl; by rewrite Hrt.
    + apply progress_work. unfold work, main_rank, prod_rank, cons_rank, runner_rank, handled.
      simpl. rewrite E. lia.
  - destruct Hm as (Ho & Hr & rt & Hrt). rewrite Ho, Hrt.
    destruct rt; [left; unfold needs; by rewrite E, Hrt..|]. simpl.
    eexists. split; [done|]. split.
    + by apply inv_sys with (handled s).
    + apply progress_work. unfold work, main_rank, prod_rank, cons_rank, runner_rank, handled.
      simpl. rewrite E, Hrt. lia.
Qed.

Lemma main_stepped s : sizes_ok → inv s → stepped Main s.
Proof.
  intros Hsz Hi. destruct (at_main s) eqn:E.
  - apply main_starts; auto.
  - apply main_starts; auto.
  - by eapply main_pushes.
  - by eapply main_waits.
  - apply main_joins; auto.
  - apply main_joins; auto.
  - apply main_joins; auto.
  - apply main_stops; auto.
  - apply main_stops; auto.
  - unfold stepped. simpl. unfold main_step. rewrite E. by right.
Qed.

(** While the producer works, main waits for it. *)
Lemma producer_phase s :
  inv s → prod s ≠ P_none → prod s ≠ P_go → prod s ≠ P_done →
  at_main s = B_join_producer ∧ going (sys s) ∧ cons s ≠ C_none ∧ go s = true ∧
  carries (WARMUP_ORDERS + issued s) (handled s) (WARMUP_ORDERS + popped s) (exch (sys s)) ∧
  popped s ≤ issued s.
Proof.
  intros [Hc Hm Ht _ _ _] H1' H2' H3'.
  unfold threads_ok, pushed, answered, main_ok in *. destruct (at_main s); try by destruct_and?.
  destruct Ht as (_ & Hcn & Hgo). pose proof (ca_order _ _ _ _ Hc). split_and!; try done. lia.
Qed.

Lemma popped_received s : received s ≤ popped s ≤ S (received s).
Proof. unfold popped. destruct (cons s) as [| | | |[]| | |]; lia. Qed.

(** A step of the producer that leaves the exchange alone. *)
Lemma inv_prod pc n s :
  let s' := set_prod pc (set_sent n s) in
  inv s → at_main s = B_join_producer → pc ≠ P_none → prod s ≠ P_none →
  issued s' = issued s → stamped s' = stamped s → prod_ok s' → inv s'.
Proof.
  intros s' [Hc Hm Ht Hp Hco [Hl Hs Hr Htm]] E Hpc Hpr Hi Hst Hok. split; try done.
  - unfold pushed, answered, popped, handled in *. simpl in *. by rewrite E, Hi in *.
  - unfold threads_ok in *. simpl. rewrite E in *. tauto.
  - split; try done.
    + intros _. by apply Hl.
    + intros idx Hidx. rewrite Hst in Hidx. by apply Hs.
Qed.

(** The load of [sent]. *)
Lemma producer_waits s : inv s → prod s = P_wait → stepped Producer s.
Proof.
  intros Hi Epr. destruct (producer_phase s Hi) as (E & Hg & Hcn & Hgo & Hc & Hle);
    [by rewrite Epr..|].
  unfold stepped. simpl. unfold producer_step. rewrite Epr.
  pose proof (iv_prod _ Hi) as Hp. unfold prod_ok in Hp. rewrite Epr in Hp.
  eexists. split; [done|]. split.
  - apply (inv_prod (P_room (sent s)) (sent s) s); [done|done|done|by rewrite Epr|..].
    + unfold issued. simpl. by rewrite Epr.
    + unfold stamped. simpl. by rewrite Epr.
    + done.
  - set (s' := set_prod _ _).
    assert (work s' = work s) as Hw
      by (unfold work, main_rank, prod_rank, cons_rank, runner_rank, handled; simpl; by rewrite Epr).
    assert (needs s' = needs s) as Hn
      by (unfold needs, main_goes, consumer_goes, pushed, issued, answered, popped, handled;
          simpl; by rewrite Epr).
    unfold progresses, measure. rewrite Hw. unfold dist. rewrite Hn.
    destruct (needs s) eqn:En; [by right| |by right|by right].
    left. simpl. rewrite Epr. lia.
Qed.

(** The load of [received], and the test. *)
Lemma producer_checks n s : sizes_ok → inv s → prod s = P_room n → stepped Producer s.
Proof.
  intros Hsz Hi Epr. destruct (producer_phase s Hi) as (E & Hg & Hcn & Hgo & Hc & Hle);
    [by rewrite Epr..|].
  unfold stepped. simpl. unfold producer_step. rewrite Epr.
  pose proof (iv_prod _ Hi) as Hp. unfold prod_ok in Hp. rewrite Epr in Hp. destruct Hp as (-> & Hp).
  pose proof (popped_received s). assert (issued s = sent s) as Hiss by (unfold issued; by rewrite Epr).
  assert (in_flight (sent s) s = Z.of_nat (sent s - received s)) as Hfl.
  { unfold in_flight. pose proof (so_width Hsz). unfold u64. rewrite Z.mod_small by lia. lia. }
  eexists. split; [done|]. case_decide as Hd.
  - split.
    + apply (inv_prod P_wait (sent s) s); [done|done|done|by rewrite Epr|..].
      * unfold issued. simpl. by rewrite Epr.
      * unfold stamped. simpl. by rewrite Epr.
      * done.
    + right. set (s' := set_prod _ _).
      assert (needs s' = needs s) as Hn
        by (unfold needs, main_goes, consumer_goes, pushed, issued, answered, popped, handled;
            simpl; by rewrite Epr).
      assert (needs s ≠ Producer) as Hnp.
      { clear Hn. unfold needs, main_goes, consumer_goes, pushed.
        rewrite E, Epr, Hiss. pose proof (so_flight Hsz).
        unfold answered. rewrite E. assert (received s < sent s) by lia. clear Hd Hfl.
        destruct (decide (handled s < WARMUP_ORDERS + sent s)).
        { repeat case_match; try done. }
        unfold popped. destruct (cons s) as [| | | |[]| | |] eqn:Eco; try done.
        all: rewrite (bool_decide_eq_true_2 (_ + received s < _)) by lia; by rewrite ?orb_true_r. }
      split_and!; [|done|done]. unfold measure, dist. rewrite Hn.
      unfold work, main_rank, prod_rank, cons_rank, runner_rank, handled. simpl. rewrite Epr.
      by destruct (needs s).
  - split.
    + apply (inv_prod P_take (sent s) s); [done|done|done|by rewrite Epr|..].
      * unfold issued. simpl. by rewrite Epr.
      * unfold stamped. simpl. by rewrite Epr.
      * unfold prod_ok. simpl. lia.
    + apply progress_work. unfold work, main_rank, prod_rank, cons_rank, runner_rank, handled.
      simpl. rewrite Epr. lia.
Qed.

Lemma producer_takes s : sizes_ok → inv s → prod s = P_take → stepped Producer s.
Proof.
  intros Hsz Hi Epr. destruct (producer_phase s Hi) as (E & Hg & Hcn & Hgo & Hc & Hle);
    [by rewrite Epr..|].
  unfold stepped. simpl. unfold producer_step. rewrite Epr.
  pose proof (iv_prod _ Hi) as Hp. unfold prod_ok in Hp. rewrite Epr in Hp.
  eexists. split; [done|]. split.
  - apply (inv_prod _ (S (sent s)) s); [done|done|by case_decide|by rewrite Epr|..].
    + unfold issued. simpl. rewrite Epr. case_decide; simpl; lia.
    + unfold stamped. simpl. rewrite Epr. case_decide; simpl; lia.
    + unfold prod_ok. simpl. case_decide; simpl; lia.
  - apply progress_work. unfold work, main_rank, prod_rank, cons_rank, runner_rank, handled.
    simpl. rewrite Epr. case_decide; lia.
Qed.

(** The clock is read and the time stored: measured times stay. *)
Lemma measured_later s s' idx t :
  readings s ≤ readings s' → send_ts s' !! idx = send_ts s !! idx →
  measured s idx t → measured s' idx t.
Proof. intros Hle E (a & b & ? & ? & ?). exists a, b. rewrite E. split_and!; [lia..|done|done]. Qed.

Lemma producer_stamps idx s : inv s → prod s = P_time idx → stepped Producer s.
Proof.
  intros Hi Epr. destruct (producer_phase s Hi) as (E & Hg & Hcn & Hgo & Hc & Hle);
    [by rewrite Epr..|].
  unfold stepped. simpl. unfold producer_step. rewrite Epr.
  destruct Hi as [Hca Hm Ht Hp Hco [Hl Hs Hr Htm]]. unfold prod_ok in Hp. rewrite Epr in Hp.
  specialize (Hl ltac:(by rewrite Epr)). rewrite decide_True by lia.
  assert (popped s ≤ idx) as Hidx by (unfold issued in Hle; rewrite Epr in Hle; lia).
  pose proof (popped_received s) as Hpop.
  set (s' := set_prod P_push _).
  assert (∀ m t, m < idx → measured s m t → measured s' m t) as Hmono.
  { intros m t Hm' Hme. apply (measured_later s); [simpl; lia| |done]. simpl.
    by rewrite list_lookup_insert_ne by lia. }
  eexists. split; [done|]. split.
  - split.
    + unfold pushed, answered, handled, issued, popped in *. simpl. by rewrite E, Epr in *.
    + done.
    + unfold threads_ok. simpl. by rewrite E.
    + unfold prod_ok. simpl. lia.
    + unfold cons_ok in *. simpl. destruct (cons s) as [| | | |[i|]|p t1|p t1|] eqn:Eco; try done.
      * destruct Hco as (? & ? & ?). split_and!; [done| |done]. apply Hmono; [|done].
        unfold popped in Hidx. rewrite Eco in Hidx. lia.
      * destruct Hco as (? & ? & ?). split; [done|]. split; [|done]. apply Hmono; [|done].
        unfold popped in Hidx. rewrite Eco in Hidx. lia.
    + split; simpl.
      * intros _. by rewrite length_insert.
      * intros m. unfold stamped in *. simpl. rewrite Epr in Hs. intros Hlt.
        destruct (decide (m = idx)) as [->|Hne].
        -- exists (readings s). split; [lia|]. by rewrite list_lookup_insert_eq by lia.
        -- destruct (Hs m ltac:(lia)) as (a & ? & ?). exists a.
           rewrite list_lookup_insert_ne by lia. split; [lia|done].
      * done.
      * intros m d Hd. destruct (Htm m d Hd) as (t & ts & Hme & Hts & ->).
        apply lookup_lt_Some in Hd. rewrite Hr in Hd.
        assert (m < idx) by (unfold recorded, popped in *; destruct (cons s) as [| | | |[]| | |]; lia).
        exists t, ts. split_and!; [by apply Hmono|by rewrite list_lookup_insert_ne by lia|done].
  - apply progress_work. unfold work, main_rank, prod_rank, cons_rank, runner_rank, handled.
    simpl. rewrite Epr. lia.
Qed.

Lemma producer_pushes s : sizes_ok → inv s → prod s = P_push → stepped Producer s.
Proof.
  intros Hsz Hi Epr. destruct (producer_phase s Hi) as (E & Hg & Hcn & Hgo & Hc & Hle);
    [by rewrite Epr..|].
  unfold stepped. simpl. unfold producer_step. rewrite Epr.
  destruct Hi as [Hca Hm Ht Hp Hco [Hl Hs Hr Htm]]. unfold prod_ok in Hp. rewrite Epr in Hp.
  unfold issued in Hc, Hle. rewrite Epr in Hc, Hle. pose proof (popped_received s) as Hpop.
  pose proof (ca_order _ _ _ _ Hc). pose proof (so_flight Hsz).
  destruct (carries_push _ _ _ _ Hc) as (q & Eq & Hc'); [lia|].
  unfold client_step. rewrite Eq. simpl. eexists. split; [done|]. split.
  - split.
    + unfold pushed, answered, handled, issued, popped in *. simpl in *. rewrite E.
      by replace (WARMUP_ORDERS + sent s) with (S (WARMUP_ORDERS + (sent s - 1))) by lia.
    + unfold main_ok. simpl. rewrite E. exact Hg.
    + unfold threads_ok. simpl. by rewrite E.
    + unfold prod_ok. simpl. lia.
    + exact Hco.
    + split; try done; simpl.
      * intros _. apply Hl. by rewrite Epr.
      * unfold stamped in *. simpl. by rewrite Epr in Hs.
  - apply progress_work. unfold work, main_rank, prod_rank, cons_rank, runner_rank, handled.
    simpl. rewrite Epr. lia.
Qed.

Lemma producer_begins s : inv s → prod s = P_go → stepped Producer s.
Proof.
  intros Hi Epr. pose proof Hi as [Hc Hm Ht Hp Hco Htm].
  unfold stepped. simpl. unfold producer_step. rewrite Epr.
  eexists. split; [done|]. unfold threads_ok, prod_ok in Ht, Hp. rewrite Epr in Ht, Hp.
  destruct (at_main s) eqn:E; try by destruct_and?.
  - destruct Ht as (_ & _ & Ego). rewrite Ego.
    replace (set_prod P_go s) with s by (rewrite <- Epr; by destruct s).
    split; [done|]. apply progress_same. unfold needs. by rewrite E.
  - destruct Ht as (_ & _ & Ego). rewrite Ego. split.
    + apply (inv_prod P_wait (sent s) s); [done|done|done|by rewrite Epr|..].
      * unfold issued. simpl. by rewrite Epr.
      * unfold stamped. simpl. by rewrite Epr.
      * unfold prod_ok. simpl. lia.
    + apply progress_work. unfold work, main_rank, prod_rank, cons_rank, runner_rank, handled.
      simpl. rewrite Epr. lia.
Qed.

Lemma producer_over s : inv s → prod s = P_done → needs s ≠ Producer.
Proof.
  intros [Hc Hm Ht Hp Hco Htm] Epr. unfold needs.
  unfold threads_ok, prod_ok, pushed, answered, issued in *. rewrite Epr in Hc, Ht, Hp.
  destruct (at_main s) eqn:E; try done; try by case_decide.
  - unfold main_goes. by rewrite E, Epr.
  - unfold main_goes, consumer_goes, pushed, issued, answered. rewrite E, Epr.
    pose proof (ca_order _ _ _ _ Hc) as Ho. unfold cons_ok, popped in *.
    destruct (cons s) as [| | | |[]| | |] eqn:Eco; try done;
      repeat case_bool_decide; repeat case_decide; try done; simpl in *; (lia || tauto).
  - by repeat case_match.
Qed.

Lemma producer_stepped s : sizes_ok → inv s → stepped Producer s.
Proof.
  intros Hsz Hi. destruct (prod s) eqn:Epr.
  - unfold stepped. simpl. unfold producer_step. rewrite Epr. left.
    pose proof (iv_threads _ Hi) as Ht. unfold threads_ok, needs in *.
    destruct (at_main s); try done; try (exfalso; destruct_and?; congruence). by case_decide.
  - by apply producer_begins.
  - by apply producer_waits.
  - by eapply producer_checks.
  - by apply producer_takes.
  - by eapply producer_stamps.
  - by apply producer_pushes.
  - unfold stepped. simpl. unfold producer_step. rewrite Epr. left. by apply producer_over.
Qed.

(** While the consumer works, main waits in one of the joins. *)
Definition joining s : Prop := at_main s = B_join_producer ∨ at_main s = B_join_consumer.

Lemma consumer_phase s :
  inv s → cons s ≠ C_none → cons s ≠ C_go → cons s ≠ C_done →
  joining s ∧
  carries (WARMUP_ORDERS + issued s) (handled s) (WARMUP_ORDERS + popped s) (exch (sys s)) ∧
  popped s ≤ issued s ≤ stamped s.
Proof.
  intros [Hc Hm Ht Hp _ _] H1' H2' H3'.
  assert (issued s ≤ stamped s) as Hst by (unfold issued, stamped; destruct (prod s); lia).
  unfold joining, threads_ok, pushed, answered in *. destruct (at_main s); try by destruct_and?.
  - pose proof (ca_order _ _ _ _ Hc). split_and!; try done; [by left|lia].
  - pose proof (ca_order _ _ _ _ Hc). split_and!; try done; [by right|lia].
Qed.

Lemma prod_ok_received s s' :
  prod s' = prod s → sent s' = sent s → received s ≤ received s' → prod_ok s → prod_ok s'.
Proof. unfold prod_ok. intros -> ->. destruct (prod s); lia. Qed.

(** A step of the consumer. *)
Definition consumer_moves s s' : Prop :=
  sys s' = sys s ∧ at_main s' = at_main s ∧ prod s' = prod s ∧ send_ts s' = send_ts s ∧
  sent s' = sent s ∧ go s' = go s ∧ received s ≤ received s' ∧ readings s ≤ readings s'.

Lemma moves_measured s s' idx t : consumer_moves s s' → measured s idx t → measured s' idx t.
Proof. intros (_ & _ & _ & E & _ & _ & _ & Hle). apply measured_later; [done|by rewrite E]. Qed.

Lemma inv_cons s s' :
  inv s → joining s → consumer_moves s s' → cons s' ≠ C_none → popped s' = popped s → cons_ok s' →
  length (latencies s') = recorded s' →
  (∀ idx d, latencies s' !! idx = Some d → latencies s !! idx = Some d ∨
    ∃ t ts, measured s' idx t ∧ send_ts s' !! idx = Some ts ∧ d = (t - ts)%Z) →
  inv s'.
Proof.
  intros [Hc Hm Ht Hp Hco [Hl Hs Hr Htm]] Hj Hmv Hne Hpop Hco' Hr' Hlat.
  pose proof Hmv as (Es & Em & Ep & Et & En & Eg & Hrcv & Hrd). split; try done.
  - unfold pushed, answered, issued, handled in *. by rewrite Es, Em, Ep, En, Hpop.
  - unfold main_ok, handled in *. by rewrite Es, Em.
  - unfold threads_ok in *. rewrite Em, Ep, Eg. destruct Hj as [E|E]; rewrite E in *; tauto.
  - by apply (prod_ok_received s).
  - split.
    + by rewrite Ep, Et.
    + intros idx. unfold stamped in *. rewrite Ep, En, Et. intros Hi.
      destruct (Hs idx Hi) as (a & ? & ?). exists a. split; [lia|done].
    + done.
    + intros idx d [Hd|?]%Hlat; [|done]. destruct (Htm idx d Hd) as (t & ts & Hme & Hts & ->).
      exists t, ts. rewrite Et. split_and!; [by apply (moves_measured s)|done|done].
Qed.

(** A turn that does not tell the thread that is waited for apart. *)
Lemma progress_poll s s' :
  joining s → consumer_moves s s' → handled s' = handled s → popped s' = popped s →
  work s' = work s → consumer_goes s' = consumer_goes s →
  cons s' ≠ C_done → cons s ≠ C_done →
  (needs s = Consumer → needs s' = Consumer → dist s' < dist s) →
  progresses Consumer s s'.
Proof.
  intros Hj (Es & Em & Ep & _ & En & _) Hh Hpop Hw Hg Hnd' Hnd Hd.
  assert (main_goes s' = main_goes s) as Hmg.
  { unfold main_goes. rewrite Em, Ep. destruct Hj as [-> | ->]; [done|].
    destruct (cons s'), (cons s); done. }
  assert (needs s' = needs s) as Hn.
  { unfold needs, pushed, issued. rewrite Em, Ep, En, Hmg, Hg, Hh. by destruct Hj as [-> | ->]. }
  destruct (decide (needs s = Consumer)) as [Hc|Hc].
  - left. specialize (Hd Hc ltac:(congruence)). unfold measure. lia.
  - right. split_and!; [|done|done]. unfold measure, dist. rewrite Hw, Hn, Es, Em, Ep.
    by destruct (needs s).
Qed.

Lemma moves_times s s' :
  inv s → consumer_moves s s' → latencies s' = latencies s →
  ∀ idx d, latencies s' !! idx = Some d → latencies s !! idx = Some d ∨
    ∃ t ts, measured s' idx t ∧ send_ts s' !! idx = Some ts ∧ d = (t - ts)%Z.
Proof. intros _ _ -> idx d Hd. by left. Qed.

Lemma consumer_tests s : inv s → cons s = C_test → stepped Consumer s.
Proof.
  intros Hi Eco. destruct (consumer_phase s Hi) as (Hj & Hc & Hle); [by rewrite Eco..|].
  unfold stepped. simpl. unfold consumer_step. rewrite Eco. eexists. split; [done|].
  pose proof (iv_cons _ Hi) as Hco. unfold cons_ok in Hco. rewrite Eco in Hco.
  pose proof (tk_count _ (iv_times _ Hi)) as Hr. unfold recorded in Hr. rewrite Eco in Hr.
  case_decide as Hlt; (split;
    [apply (inv_cons s); [done|done|by split_and!|done|unfold popped; simpl; by rewrite Eco
       |unfold cons_ok; simpl; lia|done|by apply moves_times]|]).
  - apply progress_poll; [done|by split_and!|done|..].
    + unfold popped. simpl. by rewrite Eco.
    + unfold work, main_rank, prod_rank, cons_rank, runner_rank, handled. simpl. by rewrite Eco.
    + unfold consumer_goes, answered, popped, handled. simpl. rewrite Eco.
      by rewrite (bool_decide_eq_false_2 (_ = _)) by lia.
    + done.
    + by rewrite Eco.
    + intros Hn Hn'. unfold dist. rewrite Hn, Hn'. simpl. rewrite Eco, decide_True by done. lia.
  - apply progress_work. unfold work, main_rank, prod_rank, cons_rank, runner_rank, handled.
    simpl. rewrite Eco. lia.
Qed.

Lemma consumer_pops s : sizes_ok → inv s → cons s = C_pop → stepped Consumer s.
Proof.
  intros Hsz Hi Eco. destruct (consumer_phase s Hi) as (Hj & Hc & Hle); [by rewrite Eco..|].
  unfold stepped. simpl. unfold consumer_step. rewrite Eco.
  pose proof (iv_cons _ Hi) as Hco. unfold cons_ok in Hco. rewrite Eco in Hco.
  pose proof (tk_count _ (iv_times _ Hi)) as Hr. unfold recorded in Hr. rewrite Eco in Hr.
  assert (popped s = received s) as Hpop by (unfold popped; by rewrite Eco). rewrite Hpop in *.
  pose proof (ca_order _ _ _ _ Hc) as Ho. unfold on_responses.
  destruct (decide (handled s = WARMUP_ORDERS + received s)) as [Hh|Hh].
  - rewrite Hh in Hc. rewrite (carries_no_response _ _ _ Hc). eexists. split; [done|].
    replace (set_cons (C_time None) _) with (set_cons (C_time None) s) by (by destruct s as [[]]).
    split.
    + apply (inv_cons s); [done|done|by split_and!|done|by rewrite Hpop|done|done|by apply moves_times].
    + assert (answered s = handled s) as Ha
        by (unfold answered; destruct Hj as [-> | ->]; by rewrite Hpop, Hh).
      assert (consumer_goes s = false) as Hg.
      { unfold consumer_goes. rewrite Eco. apply bool_decide_eq_false_2. lia. }
      apply progress_poll; [done|by split_and!|done|by rewrite Hpop|..].
      * unfold work, main_rank, prod_rank, cons_rank, runner_rank, handled. simpl. by rewrite Eco.
      * rewrite Hg. apply bool_decide_eq_false_2. unfold answered, popped, handled in *. simpl.
        rewrite Eco in Ha. lia.
      * done.
      * by rewrite Eco.
      * intros Hn. exfalso. revert Hn. unfold needs. rewrite Hg.
        destruct Hj as [-> | ->]; by repeat case_match.
  - destruct (carries_response _ _ _ _ Hc ltac:(lia)) as (i & q & -> & Hc' & Hs).
    eexists. split; [done|]. split.
    + destruct Hi as [_ Hm Ht Hp _ [Htl Hts _ Htm]]. split.
      * unfold pushed, answered, popped, issued, handled in *. simpl.
        destruct Hj as [-> | ->]; rewrite Nat.add_succ_r; exact Hc'.
      * unfold main_ok in *. simpl. by destruct Hj as [E|E]; rewrite E in *.
      * unfold threads_ok in *. simpl. by destruct Hj as [E|E]; rewrite E in *; destruct Ht as (? & _ & ?).
      * exact Hp.
      * by split.
      * by split.
    + apply progress_work. unfold work, main_rank, prod_rank, cons_rank, runner_rank, handled.
      simpl. rewrite Eco. lia.
Qed.

Lemma consumer_times p s : inv s → cons s = C_time p → stepped Consumer s.
Proof.
  intros Hi Eco. destruct (consumer_phase s Hi) as (Hj & Hc & Hle); [by rewrite Eco..|].
  unfold stepped. simpl. unfold consumer_step. rewrite Eco. eexists. split; [done|].
  pose proof (iv_cons _ Hi) as Hco. unfold cons_ok in Hco. rewrite Eco in Hco.
  pose proof (iv_times _ Hi) as [_ Hts Hr _]. unfold recorded in Hr. rewrite Eco in Hr.
  destruct p as [i|]; [rewrite decide_False by done|rewrite decide_True by done].
  - destruct Hco as [Hlt Hs]. split.
    + apply (inv_cons s); [done|done|split_and!; simpl; try done; lia|done
        |unfold popped; simpl; by rewrite Eco| |done|].
      * split; [done|]. split; [|by exists i]. unfold popped in Hle. rewrite Eco in Hle.
        destruct (Hts (received s) ltac:(lia)) as (a & Ha & Et).
        exists a, (readings s). split_and!; [done|simpl; lia|done|done].
      * intros idx d Hd. by left.
    + apply progress_work. unfold work, main_rank, prod_rank, cons_rank, runner_rank, handled.
      simpl. rewrite Eco. lia.
  - split.
    + apply (inv_cons s); [done|done|split_and!; simpl; try done; lia|done
        |unfold popped; simpl; by rewrite Eco|unfold cons_ok; simpl; lia|done|].
      intros idx d Hd. by left.
    + apply progress_poll; [done|split_and!; simpl; try done; lia|done|..].
      * unfold popped. simpl. by rewrite Eco.
      * unfold work, main_rank, prod_rank, cons_rank, runner_rank, handled. simpl. by rewrite Eco.
      * unfold consumer_goes, answered, popped, handled. simpl. rewrite Eco.
        by rewrite (bool_decide_eq_false_2 (_ = _)) by lia.
      * done.
      * by rewrite Eco.
      * intros Hn Hn'. unfold dist. rewrite Hn, Hn'. simpl. rewrite Eco, decide_True by done. lia.
Qed.

Lemma consumer_counts p t1 s : inv s → cons s = C_count p t1 → stepped Consumer s.
Proof.
  intros Hi Eco. destruct (consumer_phase s Hi) as (Hj & Hc & Hle); [by rewrite Eco..|].
  unfold stepped. simpl. unfold consumer_step. rewrite Eco. eexists. split; [done|].
  pose proof (iv_cons _ Hi) as Hco. unfold cons_ok in Hco. rewrite Eco in Hco.
  pose proof (iv_times _ Hi) as [_ Hts Hr _]. unfold recorded in Hr. rewrite Eco in Hr.
  destruct Hco as (Hlt & Hme & i & -> & Hs). split.
  - apply (inv_cons s); [done|done|split_and!; simpl; try done; lia|done
      |unfold popped; simpl; by rewrite Eco| |unfold recorded; simpl; lia|].
    + unfold cons_ok. simpl. rewrite Nat.sub_0_r.
      split; [lia|]. split; [done|]. by exists i.
    + intros idx d Hd. by left.
  - apply progress_work. unfold work, main_rank, prod_rank, cons_rank, runner_rank, handled.
    simpl. rewrite Eco. lia.
Qed.

(** The response to the request [idx] of the producer is recorded under [idx]. *)
Lemma record_run r idx t1 ts s :
  sizes_ok → answers (WARMUP_ORDERS + idx) r → idx < TOTAL_ORDERS → send_ts s !! idx = Some ts →
  record r t1 s = Running (set_latencies (latencies s ++ [t1 - ts]%Z) s).
Proof.
  intros Hsz [Hty Hid] Hlt Hts. unfold record. rewrite Hty, decide_False by (intros []; done).
  pose proof (so_width Hsz).
  rewrite Hid, u32_id by lia.
  replace (Z.to_nat (Z.of_nat (WARMUP_ORDERS + idx) + 1 - 1)) with (WARMUP_ORDERS + idx) by lia.
  rewrite decide_False by lia. replace (WARMUP_ORDERS + idx - WARMUP_ORDERS) with idx by lia.
  rewrite decide_False by lia. by rewrite Hts.
Qed.

Lemma consumer_reads p t1 s : sizes_ok → inv s → cons s = C_read p t1 → stepped Consumer s.
Proof.
  intros Hsz Hi Eco. destruct (consumer_phase s Hi) as (Hj & Hc & Hle); [by rewrite Eco..|].
  unfold stepped. simpl. unfold consumer_step. rewrite Eco.
  pose proof (iv_cons _ Hi) as Hco. unfold cons_ok in Hco. rewrite Eco in Hco.
  pose proof (iv_times _ Hi) as [_ _ Hr _]. unfold recorded in Hr. rewrite Eco in Hr.
  destruct Hco as (Hrc & Hme & i & -> & _ & r & Hr' & Ha).
  destruct Hme as (a & b & Hab & Hts & ->).
  rewrite (in_responses_done _ _ _ _ (LFQueue.item_at_done _ _ _ Hr')).
  rewrite (record_run _ (received s - 1) _ (now_ns a)) by (done || lia).
  eexists. split; [done|]. split.
  - apply (inv_cons s); [done|done|by split_and!|done|unfold popped; simpl; by rewrite Eco|..].
    + unfold cons_ok. simpl. lia.
    + simpl. rewrite length_app, Hr. unfold recorded. simpl. lia.
    + simpl. intros idx d Hd. apply lookup_app_Some in Hd as [?|[Hge Hd]]; [by left|right].
      apply list_lookup_singleton_Some in Hd as [Hz <-].
      replace idx with (received s - 1) by lia. exists (now_ns b), (now_ns a).
      split_and!; [|done|done]. exists a, b. split_and!; [lia|simpl; lia|done|done].
  - apply progress_work. unfold work, main_rank, prod_rank, cons_rank, runner_rank, handled.
    simpl. rewrite Eco. lia.
Qed.

Lemma consumer_begins s : inv s → cons s = C_go → stepped Consumer s.
Proof.
  intros Hi Eco. pose proof Hi as [Hc Hm Ht Hp Hco Htm].
  unfold stepped. simpl. unfold consumer_step. rewrite Eco.
  eexists. split; [done|]. unfold cons_ok in Hco. rewrite Eco in Hco.
  assert ((at_main s = B_go ∧ go s = false) ∨ joining s ∧ go s = true) as [[E ->]|[Hj ->]].
  { unfold joining, threads_ok in *. destruct (at_main s); rewrite ?Eco in Ht; destruct_and?; try done;
      [by left|by right; split; [left|]|by right; split; [right|]]. }
  - replace (set_cons C_go s) with s by (rewrite <- Eco; by destruct s).
    split; [done|]. apply progress_same. unfold needs. by rewrite E.
  - split.
    + apply (inv_cons s); [done|done|by split_and!|done|unfold popped; simpl; by rewrite Eco|..].
      * unfold cons_ok. simpl. lia.
      * simpl. rewrite (tk_count _ Htm). unfold recorded. simpl. by rewrite Eco.
      * intros idx d Hd. by left.
    + apply progress_work. unfold work, main_rank, prod_rank, cons_rank, runner_rank, handled.
      simpl. rewrite Eco. lia.
Qed.

Lemma consumer_over s : inv s → cons s = C_none ∨ cons s = C_done → needs s ≠ Consumer.
Proof.
  intros [Hc Hm Ht Hp Hco Htm] Eco. unfold needs.
  unfold threads_ok, pushed, answered, issued, cons_ok in *.
  destruct (at_main s) eqn:E; try done; try by case_decide.
  3: by repeat case_match.
  all: destruct Eco as [Eco|Eco]; rewrite Eco in *; [by destruct_and?|].
  all: unfold main_goes, consumer_goes, answered, popped in *; rewrite E, Eco in *.
  all: pose proof (ca_order _ _ _ _ Hc) as Ho; unfold prod_ok in Hp.
  all: destruct (prod s) eqn:Epr; try done;
    rewrite bool_decide_eq_false_2 by lia; by case_decide.
Qed.

Lemma consumer_stepped s : sizes_ok → inv s → stepped Consumer s.
Proof.
  intros Hsz Hi. destruct (cons s) eqn:Eco.
  - unfold stepped. simpl. unfold consumer_step. rewrite Eco. left. apply consumer_over; auto.
  - by apply consumer_begins.
  - by apply consumer_tests.
  - by apply consumer_pops.
  - by eapply consumer_times.
  - by eapply consumer_counts.
  - by eapply consumer_reads.
  - unfold stepped. simpl. unfold consumer_step. rewrite Eco. left. apply consumer_over; auto.
Qed.

(** ** The thread of the exchange *)

Lemma issued_total s : prod_ok s → issued s ≤ TOTAL_ORDERS ∧ issued s ≤ received s + MAX_IN_FLIGHT.
Proof. unfold prod_ok, issued. destruct (prod s); lia. Qed.

Lemma pushed_bounds s :
  sizes_ok → inv s →
  pushed s ≤ WARMUP_ORDERS + TOTAL_ORDERS ∧ pushed s ≤ answered s + MAX_IN_FLIGHT.
Proof.
  intros Hsz [Hc Hm Ht Hp Hco Htm]. pose proof (so_flight Hsz). pose proof (popped_received s).
  destruct (issued_total s Hp). unfold pushed, answered, main_ok in *.
  destruct (at_main s); lia.
Qed.

Lemma inv_runner y s k :
  let s' := set_sys y s in
  inv s → carries (pushed s) k (answered s) (exch y) → main_ok s' →
  (∀ i m, slot (exch (sys s)) i m → slot (exch y) i m) → inv s'.
Proof.
  intros s' [Hc Hm Ht Hp Hco [Hl Hs Hr Htm]] Hca Hm' Hsl.
  pose proof (carries_handled_id _ _ _ _ Hca) as Hk. split; try done.
  - unfold handled. simpl. rewrite Hk. exact Hca.
  - exact (cons_ok_sys y (at_main s) s Hsl Hco).
Qed.

Lemma needs_run y s :
  at_main s ≠ B_stopped → handled (set_sys y s) = handled s → needs (set_sys y s) = needs s.
Proof. intros Hm Hh. unfold needs. simpl. rewrite Hh. unfold consumer_goes. rewrite Hh. by destruct (at_main s). Qed.

Lemma dist_run y s :
  at_main s ≠ B_stopped → handled (set_sys y s) = handled s → needs s ≠ Runner →
  dist (set_sys y s) = dist s.
Proof. intros Hm Hh Hn. unfold dist. rewrite needs_run by done. by destruct (needs s). Qed.

Lemma main_ok_run x rt rt' s :
  run_thread (sys s) = Some rt → main_ok s → running x = running (exch (sys s)) →
  (∀ i, at_main s = B_push i → Z.to_nat (next_order_id x - 1) = handled s) →
  (running x = true → rt' ≠ R_done) →
  main_ok (set_sys (mkLive x (Some rt') (owner_at (sys s))) s).
Proof.
  intros Hr Hm Hrun Hh Hrt.
  assert (going (sys s) → going (mkLive x (Some rt') (owner_at (sys s)))) as Hgo.
  { intros (Ho & Hg & _). rewrite <- Hrun in Hg. split_and!; [done|done|]. simpl.
    specialize (Hrt Hg). destruct rt'; [by left|by right|done]. }
  unfold main_ok in *. simpl. destruct (at_main s) as [| |i|i| | | | | |] eqn:E; try by destruct_and?; congruence.
  - destruct Hm as (Hg & Hi & Hle). split_and!; [by apply Hgo| |done]. by rewrite <- Hi; apply (Hh i).
  - destruct Hm. split; [by apply Hgo|done].
  - by apply Hgo.
  - by apply Hgo.
  - by apply Hgo.
  - by apply Hgo.
  - destruct Hm as (? & ? & _). split_and!; [done|congruence|done].
Qed.

Lemma runner_tests s : inv s → run_thread (sys s) = Some R_test → stepped Runner s.
Proof.
  intros Hi Hr. pose proof Hi as [Hc Hm Ht Hp Hco Htm].
  unfold stepped. simpl. unfold exchange_step, runner_step. rewrite Hr. simpl.
  eexists. split; [done|]. set (y := mkLive _ _ _).
  destruct (decide (running (exch (sys s)) = true)) as [Hrun|Hrun].
  - assert (at_main s ≠ B_stopped) as Hns
      by (intros E; unfold main_ok in Hm; rewrite E in Hm; destruct Hm as (_ & ? & _); congruence).
    assert (run_thread y = Some R_body) as Hy by (unfold y; simpl; by rewrite Hrun). split.
    + apply inv_runner with (handled s); [done|done| |done].
      eapply main_ok_run; [done|done|done|done|]. by rewrite Hrun.
    + destruct (decide (needs s = Runner)) as [Hn|Hn].
      * left. unfold measure, dist. rewrite needs_run, Hn by done. simpl. rewrite Hr, Hrun.
        assert (work (set_sys y s) = work s) as ->.
        { unfold work, main_rank, prod_rank, cons_rank, runner_rank, handled. simpl. by rewrite Hr, Hrun. }
        destruct (at_main s); try done; lia.
      * right. split_and!; [|by apply needs_run|done]. unfold measure. rewrite dist_run by done.
        unfold work, main_rank, prod_rank, cons_rank, runner_rank, handled. simpl. by rewrite Hr, Hrun.
  - apply not_true_is_false in Hrun.
    assert (at_main s = B_stopped) as E.
    { unfold main_ok, going in *. destruct (at_main s); try done; exfalso; destruct_and?; congruence. }
    unfold y. rewrite Hrun. split.
    + apply inv_runner with (handled s); [done|done| |done].
      eapply main_ok_run; [done|done|done|done|]. congruence.
    + apply progress_work. unfold work, main_rank, prod_rank, cons_rank, runner_rank, handled.
      simpl. rewrite Hr. lia.
Qed.

Lemma handled_sys y s : handled (set_sys y s) = Z.to_nat (next_order_id (exch y) - 1).
Proof. done. Qed.

Lemma runner_turns s : sizes_ok → inv s → run_thread (sys s) = Some R_body → stepped Runner s.
Proof.
  intros Hsz Hi Hr. pose proof Hi as [Hc Hm Ht Hp Hco Htm].
  destruct (pushed_bounds s Hsz Hi) as [Htot Hfl]. pose proof (so_flight Hsz).
  pose proof (ca_order _ _ _ _ Hc) as Ho.
  unfold stepped. simpl. unfold exchange_step, runner_step. rewrite Hr.
  destruct (decide (handled s < pushed s)) as [Hlt|Hge].
  - destruct (carries_turn _ _ _ _ Hsz Hc Hlt Htot ltac:(lia)) as (x & -> & Hc' & Hrun & Hsl).
    eexists. split; [done|]. split.
    + apply inv_runner with (S (handled s)); [done|done| |done].
      eapply main_ok_run; [done|done|done| |done]. intros i E. exfalso.
      unfold pushed, answered, main_ok in *. rewrite E in *. lia.
    + apply progress_work. unfold work, main_rank, prod_rank, cons_rank, runner_rank.
      simpl. rewrite handled_sys. simpl. rewrite (carries_handled_id _ _ _ _ Hc'), Hr. lia.
  - assert (handled s = pushed s) as Hh by lia. rewrite Hh in Hc.
    destruct (carries_idle _ _ _ Hc) as (x & -> & Hc' & Hrun & Hsl).
    eexists. split; [done|]. simpl. set (y := mkLive x _ _).
    assert (handled (set_sys y s) = handled s) as Hhy
      by (rewrite handled_sys; simpl; by rewrite (carries_handled_id _ _ _ _ Hc')).
    split.
    + apply inv_runner with (pushed s); [done|done| |done].
      eapply main_ok_run; [done|done|done|by intros; apply Hhy|done].
    + assert (work (set_sys y s) = work s) as Hw.
      { unfold work, main_rank, prod_rank, cons_rank, runner_rank. rewrite Hhy. simpl. by rewrite Hr. }
      assert (at_main s = B_stopped ∨ at_main s ≠ B_stopped) as [E|E] by (destruct (at_main s); auto).
      * left. unfold measure, dist, needs. rewrite Hw. simpl. rewrite E, Hr. lia.
      * assert (needs s ≠ Runner) as Hn.
        { unfold needs. rewrite decide_False by lia. unfold pushed in Hh.
          destruct (at_main s); try done; [rewrite decide_False by lia; done|..];
            by repeat case_match. }
        right. split_and!; [|by apply needs_run|done]. unfold measure. by rewrite Hw, dist_run.
Qed.

Lemma runner_stepped s : sizes_ok → inv s → stepped Runner s.
Proof.
  intros Hsz Hi. pose proof (iv_main _ Hi) as Hm.
  destruct (run_thread (sys s)) as [[]|] eqn:Hr;
    [by apply runner_tests|by apply runner_turns|..].
  all: unfold stepped; simpl; unfold exchange_step, runner_step; rewrite Hr; simpl.
  all: unfold main_ok, going, needs in *; rewrite Hr in *; destruct (at_main s); try (by left);
    try (by right); exfalso; naive_solver.
Qed.

Lemma thread_stepped t s : sizes_ok → inv s → stepped t s.
Proof.
  intros Hsz Hi. destruct t;
    [by apply main_stepped|by apply producer_stepped|by apply consumer_stepped|by apply runner_stepped].
Qed.

End props.
End BenchmarkProps.
