(* ===== verification/BenchmarkTimes.v ===== *)
(** Lemmas on the times of the benchmark: at which steps of a run the clock was read
    for what [send_ts] and [latencies] hold. *)

From S2P Require Import Prelude Types LFQueue TimeUtils Exchange ExchangeThreads.
From S2P Require Import Benchmark BenchmarkProps.

Module BenchmarkTimes.
Import ExchangeThreads Benchmark BenchmarkProps.

Section times.
Context `{Constants, Clock, Sizes, SteadyClock}.
Implicit Types (s : bench) (n idx a b : nat) (t : Z).

(** The states of a run, and the thread that has each turn. *)
Context (σ : nat → result) (l : nat → thread).
Context (Hturn : ∀ n, σ (S n) = turn (l n) (σ n)).
Context (Hinv : ∀ n, ∃ s, σ n = Running s ∧ inv s).

(** Before the turn [n] the producer took the reading [a] of the clock as the time of
    its order [idx]. *)
Definition sent_at n idx a : Prop :=
  ∃ k s, k < n ∧ l k = Producer ∧ σ k = Running s ∧ prod s = P_time idx ∧ readings s = a.

(** Before the turn [n] the consumer took the reading [b] with the response to the
    order [idx] in hand: it had just popped the slot of this response. *)
Definition answered_at n idx b : Prop :=
  ∃ k s i r, k < n ∧ l k = Consumer ∧ σ k = Running s ∧ cons s = C_time (Some i) ∧
    LFQueue.data_ (responses (exch (sys s))) !! i = Some r ∧ answers (WARMUP_ORDERS + idx) r ∧
    readings s = b.

Definition timed n s idx t : Prop :=
  ∃ a b, a < b ∧ sent_at n idx a ∧ answered_at n idx b ∧
    send_ts s !! idx = Some (now_ns a) ∧ t = now_ns b.

Record traced n s : Prop := {
  tr_sent idx : idx < stamped s →
    ∃ a, a < readings s ∧ sent_at n idx a ∧ send_ts s !! idx = Some (now_ns a);
  tr_cons : match cons s with
            | C_count _ t => timed n s (received s) t ∧ received s < stamped s
            | C_read _ t => timed n s (received s - 1) t ∧ received s - 1 < stamped s
            | _ => True
            end;
  tr_latency idx d : latencies s !! idx = Some d →
    ∃ t ts, timed n s idx t ∧ idx < stamped s ∧ send_ts s !! idx = Some ts ∧ d = (t - ts)%Z;
}.

(** A step that keeps the times there are. *)
Definition keeps s s' : Prop :=
  stamped s ≤ stamped s' ∧ readings s ≤ readings s' ∧
  ∀ idx, idx < stamped s → send_ts s' !! idx = send_ts s !! idx.

Lemma timed_keeps n s s' idx t : idx < stamped s → keeps s s' → timed n s idx t → timed (S n) s' idx t.
Proof.
  intros Hlt (_ & _ & Hk) (a & b & Hab & (k & u & ? & ?) & (k' & u' & i & r & ? & ?) & Hts & ->).
  exists a, b. rewrite Hk by done. split_and!; [done| | |done|done].
  - exists k, u. split; [lia|done].
  - exists k', u', i, r. split; [lia|done].
Qed.

(** A step that sends and records nothing. *)
Lemma traced_keeps n s s' :
  keeps s s' → stamped s' = stamped s → latencies s' = latencies s →
  match cons s' with
  | C_count _ _ | C_read _ _ => cons s' = cons s ∧ received s' = received s
  | _ => True
  end → traced n s → traced (S n) s'.
Proof.
  intros Hk Est Ela Hco [Hs Hc Hla]. pose proof Hk as (_ & Hr & Hts). split.
  - intros idx. rewrite Est. intros Hidx. destruct (Hs idx Hidx) as (a & Ha & (k & u & ? & ?) & Hat).
    exists a. rewrite Hts by done. split_and!; [lia| |done]. exists k, u. split; [lia|done].
  - destruct (cons s') as [| | | | |p t|p t|] eqn:Eco; try done; destruct Hco as [E1 ->];
      rewrite <- E1 in Hc; destruct Hc; rewrite Est; (split; [|done]); by apply (timed_keeps n s).
  - intros idx d. rewrite Ela. intros Hd. destruct (Hla idx d Hd) as (t & ts & Ht & Hlt & Hsd & ->).
    exists t, ts. rewrite Est, Hts by done. split_and!; [by apply (timed_keeps n s)|done..].
Qed.

Lemma keeps_same s s' :
  sent s' = sent s → prod s' = prod s → send_ts s' = send_ts s → readings s ≤ readings s' →
  keeps s s' ∧ stamped s' = stamped s.
Proof. intros E1 E2 E3 Hle. unfold keeps, stamped. rewrite E1, E2, E3. by split. Qed.

Lemma in_sys_running s p f s' :
  in_sys s p f = Some (Running s') → ∃ x, s' = f (set_sys x s).
Proof. destruct p as [[x|e]|]; [|done|done]. intros [= <-]. by exists x. Qed.

Lemma on_responses_running {A} s (m : M (LFQueue ClientResponse) A) f s' :
  on_responses s m f = Some (Running s') → ∃ p x, s' = f p (set_sys x s).
Proof.
  unfold on_responses. destruct (in_responses _ _) as [[p x]| | |]; try done.
  intros [= <-]. by eexists _, _.
Qed.

(** The steps of the exchange. *)
Lemma traced_runner n s s' :
  exchange_step s = Some (Running s') → traced n s → traced (S n) s'.
Proof.
  intros [x ->]%in_sys_running Ht. destruct (keeps_same s (set_sys x s)) as [Hk Est]; [done..|].
  apply (traced_keeps n s); [done|done|done| |done]. simpl. by destruct (cons s).
Qed.

(** The steps of main: a new [send_ts] is made before anything is sent. *)
Lemma traced_main n s s' :
  inv s → main_step s = Some (Running s') → traced n s → traced (S n) s'.
Proof.
  intros Hi E Ht.
  assert (keeps s s' ∧ stamped s' = stamped s ∧ latencies s' = latencies s ∧
    (cons s' = C_go ∨ cons s' = cons s ∧ received s' = received s)) as (Hk & Est & Ela & Hco).
  { unfold main_step in E. pose proof (iv_threads _ Hi) as Hth. pose proof (iv_prod _ Hi) as Hp.
    unfold threads_ok, prod_ok in *. destruct (at_main s); [..|done].
    all: try case_decide; try (destruct (prod s); try done; []); try (destruct (cons s) eqn:Eco; try done; []).
    all: first [apply in_sys_running in E as [x ->]|apply on_responses_running in E as (p & x & ->)
               |injection E as <-].
    all: try (split_and!; [done..|right; split; [simpl; congruence|done]]; fail).
    destruct Hth as (Epr & _). rewrite Epr in Hp. unfold keeps, stamped. simpl. rewrite Epr, Hp.
    split_and!; [done|done|intros; lia|done|done|by left]. }
  apply (traced_keeps n s); [done|done|done| |done].
  destruct Hco as [-> |[-> ->]]; [done|by destruct (cons s)].
Qed.

(** The steps of the producer: only one reads the clock. *)
Lemma traced_stamps n idx s s' :
  l n = Producer → σ n = Running s → inv s → prod s = P_time idx →
  producer_step s = Some (Running s') → traced n s → traced (S n) s'.
Proof.
  intros Hl Es Hi Epr E [Hs Hc Hla]. pose proof (iv_prod _ Hi) as Hp. unfold prod_ok in Hp.
  rewrite Epr in Hp. destruct Hp as (Hsent & Hp). unfold producer_step in E. rewrite Epr in E.
  case_decide as Hlen; [|done]. injection E as <-.
  assert (stamped s = idx) as Est by (unfold stamped; rewrite Epr; lia).
  set (s' := set_prod _ _).
  assert (stamped s' = S idx) as Est' by (unfold stamped; simpl; lia).
  assert (keeps s s') as Hk.
  { split_and!; [lia|simpl; lia|]. intros m Hm. simpl. by rewrite list_lookup_insert_ne by lia. }
  split.
  - intros m Hm. destruct (decide (m = idx)) as [->|Hne].
    + exists (readings s). split_and!; [simpl; lia| |simpl; by apply list_lookup_insert_eq].
      exists n, s. split_and!; (lia || done).
    + destruct (Hs m ltac:(lia)) as (a & Ha & (k & u & ? & ?) & Hat). exists a.
      rewrite (proj2 (proj2 Hk)) by lia. split_and!; [simpl; lia| |done].
      exists k, u. split; [lia|done].
  - simpl. destruct (cons s); try done; destruct Hc; (split; [|lia]); by apply (timed_keeps n s).
  - simpl. intros m d Hd. destruct (Hla m d Hd) as (t & ts & Ht & Hlt & Hsd & ->). exists t, ts.
    rewrite list_lookup_insert_ne by lia.
    split_and!; [by apply (timed_keeps n s)|lia|done|done].
Qed.

Lemma traced_producer n s s' :
  l n = Producer → σ n = Running s → inv s →
  producer_step s = Some (Running s') → traced n s → traced (S n) s'.
Proof.
  intros Hl Es Hi E Ht. destruct (prod s) as [| | | | |idx| |] eqn:Epr.
  6: by eapply traced_stamps.
  all: assert (keeps s s' ∧ stamped s' = stamped s ∧ latencies s' = latencies s ∧
    cons s' = cons s ∧ received s' = received s) as (Hk & Est & Ela & Eco & Erc).
  all: try (apply (traced_keeps n s); [done|done|done| |done]; rewrite Eco, Erc; by destruct (cons s)).
  all: unfold producer_step in E; rewrite Epr in E; try done.
  all: try (apply in_sys_running in E as [x ->]); try (injection E as <-).
  all: unfold keeps, stamped; simpl; rewrite Epr; simpl; repeat case_match; simplify_eq/=;
    split_and!; (done || lia).
Qed.

(** The steps of the consumer. *)
Lemma traced_times n p s s' :
  l n = Consumer → σ n = Running s → inv s → cons s = C_time p →
  consumer_step s = Some (Running s') → traced n s → traced (S n) s'.
Proof.
  intros Hl Es Hi Eco E Ht. unfold consumer_step in E. rewrite Eco in E.
  destruct p as [i|]; [rewrite decide_False in E by done|rewrite decide_True in E by done];
    injection E as <-; set (s' := set_cons _ _);
    (destruct (keeps_same s s') as [Hk Est]; [done|done|done|simpl; lia|]).
  2: by apply (traced_keeps n s).
  destruct (consumer_phase s Hi) as (_ & _ & Hle); [by rewrite Eco..|].
  unfold popped in Hle. rewrite Eco in Hle.
  pose proof (iv_cons _ Hi) as Hco. unfold cons_ok in Hco. rewrite Eco in Hco.
  destruct Hco as (_ & _ & r & Hr & Ha).
  assert (traced (S n) (set_cons C_test s')) as [Hs' _ Hla'] by (by apply (traced_keeps n s)).
  split; [exact Hs'| |exact Hla']. simpl. change (stamped s') with (stamped s).
  split; [|lia]. destruct (tr_sent _ _ Ht (received s) ltac:(lia)) as (a & Hlt & (k & u & ? & ?) & Hat).
  exists a, (readings s). split_and!; [done|exists k, u; split; [lia|done]| |done|done].
  exists n, s, i, r. split_and!; (done || lia).
Qed.

Lemma traced_reads n p t s s' :
  sizes_ok → inv s → cons s = C_read p t →
  consumer_step s = Some (Running s') → traced n s → traced (S n) s'.
Proof.
  intros Hsz Hi Eco E Ht. unfold consumer_step in E. rewrite Eco in E.
  pose proof (iv_cons _ Hi) as Hco. unfold cons_ok in Hco. rewrite Eco in Hco.
  destruct Hco as (Hrc & Hme & i & -> & _ & r & Hr & Ha). destruct Hme as (a & _ & _ & Hts & _).
  rewrite (in_responses_done _ _ _ _ (LFQueue.item_at_done _ _ _ Hr)) in E.
  rewrite (record_run _ (received s - 1) _ (now_ns a)) in E by (done || lia). injection E as <-.
  pose proof (tk_count _ (iv_times _ Hi)) as Hlen. unfold recorded in Hlen. rewrite Eco in Hlen.
  assert (traced (S n) (set_cons C_test s)) as [Hs' _ Hla'].
  { destruct (keeps_same s (set_cons C_test s)) as [Hk Est]; [done..|]. by apply (traced_keeps n s). }
  pose proof (tr_cons _ _ Ht) as Hc. rewrite Eco in Hc. destruct Hc as [Hc Hlt].
  split; [exact Hs'|done|]. simpl. intros idx d Hd.
  apply lookup_app_Some in Hd as [Hd|[Hge Hd]]; [by apply Hla'|].
  apply list_lookup_singleton_Some in Hd as [Hz <-]. replace idx with (received s - 1) by lia.
  exists t, (now_ns a). split_and!; [|done|done|done].
  apply (timed_keeps n s); [done| |done]. by split_and!.
Qed.

Lemma traced_consumer n s s' :
  sizes_ok → l n = Consumer → σ n = Running s → inv s →
  consumer_step s = Some (Running s') → traced n s → traced (S n) s'.
Proof.
  intros Hsz Hl Es Hi E Ht. destruct (cons s) as [| | | |p|p t|p t|] eqn:Eco.
  5: by eapply traced_times.
  6: by eapply traced_reads.
  5: { unfold consumer_step in E. rewrite Eco in E. injection E as <-. set (s' := set_cons _ _).
       destruct (keeps_same s s') as [Hk Est]; [done..|].
       assert (traced (S n) (set_cons C_test s')) as [Hs' _ Hla'] by (by apply (traced_keeps n s)).
       split; [exact Hs'| |exact Hla']. pose proof (tr_cons _ _ Ht) as Hc. rewrite Eco in Hc.
       simpl. rewrite Nat.sub_0_r. destruct Hc. split; [|done]. by apply (timed_keeps n s). }
  all: unfold consumer_step in E; rewrite Eco in E; try done.
  all: try (apply on_responses_running in E as (p & x & ->)); try (injection E as <-).
  all: match goal with |- traced _ ?s' => destruct (keeps_same s s') as [Hk Est]; [done..|] end.
  all: apply (traced_keeps n s); [done|done|done| |done]; simpl; by repeat case_match.
Qed.

(** All turns keep track. *)
Lemma run_traced n s0 :
  sizes_ok → σ 0 = Running s0 → stamped s0 = 0 → latencies s0 = [] → cons s0 = C_none →
  ∀ s, σ n = Running s → traced n s.
Proof.
  intros Hsz E0 Hst Hla Hco. induction n as [|n IH]; intros s' E'.
  - rewrite E0 in E'. injection E' as <-. split; [lia|by rewrite Hco|by rewrite Hla].
  - destruct (Hinv n) as (s & E & Hi). specialize (IH s E).
    rewrite Hturn, E in E'. simpl in E'.
    destruct (thread_step (l n) s) as [r|] eqn:Est.
    + subst r. destruct (l n) eqn:Hl; simpl in Est;
        [by eapply traced_main|by eapply traced_producer|by eapply traced_consumer
        |by eapply traced_runner].
    + injection E' as <-. destruct (keeps_same s s) as [Hk _]; [done..|].
      apply (traced_keeps n s); [done|done|done| |done]. by destruct (cons s).
Qed.
End times.
End BenchmarkTimes.
