(* ===== verification/BenchmarkResults.v ===== *)
(** The results on the benchmark, with instances for the numbers of the program. *)

From S2P Require Import Prelude Types Memory ObjectPool PriceLevel LFQueue QueueThreads TimeUtils.
From S2P Require Import OrderBook BookSpec BookHeap BookRefine BookTheorems Exchange ExchangeProps.
From S2P Require Import ExchangeThreads Runs Benchmark BenchmarkProps BenchmarkTimes.

Module BenchmarkResults.
Import BookHeap BookTheorems Exchange ExchangeProps ExchangeThreads Benchmark BenchmarkProps.
Import BenchmarkTimes.

Section results.
Context `{Constants, Clock, Sizes, SteadyClock}.
Implicit Types (x : Exchange) (s : bench) (l : nat → thread).

Definition empty_exchange : Exchange :=
  mkExchange false 1%Z {[ ticker_id := Some (OrderBook.ctor ticker_id) ]} nullptr
    (LFQueue.ctor ClientRequest.default Q)
    (OrderBook.mkEnv (LFQueue.ctor ClientResponse.default Q) (LFQueue.ctor MarketUpdate.default Q) 1%Z 0).

Lemma constructed_run : sizes_ok → constructed = Done (tt, empty_exchange).
Proof.
  intros Hsz. pose proof (so_tickers Hsz). unfold constructed, ctor. cbn [addTickers].
  set (x := mkExchange _ _ _ _ _ _).
  assert (size (order_books_map x) ≠ MAX_TICKERS) as Hroom
    by (change (order_books_map x) with (∅ : gmap TickerIdT (option OrderBook)); rewrite map_size_empty; lia).
  rewrite (bind_done _ _ _ _ _ (addTicker_room x ticker_id Hroom)).
  done.
Qed.

Lemma empty_carries : sizes_ok → carries 0 0 0 empty_exchange.
Proof.
  intros Hsz. pose proof (so_flight Hsz). pose proof (so_orders Hsz). pose proof (so_levels Hsz).
  assert (book_rep (OrderBook.ctor ticker_id) BookSpec.empty_book) as Hrep by (apply ctor_rep; lia).
  assert (known empty_exchange ticker_id (OrderBook.ctor ticker_id)) as Hk by (by vm_compute).
  split.
  - split; [|split; apply LFQueue.ctor_wf; lia|apply LFQueue.ctor_wf; lia].
    intros t b Hb. unfold known in Hb. simpl in Hb. apply lookup_singleton_Some in Hb as [<- [= <-]].
    split; [done|by eexists].
  - lia.
  - done.
  - exists (OrderBook.ctor ticker_id), BookSpec.empty_book.
    split_and!; [done|done|done| |].
    + simpl. rewrite ObjectPool.ctor_avail. lia.
    + intros _. apply ObjectPool.ctor_avail.
  - apply LFQueue.ctor_contents.
  - unfold LFQueue.capacity. simpl. by rewrite length_replicate.
  - unfold responses. simpl. rewrite LFQueue.ctor_contents. constructor.
  - unfold LFQueue.capacity. simpl. by rewrite length_replicate.
Qed.

Lemma initial_inv : sizes_ok → inv (initial empty_exchange).
Proof.
  intros Hsz. split; try done; [by apply empty_carries|]. split; try done.
  intros idx Hidx. unfold stamped in Hidx. simpl in Hidx. lia.
Qed.

(** The states of a run keep the invariant. *)
Lemma scheduled_inv l n :
  sizes_ok → ∃ s, scheduled l (Running (initial empty_exchange)) n = Running s ∧ inv s.
Proof.
  intros Hsz. induction n as [|n (s & E & Hi)]; [eexists; split; [done|by apply initial_inv]|].
  simpl. rewrite E. pose proof (thread_stepped (l n) s Hsz Hi) as Hs. unfold stepped in Hs. simpl.
  destruct (thread_step (l n) s) as [r|]; [|by eexists].
  destruct Hs as (s' & -> & Hi' & _). by eexists.
Qed.

(** The times of a run. *)
Lemma scheduled_traced l n s :
  sizes_ok → scheduled l (Running (initial empty_exchange)) n = Running s →
  traced (scheduled l (Running (initial empty_exchange))) l n s.
Proof.
  intros Hsz. apply (run_traced _ l (λ _, eq_refl) (λ k, scheduled_inv l k Hsz) n
    (initial empty_exchange)); done.
Qed.

(** C22: whatever the interleaving of its threads, the benchmark does not crash, in
    particular no pool is used up and no index is out of range, and there are never
    more than [MAX_IN_FLIGHT] requests and responses in the two queues.  The latency
    it records for an order is the time between two readings of the clock: the one the
    producer took for this order before it pushed it, and the one the consumer took
    with the response to this order, just popped, in hand.  When it ends it has
    recorded a latency for every order.  The flag [running] of the exchange is read
    and written as an atomic would be; FlagRace.v is about the plain bool. *)
Theorem benchmark_measures l n :
  sizes_ok →
  ∃ x s, let σ := scheduled l (Running (initial x)) in
    constructed = Done (tt, x) ∧ σ n = Running s ∧
    length (LFQueue.contents (client_request_queue (exch (sys s))))
      + length (LFQueue.contents (responses (exch (sys s)))) ≤ MAX_IN_FLIGHT ∧
    (∀ idx d, latencies s !! idx = Some d → ∃ a b, a < b ∧
       sent_at σ l n idx a ∧ answered_at σ l n idx b ∧ d = (now_ns b - now_ns a)%Z) ∧
    (at_main s = B_done → length (latencies s) = TOTAL_ORDERS).
Proof.
  intros Hsz. destruct (scheduled_inv l n Hsz) as (s & E & Hi).
  pose proof (scheduled_traced l n s Hsz E) as [_ _ Hla].
  destruct (pushed_bounds s Hsz Hi) as [_ Hfl]. destruct Hi as [Hc Hm Ht Hp Hco [Hl Hs Hr Htm]].
  exists empty_exchange, s. cbv zeta. split_and!; [by apply constructed_run|done|..].
  - pose proof (ca_order _ _ _ _ Hc). pose proof (Forall2_length _ _ _ (ca_responses _ _ _ _ Hc)) as Hlr.
    rewrite length_seq in Hlr. rewrite (ca_requests _ _ _ _ Hc), length_replicate. lia.
  - intros idx d Hd. destruct (Hla idx d Hd) as (t & ts & (a & b & Hab & Ha & Hb & Hts & ->) & _ & Hts' & ->).
    exists a, b. split_and!; [done|done|done|]. congruence.
  - intros E'. unfold threads_ok in Ht. rewrite E' in Ht. destruct Ht as [_ Eco].
    unfold cons_ok, recorded in *. rewrite Eco in *. congruence.
Qed.

(** C23: the benchmark ends when every thread gets turns again and again: no thread
    waits for ever for a response, for room in flight or for another thread.  The
    flag [running] of the exchange is taken to be read and written as an atomic: by
    the C++ standard the plain bool of the code gives no such guarantee (FlagRace.v). *)
Theorem benchmark_finishes l :
  sizes_ok → (∀ t, Runs.infinitely_often (λ n, l n = t)) →
  ∃ x n s, constructed = Done (tt, x) ∧ scheduled l (Running (initial x)) n = Running s ∧
    at_main s = B_done.
Proof.
  intros Hsz Hf. set (σ := scheduled l (Running (initial empty_exchange))).
  assert (∃ m, 0 ≤ m ∧ ∃ s, σ m = Running s ∧ at_main s = B_done) as (m & _ & s & E & Hd).
  { apply (Runs.leads_to_needed σ l
      (λ v r, ∃ s, r = Running s ∧ inv s ∧ at_main s ≠ B_done ∧ measure s = v)
      (λ r, match r with Running s => needs s | Crashed _ => Main end)
      (λ r, ∃ s, r = Running s ∧ at_main s = B_done) 0 (measure (initial empty_exchange)) Hf).
    - intros n v (s & E & Hi & Hnd & <-). pose proof (thread_stepped (l n) s Hsz Hi) as Hs.
      unfold stepped in Hs. change (σ (S n)) with (turn (l n) (σ n)). rewrite E. simpl.
      destruct (thread_step (l n) s) as [r|].
      + destruct Hs as (s' & -> & Hi' & Hpr).
        assert (at_main s' = B_done ∨ at_main s' ≠ B_done) as [?|Hnd'] by (destruct (at_main s'); auto).
        * left. by eexists.
        * right. exists (measure s'). split; [by eexists|]. destruct Hpr as [?|(? & ? & ?)]; auto.
      + right. exists (measure s). split; [by eexists|]. right. by destruct Hs.
    - eexists. split; [done|]. split; [by apply initial_inv|done]. }
  exists empty_exchange, m, s. split_and!; [by apply constructed_run|done|done].
Qed.
End results.

(** ** The numbers of the program *)

#[local] Existing Instances Constants_code Sizes_code ticks.
#[local] Instance steady : SteadyClock := {| now_ns n := Z.of_nat n |}.

Lemma code_sizes : sizes_ok.
Proof.
  assert (Q = Z.to_nat 2097152) as HQ
    by exact (f_equal Z.to_nat (eq_refl : Z.shiftl 1 21 = 2097152%Z)).
  assert (MAX_ORDER_IDS = Z.to_nat 8388608) as HM
    by exact (f_equal Z.to_nat (eq_refl : Z.shiftl 1 23 = 8388608%Z)).
  assert (MAX_PRICE_LEVELS = Z.to_nat 131072) as HL
    by exact (f_equal Z.to_nat (eq_refl : 128 * 1024 = 131072)%Z).
  split; rewrite ?HQ, ?HM, ?HL.
  - change MAX_IN_FLIGHT with 1. lia.
  - change WARMUP_ORDERS with (Z.to_nat 5000). change TOTAL_ORDERS with (Z.to_nat 5000000). lia.
  - change WARMUP_ORDERS with (Z.to_nat 5000). change TOTAL_ORDERS with (Z.to_nat 5000000). lia.
  - lia.
  - change MAX_TICKERS with 16. lia.
Qed.

(** The threads take turns. *)
Definition round_robin (n : nat) : thread :=
  match n `mod` 4 with 0 => Main | 1 => Producer | 2 => Consumer | _ => Runner end.

Lemma round_robin_fair t : Runs.infinitely_often (λ n, round_robin n = t).
Proof.
  assert (∀ n k, k < 4 → (4 * n + k) `mod` 4 = k) as Hm.
  { intros n k Hk. rewrite Nat.add_comm, Nat.mul_comm, Nat.Div0.mod_add. by apply Nat.mod_small. }
  intros n. destruct t;
    [exists (4 * n + 0)|exists (4 * n + 1)|exists (4 * n + 2)|exists (4 * n + 3)];
    (split; [lia|]); unfold round_robin; by rewrite Hm by lia.
Qed.

Lemma benchmark_finishes_witness :
  sizes_ok ∧ (∀ t, Runs.infinitely_often (λ n, round_robin n = t)) ∧
  ∃ x n s, constructed = Done (tt, x) ∧ scheduled round_robin (Running (initial x)) n = Running s ∧
    at_main s = B_done.
Proof.
  split; [apply code_sizes|split; [apply round_robin_fair|]].
  apply (benchmark_finishes round_robin code_sizes round_robin_fair).
Defined.

(** ** A run to the end with smaller numbers *)

Section few.
#[local] Instance few : Sizes :=
  {| TOTAL_ORDERS := 2; MAX_IN_FLIGHT := 1; WARMUP_ORDERS := 1; Q := 4 |}.
#[local] Existing Instance small.

Lemma few_sizes : sizes_ok.
Proof. split; vm_compute; try done; lia. Qed.

#[local] Abbreviation turns := (scheduled round_robin (Running (initial empty_exchange))).

Lemma turns_end :
  match turns 200 with
  | Running s => at_main s = B_done ∧ latencies s = [2; 2]%Z
  | Crashed _ => False
  end.
Proof. vm_compute. by split. Qed.

Lemma benchmark_measures_witness :
  sizes_ok ∧ ∃ s, turns 200 = Running s ∧ at_main s = B_done ∧ latencies s = [2; 2]%Z ∧
    ∃ a b, sent_at turns round_robin 200 1 a ∧ answered_at turns round_robin 200 1 b ∧
      2%Z = (now_ns b - now_ns a)%Z.
Proof.
  split; [apply few_sizes|].
  destruct (benchmark_measures round_robin 200 few_sizes) as (x & s & Ex & Es & _ & Hlat & _).
  rewrite (constructed_run few_sizes) in Ex. injection Ex as <-.
  pose proof turns_end as Hu. rewrite Es in Hu. destruct Hu as [Hd Hl].
  exists s. split_and!; [exact Es|exact Hd|exact Hl|].
  destruct (Hlat 1 2%Z) as (a & b & _ & Ha & Hb & E); [rewrite Hl; reflexivity|].
  exists a, b. split_and!; [exact Ha|exact Hb|exact E].
Defined.
End few.
End BenchmarkResults.
