(* ===== verification/BenchmarkStats.v ===== *)
(** The statistics that benchmark_exchange_mt.cpp prints: the elapsed time and the
    throughput, and the percentiles of the sorted latencies, whose indices are
    computed in [double] (binary64, as SpecFloat of the Standard Library defines it).
    [std::sort] is a parameter. *)

From S2P Require Import Prelude Types Benchmark.
From Stdlib Require Import SpecFloat Permutation.
Local Open Scope Z_scope.

Module BenchmarkStats.
Import Benchmark(TOTAL_ORDERS, Sizes_code).

(** ** The type [double] *)

Definition double : Set := spec_float.
Definition mul : double → double → double := SFmul 53 1024.
Definition div : double → double → double := SFdiv 53 1024.

(** An integer converted to [double], rounded to nearest. *)
Definition of_Z (z : Z) : double := binary_normalize 53 1024 z 0 false.

(** A decimal literal [num / den]: the nearest [double]. *)
Definition literal (num den : Z) : double := div (of_Z num) (of_Z den).

(** [static_cast<size_t>]: towards zero; a value that does not fit is undefined. *)
Definition to_size (x : double) : option Z :=
  match x with
  | S754_zero _ => Some 0
  | S754_finite s m e =>
      let v := if 0 <=? e then Z.shiftl (Zpos m) e else Z.shiftr (Zpos m) (- e) in
      let z := if s then - v else v in
      if decide (0 ≤ z < 2 ^ 64) then Some z else None
  | _ => None
  end.

(** ** What is printed *)

(** [duration<double>(t1 - t0).count()] for a clock in nanoseconds. *)
Definition seconds (elapsed : Z) : double := div (of_Z elapsed) (of_Z (10 ^ 9)).
Definition throughput (orders : nat) (elapsed : Z) : double :=
  div (of_Z (Z.of_nat orders)) (seconds elapsed).

(** The latency at the index [p * (latencies.size() - 1)]. *)
Definition pct (p : double) : M (list Z) Z :=
  latencies ← mget;
  match to_size (mul p (of_Z (u64 (Z.of_nat (length latencies) - 1)))) with
  | None => mub BadConversion
  | Some i =>
      match latencies !! Z.to_nat i with
      | Some x => mret x
      | None => mub IndexOutOfRange
      end
  end.

Definition p50 : double := literal 50 100.
Definition p99 : double := literal 99 100.
Definition p999 : double := literal 999 1000.

(** What [std::sort] promises. *)
Record sorts (std_sort : list Z → list Z) : Prop := {
  sort_permutes l : Permutation (std_sort l) l;
  sort_sorts l : StronglySorted Z.le (std_sort l);
}.

(** The three percentiles, on the vector of latencies. *)
Definition report (std_sort : list Z → list Z) : M (list Z) (Z * Z * Z) :=
  mmodify std_sort;;
  a ← pct p50;
  b ← pct p99;
  c ← pct p999;
  mret (a, b, c).

(** [x] is the latency of rank [i], counted from 0. *)
Definition ranked (i : nat) (x : Z) (l : list Z) : Prop :=
  x ∈ l ∧ (length (filter (λ y, (y < x)%Z) l) ≤ i < length (filter (λ y, (y ≤ x)%Z) l))%nat.

Lemma filter_none_in (P : Z → Prop) `{∀ x, Decision (P x)} (l : list Z) :
  (∀ x, x ∈ l → ¬ P x) → filter P l = [].
Proof.
  induction l as [|x l IH]; intros HP; [done|].
  rewrite filter_cons, decide_False by (apply HP; by left). apply IH.
  intros y ?. apply HP. by right.
Qed.

Lemma sorted_ranked l i x :
  StronglySorted Z.le l → l !! i = Some x → ranked i x l.
Proof.
  intros Hs Hx. split; [by eapply list_elem_of_lookup_2|].
  rewrite <- (take_drop_middle l i x Hx) in Hs |- *. pose proof (lookup_lt_Some _ _ _ Hx) as Hlt.
  set (l1 := take i l) in *. set (l2 := drop (S i) l) in *.
  assert (length l1 = i) as Hl1 by (unfold l1; rewrite length_take; lia).
  assert (∀ y, y ∈ l1 → y ≤ x) as Hle.
  { intros y Hy. clear -Hs Hy. induction l1 as [|z l1 IH]; [by apply not_elem_of_nil in Hy|].
    simpl in Hs. apply StronglySorted_cons in Hs as [Hz Hs]. rewrite Forall_forall in Hz.
    apply elem_of_cons in Hy as [->|Hy]; [|by apply IH].
    apply Hz, elem_of_app. right. by left. }
  assert (∀ y, y ∈ l2 → x ≤ y) as Hge.
  { intros y Hy. clear -Hs Hy. induction l1 as [|z l1 IH]; simpl in Hs;
      apply StronglySorted_cons in Hs as [Hz Hs]; [|by apply IH].
    rewrite Forall_forall in Hz. by apply Hz. }
  split.
  - rewrite filter_app, filter_cons, decide_False by lia.
    rewrite (filter_none_in (λ y, y < x) l2), app_nil_r by (intros y Hy; specialize (Hge y Hy); lia).
    pose proof (length_filter (λ y, y < x) l1). lia.
  - rewrite filter_app, filter_cons, decide_True, (filter_all _ l1), length_app by (done || lia).
    simpl. lia.
Qed.

Lemma ranked_perm i x l l' : l ≡ₚ l' → ranked i x l → ranked i x l'.
Proof. intros Hp. unfold ranked. by rewrite Hp. Qed.

(** Ranks are in the order of the values. *)
Lemma ranked_le i j x y l : (i ≤ j)%nat → ranked i x l → ranked j y l → x ≤ y.
Proof.
  intros Hij (_ & Hx & _) (_ & _ & Hy). destruct (decide (x ≤ y)) as [|Hlt]; [done|].
  assert (length (filter (λ z, (z ≤ y)%Z) l) ≤ length (filter (λ z, (z < x)%Z) l))%nat; [|lia].
  apply sublist_length. clear Hx Hy. induction l as [|z l IH]; [done|]. rewrite !filter_cons.
  repeat case_decide; try lia; first [done|by constructor].
Qed.

Lemma pct_at p i n l :
  length l = n → to_size (mul p (of_Z (u64 (Z.of_nat n - 1)))) = Some i → (Z.to_nat i < n)%nat →
  StronglySorted Z.le l → ∃ x, pct p l = Done (x, l) ∧ ranked (Z.to_nat i) x l.
Proof.
  intros Hl Hi Hlt Hs. destruct (lookup_lt_is_Some_2 l (Z.to_nat i)) as [x Hx]; [lia|].
  exists x. unfold pct. rewrite bind_get, Hl, Hi, Hx. split; [done|]. by apply sorted_ranked.
Qed.

(** C37: on the latencies of a whole run ([TOTAL_ORDERS] of them, as [benchmark_measures]
    says) the statistics are defined: the three indices, computed in [double], are in
    range, and the values printed are the latencies of the ranks 2499999, 4949999 and
    4994999 (of 5000000, counted from 0), in this order. *)
Theorem benchmark_percentiles std_sort latencies :
  sorts std_sort → length latencies = @TOTAL_ORDERS Sizes_code →
  ∃ a b c, report std_sort latencies = Done ((a, b, c), std_sort latencies) ∧
    ranked (Z.to_nat 2499999) a latencies ∧ ranked (Z.to_nat 4949999) b latencies ∧
    ranked (Z.to_nat 4994999) c latencies ∧ a ≤ b ≤ c.
Proof.
  intros [Hp Hs] Hlen. set (l := std_sort latencies).
  assert (length l = Z.to_nat 5000000) as Hl by (unfold l; rewrite (Permutation_length (Hp _)); exact Hlen).
  assert (∀ p i, to_size (mul p (of_Z 4999999)) = Some i → 0 ≤ i < 5000000 →
    ∃ x, pct p l = Done (x, l) ∧ ranked (Z.to_nat i) x latencies) as Hpct.
  { intros p i Hi Hlt. destruct (pct_at p i _ l Hl) as (x & E & Hr); [..|lia|apply Hs|].
    - rewrite Z2Nat.id by lia. exact Hi.
    - exists x. split; [done|]. apply (ranked_perm _ _ l); [apply Hp|done]. }
  destruct (Hpct p50 2499999) as (a & Ea & Ha); [by vm_compute|lia|].
  destruct (Hpct p99 4949999) as (b & Eb & Hb); [by vm_compute|lia|].
  destruct (Hpct p999 4994999) as (c & Ec & Hc); [by vm_compute|lia|].
  exists a, b, c. split_and!; [|done..| |].
  - unfold report. rewrite bind_modify. fold l.
    by rewrite (bind_done _ _ _ _ _ Ea), (bind_done _ _ _ _ _ Eb), (bind_done _ _ _ _ _ Ec).
  - by apply (ranked_le (Z.to_nat 2499999) (Z.to_nat 4949999) a b latencies); [lia|..].
  - by apply (ranked_le (Z.to_nat 4949999) (Z.to_nat 4994999) b c latencies); [lia|..].
Qed.

Lemma merge_sorts : sorts (merge_sort Z.le).
Proof.
  split; intros l; [apply merge_sort_Permutation|]. apply StronglySorted_merge_sort; apply _.
Qed.

Lemma benchmark_percentiles_witness :
  length (replicate (@TOTAL_ORDERS Sizes_code) 7) = @TOTAL_ORDERS Sizes_code ∧
  ∃ a b c, report (merge_sort Z.le) (replicate (@TOTAL_ORDERS Sizes_code) 7) =
    Done ((a, b, c), merge_sort Z.le (replicate (@TOTAL_ORDERS Sizes_code) 7)).
Proof.
  split; [apply length_replicate|].
  destruct (benchmark_percentiles (merge_sort Z.le) (replicate (@TOTAL_ORDERS Sizes_code) 7) merge_sorts
    (length_replicate _ _)) as (a & b & c & E & _).
  exists a, b, c. exact E.
Defined.

(** On a short run, and without latencies, where [size() - 1] wraps. *)
Example report_ten :
  report (merge_sort Z.le) [50; 10; 20; 90; 40; 30; 70; 60; 100; 80] =
    Done ((50, 90, 90), [10; 20; 30; 40; 50; 60; 70; 80; 90; 100]).
Proof. by vm_compute. Qed.

Example report_none : report (merge_sort Z.le) [] = UB IndexOutOfRange.
Proof.
  assert (to_size (mul p50 (of_Z (u64 (Z.of_nat 0 - 1)))) = Some (2 ^ 63)) as E by (by vm_compute).
  unfold report. rewrite bind_modify. apply bind_ub.
  change (merge_sort Z.le []) with (@nil Z). unfold pct. rewrite bind_get. cbn [length]. rewrite E.
  by rewrite lookup_nil.
Qed.
End BenchmarkStats.
