(* ===== verification/ThreadResults.v ===== *)
(** The results on the threads: the queue between a producer and a consumer, and
    the exchange with the threads that start it, stop it and send it requests; each
    with an instance on concrete runs. *)

From S2P Require Import Prelude Types Memory ObjectPool PriceLevel LFQueue TimeUtils Runs QueueThreads.
From S2P Require Import OrderBook BookHeap BookTheorems Exchange ExchangeProps ExchangeResults.
From S2P Require Import ExchangeThreads.

Module QueueRuns.
Import LFQueue QueueThreads.

Section results.
Context {T : Type}.
Implicit Types (s : QueueThreads.state (T := T)).

(** C8: the queue of [lf_queue.h] between a producer and a consumer thread is a FIFO
    queue whose calls take effect at one instant: whatever the interleaving of the
    loads, stores and slot accesses of [push] and [pop], what an execution shows
    (calls, returns, reads of items) is what the atomic queue shows, provided no
    push starts on a full queue; and the items popped are the first of the items
    pushed, in order. *)
Theorem queue_linearizable (d : T) n es s :
  0 < n → exec (init d n) es s →
  spec_exec (mkSpec [] A_idle (A_hold None)) es (abs s) ∧ pops es `prefix_of` pushes es.
Proof.
  intros Hn He. pose proof (exec_abs _ _ _ (init_inv d n Hn) He) as Ha.
  unfold abs in Ha at 1. simpl in Ha. rewrite ctor_contents in Ha. split; [done|].
  pose proof (spec_exec_fifo _ _ _ Ha) as Hf. simpl in Hf. rewrite Hf. by eexists.
Qed.

(** No step of either thread faults, blocks or loops, and there is no data race: the
    slot the producer writes is never the one behind the pointer that the consumer
    holds, whose item stays the one that was popped until the next [pop]. *)
Theorem queue_threads_safe (d : T) n es s :
  0 < n → exec (init d n) es s →
  (∀ x, ∃ r q, producer_step x (prod s) (queue s) = Done (r, q)) ∧
  (∀ b, ∃ r q, consumer_step b (cons s) (queue s) = Done (r, q)) ∧
  (∀ x w i, prod s = P_write x w → cons s = C_hold (Some i) ∨ cons s = C_ret (Some i) → i ≠ w) ∧
  (∀ i x e s', cons s = C_hold (Some i) → data_ (queue s) !! i = Some x →
     disciplined s e → step s Producer e s' → data_ (queue s') !! i = Some x).
Proof.
  intros Hn He. pose proof (exec_inv _ _ _ (init_inv d n Hn) He) as Hi. split_and!.
  - intros x. destruct (producer_total s x Hi) as (e & pc & q & E). eauto.
  - intros b. destruct (consumer_total s b Hi) as (e & pc & q & E). eauto.
  - destruct Hi as [Hwf Hp Hc]. intros x w i Ep Ec. rewrite Ep in Hp. destruct Hp as [-> Hroom].
    by apply held_not_written; [..|destruct Ec as [Ec|Ec]; rewrite Ec in Hc].
  - intros i x e s' Ec Hx Hd Hs. pose proof (step_abs _ _ _ _ Hi Hd Hs) as [_ Ha].
    inversion Hs as [y e' pc q E| |]; subst; simpl in *.
    rewrite Ec in *. destruct Ha as [[_ Ha]|Ha].
    + unfold abs in Ha. simpl in Ha. injection Ha as _ _ Ha. rewrite Ec in Ha. simpl in Ha. congruence.
    + unfold abs in Ha. simpl in Ha. rewrite Ec in Ha. simpl in Ha. rewrite Hx in Ha.
      by inversion Ha.
Qed.

(** C13: a pushed item is delivered: in an infinite run in which no push starts on a
    full queue ([disciplined] in [run]) and the consumer goes on with its pops, an item
    that is in the queue at some time is returned by a later [pop].  (A push on a full
    queue loses the items that wait: [queue_overflow].) *)
Theorem queue_delivers (d : T) n σ l k x :
  0 < n → σ 0 = init d n → run σ l → Runs.infinitely_often (pops_on l) →
  x ∈ contents (queue (σ k)) → ∃ m, k ≤ m ∧ delivered x (σ m).
Proof.
  intros Hn H0 Hrun Hfair (i & Hi)%list_elem_of_lookup.
  eapply (Runs.leads_to _ _ _ _ k _ Hfair (run_progress x σ l Hrun)).
  split; [|by exists i]. clear -Hn H0 Hrun. induction k as [|k IH]; [rewrite H0; by apply init_inv|].
  destruct (Hrun k) as [Hd Hs]. by apply (step_abs _ _ _ _ IH Hd Hs).
Qed.
End results.

(** ** Runs of a queue with three slots *)

(** The consumer polls, the producer pushes 5 in between, the consumer pops. *)
Definition turns_of (n : nat) : thread := if decide (2 ≤ n < 8) then Producer else Consumer.
Definition start : state := init 0 3.
Definition at_ (n : nat) : state := scheduled turns_of 5 start n.
Definition events_of (n : nat) : thread * event := scheduled_event turns_of 5 start n.

Lemma turns_room n : turns_of n = Producer → prod (at_ n) = P_idle → room (at_ n).
Proof.
  unfold turns_of. case_decide as Hn; [|done]. intros _.
  assert (n = 2 ∨ n = 3 ∨ n = 4 ∨ n = 5 ∨ n = 6 ∨ n = 7) as Hc by lia.
  destruct Hc as [->|[->|[->|[->|[->| ->]]]]]; vm_compute; (lia || done).
Qed.

Lemma at_exec n : exec start ((λ k, snd (events_of k)) <$> seq 0 n) (at_ n).
Proof. apply scheduled_exec; [apply init_inv; lia|]. intros k _. apply turns_room. Qed.

Lemma queue_linearizable_witness :
  0 < 3 ∧ exec start ((λ k, snd (events_of k)) <$> seq 0 18) (at_ 18) ∧
  pops ((λ k, snd (events_of k)) <$> seq 0 18) = [5] ∧
  pops ((λ k, snd (events_of k)) <$> seq 0 18) `prefix_of`
    pushes ((λ k, snd (events_of k)) <$> seq 0 18).
Proof.
  split_and!; [lia|apply at_exec|by vm_compute|].
  apply (queue_linearizable 0 3 _ (at_ 18) ltac:(lia) (at_exec 18)).
Defined.

Lemma queue_threads_safe_witness :
  0 < 3 ∧ exec start ((λ k, snd (events_of k)) <$> seq 0 4) (at_ 4) ∧
  ∃ r q, producer_step 5 (prod (at_ 4)) (queue (at_ 4)) = Done (r, q).
Proof.
  split_and!; [lia|apply at_exec|].
  apply (queue_threads_safe 0 3 _ (at_ 4) ltac:(lia) (at_exec 4)).
Defined.

Lemma at_run : run at_ events_of.
Proof. apply scheduled_run; [apply init_inv; lia|]. intros n. apply turns_room. Qed.

Lemma at_fair : Runs.infinitely_often (pops_on events_of).
Proof.
  intros n. exists (n + 8). split; [lia|]. split.
  - unfold events_of, scheduled_event. rewrite next_thread. unfold turns_of. by rewrite decide_False by lia.
  - apply next_no_use.
Qed.

Lemma queue_delivers_witness :
  0 < 3 ∧ at_ 0 = init 0 3 ∧ run at_ events_of ∧ Runs.infinitely_often (pops_on events_of) ∧
  5 ∈ contents (queue (at_ 8)) ∧ ∃ m, 8 ≤ m ∧ delivered 5 (at_ m).
Proof.
  assert (5 ∈ contents (queue (at_ 8))) as H5 by (vm_compute; by left).
  split_and!; [lia|done|apply at_run|apply at_fair|done|].
  apply (queue_delivers 0 3 at_ events_of 8 5 ltac:(lia) eq_refl at_run at_fair H5).
Defined.
End QueueRuns.

Module ExchangeRuns.
Import Exchange ExchangeProps ExchangeThreads.

Section results.
Context `{Constants, Clock}.
Implicit Types (x : Exchange).

(** C9: whatever the interleaving of the thread of the exchange with the thread that
    starts and stops it and with clients that push requests, provided no client
    pushes on a full queue: the state of the exchange is that of serving the first
    of the requests one after the other in the order they were pushed, and the others
    wait in the queue.  The process ends only as serving the next request ends it (an
    exit or a fault), or in such a state by a misuse of [start] and [stop]: the last
    step is of the owner, in [start] while the last thread was not joined
    ([std::terminate]) or in [stop] without a thread to join (an exception). *)
Theorem threads_serve_in_order x acts p :
  LFQueue.wf (client_request_queue x) →
  exec (mkLive x None M_idle) acts p →
  explained x (LFQueue.contents (client_request_queue x) ++ pushed acts) p ∧
  (p = Ended Terminate ∨ p = Ended SystemError →
   ∃ acts' c s e, acts = acts' ++ [Owner c] ∧ p = Ended e ∧ misused e s ∧
     exec (mkLive x None M_idle) acts' (Live s) ∧
     served_by x (LFQueue.contents (client_request_queue x) ++ pushed acts') s).
Proof.
  intros Hq He.
  assert (explained x (LFQueue.contents (client_request_queue x)) (Live (mkLive x None M_idle)))
    as Hstart by (exists [], x; split_and!; [done|done|by destruct x|done]).
  split; [by eapply exec_explained|]. intros Hp.
  assert (∃ e, p = Ended e ∧ (e = Terminate ∨ e = SystemError)) as (e & -> & Hmis)
    by (destruct Hp as [-> | ->]; eauto).
  destruct (exec_ended _ _ _ He) as (acts' & a & s & -> & He' & E).
  destruct (act_misused _ _ _ E Hmis) as [[c ->] Hm].
  exists acts', c, s, e. split_and!; [done|done|done|done|].
  exact (exec_explained _ _ _ _ _ Hstart He').
Qed.

(** C11: [stop] returns: in a fair run in which the requests served are ones the code
    handles properly, a call of [stop] while the thread of the exchange runs (or has
    left its loop) returns with that thread joined, or a pool was used up in its last
    turn and the process exited.  The flag is read and written as an atomic would
    be; FlagRace.v is about the plain bool. *)
Theorem stop_returns σ l n s :
  run_of σ l → fair σ l → (∀ k, serves_good (σ k)) → σ n = Live s → exchange_ok (exch s) →
  owner_at s = M_idle → run_thread s ≠ None → l n = Some (Owner Stop) →
  ∃ m, n < m ∧ stopped (σ m).
Proof. intros Hr Hf Hg Hs Hx Hm Ht Hl. by eapply stop_call_returns. Qed.

(** [start] on an exchange that is stopped starts a thread, whether or not it was
    started before; [start] on one that is started ends the process, and [stop] on
    one that is not started throws. *)
Theorem start_stop_misuse x t :
  exec (mkLive x None M_idle) [Owner Start; Owner Start]
    (Live (mkLive (set_running true x) (Some R_test) M_idle)) ∧
  exec (mkLive x (Some t) M_idle) [Owner Start; Owner Start] (Ended Terminate) ∧
  exec (mkLive x None M_idle) [Owner Stop; Owner Stop] (Ended SystemError).
Proof.
  assert (∀ s c s1 p, owner_step c s = Some (Live s1) → owner_step c s1 = Some p →
    exec s [Owner c; Owner c] p) as H2.
  { intros s c s1 p E1 E2. apply (exec_step s [Owner c] s1); [|by intros r [=]|exact E2].
    apply (exec_step s [] s); [constructor|by intros r [=]|exact E1]. }
  split_and!; by eapply H2.
Qed.
End results.

(** ** Runs of the exchange of ticker 7 *)

Import BookTheorems ExchangeResults.
#[local] Existing Instances small ticks.

(** In a turn, before and after the call of [stop]. *)
Definition busy : live := mkLive (set_running true x0) (Some R_body) M_idle.
Definition serving : live := mkLive x0 (Some R_body) M_join.

Definition waiting (x : Exchange) : live := mkLive x (Some R_test) M_join.
Definition left_ (x : Exchange) : live := mkLive x (Some R_done) M_join.
Definition joined (x : Exchange) : live := mkLive x None M_idle.

Definition x0' : Exchange := after run_body x0.

Lemma x0'_step : run_body x0 = Done (tt, x0').
Proof. by vm_compute. Qed.

Lemma x0'_running : running x0' = false.
Proof. by vm_compute. Qed.

(** [stop] clears the flag, and [x0] is an exchange with the flag cleared. *)
Lemma busy_stop : act_step (Owner Stop) busy = Some (Live serving).
Proof. by vm_compute. Qed.

#[local] Opaque x0 x0'.

(** [stop] is called, the runner ends its turn and sees the flag, then the join
    returns. *)
Definition history (n : nat) : process :=
  match n with
  | 0 => Live busy
  | 1 => Live serving
  | 2 => Live (waiting x0')
  | 3 => Live (left_ x0')
  | _ => Live (joined x0')
  end.
Definition acts_of (n : nat) : option act :=
  match n with 0 | 3 => Some (Owner Stop) | 1 | 2 => Some Runner | _ => None end.

Lemma history_run : run_of history acts_of.
Proof.
  intros [|[|[|[|n]]]]; simpl; [split; [by intros r [=]|]..|done].
  - apply busy_stop.
  - unfold act_step, runner_step. simpl. by rewrite x0'_step.
  - unfold act_step, runner_step. simpl. by rewrite x0'_running.
  - done.
Qed.

Lemma history_fair : fair history acts_of.
Proof.
  split; intros n; exists (4 + n); (split; [lia|right]); intros s [= <-]; [done|by left].
Qed.

Lemma busy_ok : exchange_ok (exch busy).
Proof. destruct x0_ok. by split. Qed.

Lemma busy_good r rs : requests busy = r :: rs → good_request (exch busy) r.
Proof.
  intros Hr. apply (good_head (exch busy) _ _ x0_contents) with rs; [|exact Hr].
  split; [simpl; lia|exists (OrderBook.ctor 7%Z); apply x0_known].
Qed.

Lemma history_good n : serves_good (history n).
Proof.
  intros s r rs E Ht Hr. destruct n as [|[|[|[|n]]]]; injection E as <-; try done;
    by apply busy_good with rs.
Qed.

Lemma stop_returns_witness :
  (run_of history acts_of ∧ fair history acts_of ∧ (∀ k, serves_good (history k)) ∧
   exchange_ok (exch busy) ∧ acts_of 0 = Some (Owner Stop)) ∧
  ∃ m, 0 < m ∧ stopped (history m).
Proof.
  split; [split_and!; [apply history_run|apply history_fair|apply history_good|
    apply busy_ok|done]|].
  apply (stop_returns history acts_of 0 busy history_run history_fair history_good eq_refl
    busy_ok eq_refl); [intros [=]|done].
Defined.

(** The exchange is started and serves one of its two requests. *)
Definition started : live := mkLive (set_running true x0) (Some R_test) M_idle.
Definition one_turn : list act := [Owner Start; Owner Start; Runner; Runner].
Definition served1 : Exchange := after run_body (set_running true x0).

Lemma served1_step : run_body (set_running true x0) = Done (tt, served1).
Proof. by vm_compute. Qed.

Lemma one_turn_exec : ExchangeThreads.exec (mkLive x0 None M_idle) one_turn (Live (mkLive served1 (Some R_test) M_idle)).
Proof.
  assert (ExchangeThreads.exec (mkLive x0 None M_idle) [Owner Start; Owner Start] (Live started)) as H2.
  { apply (exec_step _ [Owner Start] (mkLive (set_running true x0) None M_start));
      [|by intros r [=]|done].
    by apply (exec_step _ [] (mkLive x0 None M_idle)); [constructor|intros r [=]|]. }
  apply (exec_step _ [Owner Start; Owner Start; Runner]
    (mkLive (set_running true x0) (Some R_body) M_idle)); [|by intros r [=]|].
  - by apply (exec_step _ [Owner Start; Owner Start] started); [exact H2|intros r [=]|].
  - unfold act_step, runner_step. simpl. by rewrite served1_step.
Qed.

Lemma threads_serve_in_order_witness :
  LFQueue.wf (client_request_queue x0) ∧
  ExchangeThreads.exec (mkLive x0 None M_idle) one_turn (Live (mkLive served1 (Some R_test) M_idle)) ∧
  explained x0 (LFQueue.contents (client_request_queue x0) ++ pushed one_turn)
    (Live (mkLive served1 (Some R_test) M_idle)).
Proof.
  split_and!; [apply (xo_queue _ x0_ok)|apply one_turn_exec|].
  apply (threads_serve_in_order x0 one_turn _ (xo_queue _ x0_ok) one_turn_exec).
Defined.
End ExchangeRuns.
