(* ===== verification/LayoutResults.v ===== *)
(** The layout of the structs: what the rules of the ABI guarantee, and what they give
    on an LP64 machine. *)

From S2P Require Import Prelude Types Layout.

Module LayoutResults.

(** The layout of a struct: every member is aligned as its type asks, or as far as
    the pragma lets it, ends before the next one and before the end of the struct,
    and the size keeps the members of an array aligned; what alignment.cpp prints of
    [Order] is its layout. *)
Theorem layout_sound pack ms :
  Layout.sane pack ms →
  Nat.divide (Layout.struct_align pack ms) (Layout.sizeof pack ms) ∧
  ∀ i m o, ms !! i = Some m → Layout.offsets pack ms !! i = Some o →
    Nat.divide (Layout.alignment pack m) o ∧
    (o + Layout.m_size m ≤ Layout.sizeof pack ms)%nat ∧
    ∀ j o', (i < j)%nat → Layout.offsets pack ms !! j = Some o' → (o + Layout.m_size m ≤ o')%nat.
Proof.
  intros Hs. pose proof (Layout.place_placed pack 0 ms Hs) as Hp.
  split; [apply Layout.align_up_divide|]. intros i m o Hm Ho.
  destruct (Layout.placed_lookup _ _ _ _ _ _ _ _ Hp Hm Ho) as (Hd & _ & He). split_and!; [done| |].
  - etrans; [exact He|]. apply Layout.align_up_le, Layout.struct_align_pos.
  - intros j o' Hij Ho'. by apply (Layout.placed_disjoint _ _ _ _ _ _ _ _ _ _ Hp Hij Hm Ho Ho').
Qed.

(** ** On an LP64 machine *)

#[local] Existing Instance Layout.lp64.

(** The sizes of the packed messages. *)
Example message_sizes :
  Layout.sizeof (Some 1%nat) <$>
    [Layout.ClientRequest; Layout.ClientResponse; Layout.MarketUpdate;
     Layout.MDPClientRequest; Layout.MDPClientResponse; Layout.MDPMarketUpdate] =
  [26; 34; 34; 34; 16; 42]%nat.
Proof. reflexivity. Qed.

Lemma layout_sound_witness :
  Layout.sane None Layout.Order ∧
  Layout.offsets None Layout.Order = [0; 8; 16; 20; 24; 28; 32; 40; 48; 56]%nat ∧
  Layout.sizeof None Layout.Order = 64%nat ∧ Nat.divide 8 64 ∧
  Layout.checkOrderMemoryAlignment =
    (Layout.newline +:+ "Order alignof  p:8 n:8 tid:4  oid:4  cid:4  q:4  e:4  mst:8  lp:8  s:1" +:+
     Layout.newline +:+ "Order sizeof   p:8 n:8 tid:4  oid:4  cid:4  q:4  e:4  mst:8  lp:8  s:1  size:64" +:+
     Layout.newline +:+ "Order offsetof p:0 n:8 tid:16 oid:20 cid:24 q:28 e:32 mst:40 lp:48 s:56" +:+
     Layout.newline +:+ "ClientResponse sizeof   t:1 tid:4 cid:4 oid:4 s:1  q:4  p:8  ns:8" +:+
     Layout.newline +:+ "ClientResponse offsetof t:0 tid:1 cid:5 oid:9 s:13 q:14 p:18 ns:26")%string.
Proof.
  assert (Layout.sane None Layout.Order) as Hs
    by (unfold Layout.sane; repeat (apply Forall_cons_2; [simpl; lia|]); apply Forall_nil_2).
  split; [exact Hs|split; [reflexivity|split; [reflexivity|split; [|vm_compute; reflexivity]]]].
  exact (proj1 (layout_sound None Layout.Order Hs)).
Defined.
End LayoutResults.
