(* ===== verification/Pipeline.v ===== *)
(** The sequencer and the exchange together: the sequencer of fifo_sequencer.h
    pushes to the queue that the exchange of cppexchange.h takes its requests from.
    Both hold a pointer to it; here it is a field of the exchange that operations of
    the sequencer work on.  [round] takes requests with the times they were received
    at, publishes them and lets the exchange serve them. *)

From S2P Require Import Prelude Types Memory ObjectPool PriceLevel LFQueue TimeUtils.
From S2P Require Import OrderBook BookTheorems Exchange ExchangeProps ExchangeResults Sequencer.

Module Pipeline.
Import Exchange ExchangeProps FifoSequencer.

Record Pipeline := mkPipeline {
  waiting : list ReceiveTimeClientRequest;
  index : nat;
  exchange : Exchange;
}.

(** The sequencer, and the exchange, in their shared state. *)
Definition sequencer_of (s : Pipeline) : FifoSequencer :=
  mkSequencer (client_request_queue (exchange s)) (waiting s) (index s).
Definition set_sequencer (f : FifoSequencer) (s : Pipeline) : Pipeline :=
  mkPipeline (pending_requests f) (pending_requests_index f)
    (set_client_request_queue (requests f) (exchange s)).
Definition in_sequencer {A} : M FifoSequencer A → M Pipeline A := zoom sequencer_of set_sequencer.
Definition in_exchange {A} : M Exchange A → M Pipeline A :=
  zoom exchange (λ x s, mkPipeline (waiting s) (index s) x).

Section ops.
Context `{Constants, Clock, StdSort}.

Fixpoint addRequests (arrivals : list ReceiveTimeClientRequest) : M FifoSequencer unit :=
  match arrivals with
  | [] => mret tt
  | a :: arrivals => addRequest (request a) (receive_timestamp a);; addRequests arrivals
  end.

Definition round (arrivals : list ReceiveTimeClientRequest) : M Pipeline unit :=
  in_sequencer (addRequests arrivals);;
  in_sequencer sequenceAndPublish;;
  in_exchange (turns (length arrivals)).
End ops.

(** What a caller sees of an outcome: the books, the counters and the messages. *)
Definition seen (o : outcome (unit * Exchange)) :
    outcome (OrderIdT * gmap Z (option OrderBook) * OrderBook.Env) :=
  match o with
  | Done (_, x) => Done (next_order_id x, order_books_map x, env x)
  | Exited m => Exited m
  | UB f => UB f
  | Timeout => Timeout
  end.
Definition seen_of (o : outcome (unit * Pipeline)) :=
  seen match o with
       | Done (_, s) => Done (tt, exchange s)
       | Exited m => Exited m
       | UB f => UB f
       | Timeout => Timeout
       end.

Lemma seen_reset p q o : seen (map_state (reset p q) o) = seen o.
Proof. by destruct o as [[[] x]| | |]. Qed.

Section facts.
Context `{Constants, Clock, StdSortLaws}.
Implicit Types (s : Pipeline) (f : FifoSequencer).

Lemma addRequests_run arrivals f :
  wf f → pending_requests_index f + length arrivals ≤ MAX_PENDING_REQUESTS →
  ∃ f', addRequests arrivals f = Done (tt, f') ∧ wf f' ∧ requests f' = requests f ∧
        pending f' = pending f ++ arrivals ∧
        pending_requests_index f' = pending_requests_index f + length arrivals.
Proof.
  revert f. induction arrivals as [|a arrivals IH]; intros f Hwf Hlen.
  { exists f. rewrite app_nil_r. simpl. split_and!; [done..|lia]. }
  simpl in Hlen.
  destruct (addRequest_room f (request a) (receive_timestamp a) Hwf ltac:(lia))
    as (f1 & E1 & Hwf1 & Hq1 & Hp1).
  assert (pending_requests_index f1 = S (pending_requests_index f)) as Hi1.
  { destruct Hwf as (_ & Hl & Hi). destruct Hwf1 as (_ & Hl1 & Hi1').
    apply (f_equal length) in Hp1. unfold pending in Hp1.
    rewrite length_app, !length_take in Hp1. simpl in Hp1. lia. }
  destruct (IH f1 Hwf1 ltac:(lia)) as (f2 & E2 & Hwf2 & Hq2 & Hp2 & Hi2).
  exists f2. split_and!; [|done|congruence| |simpl; lia].
  - simpl. by rewrite (bind_done _ _ _ _ _ E1).
  - rewrite Hp2, Hp1, <- app_assoc. by destruct a.
Qed.

(** The state of a pipeline with nothing on its way, and room for [n] requests. *)
Record ready (n : nat) s : Prop := {
  rd_wf : wf (sequencer_of s);
  rd_index : index s = 0;
  rd_empty : LFQueue.contents (client_request_queue (exchange s)) = [];
  rd_pending : n ≤ MAX_PENDING_REQUESTS;
  rd_room : n ≤ LFQueue.capacity (client_request_queue (exchange s));
}.

Lemma round_run arrivals s :
  ready (length arrivals) s →
  ∃ sorted, sorted ≡ₚ arrivals ∧ StronglySorted (λ a b, ¬ before b a) sorted ∧
    seen_of (round arrivals s) = seen (handle_all (request <$> sorted) (exchange s)).
Proof.
  intros [Hwf Hi He Hp Hr].
  destruct (addRequests_run arrivals (sequencer_of s) Hwf) as (f1 & E1 & Hwf1 & Hq1 & Hp1 & Hi1);
    [simpl; lia|].
  assert (pending f1 = arrivals) as Hpend by (rewrite Hp1; unfold pending; simpl; by rewrite Hi).
  simpl in Hi1, Hq1. rewrite Hi in Hi1. simpl in Hi1.
  destruct (sequence_run f1 Hwf1) as (f2 & E2 & Hwf2 & Hp2 & Hc2).
  { rewrite Hq1, He, Hi1. simpl. exact Hr. }
  rewrite Hq1, He, Hpend in Hc2. simpl in Hc2.
  exists (std_sort arrivals). split_and!; [apply std_sort_perm|apply std_sort_sorted|].
  destruct (turns_serve (request <$> std_sort arrivals) (next_request (exchange s)) (FifoSequencer.requests f2)
    (exchange s) (proj1 Hwf2) Hc2) as (p & q & _ & _ & Et).
  rewrite length_fmap, (Permutation_length (std_sort_perm _)) in Et.
  assert (turns (length arrivals) (exchange (set_sequencer f2 (set_sequencer f1 s)))
          = map_state (reset p q) (handle_all (request <$> std_sort arrivals) (exchange s))) as Et'.
  { by rewrite <- Et. }
  unfold round, in_sequencer.
  rewrite (bind_done _ _ _ _ _ (zoom_done sequencer_of set_sequencer _ _ _ _ E1)).
  assert (sequencer_of (set_sequencer f1 s) = f1) as Ef1 by (by destruct f1). rewrite <- Ef1 in E2.
  rewrite (bind_done _ _ _ _ _ (zoom_done sequencer_of set_sequencer _ _ _ _ E2)).
  unfold in_exchange, zoom. rewrite Et'.
  rewrite <- (seen_reset p q (handle_all _ _)). by destruct (handle_all _ _) as [[[] x]| | |].
Qed.

(** Distinct times have one order. *)
Lemma sorted_strict l :
  NoDup (receive_timestamp <$> l) → StronglySorted (λ a b, ¬ before b a) l → StronglySorted before l.
Proof.
  induction l as [|a l IH]; [constructor|].
  intros [Ha Hnd]%NoDup_cons [Hf Hs]%StronglySorted_cons. apply StronglySorted_cons.
  split; [|by apply IH]. rewrite Forall_forall in Hf |- *. intros b Hb. specialize (Hf b Hb).
  assert (receive_timestamp a ≠ receive_timestamp b) as Hne
    by (intros E; apply Ha; rewrite E; by apply list_elem_of_fmap_2).
  unfold before in *. lia.
Qed.

(** ** Results *)

End facts.

(** ** Two requests for ticker 7 *)

Import BookTheorems ExchangeResults.
#[local] Existing Instances small ticks stable_sort stable_sort_laws.

Definition early : ReceiveTimeClientRequest := mkReceived 4%Z (add_request 101%Z OrderSide.SELL 5%Z 10%Z).
Definition late : ReceiveTimeClientRequest := mkReceived 9%Z (add_request 102%Z OrderSide.BUY 2%Z 10%Z).
Definition idle : Pipeline :=
  mkPipeline (replicate MAX_PENDING_REQUESTS (mkReceived 0%Z ClientRequest.default)) 0
    (set_client_request_queue (LFQueue.ctor ClientRequest.default 8) x0).

Lemma idle_ready : ready 2 idle.
Proof.
  assert (2 ≤ MAX_PENDING_REQUESTS) by (apply Nat.leb_le; by vm_compute).
  split; [|done|by vm_compute|done|simpl; unfold LFQueue.capacity; simpl; lia].
  split; [apply LFQueue.ctor_wf; lia|]. split; [apply length_replicate|simpl; lia].
Qed.

End Pipeline.
