(* ===== verification/Kernel.v ===== *)
(** The operating system as the code of include/communication calls it.

    What a system call answers is a parameter: a function of the calls made so far
    and of the call.  The state is the log of the calls, which also says what the
    code asked the system to do.  The constants of the system headers are
    parameters too. *)

From S2P Require Import Prelude Types.
Local Open Scope Z_scope.

Module Kernel.

(** ** Calls *)

Record IfAddr := mkIfAddr {
  ifa_name : string;
  ifa_family : option Z;  (* [ifa_addr->sa_family], [None] when [ifa_addr] is null *)
}.

Record Hints := mkHints { ai_flags : Z; hint_family : Z; hint_socktype : Z; hint_protocol : Z }.

Record AddrInfo := mkAddrInfo {
  ai_family : Z; ai_socktype : Z; ai_protocol : Z;
  ai_addr : list Byte.byte;
}.

(** [struct sockaddr_in], in network byte order where the code converts. *)
Record SockaddrIn := mkSockaddrIn { sin_family : Z; sin_port : Z; sin_addr : Z }.

(** The address that is passed to [bind]. *)
Inductive BindAddr := Any (a : SockaddrIn) | Resolved (a : AddrInfo).

(** What the buffer for control messages holds after [recvmsg], and its [timeval].  The
    code does not initialise the buffer: when the system stored no control message
    these are whatever its bytes happen to be. *)
Record Cmsg := mkCmsg {
  cmsg_level : Z; cmsg_type : Z; cmsg_len : Z;
  tv_sec : Z; tv_usec : Z;
}.

(** A socket object, as the events name it: the listener of the server, or one made
    with [new]. *)
Inductive SocketPtr := Listener | Heap (p : nat).

#[export] Instance SocketPtr_eq_dec : EqDecision SocketPtr.
Proof. solve_decision. Defined.

Inductive Call :=
| Getifaddrs
| Getnameinfo (a : IfAddr)
| Getaddrinfo (ip port : string) (hints : Hints)
| Socket (a : AddrInfo)
| Fcntl_getfl (fd : Z)
| Fcntl_setfl (fd flags : Z)
| Setsockopt (fd level option value : Z)
| Connect (fd : Z) (a : AddrInfo)
| Bind (fd : Z) (a : BindAddr)
| Listen (fd backlog : Z)
| Accept (fd : Z)
| Recvmsg (fd len : Z)
| Send (fd : Z) (data : list Byte.byte)
| Kqueue
| Kevent_change (kq fd filter flags : Z) (udata : SocketPtr)
| Kevent_poll (kq max_events : Z)
| Close (fd : Z).

Record Kevent := mkKevent { filter_ : Z; flags_ : Z; udata : SocketPtr }.

(** ** Answers *)

Class Kernel := {
  ret : list Call → Call → Z;               (* the value the call returns *)
  ifaddr_list : list Call → list IfAddr;     (* what [getifaddrs] found *)
  numeric_host : list Call → IfAddr → string; (* what [getnameinfo] left in the buffer *)
  addrinfo_list : list Call → list AddrInfo; (* what [getaddrinfo] found *)
  message : list Call → Z → list Byte.byte * Cmsg; (* what [recvmsg] of a descriptor left *)
  msg_name : list Call → Z → option SockaddrIn; (* the address it stored, if it stored one *)
  event_list : list Call → list Kevent;      (* what [kevent] found *)
  strerror : list Call → string;             (* the text of [errno] *)
  gai_strerror : Z → string;
}.

(** The constants of the headers. *)
Class Headers := {
  AF_INET : Z; SOCK_STREAM : Z; SOCK_DGRAM : Z; IPPROTO_TCP : Z; IPPROTO_UDP : Z;
  AI_PASSIVE : Z; AI_NUMERICHOST : Z; AI_NUMERICSERV : Z; INADDR_ANY : Z;
  O_NONBLOCK : Z; TCP_NODELAY : Z; SOL_SOCKET : Z; SO_TIMESTAMP : Z; SO_REUSEADDR : Z;
  SCM_TIMESTAMP : Z; CMSG_LEN_timeval : Z;
  EVFILT_READ : Z; EVFILT_WRITE : Z; EV_ADD : Z; EV_ENABLE : Z; EV_ERROR : Z; EV_EOF : Z;
  htons : Z → Z; htonl : Z → Z;
}.

Definition syscall `{Kernel} (c : Call) : M (list Call) Z :=
  log ← mget;
  mput (log ++ [c]);;
  mret (ret log c).

Lemma syscall_run `{Kernel} c log : syscall c log = Done (ret log c, log ++ [c]).
Proof. done. Qed.
End Kernel.
