(* ===== verification/SocketUtils.v ===== *)
(** include/communication/socket_utils.h: making a socket that listens at an address
    or is connected to one. *)

From S2P Require Import Prelude Types Kernel.
Local Open Scope Z_scope.

Module SocketUtils.
Import Kernel.

Record SocketCfg := mkSocketCfg {
  ip : string;
  iface : string;
  port : Z;
  is_udp : bool;
  is_listening : bool;
  needs_so_timestamp : bool;
}.

Definition MaxTCPServerBacklog : Z := 1024.

Section ops.
Context `{Kernel, Headers}.

(** The loop over the interfaces: the first one of this name with an IPv4 address. *)
Fixpoint find_iface (iface : string) (ifas : list IfAddr) : option IfAddr :=
  match ifas with
  | [] => None
  | ifa :: ifas' =>
      if bool_decide (ifa_family ifa = Some AF_INET) && bool_decide (iface = ifa_name ifa)
      then Some ifa
      else find_iface iface ifas'
  end.

Definition getIfaceIP (iface : string) : M (list Call) string :=
  log ← mget;
  rc ← syscall Getifaddrs;
  if decide (rc ≠ -1) then
    match find_iface iface (ifaddr_list log) with
    | None => mret EmptyString
    | Some ifa =>
        log ← mget;
        syscall (Getnameinfo ifa);;
        mret (numeric_host log ifa)
    end
  else mret EmptyString.

Definition setNonBlocking (fd : Z) : M (list Call) bool :=
  flags ← syscall (Fcntl_getfl fd);
  if decide (Z.land flags O_NONBLOCK ≠ 0) then mret true
  else
    rc ← syscall (Fcntl_setfl fd (Z.lor flags O_NONBLOCK));
    mret (bool_decide (rc ≠ -1)).

Definition disableNagle (fd : Z) : M (list Call) bool :=
  rc ← syscall (Setsockopt fd IPPROTO_TCP TCP_NODELAY 1);
  mret (bool_decide (rc ≠ -1)).

Definition setSOTimestamp (fd : Z) : M (list Call) bool :=
  rc ← syscall (Setsockopt fd SOL_SOCKET SO_TIMESTAMP 1);
  mret (bool_decide (rc ≠ -1)).

(** [uint16_t port] *)
Definition createSockaddrIn (port : Z) : SockaddrIn :=
  mkSockaddrIn AF_INET (htons (port mod 2 ^ 16)) (htonl INADDR_ANY).

(** [ASSERT] with the text of [errno] in its message. *)
Definition ASSERT_errno (cond : bool) (msg : string) : M (list Call) unit :=
  log ← mget; ASSERT cond (msg +:+ strerror log).

Definition hints_of (cfg : SocketCfg) : Hints :=
  mkHints (Z.lor (if is_listening cfg then AI_PASSIVE else 0) (Z.lor AI_NUMERICHOST AI_NUMERICSERV))
    AF_INET (if is_udp cfg then SOCK_DGRAM else SOCK_STREAM)
    (if is_udp cfg then IPPROTO_UDP else IPPROTO_TCP).

(** The body of the loop over the addresses, which ends in [break]. *)
Definition open_socket (cfg : SocketCfg) (rp : AddrInfo) : M (list Call) Z :=
  socket_fd ← syscall (Socket rp);
  ASSERT_errno (bool_decide (socket_fd ≠ -1)) "socket() failed. errno:";;
  nb ← setNonBlocking socket_fd;
  ASSERT_errno nb "setNonBlocking() failed. errno:";;
  (if negb (is_udp cfg) then
     dn ← disableNagle socket_fd;
     ASSERT_errno dn "disableNagle() failed. errno:"
   else mret tt);;
  (if negb (is_listening cfg) then
     rc ← syscall (Connect socket_fd rp);
     ASSERT_errno (bool_decide (rc ≠ 1)) "connect() failed. errno:"
   else mret tt);;
  (if is_listening cfg then
     rc ← syscall (Setsockopt socket_fd SOL_SOCKET SO_REUSEADDR 1);
     ASSERT_errno (bool_decide (rc = 0)) "setsockopt() SO_REUSEADDR failed. errno:"
   else mret tt);;
  (if is_listening cfg then
     let addr := createSockaddrIn (port cfg) in
     rc ← syscall (Bind socket_fd (if is_udp cfg then Any addr else Resolved rp));
     ASSERT_errno (bool_decide (rc = 0)) "bind() failed. errno:%"
   else mret tt);;
  (if negb (is_udp cfg) && is_listening cfg then
     rc ← syscall (Listen socket_fd MaxTCPServerBacklog);
     ASSERT_errno (bool_decide (rc = 0)) "listen() failed. errno:"
   else mret tt);;
  (if needs_so_timestamp cfg then
     ts ← setSOTimestamp socket_fd;
     ASSERT_errno ts "setSOTimestamp() failed. errno:"
   else mret tt);;
  mret socket_fd.

Definition createSocket (cfg : SocketCfg) : M (list Call) Z :=
  ip ← (if decide (ip cfg = EmptyString) then getIfaceIP (iface cfg) else mret (ip cfg));
  log ← mget;
  rc ← syscall (Getaddrinfo ip (pretty (port cfg)) (hints_of cfg));
  ASSERT_errno (bool_decide (rc = 0))
    ("getaddrinfo() failed. error:" +:+ gai_strerror rc +:+ "errno:");;
  match addrinfo_list log with
  | [] => mret (-1)
  | rp :: _ => open_socket cfg rp
  end.
End ops.
End SocketUtils.
