(* ===== verification/SocketProps.v ===== *)
(** What [createSocket] of socket_utils.h asks of the system: which calls it makes,
    in which order, and which of their answers it looks at. *)

From S2P Require Import Prelude Types Kernel SocketUtils.
Local Open Scope Z_scope.

Module SocketProps.
Import Kernel SocketUtils.

Section props.
Context `{Kernel, Headers}.
Implicit Types (cfg : SocketCfg) (rp : AddrInfo) (fd : Z) (log : list Call).

(** The calls on a new socket: non-blocking unless it is so already, no delay for
    TCP, then either a connection or an address to listen at, then timestamps. *)
Definition socket_calls cfg rp fd (flags : Z) : list Call :=
  [Socket rp; Fcntl_getfl fd] ++
  (if decide (Z.land flags O_NONBLOCK ≠ 0) then [] else [Fcntl_setfl fd (Z.lor flags O_NONBLOCK)]) ++
  (if is_udp cfg then [] else [Setsockopt fd IPPROTO_TCP TCP_NODELAY 1]) ++
  (if is_listening cfg
   then [Setsockopt fd SOL_SOCKET SO_REUSEADDR 1;
         Bind fd (if is_udp cfg then Any (createSockaddrIn (port cfg)) else Resolved rp)] ++
        (if is_udp cfg then [] else [Listen fd MaxTCPServerBacklog])
   else [Connect fd rp]) ++
  (if needs_so_timestamp cfg then [Setsockopt fd SOL_SOCKET SO_TIMESTAMP 1] else []).

(** The answers that the code takes for a success. *)
Definition accepted (c : Call) (r : Z) : Prop :=
  match c with
  | Socket _ | Fcntl_setfl _ _ => r ≠ -1
  | Setsockopt _ level option _ =>
      if decide (level = SOL_SOCKET ∧ option = SO_REUSEADDR) then r = 0 else r ≠ -1
  | Bind _ _ | Listen _ _ => r = 0
  | Connect _ _ => r ≠ 1
  | _ => True
  end.
Fixpoint all_accepted log (cs : list Call) : Prop :=
  match cs with
  | [] => True
  | c :: cs => accepted c (ret log c) ∧ all_accepted (log ++ [c]) cs
  end.

(** The options are different ones. *)
Definition options_differ : Prop := SO_REUSEADDR ≠ SO_TIMESTAMP ∧ IPPROTO_TCP ≠ SOL_SOCKET.

Lemma syscall_bind {A} c (k : Z → M (list Call) A) log :
  (r ← syscall c; k r) log = k (ret log c) (log ++ [c]).
Proof. done. Qed.

Lemma assert_bind {A} (P : Prop) `{Decision P} msg (k : unit → M (list Call) A) log r :
  (ASSERT_errno (bool_decide P) msg ≫= k) log = Done r ↔ P ∧ k tt log = Done r.
Proof.
  unfold ASSERT_errno. rewrite bind_bind, bind_get. case_bool_decide.
  - rewrite bind_assert_true. split; [by split|by intros [_ ?]].
  - rewrite bind_assert_false. split; [done|by intros [? _]].
Qed.

Lemma assert_true {A} msg (k : unit → M (list Call) A) log :
  (ASSERT_errno true msg ≫= k) log = k tt log.
Proof. done. Qed.

Lemma ret_done {A} (a : A) log b log' :
  mret (M := M (list Call)) a log = Done (b, log') ↔ b = a ∧ log' = log.
Proof. split; [by intros [= <- <-]|by intros [-> ->]]. Qed.

Lemma open_socket_calls cfg rp log fd log' :
  options_differ →
  let fd0 := ret log (Socket rp) in
  let cs := socket_calls cfg rp fd0 (ret (log ++ [Socket rp]) (Fcntl_getfl fd0)) in
  open_socket cfg rp log = Done (fd, log') ↔ fd = fd0 ∧ log' = log ++ cs ∧ all_accepted log cs.
Proof.
  intros [Ho Hl] fd0 cs. unfold cs. clear cs.
  unfold open_socket, setNonBlocking, disableNagle, setSOTimestamp, socket_calls.
  rewrite syscall_bind, assert_bind, !bind_bind, syscall_bind. fold fd0. generalize (ret (log ++ [Socket rp]) (Fcntl_getfl fd0)).
  intros flags. fold fd0.
  assert (¬ (SOL_SOCKET = SOL_SOCKET ∧ SO_TIMESTAMP = SO_REUSEADDR)) as Ht by (intros [_ ?]; congruence).
  assert (¬ (IPPROTO_TCP = SOL_SOCKET ∧ TCP_NODELAY = SO_REUSEADDR)) as Hn by (intros [? _]; congruence).
  destruct (is_udp cfg), (is_listening cfg), (needs_so_timestamp cfg);
    destruct (decide (Z.land flags O_NONBLOCK ≠ 0)); cbn [negb andb app all_accepted accepted];
    repeat first [rewrite bind_bind | rewrite bind_ret | rewrite syscall_bind | rewrite assert_bind
                 | rewrite assert_true];
    rewrite ?(decide_True (P := SOL_SOCKET = _ ∧ SO_REUSEADDR = _)) by done;
    rewrite ?(decide_False _ _ Ht), ?(decide_False _ _ Hn), ret_done, <- ?app_assoc; cbn [app]; tauto.
Qed.

(** The host to look up: the address of the configuration, or that of its interface. *)
Definition host_calls cfg log : list Call * string :=
  if decide (ip cfg = EmptyString) then
    if decide (ret log Getifaddrs ≠ -1) then
      match find_iface (iface cfg) (ifaddr_list log) with
      | Some ifa => ([Getifaddrs; Getnameinfo ifa], numeric_host (log ++ [Getifaddrs]) ifa)
      | None => ([Getifaddrs], EmptyString)
      end
    else ([Getifaddrs], EmptyString)
  else ([], ip cfg).

Lemma host_run {A} cfg (k : string → M (list Call) A) log :
  (h ← (if decide (ip cfg = EmptyString) then getIfaceIP (iface cfg) else mret (ip cfg)); k h) log =
    k (host_calls cfg log).2 (log ++ (host_calls cfg log).1).
Proof.
  unfold host_calls, getIfaceIP. case_decide; [|by rewrite bind_ret, app_nil_r].
  rewrite bind_bind, bind_get, bind_bind, syscall_bind. case_decide; [|by rewrite bind_ret].
  destruct (find_iface (iface cfg) (ifaddr_list log)) as [ifa|]; [|by rewrite bind_ret].
  rewrite bind_bind, bind_get, bind_bind, syscall_bind, bind_ret, <- app_assoc. done.
Qed.

(** C25: [createSocket] looks the host up and takes the first address: it returns a new
    socket, having made the calls of [socket_calls] in this order and no others, just
    when it accepts the answer to each of them; without an address it returns -1.  A
    [connect] that returns -1 is accepted. *)
Theorem createSocket_calls cfg log fd log' :
  options_differ →
  let '(cs0, host) := host_calls cfg log in
  let ga := Getaddrinfo host (pretty (port cfg)) (hints_of cfg) in
  let log1 := (log ++ cs0) ++ [ga] in
  createSocket cfg log = Done (fd, log') ↔
  ret (log ++ cs0) ga = 0 ∧
  match addrinfo_list (log ++ cs0) with
  | [] => fd = -1 ∧ log' = log1
  | rp :: _ =>
      let fd0 := ret log1 (Socket rp) in
      let cs := socket_calls cfg rp fd0 (ret (log1 ++ [Socket rp]) (Fcntl_getfl fd0)) in
      fd = fd0 ∧ log' = log1 ++ cs ∧ all_accepted log1 cs
  end.
Proof.
  intros Ho. unfold createSocket. rewrite host_run. destruct (host_calls cfg log) as [cs0 host].
  cbn [fst snd]. rewrite bind_get, syscall_bind, assert_bind.
  destruct (addrinfo_list (log ++ cs0)) as [|rp rps].
  - by rewrite ret_done.
  - by rewrite open_socket_calls.
Qed.
End props.

(** A server that refuses every connection. *)
Definition refusing : Kernel := {|
  ret log c := match c with Socket _ => 3 | Connect _ _ => -1 | _ => 0 end;
  ifaddr_list _ := [];
  numeric_host _ _ := EmptyString;
  addrinfo_list _ := [mkAddrInfo 2 1 6 []];
  message _ _ := ([], mkCmsg 0 0 0 0 0);
  msg_name _ _ := None;
  event_list _ := [];
  strerror _ := EmptyString;
  gai_strerror _ := EmptyString;
|}.
Definition some_headers : Headers := {|
  AF_INET := 2; SOCK_STREAM := 1; SOCK_DGRAM := 2; IPPROTO_TCP := 6; IPPROTO_UDP := 17;
  AI_PASSIVE := 1; AI_NUMERICHOST := 4; AI_NUMERICSERV := 4096; INADDR_ANY := 0;
  O_NONBLOCK := 4; TCP_NODELAY := 1; SOL_SOCKET := 65535; SO_TIMESTAMP := 1024; SO_REUSEADDR := 4;
  SCM_TIMESTAMP := 2; CMSG_LEN_timeval := 28;
  EVFILT_READ := -1; EVFILT_WRITE := -2; EV_ADD := 1; EV_ENABLE := 4; EV_ERROR := 16384;
  EV_EOF := 32768; htons z := z; htonl z := z;
|}.
#[local] Existing Instances refusing some_headers.

Definition to_refusing : SocketCfg := mkSocketCfg "10.0.0.1" "en0" 9000 false false true.

(** The connection is refused, and [createSocket] returns the socket. *)
Lemma createSocket_calls_witness :
  options_differ ∧ ret [] (Connect 3 (mkAddrInfo 2 1 6 [])) = -1 ∧
  ∃ log', createSocket to_refusing [] = Done (3, log') ∧
          Connect 3 (mkAddrInfo 2 1 6 []) ∈ log'.
Proof.
  assert (options_differ) as Ho by (split; intros E; vm_compute in E; discriminate E).
  split; [exact Ho|split; [reflexivity|]].
  pose proof (proj2 (createSocket_calls to_refusing [] 3
    ([Getaddrinfo "10.0.0.1" (pretty 9000) (hints_of to_refusing)] ++
     socket_calls to_refusing (mkAddrInfo 2 1 6 []) 3 0) Ho)) as E.
  eexists. split; [apply E|].
  - split; [reflexivity|]. split; [reflexivity|]. split; [reflexivity|].
    vm_compute. repeat split; discriminate.
  - apply elem_of_app. right. vm_compute. do 4 right. left.
Defined.
End SocketProps.
