(* ===== verification/TcpSocket.v ===== *)
(** include/communication/tcp_socket.h: a socket with a buffer for the data going
    out and one for the data that came in.

    [pending] are the bytes that wait to be sent, [received] those that came in and
    were not consumed.  What the callback does is a parameter: any computation on
    the socket, the log of the calls and a state [App] of its own. *)

From S2P Require Import Prelude Types TimeUtils Kernel SocketUtils.
Local Open Scope Z_scope.

Module TcpSocket.
Import Kernel.

(** [TCPBufferSize] is 64 MiB in the code ([BufferSize_code]). *)
Class BufferSize := TCPBufferSize : nat.
Definition BufferSize_code : BufferSize := Z.to_nat (64 * 1024 * 1024).

Record TCPSocket := mkTCPSocket {
  socket_fd_ : Z;
  outbound_data_ : list Byte.byte;
  next_send_valid_index_ : nat;
  inbound_data_ : list Byte.byte;
  next_rcv_valid_index_ : nat;
  socket_attrib_ : SockaddrIn;
}.

Definition set_fd fd t :=
  mkTCPSocket fd (outbound_data_ t) (next_send_valid_index_ t) (inbound_data_ t)
    (next_rcv_valid_index_ t) (socket_attrib_ t).
Definition set_out d i t :=
  mkTCPSocket (socket_fd_ t) d i (inbound_data_ t) (next_rcv_valid_index_ t) (socket_attrib_ t).
Definition set_in d i t :=
  mkTCPSocket (socket_fd_ t) (outbound_data_ t) (next_send_valid_index_ t) d i (socket_attrib_ t).
Definition set_attrib a t :=
  mkTCPSocket (socket_fd_ t) (outbound_data_ t) (next_send_valid_index_ t) (inbound_data_ t)
    (next_rcv_valid_index_ t) a.

(** [TCPSocket()]: the vectors are filled with zeros. *)
Definition ctor `{BufferSize} : TCPSocket :=
  mkTCPSocket (-1) (replicate TCPBufferSize Byte.x00) 0 (replicate TCPBufferSize Byte.x00) 0
    (mkSockaddrIn 0 0 0).

(** Copying bytes into a vector; past its end is undefined. *)
Definition write_at {A} (i : nat) (bs buf : list A) : option (list A) :=
  if decide (i + length bs ≤ length buf)%nat
  then Some (take i buf ++ bs ++ drop (i + length bs) buf)
  else None.

Section ops.
Context `{BufferSize, Kernel, Headers, Clock} {App : Type}.

Record St := mkSt { socket : TCPSocket; log : list Call; clock_reads : nat; app : App }.

Definition set_socket t s := mkSt t (log s) (clock_reads s) (app s).
Definition set_log l s := mkSt (socket s) l (clock_reads s) (app s).
Definition set_clock n s := mkSt (socket s) (log s) n (app s).

Definition sys {A} : M (list Call) A → M St A := zoom log set_log.
Definition on_socket (f : TCPSocket → TCPSocket) : M St unit :=
  mmodify (λ s, set_socket (f (socket s)) s).

Definition connect (cfg : SocketUtils.SocketCfg) : M St Z :=
  fd ← sys (SocketUtils.createSocket cfg);
  on_socket (set_fd fd);;
  on_socket (set_attrib (mkSockaddrIn AF_INET
    (htons (SocketUtils.port cfg mod 2 ^ 16)) INADDR_ANY));;
  mret fd.

Definition send (data : list Byte.byte) : M St unit :=
  s ← mget;
  let t := socket s in
  match write_at (next_send_valid_index_ t) data (outbound_data_ t) with
  | Some d => on_socket (set_out d (next_send_valid_index_ t + length data)%nat)
  | None => mub IndexOutOfRange
  end.

(** [recvmsg] has the address of [socket_attrib_] as [msg_name]: an address that it
    stores goes there. *)
Definition named (l : list Call) (t : TCPSocket) : TCPSocket :=
  set_attrib (default (socket_attrib_ t) (msg_name l (socket_fd_ t))) t.

(** The time stamp the kernel gave the data, in nanoseconds. *)
Definition kernel_time (c : Cmsg) : NsTimestampT :=
  if bool_decide (cmsg_level c = SOL_SOCKET) && bool_decide (cmsg_type c = SCM_TIMESTAMP) &&
     bool_decide (cmsg_len c = CMSG_LEN_timeval)
  then tv_sec c * NANOS_TO_SECS + tv_usec c * NANOS_TO_MICROS
  else 0.

(** Handing the pending bytes to the kernel; its answer is not looked at. *)
Definition flush : M St unit :=
  s ← mget;
  let t := socket s in
  (if decide (0 < next_send_valid_index_ t)%nat then
     n ← sys (syscall (Send (socket_fd_ t) (take (next_send_valid_index_ t) (outbound_data_ t))));
     mret tt
   else mret tt);;
  on_socket (λ t, set_out (outbound_data_ t) 0 t).

(** [None] is an empty [std::function]; calling it throws in a [noexcept] function. *)
Context (recv_callback_ : option (NsTimestampT → M St unit)).

Definition sendAndRecv : M St bool :=
  s ← mget;
  let t := socket s in
  let iov_len := u64 (Z.of_nat TCPBufferSize - Z.of_nat (next_rcv_valid_index_ t)) in
  read_size ← sys (syscall (Recvmsg (socket_fd_ t) iov_len));
  on_socket (named (log s));;
  (if decide (read_size > 0) then
     let '(bytes, cmsg) := message (log s) (socket_fd_ t) in
     match write_at (next_rcv_valid_index_ t) (take (Z.to_nat read_size) bytes) (inbound_data_ t) with
     | None => mub IndexOutOfRange
     | Some d =>
         on_socket (set_in d (next_rcv_valid_index_ t + Z.to_nat read_size)%nat);;
         zoom clock_reads set_clock getCurrentNsTimestamp;;
         match recv_callback_ with
         | Some f => f (kernel_time cmsg)
         | None => mexit "std::bad_function_call"
         end
     end
   else mret tt);;
  flush;;
  mret (bool_decide (read_size > 0)).
End ops.
Arguments St App : clear implicits.

(** ** What the buffers stand for *)

Definition pending (t : TCPSocket) : list Byte.byte :=
  take (next_send_valid_index_ t) (outbound_data_ t).
Definition received (t : TCPSocket) : list Byte.byte :=
  take (next_rcv_valid_index_ t) (inbound_data_ t).

Definition wf `{BufferSize} (t : TCPSocket) : Prop :=
  length (outbound_data_ t) = TCPBufferSize ∧ length (inbound_data_ t) = TCPBufferSize ∧
  (next_send_valid_index_ t ≤ TCPBufferSize)%nat ∧ (next_rcv_valid_index_ t ≤ TCPBufferSize)%nat.

(** What POSIX says of [recvmsg]: it returns an error or the number of bytes it put
    into the buffer, which are no more than were asked for. *)
Class RecvmsgLaw `{Kernel} : Prop :=
  recvmsg_law log fd len :
    0 ≤ len → ret log (Recvmsg fd len) ≤ len ∧
    ret log (Recvmsg fd len) ≤ Z.of_nat (length (message log fd).1).

Section facts.
Context `{BufferSize, Kernel, Headers, Clock} {App : Type}.
Implicit Types (t : TCPSocket) (s : St App) (d : list Byte.byte).

Lemma ctor_wf_socket : wf ctor.
Proof. split_and!; simpl; rewrite ?length_replicate; lia. Qed.

Lemma write_at_spec {A} i (bs buf buf' : list A) :
  write_at i bs buf = Some buf' →
  length buf' = length buf ∧ take (i + length bs) buf' = take i buf ++ bs.
Proof.
  unfold write_at. case_decide as Hle; [|done]. intros [= <-].
  assert (length (take i buf) = i) as Hi by (rewrite length_take; lia). split.
  - rewrite !length_app, length_drop. lia.
  - rewrite app_assoc. apply take_app_length'. rewrite length_app. lia.
Qed.

Lemma send_room s d :
  wf (socket s) → (next_send_valid_index_ (socket s) + length d ≤ TCPBufferSize)%nat →
  ∃ t, send d s = Done (tt, set_socket t s) ∧ wf t ∧ pending t = pending (socket s) ++ d ∧
       received t = received (socket s) ∧ socket_fd_ t = socket_fd_ (socket s).
Proof.
  intros (Ho & Hi & Hs & Hr) Hlen. unfold send. rewrite bind_get. cbv zeta.
  destruct (write_at _ d (outbound_data_ (socket s))) as [o|] eqn:E.
  - apply write_at_spec in E as [Hl Ht]. eexists. split; [reflexivity|].
    split_and!; [split_and!; simpl; [by rewrite Hl|done|lia|done]|exact Ht|done|done].
  - unfold write_at in E. rewrite decide_True in E by (by rewrite Ho). done.
Qed.

Lemma send_overflow s d :
  wf (socket s) → (TCPBufferSize < next_send_valid_index_ (socket s) + length d)%nat →
  send d s = UB IndexOutOfRange.
Proof.
  intros (Ho & _) Hlen. unfold send. rewrite bind_get. cbv zeta. unfold write_at.
  by rewrite decide_False by (rewrite Ho; lia).
Qed.

(** The calls of [flush]. *)
Definition flush_calls t : list Call :=
  if decide (0 < next_send_valid_index_ t)%nat then [Send (socket_fd_ t) (pending t)] else [].

Lemma flush_run s :
  flush s = Done (tt, set_socket (set_out (outbound_data_ (socket s)) 0 (socket s))
                        (set_log (log s ++ flush_calls (socket s)) s)).
Proof.
  unfold flush, flush_calls, sys. rewrite bind_get. cbv zeta. case_decide.
  - reflexivity.
  - rewrite bind_ret. rewrite app_nil_r. by destruct s.
Qed.

Lemma flush_calls_some t :
  pending t ≠ [] → flush_calls t = [Send (socket_fd_ t) (pending t)].
Proof.
  intros Hp. unfold flush_calls. rewrite decide_True; [done|].
  unfold pending in Hp. destruct (next_send_valid_index_ t); [by destruct Hp|lia].
Qed.

Lemma on_socket_bind {A} f (k : unit → M (St App) A) s :
  (on_socket f ≫= k) s = k tt (set_socket (f (socket s)) s).
Proof. done. Qed.

(** Nothing came in: the pending bytes are handed on. *)
Lemma recv_nothing cb s :
  let c := Recvmsg (socket_fd_ (socket s))
             (u64 (Z.of_nat TCPBufferSize - Z.of_nat (next_rcv_valid_index_ (socket s)))) in
  ret (log s) c ≤ 0 →
  sendAndRecv cb s =
    Done (false, set_socket (set_out (outbound_data_ (socket s)) 0 (named (log s) (socket s)))
                   (set_log ((log s ++ [c]) ++ flush_calls (socket s)) s)).
Proof.
  intros c Hc. unfold sendAndRecv. rewrite bind_get. cbv zeta. fold c.
  assert (sys (syscall c) s = Done (ret (log s) c, set_log (log s ++ [c]) s)) as E by done.
  rewrite (bind_done _ _ _ _ _ E). rewrite on_socket_bind.
  rewrite decide_False by lia. rewrite bind_ret.
  rewrite (bind_done _ _ _ _ _ (flush_run _)). rewrite bool_decide_eq_false_2 by lia. done.
Qed.

(** The call of [recvmsg] by a socket, what it brings, and the socket the callback is
    given. *)
Definition recv_call t : Call :=
  Recvmsg (socket_fd_ t) (Z.of_nat TCPBufferSize - Z.of_nat (next_rcv_valid_index_ t)).
Definition incoming s : list Byte.byte :=
  take (Z.to_nat (ret (log s) (recv_call (socket s)))) (message (log s) (socket_fd_ (socket s))).1.
Definition incoming_time s : NsTimestampT :=
  kernel_time (message (log s) (socket_fd_ (socket s))).2.
Definition filled s : TCPSocket :=
  let t := named (log s) (socket s) in
  match write_at (next_rcv_valid_index_ t) (incoming s) (inbound_data_ t) with
  | Some d => set_in d (next_rcv_valid_index_ t + length (incoming s))%nat t
  | None => t
  end.

Lemma recv_bytes `{!RecvmsgLaw} cb s :
  wf (socket s) → Z.of_nat TCPBufferSize < 2 ^ 64 → 0 < ret (log s) (recv_call (socket s)) →
  wf (filled s) ∧ received (filled s) = received (socket s) ++ incoming s ∧
  pending (filled s) = pending (socket s) ∧
  sendAndRecv (Some cb) s =
    (cb (incoming_time s);; flush;; mret true)
      (mkSt (filled s) (log s ++ [recv_call (socket s)]) (S (clock_reads s)) (app s)).
Proof.
  intros Hwf Hsize Hc. pose proof Hwf as (Ho & Hi & Hs & Hr).
  assert (u64 (Z.of_nat TCPBufferSize - Z.of_nat (next_rcv_valid_index_ (socket s))) =
    Z.of_nat TCPBufferSize - Z.of_nat (next_rcv_valid_index_ (socket s))) as Hlen
    by (unfold u64; apply Z.mod_small; lia).
  assert (0 ≤ Z.of_nat TCPBufferSize - Z.of_nat (next_rcv_valid_index_ (socket s))) as Hpos by lia.
  destruct (recvmsg_law (log s) (socket_fd_ (socket s)) _ Hpos) as [Hle Hm].
  fold (recv_call (socket s)) in Hle, Hm.
  assert (Z.to_nat (ret (log s) (recv_call (socket s))) = length (incoming s)) as Hin.
  { unfold incoming. rewrite length_take. lia. }
  assert (write_at (next_rcv_valid_index_ (socket s)) (incoming s)
    (inbound_data_ (socket s)) ≠ None) as Hw.
  { unfold write_at. rewrite decide_True; [done|]. rewrite Hi, <- Hin. lia. }
  unfold filled. unfold sendAndRecv. rewrite bind_get. cbv zeta. rewrite Hlen.
  fold (recv_call (socket s)).
  assert (sys (syscall (recv_call (socket s))) s =
    Done (ret (log s) (recv_call (socket s)), set_log (log s ++ [recv_call (socket s)]) s)) as E by done.
  rewrite (bind_done _ _ _ _ _ E). rewrite on_socket_bind.
  rewrite decide_True by lia. cbn [named set_attrib next_rcv_valid_index_ inbound_data_].
  unfold incoming, incoming_time in *. destruct (message (log s) (socket_fd_ (socket s))) as [bs cm].
  cbn [fst snd] in *. set (bytes := take _ bs) in *. rewrite Hin.
  destruct (write_at _ bytes _) as [d|] eqn:Ew; [|done]. apply write_at_spec in Ew as [Hl Ht].
  split_and!.
  - split_and!; simpl; [done|by rewrite Hl|done|lia].
  - exact Ht.
  - done.
  - rewrite bool_decide_eq_true_2 by lia. reflexivity.
Qed.
End facts.
End TcpSocket.
