(* ===== verification/TcpServer.v ===== *)
(** include/communication/tcp_server.h: a listener and the sockets of the connections
    it accepted, served by polling a kqueue.

    The sockets made with [new] are the finite map [heap]; deleting one takes it out,
    and deleting or using one that is not there is undefined. *)

From S2P Require Import Prelude Types TimeUtils Kernel SocketUtils TcpSocket.
Local Open Scope Z_scope.

Module TcpServer.
Import Kernel TcpSocket(TCPSocket, BufferSize).

Record TCPServer := mkTCPServer {
  kqueue_fd_ : Z;
  listener_socket_ : TCPSocket;
  heap : gmap nat TCPSocket;
  receive_sockets_ : list SocketPtr;
  send_sockets_ : list SocketPtr;
}.

Definition set_kqueue k x :=
  mkTCPServer k (listener_socket_ x) (heap x) (receive_sockets_ x) (send_sockets_ x).
Definition set_listener t x :=
  mkTCPServer (kqueue_fd_ x) t (heap x) (receive_sockets_ x) (send_sockets_ x).
Definition set_heap h x :=
  mkTCPServer (kqueue_fd_ x) (listener_socket_ x) h (receive_sockets_ x) (send_sockets_ x).
Definition set_receive l x :=
  mkTCPServer (kqueue_fd_ x) (listener_socket_ x) (heap x) l (send_sockets_ x).
Definition set_send l x :=
  mkTCPServer (kqueue_fd_ x) (listener_socket_ x) (heap x) (receive_sockets_ x) l.

Definition ctor `{BufferSize} : TCPServer := mkTCPServer (-1) TcpSocket.ctor ∅ [] [].

(** The object at a pointer. *)
Definition socket_at (p : SocketPtr) (x : TCPServer) : option TCPSocket :=
  match p with Listener => Some (listener_socket_ x) | Heap i => heap x !! i end.
Definition set_socket_at (p : SocketPtr) (t : TCPSocket) (x : TCPServer) : TCPServer :=
  match p with Listener => set_listener t x | Heap i => set_heap (<[i := t]> (heap x)) x end.

Definition push_new (p : SocketPtr) (l : list SocketPtr) : list SocketPtr :=
  if decide (p ∈ l) then l else l ++ [p].
Definition erase (p : SocketPtr) (l : list SocketPtr) : list SocketPtr := filter (λ q, q ≠ p) l.

Section ops.
Context `{BufferSize, Kernel, Headers, Clock} {App : Type}.

Record St := mkSt { server : TCPServer; log : list Call; clock_reads : nat; app : App }.

Definition set_log l s := mkSt (server s) l (clock_reads s) (app s).
Definition set_app a s := mkSt (server s) (log s) (clock_reads s) a.
Definition sys {A} : M (list Call) A → M St A := zoom log set_log.
Definition on_server (f : TCPServer → TCPServer) : M St unit :=
  mmodify (λ s, mkSt (f (server s)) (log s) (clock_reads s) (app s)).

(** A method of the socket at [p]. *)
Definition on_socket {A} (p : SocketPtr) (m : M (TcpSocket.St App) A) : M St A :=
  s ← mget;
  match socket_at p (server s) with
  | None => mub DeadObject
  | Some t =>
      zoom (λ s, TcpSocket.mkSt t (log s) (clock_reads s) (app s))
        (λ u s, mkSt (set_socket_at p (TcpSocket.socket u) (server s)) (TcpSocket.log u)
                  (TcpSocket.clock_reads u) (TcpSocket.app u))
        m
  end.

Definition delete (p : SocketPtr) : M St unit :=
  s ← mget;
  match p with
  | Listener => mub DeadObject
  | Heap i =>
      if decide (is_Some (heap (server s) !! i))
      then on_server (set_heap (base.delete i (heap (server s))))
      else mub DeadObject
  end.

Definition addToKqueueList (p : SocketPtr) (filter flags : Z) : M St bool :=
  s ← mget;
  match socket_at p (server s) with
  | None => mub DeadObject
  | Some t =>
      rc ← sys (syscall (Kevent_change (kqueue_fd_ (server s)) (TcpSocket.socket_fd_ t) filter flags p));
      mret (bool_decide (rc ≠ -1))
  end.

Definition ASSERT_errno (cond : bool) (msg : string) : M St unit :=
  sys (SocketUtils.ASSERT_errno cond msg).

Definition listen (iface : string) (port : Z) : M St unit :=
  kq ← sys (syscall Kqueue);
  on_server (set_kqueue kq);;
  ASSERT_errno (bool_decide (kq >= 0)) "kqueue() failed: ";;
  fd ← on_socket Listener (TcpSocket.connect
         (SocketUtils.mkSocketCfg EmptyString iface port false true true));
  ASSERT_errno (bool_decide (fd >= 0))
    ("Listener socket failed to connect. iface:" +:+ iface +:+ " port:" +:+ pretty port +:+ " error:");;
  added ← addToKqueueList Listener EVFILT_READ (Z.lor EV_ADD EV_ENABLE);
  ASSERT_errno added "kevent() failed to add listener socket. error:".

(** One event; the result is the new value of [have_new_connection]. *)
Definition on_event (have_new_connection : bool) (event : Kevent) : M St bool :=
  let socket := udata event in
  if decide (filter_ event = EVFILT_READ ∧ socket = Listener) then mret true
  else
    (if decide (filter_ event = EVFILT_READ)
     then on_server (λ x, set_receive (push_new socket (receive_sockets_ x)) x)
     else mret tt);;
    (if decide (filter_ event = EVFILT_WRITE)
     then on_server (λ x, set_send (push_new socket (send_sockets_ x)) x)
     else mret tt);;
    (if decide (Z.land (flags_ event) (Z.lor EV_ERROR EV_EOF) ≠ 0)
     then on_server (λ x, set_receive (erase socket (receive_sockets_ x)) x);;
          on_server (λ x, set_send (erase socket (send_sockets_ x)) x);;
          delete socket
     else mret tt);;
    mret have_new_connection.

Fixpoint on_events (have_new_connection : bool) (events : list Kevent) : M St bool :=
  match events with
  | [] => mret have_new_connection
  | event :: events =>
      have_new_connection ← on_event have_new_connection event;
      on_events have_new_connection events
  end.

(** One turn of the accept loop. *)
Definition accept_step (_ : unit) : M St (unit + unit) :=
  s ← mget;
  fd ← sys (syscall (Accept (TcpSocket.socket_fd_ (listener_socket_ (server s)))));
  if decide (fd = -1) then mret (inr tt)
  else
    nb ← sys (SocketUtils.setNonBlocking fd);
    ok ← (if nb : bool then sys (SocketUtils.disableNagle fd) else mret false);
    ASSERT ok ("Failed to set non-blocking or no-delay on socket:" +:+ pretty fd);;
    let i := fresh (dom (heap (server s)) : gset nat) in
    on_server (λ x, set_heap (<[i := TcpSocket.set_fd fd TcpSocket.ctor]> (heap x)) x);;
    added ← addToKqueueList (Heap i) EVFILT_READ (Z.lor EV_ADD EV_ENABLE);
    ASSERT_errno added "Unable to add socket to kqueue. error:";;
    on_server (λ x, set_receive (receive_sockets_ x ++ [Heap i]) x);;
    mret (inl tt).

(** [poll]; the accept loop gets [fuel] turns. *)
Definition poll (fuel : nat) : M St unit :=
  s ← mget;
  let max_events := 1 + Z.of_nat (length (send_sockets_ (server s)))
                    + Z.of_nat (length (receive_sockets_ (server s))) in
  n ← sys (syscall (Kevent_poll (kqueue_fd_ (server s)) max_events));
  have_new_connection ← on_events false (take (Z.to_nat n) (event_list (log s)));
  if have_new_connection : bool then iterate fuel accept_step tt else mret tt.

(** [~TCPServer]; the sockets made with [new] are left. *)
Definition destructor : M St unit :=
  s ← mget;
  if decide (kqueue_fd_ (server s) ≠ -1)
  then sys (syscall (Close (kqueue_fd_ (server s))));; mret tt
  else mret tt.

Context (recv_callback_ : SocketPtr → option (NsTimestampT → M (TcpSocket.St App) unit)).
Context (recv_finished_callback_ : option (M App unit)).

Fixpoint receive_all (recv : bool) (ps : list SocketPtr) : M St bool :=
  match ps with
  | [] => mret recv
  | p :: ps =>
      r ← on_socket p (TcpSocket.sendAndRecv (recv_callback_ p));
      receive_all (orb recv r) ps
  end.

Fixpoint send_all (ps : list SocketPtr) : M St unit :=
  match ps with
  | [] => mret tt
  | p :: ps => on_socket p (TcpSocket.sendAndRecv (recv_callback_ p));; send_all ps
  end.

Definition sendAndRecv : M St unit :=
  s ← mget;
  recv ← receive_all false (receive_sockets_ (server s));
  (if recv : bool then
     match recv_finished_callback_ with
     | Some f => zoom app set_app f
     | None => mexit "std::bad_function_call"
     end
   else mret tt);;
  s ← mget;
  send_all (send_sockets_ (server s)).
End ops.
Arguments St App : clear implicits.
End TcpServer.
