(* ===== verification/TcpServerProps.v ===== *)
(** The invariant of the server: its lists name live sockets, each once; [poll] keeps
    it. *)

From S2P Require Import Prelude Types TimeUtils Kernel SocketUtils TcpSocket TcpServer.
Local Open Scope Z_scope.

Module TcpServerProps.
Import Kernel TcpServer.

Definition live (x : TCPServer) (p : SocketPtr) : Prop :=
  ∃ i, p = Heap i ∧ is_Some (heap x !! i).

Record server_ok (x : TCPServer) : Prop := {
  sv_receive : Forall (live x) (receive_sockets_ x);
  sv_send : Forall (live x) (send_sockets_ x);
  sv_receive_once : NoDup (receive_sockets_ x);
  sv_send_once : NoDup (send_sockets_ x);
}.

Section events.
Context `{Headers}.

(** The event closes its connection. *)
Definition closes (e : Kevent) : Prop := Z.land (flags_ e) (Z.lor EV_ERROR EV_EOF) ≠ 0.
#[export] Instance closes_dec e : Decision (closes e).
Proof. unfold closes. apply _. Defined.

(** The events that the registrations of the code can give: reading at the listener,
    or any event of a live socket. *)
Definition good_event (x : TCPServer) (e : Kevent) : Prop :=
  (udata e = Listener ∧ filter_ e = EVFILT_READ) ∨ live x (udata e).

Definition closed (evs : list Kevent) : list SocketPtr :=
  udata <$> filter (λ e, closes e ∧ udata e ≠ Listener) evs.
End events.

(** Between [x] and [x'] the sockets of [ps] are deleted and no other. *)
Definition deleted (ps : list SocketPtr) (x x' : TCPServer) : Prop :=
  ∀ i, heap x' !! i = if decide (Heap i ∈ ps) then None else heap x !! i.

Lemma deleted_nil x : deleted [] x x.
Proof. intros i. rewrite decide_False; [done|]. apply not_elem_of_nil. Qed.

Lemma deleted_trans ps qs x1 x2 x3 :
  deleted ps x1 x2 → deleted qs x2 x3 → deleted (ps ++ qs) x1 x3.
Proof.
  intros H1 H2 i. rewrite (H2 i), (H1 i).
  repeat case_decide; try done; exfalso; set_solver.
Qed.

Lemma live_deleted ps x x' p : deleted ps x x' → live x p → p ∉ ps → live x' p.
Proof.
  intros Hd (i & -> & Hi) Hp. exists i. split; [done|]. by rewrite (Hd i), decide_False.
Qed.

Lemma push_new_ok x p l :
  live x p → Forall (live x) l → NoDup l → Forall (live x) (push_new p l) ∧ NoDup (push_new p l).
Proof.
  intros Hp Hl Hn. unfold push_new. case_decide; [done|]. split.
  - apply Forall_app. by repeat constructor.
  - apply NoDup_app. split_and!; [done|set_solver|by apply NoDup_singleton].
Qed.

Lemma erase_ok ps x x' p l :
  deleted ps x x' → ps ⊆ [p] → Forall (live x) l → NoDup l →
  Forall (live x') (erase p l) ∧ NoDup (erase p l).
Proof.
  intros Hd Hp Hl Hn. split; [|by apply NoDup_filter].
  apply Forall_forall. intros q [Hq Hin]%list_elem_of_filter. rewrite Forall_forall in Hl.
  eapply live_deleted; [done|by apply Hl|]. set_solver.
Qed.

Section poll.
Context `{TcpSocket.BufferSize, Kernel, Headers, Clock} {App : Type}.
Implicit Types (s : St App) (x : TCPServer) (e : Kevent).

Definition set_server x s : St App := mkSt x (log s) (clock_reads s) (app s).

Lemma set_server_id s : set_server (server s) s = s.
Proof. by destruct s. Qed.

(** The two lists after an event that closes nothing. *)
Definition registered e x : TCPServer :=
  let x := if decide (filter_ e = EVFILT_READ)
           then set_receive (push_new (udata e) (receive_sockets_ x)) x else x in
  if decide (filter_ e = EVFILT_WRITE)
  then set_send (push_new (udata e) (send_sockets_ x)) x else x.

Lemma registered_ok e x :
  server_ok x → live x (udata e) → server_ok (registered e x) ∧ heap (registered e x) = heap x.
Proof.
  intros [Hr Hs Hrn Hsn] Hl.
  destruct (push_new_ok x _ _ Hl Hr Hrn), (push_new_ok x _ _ Hl Hs Hsn).
  unfold registered. repeat case_decide; (split; [by split|done]).
Qed.

(** The server after the socket at [p] is erased and deleted. *)
Definition without (p : SocketPtr) x : TCPServer :=
  let x := set_receive (erase p (receive_sockets_ x)) x in
  let x := set_send (erase p (send_sockets_ x)) x in
  match p with Listener => x | Heap i => set_heap (base.delete i (heap x)) x end.

Lemma without_ok i x :
  server_ok x → server_ok (without (Heap i) x) ∧ deleted [Heap i] x (without (Heap i) x).
Proof.
  intros [Hr Hs Hrn Hsn].
  assert (deleted [Heap i] x (without (Heap i) x)) as Hd.
  { intros j. simpl. case_decide as Hj.
    - apply list_elem_of_singleton in Hj as [= ->]. apply lookup_delete_eq.
    - apply lookup_delete_ne. set_solver. }
  split; [|done].
  destruct (erase_ok _ x _ (Heap i) _ Hd ltac:(done) Hr Hrn).
  destruct (erase_ok _ x _ (Heap i) _ Hd ltac:(done) Hs Hsn). by split.
Qed.

Lemma erase_run i x s :
  is_Some (heap x !! i) →
  (on_server (λ x, set_receive (erase (Heap i) (receive_sockets_ x)) x);;
   on_server (λ x, set_send (erase (Heap i) (send_sockets_ x)) x);;
   delete (Heap i)) (set_server x s) = Done (tt, set_server (without (Heap i) x) s).
Proof.
  intros Hi. unfold on_server at 1 2. rewrite !bind_modify. unfold delete. rewrite bind_get.
  by rewrite decide_True.
Qed.

Lemma on_event_run b e s :
  server_ok (server s) → good_event (server s) e →
  ∃ b' x', on_event b e s = Done (b', set_server x' s) ∧ server_ok x' ∧
           deleted (closed [e]) (server s) x'.
Proof.
  intros Hok He. unfold on_event. case_decide as Hl.
  { destruct Hl as [_ Hl]. exists true, (server s). rewrite set_server_id. split_and!; [done..|].
    unfold closed. rewrite filter_cons, (decide_False (P := closes e ∧ _)) by (by intros [_ ?]).
    apply deleted_nil. }
  destruct He as [[Hl1 Hl2]|He]; [by destruct Hl|].
  destruct (registered_ok e _ Hok He) as [Hreg Hheap].
  assert (∀ (k : M (St App) bool),
    ((if decide (filter_ e = EVFILT_READ)
      then on_server (λ x, set_receive (push_new (udata e) (receive_sockets_ x)) x) else mret tt);;
     (if decide (filter_ e = EVFILT_WRITE)
      then on_server (λ x, set_send (push_new (udata e) (send_sockets_ x)) x) else mret tt);; k) s
    = k (set_server (registered e (server s)) s)) as Hrun.
  { intros k. unfold registered. repeat case_decide; try reflexivity. by destruct s. }
  rewrite Hrun. clear Hrun. destruct He as (i & Hi & Hlive). case_decide as Hc;
    unfold closed; rewrite filter_cons.
  - rewrite (decide_True (P := closes e ∧ _)) by (rewrite Hi; split; [exact Hc|discriminate]).
    destruct (without_ok i _ Hreg) as [Hw Hd].
    exists b, (without (Heap i) (registered e (server s))). split_and!; [|done|].
    + rewrite Hi, (bind_done _ _ _ _ _ (erase_run i _ s ltac:(by rewrite Hheap))). reflexivity.
    + intros j. rewrite (Hd j), Hheap. simpl. by rewrite Hi.
  - rewrite (decide_False (P := closes e ∧ _)) by (by intros [? _]). exists b, (registered e (server s)).
    split_and!; [done..|]. intros j. simpl. by rewrite Hheap.
Qed.

Lemma closed_cons e evs : closed (e :: evs) = closed [e] ++ closed evs.
Proof. unfold closed. rewrite !filter_cons. by case_decide. Qed.

Lemma on_events_run evs b s :
  server_ok (server s) → Forall (good_event (server s)) evs → NoDup (udata <$> evs) →
  ∃ b' x', on_events b evs s = Done (b', set_server x' s) ∧ server_ok x' ∧
           deleted (closed evs) (server s) x'.
Proof.
  revert b s. induction evs as [|e evs IH]; intros b s Hok Hev Hnd.
  { exists b, (server s). rewrite set_server_id. split_and!; [done..|apply deleted_nil]. }
  apply Forall_cons in Hev as [He Hev]. rewrite fmap_cons in Hnd. apply NoDup_cons in Hnd as [Hn Hnd].
  destruct (on_event_run b e s Hok He) as (b1 & x1 & E & Hok1 & Hd1).
  destruct (IH b1 (set_server x1 s) Hok1) as (b2 & x2 & E2 & Hok2 & Hd2); [|done|].
  { apply Forall_forall. intros e' Hin. rewrite Forall_forall in Hev.
    destruct (Hev e' Hin) as [Hl|Hl]; [by left|right].
    eapply live_deleted; [done|done|]. unfold closed. rewrite filter_cons.
    case_decide; [|by apply not_elem_of_nil]. rewrite filter_nil. simpl.
    intros Heq%list_elem_of_singleton. apply Hn. rewrite <- Heq. by apply list_elem_of_fmap_2. }
  exists b2, x2. simpl. rewrite (bind_done _ _ _ _ _ E). split_and!; [exact E2|done|].
  rewrite closed_cons. by eapply deleted_trans.
Qed.

(** *** Events of sockets that are gone *)

Lemma on_event_rest b e s :
  ¬ (filter_ e = EVFILT_READ ∧ udata e = Listener) →
  on_event b e s =
    ((if decide (closes e)
      then on_server (λ x, set_receive (erase (udata e) (receive_sockets_ x)) x);;
           on_server (λ x, set_send (erase (udata e) (send_sockets_ x)) x);;
           delete (udata e)
      else mret tt);; mret b) (set_server (registered e (server s)) s).
Proof.
  intros Hl. unfold on_event. rewrite decide_False by done. unfold registered, closes.
  repeat case_decide; try reflexivity; by destruct s.
Qed.

Lemma registered_heap e x : heap (registered e x) = heap x.
Proof. unfold registered. by repeat case_decide. Qed.

(** An event brings no deleted socket back. *)
Lemma on_event_gone b e s i :
  heap (server s) !! i = None →
  on_event b e s = UB DeadObject ∨
  ∃ b' s', on_event b e s = Done (b', s') ∧ heap (server s') !! i = None ∧
           (closes e → udata e ≠ Heap i).
Proof.
  intros Hi. destruct (decide (filter_ e = EVFILT_READ ∧ udata e = Listener)) as [Hl|Hl].
  { right. exists true, s. unfold on_event. rewrite decide_True by done.
    split_and!; [done..|]. intros _. by destruct Hl as [_ ->]. }
  rewrite on_event_rest by done. pose proof (registered_heap e (server s)) as Hh.
  case_decide as Hc.
  - destruct (udata e) as [|j] eqn:Ej; [by left; apply bind_ub|].
    destruct (decide (is_Some (heap (registered e (server s)) !! j))) as [Hj|Hj].
    + right. rewrite (bind_done _ _ _ _ _ (erase_run j _ s Hj)).
      eexists _, _. split; [reflexivity|]. cbn. rewrite Hh in *. split.
      * destruct (decide (j = i)) as [->|]; [apply lookup_delete_eq|by rewrite lookup_delete_ne].
      * intros _ [= ->]. rewrite Hi in Hj. by destruct Hj.
    + left. apply bind_ub. unfold on_server at 1 2. rewrite !bind_modify. unfold delete.
      by rewrite bind_get, decide_False.
  - right. eexists _, _. split; [reflexivity|]. cbn. by rewrite Hh.
Qed.

(** The end of a connection, reported for a socket that was deleted. *)
Lemma on_events_dead evs b s e i :
  e ∈ evs → closes e → udata e = Heap i → heap (server s) !! i = None →
  on_events b evs s = UB DeadObject.
Proof.
  intros He Hc Hu. revert b s. induction evs as [|e' evs IH]; intros b s Hi; [by apply not_elem_of_nil in He|].
  simpl. destruct (on_event_gone b e' s i Hi) as [E|(b' & s' & E & Hi' & Hne)].
  - by apply bind_ub.
  - rewrite (bind_done _ _ _ _ _ E). apply elem_of_cons in He as [<-|He]; [by destruct (Hne Hc)|].
    by apply IH.
Qed.

(** *** Accepting connections *)

Lemma sys_done {A} (m : M (list Call) A) s a l :
  m (log s) = Done (a, l) → sys m s = Done (a, set_log l s).
Proof. intros E. by apply zoom_done. Qed.

Lemma setNonBlocking_run fd l :
  ∃ b l', SocketUtils.setNonBlocking fd l = Done (b, l ++ l').
Proof.
  unfold SocketUtils.setNonBlocking. rewrite (bind_done _ _ _ _ _ (syscall_run _ _)). case_decide.
  - by eexists true, _.
  - rewrite (bind_done _ _ _ _ _ (syscall_run _ _)), <- app_assoc. by eexists _, _.
Qed.

Lemma disableNagle_run fd l : ∃ b l', SocketUtils.disableNagle fd l = Done (b, l ++ l').
Proof.
  unfold SocketUtils.disableNagle. rewrite (bind_done _ _ _ _ _ (syscall_run _ _)). by eexists _, _.
Qed.

(** [x'] is [x] with more sockets, made for connections. *)
Record accepted x x' : Prop := {
  ac_heap : heap x ⊆ heap x';
  ac_receive : receive_sockets_ x `prefix_of` receive_sockets_ x';
  ac_send : send_sockets_ x' = send_sockets_ x;
  ac_listener : listener_socket_ x' = listener_socket_ x;
}.

Lemma accepted_refl x : accepted x x.
Proof. by split. Qed.

Lemma accepted_trans x1 x2 x3 : accepted x1 x2 → accepted x2 x3 → accepted x1 x3.
Proof. intros [????] [????]. split; [by etrans|by etrans|congruence|congruence]. Qed.

(** The server with a new socket for the connection [fd]. *)
Definition fresh_socket x : nat := fresh (dom (heap x) : gset nat).
Definition connected (fd : Z) x : TCPServer :=
  set_receive (receive_sockets_ x ++ [Heap (fresh_socket x)])
    (set_heap (<[fresh_socket x := TcpSocket.set_fd fd TcpSocket.ctor]> (heap x)) x).

Lemma connected_ok fd x : server_ok x → server_ok (connected fd x) ∧ accepted x (connected fd x).
Proof.
  intros [Hr Hs Hrn Hsn].
  assert (heap x !! fresh_socket x = None) as Hf 
    by exact (proj1 (not_elem_of_dom _ _) (is_fresh (dom (heap x) : gset nat))).
  assert (∀ p, live x p → live (connected fd x) p) as Hl.
  { intros p (i & -> & Hi). exists i. split; [done|]. simpl.
    rewrite lookup_insert_ne; [done|]. intros E. rewrite <- E, Hf in Hi. by destruct Hi. }
  split.
  - split; simpl; [| |apply NoDup_app; split_and!; [done| |apply NoDup_singleton]|done].
    + apply Forall_app. split; [by eapply Forall_impl|]. constructor; [|done].
      exists (fresh_socket x). split; [done|]. simpl. by rewrite lookup_insert_eq.
    + by eapply Forall_impl.
    + intros p Hp ->%list_elem_of_singleton. rewrite Forall_forall in Hr.
      destruct (Hr _ Hp) as (i & [= <-] & Hi). rewrite Hf in Hi. by destruct Hi.
  - split; simpl; [by apply insert_subseteq|by eexists|done..].
Qed.

Definition accept_call s : Call := Accept (TcpSocket.socket_fd_ (listener_socket_ (server s))).

Lemma accept_end s :
  ret (log s) (accept_call s) = -1 →
  accept_step tt s = Done (inr tt, set_log (log s ++ [accept_call s]) s).
Proof.
  intros E. unfold accept_step. rewrite bind_get. fold (accept_call s).
  rewrite (bind_done _ _ _ _ _ (sys_done _ _ _ _ (syscall_run _ _))). by rewrite decide_True.
Qed.

Lemma accept_one s :
  ret (log s) (accept_call s) ≠ -1 →
  (∃ l, accept_step tt s =
          Done (inl tt, mkSt (connected (ret (log s) (accept_call s)) (server s))
                          (log s ++ accept_call s :: l) (clock_reads s) (app s))) ∨
  ∃ msg, accept_step tt s = Exited msg.
Proof.
  intros E. unfold accept_step. rewrite bind_get. fold (accept_call s).
  rewrite (bind_done _ _ _ _ _ (sys_done _ _ _ _ (syscall_run _ _))), decide_False by done.
  set (fd := ret (log s) (accept_call s)).
  destruct (setNonBlocking_run fd (log s ++ [accept_call s])) as (nb & l1 & E1).
  rewrite (bind_done _ _ _ _ _ (sys_done _ (set_log _ s) _ _ E1)).
  assert (∃ ok l2, (if nb then sys (SocketUtils.disableNagle fd) else mret false)
            (set_log ((log s ++ [accept_call s]) ++ l1) s) =
          Done (ok, set_log (((log s ++ [accept_call s]) ++ l1) ++ l2) s)) as (ok & l2 & E2).
  { destruct nb.
    - destruct (disableNagle_run fd ((log s ++ [accept_call s]) ++ l1)) as (ok & l2 & E2).
      exists ok, l2. apply (sys_done _ (set_log _ s) _ _ E2).
    - exists false, []. rewrite app_nil_r. done. }
  rewrite (bind_done _ _ _ _ _ E2). destruct ok; [|right; eexists; reflexivity].
  rewrite bind_assert_true. cbv zeta. unfold on_server. rewrite bind_modify.
  unfold addToKqueueList. rewrite bind_bind, bind_get. cbn [server socket_at heap set_heap].
  rewrite lookup_insert_eq, bind_bind.
  rewrite (bind_done _ _ _ _ _ (sys_done _ _ _ _ (syscall_run _ _))), bind_ret.
  destruct (bool_decide _); [left|right; eexists; reflexivity].
  eexists. unfold ASSERT_errno, SocketUtils.ASSERT_errno, sys, zoom, connected, fresh_socket. simpl.
  rewrite <- !app_assoc. reflexivity.
Qed.

(** The events that a call of [poll] handles. *)
Definition poll_call s : Call :=
  Kevent_poll (kqueue_fd_ (server s))
    (1 + Z.of_nat (length (send_sockets_ (server s)))
     + Z.of_nat (length (receive_sockets_ (server s)))).
Definition poll_events s : list Kevent :=
  take (Z.to_nat (ret (log s) (poll_call s))) (event_list (log s)).

(** Accepting ends when there are finitely many connections to accept: [backlog] is
    a bound on them that every accepted connection lowers. *)
Section accept.
Context (backlog : list Call → nat)
  (backlog_law : ∀ l fd l', ret l (Accept fd) ≠ -1 →
     (backlog (l ++ Accept fd :: l') < backlog l)%nat).

Lemma accept_loop fuel s :
  (backlog (log s) < fuel)%nat → server_ok (server s) →
  (∃ s', iterate fuel accept_step tt s = Done (tt, s') ∧ server_ok (server s') ∧
         accepted (server s) (server s')) ∨
  ∃ msg, iterate fuel accept_step tt s = Exited msg.
Proof using backlog_law.
  revert s. induction fuel as [|fuel IH]; intros s Hf Hok; [lia|].
  destruct (decide (ret (log s) (accept_call s) = -1)) as [E|E].
  { left. eexists. rewrite (iterate_inr _ _ _ _ _ _ (accept_end s E)).
    split_and!; [done|done|apply accepted_refl]. }
  destruct (accept_one s E) as [(l & E1)|(msg & E1)];
    [|right; exists msg; by apply iterate_exited].
  rewrite (iterate_inl _ _ _ _ _ _ E1).
  destruct (connected_ok (ret (log s) (accept_call s)) _ Hok) as [Hok1 Ha].
  pose proof (backlog_law (log s) _ l E) as Hlt. unfold accept_call in E1 |- *.
  destruct (IH (mkSt (connected (ret (log s) (accept_call s)) (server s))
    (log s ++ accept_call s :: l) (clock_reads s) (app s))) as [(s' & E2 & ? & ?)|Hx];
    [unfold accept_call; simpl in *; lia|done| |by right].
  left. exists s'. split_and!; [done|done|by eapply accepted_trans].
Qed.

Lemma poll_run fuel s :
  server_ok (server s) → Forall (good_event (server s)) (poll_events s) →
  NoDup (udata <$> poll_events s) → (backlog (log s ++ [poll_call s]) < fuel)%nat →
  (∃ x s', poll fuel s = Done (tt, s') ∧ deleted (closed (poll_events s)) (server s) x ∧
           server_ok (server s') ∧ accepted x (server s')) ∨
  ∃ msg, poll fuel s = Exited msg.
Proof using backlog_law.
  intros Hok Hev Hnd Hf. unfold poll. rewrite bind_get. cbv zeta. fold (poll_call s).
  rewrite (bind_done _ _ _ _ _ (sys_done _ _ _ _ (syscall_run _ _))). fold (poll_events s).
  destruct (on_events_run (poll_events s) false (set_log (log s ++ [poll_call s]) s) Hok Hev Hnd)
    as (b & x & E & Hokx & Hd).
  rewrite (bind_done _ _ _ _ _ E). destruct b.
  - destruct (accept_loop fuel (set_server x (set_log (log s ++ [poll_call s]) s)) Hf Hokx)
      as [(s' & E' & ? & ?)|Hx]; [left|by right].
    by exists x, s'.
  - left. eexists x, _. split_and!; [reflexivity|done|done|apply accepted_refl].
Qed.
End accept.

Lemma poll_dead fuel s e i :
  e ∈ poll_events s → closes e → udata e = Heap i → heap (server s) !! i = None →
  poll fuel s = UB DeadObject.
Proof.
  intros He Hc Hu Hi. unfold poll. rewrite bind_get. cbv zeta. fold (poll_call s).
  rewrite (bind_done _ _ _ _ _ (sys_done _ _ _ _ (syscall_run _ _))). fold (poll_events s).
  apply bind_ub. by apply (on_events_dead _ _ _ e i).
Qed.
End poll.

(** ** Descriptors *)

(** The descriptors that were given back to the system. *)
Definition is_close (c : Call) : bool := match c with Close _ => true | _ => false end.
Definition closings (l : list Call) : list Call := filter (λ c, is_close c = true) l.

Section descriptors.
Context `{TcpSocket.BufferSize, Kernel, Headers, Clock} {App : Type}.

Lemma closings_syscall c : is_close c = false → keeps closings (syscall c).
Proof.
  intros Hc l a l' [= _ <-]. unfold closings. rewrite filter_app, filter_cons, decide_False.
  - apply app_nil_r.
  - by rewrite Hc.
Qed.

Lemma closings_sys {A} (m : M (list Call) A) :
  keeps closings m → keeps (λ s : St App, closings (log s)) (sys m).
Proof. by apply keeps_zoom. Qed.

Lemma closings_assert b msg : keeps closings (SocketUtils.ASSERT_errno b msg).
Proof. unfold SocketUtils.ASSERT_errno. solve_keeps. Qed.

#[local] Hint Resolve closings_sys closings_assert : keeps.
#[local] Hint Extern 1 (keeps closings (syscall _)) => (apply closings_syscall; reflexivity) : keeps.

Lemma closings_nonblocking fd : keeps closings (SocketUtils.setNonBlocking fd).
Proof. unfold SocketUtils.setNonBlocking. solve_keeps. Qed.

Lemma closings_nagle fd : keeps closings (SocketUtils.disableNagle fd).
Proof. unfold SocketUtils.disableNagle. solve_keeps. Qed.

#[local] Hint Resolve closings_nonblocking closings_nagle : keeps.

Lemma closings_on_event b e : keeps (λ s : St App, closings (log s)) (on_event b e).
Proof. unfold on_event, delete, on_server. cbv zeta. solve_keeps. Qed.

Lemma closings_on_events b es : keeps (λ s : St App, closings (log s)) (on_events b es).
Proof.
  revert b. induction es as [|e es IH]; intros b; simpl; [apply keeps_ret|].
  apply keeps_bind; [apply closings_on_event|]. intros b'. apply IH.
Qed.

Lemma closings_add p f g : keeps (λ s : St App, closings (log s)) (addToKqueueList p f g).
Proof. unfold addToKqueueList. solve_keeps. Qed.

#[local] Hint Resolve closings_on_event closings_on_events closings_add : keeps.

Lemma closings_accept u : keeps (λ s : St App, closings (log s)) (accept_step u).
Proof. unfold accept_step, ASSERT_errno, on_server. cbv zeta. solve_keeps. Qed.

Lemma closings_poll fuel : keeps (λ s : St App, closings (log s)) (poll fuel).
Proof.
  unfold poll. cbv zeta. solve_keeps. apply keeps_iterate. intros u. apply closings_accept.
Qed.
End descriptors.
End TcpServerProps.
