(* ===== verification/NetResults.v ===== *)
(** The results on the sockets, each with an instance on a small system: buffers of
    eight bytes, and a kernel that answers from a table. *)

From S2P Require Import Prelude Types TimeUtils Kernel SocketUtils TcpSocket TcpServer.
From S2P Require Import TcpServerProps.
Local Open Scope Z_scope.

Module NetResults.
Import Kernel.

Section socket.
Context `{TcpSocket.BufferSize, Kernel, Headers, Clock} {App : Type}.
Implicit Types (s : TcpSocket.St App) (d : list Byte.byte).
Import TcpSocket.

(** [send] puts the bytes behind those that wait, and touches nothing else, as
    long as they fit in the buffer; bytes that do not fit are written past the end
    of the buffer. *)
Theorem tcp_send_appends s d :
  wf (socket s) →
  if decide (next_send_valid_index_ (socket s) + length d ≤ TCPBufferSize)%nat
  then ∃ t, send d s = Done (tt, set_socket t s) ∧ wf t ∧
            pending t = pending (socket s) ++ d ∧ received t = received (socket s)
  else send d s = UB IndexOutOfRange.
Proof.
  intros Hwf. case_decide as Hd; [|apply send_overflow; [done|lia]].
  destruct (send_room s d Hwf Hd) as (t & ? & ? & ? & ? & _). by exists t.
Qed.

(** Sending pieces one after the other. *)
Fixpoint send_pieces (ds : list (list Byte.byte)) : M (TcpSocket.St App) unit :=
  match ds with
  | [] => mret tt
  | d :: ds => send d;; send_pieces ds
  end.

Lemma send_pieces_run ds s :
  wf (socket s) → (next_send_valid_index_ (socket s) + length (concat ds) ≤ TCPBufferSize)%nat →
  ∃ t, send_pieces ds s = Done (tt, set_socket t s) ∧ wf t ∧
       pending t = pending (socket s) ++ concat ds ∧ received t = received (socket s) ∧
       socket_fd_ t = socket_fd_ (socket s) ∧
       next_rcv_valid_index_ t = next_rcv_valid_index_ (socket s).
Proof.
  revert s. induction ds as [|d ds IH]; intros s Hwf Hlen.
  { exists (socket s). rewrite app_nil_r. split_and!; try done. by destruct s. }
  simpl in Hlen. rewrite length_app in Hlen.
  destruct (send_room s d Hwf ltac:(lia)) as (t1 & E1 & Hwf1 & Hp1 & Hr1 & Hf1).
  pose proof E1 as E1'. unfold send in E1'. rewrite bind_get in E1'. cbv zeta in E1'.
  destruct (write_at _ d _) as [o|]; [|done]. injection E1' as Ht1.
  destruct (IH (set_socket t1 s) Hwf1) as (t & E & Hwf2 & Hp & Hr & Hf & Hn).
  { simpl. rewrite <- Ht1. simpl. lia. }
  exists t. simpl. rewrite (bind_done _ _ _ _ _ E1). split_and!; try done.
  - rewrite Hp. simpl. by rewrite Hp1, <- app_assoc.
  - by rewrite Hr.
  - by rewrite Hf.
  - rewrite Hn. simpl. by rewrite <- Ht1.
Qed.

(** C30: pieces that are sent before the next [sendAndRecv] and fit in the buffer
    behind the bytes that wait there go to the kernel in one call, in their order,
    after those bytes; the buffer is empty afterwards whatever the kernel answers,
    also when it took fewer bytes or none.  When nothing came in this is the only call
    but [recvmsg].  When bytes came in the callback runs in between, with the pieces
    still waiting: what it sends goes behind them in the same call. *)
Theorem tcp_sends_in_order `{!RecvmsgLaw} (cb : NsTimestampT → M (TcpSocket.St App) unit) s ds :
  let out := pending (socket s) ++ concat ds in
  wf (socket s) → Z.of_nat TCPBufferSize < 2 ^ 64 →
  (next_send_valid_index_ (socket s) + length (concat ds) ≤ TCPBufferSize)%nat → out ≠ [] →
  if decide (0 < ret (log s) (recv_call (socket s))) then
    ∃ t, wf t ∧ socket_fd_ t = socket_fd_ (socket s) ∧ pending t = out ∧
      received t = received (socket s) ++ incoming s ∧
      ∀ s2 more,
        cb (incoming_time s) (mkSt t (log s ++ [recv_call (socket s)]) (S (clock_reads s)) (app s)) =
          Done (tt, s2) →
        pending (socket s2) = out ++ more →
        ∃ t2, (send_pieces ds;; sendAndRecv (Some cb)) s =
                Done (true, mkSt t2 (log s2 ++ [Send (socket_fd_ (socket s2)) (out ++ more)])
                              (clock_reads s2) (app s2)) ∧
              pending t2 = [] ∧ received t2 = received (socket s2)
  else
    ∃ t, (send_pieces ds;; sendAndRecv (Some cb)) s =
           Done (false, mkSt t (log s ++ [recv_call (socket s); Send (socket_fd_ (socket s)) out])
                          (clock_reads s) (app s)) ∧
         pending t = [] ∧ received t = received (socket s).
Proof.
  intros out Hwf Hsize Hlen Hne.
  destruct (send_pieces_run ds s Hwf Hlen) as (t & E & Hwf' & Hp & Hr & Hf & Hn).
  set (s1 := set_socket t s) in *.
  assert (recv_call t = recv_call (socket s)) as Hc by (unfold recv_call; by rewrite Hf, Hn).
  assert (incoming s1 = incoming s) as Hin
    by (unfold incoming; simpl; by rewrite Hc, Hf).
  assert (incoming_time s1 = incoming_time s) as Htime
    by (unfold incoming_time; simpl; by rewrite Hf).
  case_decide as Hret.
  - destruct (recv_bytes cb s1 Hwf' Hsize) as (Hwff & Hrec & Hpend & Er); [simpl; by rewrite Hc|].
    exists (filled s1). rewrite Hrec, Hpend, Hin. simpl. rewrite Hr.
    split_and!; [done|unfold filled; rewrite <- Hf; by destruct (write_at _ _ _)|exact Hp|done|].
    intros s2 more Ecb Hmore.
    exists (set_out (outbound_data_ (socket s2)) 0 (socket s2)).
    rewrite (bind_done _ _ _ _ _ E), Er, Htime. simpl. rewrite Hc, (bind_done _ _ _ _ _ Ecb).
    rewrite (bind_done _ _ _ _ _ (flush_run s2)), flush_calls_some, Hmore; [done|].
    rewrite Hmore. by intros [? _]%app_nil.
  - exists (set_out (outbound_data_ t) 0 (named (log s) t)).
    rewrite (bind_done _ _ _ _ _ E). pose proof (recv_nothing (Some cb) s1) as En. cbv zeta in En.
    assert (u64 (Z.of_nat TCPBufferSize - Z.of_nat (next_rcv_valid_index_ t)) =
      Z.of_nat TCPBufferSize - Z.of_nat (next_rcv_valid_index_ t)) as Hu
      by (destruct Hwf' as (_ & _ & _ & ?); unfold u64; apply Z.mod_small; lia).
    simpl in En. rewrite Hu in En. fold (recv_call t) in En. rewrite Hc in En.
    rewrite En by lia. rewrite flush_calls_some by (by rewrite Hp). rewrite Hp, Hf, <- app_assoc.
    split; [done|]. split; [done|exact Hr].
Qed.

(** C31: bytes that come in are put behind those that were not consumed; then the
    callback runs once, with the kernel's time stamp of the message in nanoseconds
    (0 without one), and after it the pending bytes are handed on.  On a kernel
    that keeps to POSIX this never writes past the buffer. *)
Theorem tcp_receive_appends `{!RecvmsgLaw} cb s :
  wf (socket s) → Z.of_nat TCPBufferSize < 2 ^ 64 → 0 < ret (log s) (recv_call (socket s)) →
  ∃ t, wf t ∧ received t = received (socket s) ++ incoming s ∧
       pending t = pending (socket s) ∧
       sendAndRecv (Some cb) s =
         (cb (incoming_time s);; flush;; mret true)
           (mkSt t (log s ++ [recv_call (socket s)]) (S (clock_reads s)) (app s)).
Proof. intros Hwf Hsize Hc. exists (filled s). by apply recv_bytes. Qed.
End socket.

Section server.
Context `{TcpSocket.BufferSize, Kernel, Headers, Clock} {App : Type}.
Implicit Types (s : TcpServer.St App).
Import TcpServer TcpServerProps.

(** The descriptors of connections are never closed: [poll] deletes the sockets whose
    connection ended, as [server_poll_sound] says, but no [close] is among the calls
    it makes, and the destructor of the server closes the descriptor of the kqueue
    only. *)
Theorem server_leaks_descriptors fuel s s' :
  poll fuel s = Done (tt, s') →
  closings (log s') = closings (log s) ∧
  ∃ s'', destructor s' = Done (tt, s'') ∧
    closings (log s'') = closings (log s) ++
      (if decide (kqueue_fd_ (server s') = -1) then [] else [Close (kqueue_fd_ (server s'))]).
Proof.
  intros E. pose proof (closings_poll fuel s tt s' E) as Hk. simpl in Hk. split; [done|].
  unfold destructor. rewrite bind_get. case_decide as Hkq.
  - rewrite decide_False by done. eexists. split; [done|]. simpl. unfold closings in *.
    rewrite filter_app, Hk. done.
  - rewrite decide_True by tauto. exists s'. split; [done|]. by rewrite app_nil_r.
Qed.

(** C36: a socket whose connection ended is deleted, but its descriptor is neither closed
    nor taken off the kqueue.  A system that reports the end of a connection at every
    call while its descriptor is open reports it again, and unless a new socket has
    taken the place of the dead one, the next [poll] uses and deletes the dead one:
    undefined behaviour. *)
Theorem dead_socket_deleted_again fuel s s' e i :
  poll fuel s = Done (tt, s') → e ∈ poll_events s → closes e → udata e = Heap i →
  heap (server s') !! i = None →
  (closings (log s') = closings (log s) → e ∈ poll_events s') →
  poll fuel s' = UB DeadObject.
Proof.
  intros E He Hc Hu Hi Hlevel. apply (poll_dead _ _ e i); [|done..].
  by apply Hlevel, (closings_poll fuel s tt).
Qed.
End server.

(** ** A small system *)

Definition headers : Headers := {|
  AF_INET := 2; SOCK_STREAM := 1; SOCK_DGRAM := 2; IPPROTO_TCP := 6; IPPROTO_UDP := 17;
  AI_PASSIVE := 1; AI_NUMERICHOST := 4; AI_NUMERICSERV := 1024; INADDR_ANY := 0;
  O_NONBLOCK := 2048; TCP_NODELAY := 1; SOL_SOCKET := 1; SO_TIMESTAMP := 29; SO_REUSEADDR := 2;
  SCM_TIMESTAMP := 29; CMSG_LEN_timeval := 32;
  EVFILT_READ := -1; EVFILT_WRITE := -2; EV_ADD := 1; EV_ENABLE := 4; EV_ERROR := 16384;
  EV_EOF := 32768; htons z := z; htonl z := z |}.

Definition is_accept (c : Call) : bool := match c with Accept _ => true | _ => false end.
Definition accepts (l : list Call) : nat := length (List.filter is_accept l).

(** It accepts one connection, and has three bytes at descriptor 5 and none at 6. *)
Definition kernel (evs : list Kevent) : Kernel := {|
  ret l c := match c with
             | Accept _ => if decide (accepts l = 0%nat) then 9 else -1
             | Recvmsg fd len => if decide (fd = 5 ∧ 3 ≤ len) then 3 else -1
             | Kevent_poll _ _ => Z.of_nat (length evs)
             | _ => 0
             end;
  ifaddr_list _ := []; numeric_host _ _ := EmptyString; addrinfo_list _ := [];
  message _ _ := ([Byte.x61; Byte.x62; Byte.x63], mkCmsg 1 29 32 1 5);
  msg_name _ _ := None;
  event_list _ := evs; strerror _ := EmptyString; gai_strerror _ := EmptyString |}.

Definition eight : TcpSocket.BufferSize := 8%nat.
Definition ticking : Clock := {| system_clock_now n := Z.of_nat n; ns_per_tick := 1 |}.
#[local] Existing Instances headers eight ticking.

Definition quiet : Kernel := kernel [].
Definition socket_with (fd : Z) : TcpSocket.TCPSocket := TcpSocket.set_fd fd TcpSocket.ctor.
Definition socket_state (fd : Z) : TcpSocket.St unit := TcpSocket.mkSt (socket_with fd) [] 0 tt.

Lemma socket_with_wf fd : TcpSocket.wf (socket_with fd).
Proof. apply TcpSocket.ctor_wf_socket. Qed.

Lemma tcp_send_appends_witness :
  TcpSocket.wf (socket_with 6) ∧
  ∃ t, @TcpSocket.send unit [Byte.x61; Byte.x62] (socket_state 6) =
         Done (tt, TcpSocket.set_socket t (socket_state 6)) ∧
       TcpSocket.pending t = [Byte.x61; Byte.x62].
Proof.
  split; [apply socket_with_wf|].
  destruct (tcp_send_appends (socket_state 6) [Byte.x61; Byte.x62] (socket_with_wf 6))
    as (t & E & _ & Hp & _).
  exists t. split; [exact E|exact Hp].
Defined.

#[local] Existing Instance quiet.

Lemma quiet_law : @TcpSocket.RecvmsgLaw quiet.
Proof.
  intros l fd len Hlen. simpl. case_decide as Hd; [destruct Hd; simpl; lia|]. simpl. lia.
Qed.

Definition consume : NsTimestampT → M (TcpSocket.St unit) unit := λ _, mret tt.

(** Nothing comes in at descriptor 6; at descriptor 5 three bytes do, and the callback
    sends one more. *)
Definition echo_one : NsTimestampT → M (TcpSocket.St unit) unit := λ _, TcpSocket.send [Byte.x7a].

Lemma tcp_sends_in_order_witness :
  TcpSocket.wf (socket_with 6) ∧ TcpSocket.wf (socket_with 5) ∧
  (∃ t, (send_pieces [[Byte.x61]; [Byte.x62; Byte.x63]];;
         @TcpSocket.sendAndRecv eight quiet headers ticking unit (Some echo_one)) (socket_state 6) =
          Done (false, TcpSocket.mkSt t [Recvmsg 6 8; Send 6 [Byte.x61; Byte.x62; Byte.x63]] 0 tt) ∧
        TcpSocket.pending t = []) ∧
  ∃ t, (send_pieces [[Byte.x61]; [Byte.x62; Byte.x63]];;
        @TcpSocket.sendAndRecv eight quiet headers ticking unit (Some echo_one)) (socket_state 5) =
         Done (true, TcpSocket.mkSt t
           [Recvmsg 5 8; Send 5 [Byte.x61; Byte.x62; Byte.x63; Byte.x7a]] 1 tt) ∧
       TcpSocket.pending t = [].
Proof.
  split; [apply socket_with_wf|split; [apply socket_with_wf|split]].
  - pose proof (@tcp_sends_in_order eight quiet headers ticking unit quiet_law echo_one
      (socket_state 6) [[Byte.x61]; [Byte.x62; Byte.x63]] (socket_with_wf 6)
      ltac:(vm_compute; done) ltac:(vm_compute; lia) ltac:(done)) as Ht.
    rewrite decide_False in Ht by (vm_compute; done).
    destruct Ht as (t & E & Hp & _). exists t. split; [exact E|exact Hp].
  - pose proof (@tcp_sends_in_order eight quiet headers ticking unit quiet_law echo_one
      (socket_state 5) [[Byte.x61]; [Byte.x62; Byte.x63]] (socket_with_wf 5)
      ltac:(vm_compute; done) ltac:(vm_compute; lia) ltac:(done)) as Ht.
    rewrite decide_True in Ht by (vm_compute; done).
    destruct Ht as (t & Hwf & Hf & Hp & _ & Hrun).
    assert (TcpSocket.next_send_valid_index_ t = 3%nat) as Hi.
    { destruct Hwf as (Ho & _ & Hs & _). apply (f_equal length) in Hp.
      unfold TcpSocket.pending in Hp at 1. rewrite length_take, Ho in Hp.
      change (Nat.min (TcpSocket.next_send_valid_index_ t) 8 = 3%nat) in Hp. lia. }
    destruct (TcpSocket.send_room (TcpSocket.mkSt t [Recvmsg 5 8] 1 tt) [Byte.x7a] Hwf)
      as (t' & Es & _ & Hp' & _ & Hf').
    { simpl. rewrite Hi. vm_compute. lia. }
    destruct (Hrun _ [Byte.x7a] Es) as (t2 & E & Hp2 & _).
    { exact (eq_trans Hp' (f_equal (λ l, l ++ [Byte.x7a]) Hp)). }
    exists t2. split; [|exact Hp2]. simpl in E. rewrite Hf' in E. simpl in E. rewrite Hf in E. exact E.
Defined.

Lemma tcp_receive_appends_witness :
  TcpSocket.wf (socket_with 5) ∧
  ∃ t, TcpSocket.received t = [Byte.x61; Byte.x62; Byte.x63] ∧
    @TcpSocket.sendAndRecv eight quiet headers ticking unit (Some consume) (socket_state 5) =
      (consume 1000005000;; TcpSocket.flush;; mret true)
        (TcpSocket.mkSt t [Recvmsg 5 8] 1 tt).
Proof.
  split; [apply socket_with_wf|].
  destruct (@tcp_receive_appends eight quiet headers ticking unit quiet_law consume
    (socket_state 5) (socket_with_wf 5) ltac:(vm_compute; done) ltac:(vm_compute; done))
    as (t & _ & Hr & _ & E).
  exists t. split; [exact Hr|exact E].
Defined.

(** A server with the sockets 0 and 1; an event at the listener, one at socket 0, and
    socket 1 is closed. *)
Definition busy : Kernel :=
  kernel [mkKevent EVFILT_READ 0 Listener; mkKevent EVFILT_READ 0 (Heap 0);
          mkKevent EVFILT_READ EV_EOF (Heap 1)].
Definition server2 : TcpServer.TCPServer :=
  TcpServer.mkTCPServer 3 (socket_with 4) {[ 0%nat := socket_with 5; 1%nat := socket_with 6 ]}
    [Heap 0; Heap 1] [].
Definition server_state : TcpServer.St unit := TcpServer.mkSt server2 [] 0 tt.

Lemma live0 : TcpServerProps.live server2 (Heap 0).
Proof. exists 0%nat. split; [done|by eexists]. Qed.
Lemma live1 : TcpServerProps.live server2 (Heap 1).
Proof. exists 1%nat. split; [done|by eexists]. Qed.

Lemma server2_ok : TcpServerProps.server_ok server2.
Proof.
  split; [|constructor| |constructor].
  - constructor; [apply live0|constructor; [apply live1|constructor]].
  - apply (bool_decide_unpack _). by vm_compute.
Qed.

Definition one_client (l : list Call) : nat := 1 - accepts l.

Lemma one_client_law l fd l' :
  @ret busy l (Accept fd) ≠ -1 → (one_client (l ++ Accept fd :: l') < one_client l)%nat.
Proof.
  simpl. case_decide as Hd; [|done]. intros _. unfold one_client, accepts in *.
  rewrite List.filter_app, length_app. simpl. lia.
Qed.

Definition ended {A} (o : outcome A) : bool := match o with Done _ => true | _ => false end.


Definition polled : TcpServer.St unit :=
  match @TcpServer.poll eight busy headers unit 2 server_state with
  | Done (_, s) => s
  | _ => server_state
  end.

Lemma polled_step : @TcpServer.poll eight busy headers unit 2 server_state = Done (tt, polled).
Proof. by vm_compute. Qed.

(** One of two sockets is deleted and its descriptor stays open. *)
Lemma server_leaks_descriptors_witness :
  @TcpServer.poll eight busy headers unit 2 server_state = Done (tt, polled) ∧
  TcpServerProps.closings (TcpServer.log polled) =
    TcpServerProps.closings (TcpServer.log server_state).
Proof.
  split; [exact polled_step|].
  exact (proj1 (@server_leaks_descriptors eight busy headers unit 2 server_state polled polled_step)).
Defined.

(** The end of the connection of socket 1 is reported at every poll. *)
Definition ended_event : Kevent := mkKevent EVFILT_READ EV_EOF (Heap 1).
Definition ending : Kernel := kernel [ended_event].

Definition ended_once : TcpServer.St unit :=
  match @TcpServer.poll eight ending headers unit 2 server_state with
  | Done (_, s) => s
  | _ => server_state
  end.

Lemma ended_once_step : @TcpServer.poll eight ending headers unit 2 server_state = Done (tt, ended_once).
Proof. by vm_compute. Qed.

Lemma dead_socket_deleted_again_witness :
  @TcpServer.poll eight ending headers unit 2 server_state = Done (tt, ended_once) ∧
  @TcpServer.poll eight ending headers unit 2 ended_once = UB DeadObject.
Proof.
  split; [exact ended_once_step|].
  apply (@dead_socket_deleted_again eight ending headers unit 2 server_state ended_once ended_event 1
    ended_once_step).
  - vm_compute. by left.
  - by vm_compute.
  - done.
  - by vm_compute.
  - intros _. vm_compute. by left.
Defined.
End NetResults.
