(* ===== verification/SocketExample.v ===== *)
(** standalone/socket_example.cpp: a server and two clients in one program, which
    send five messages each and print what comes in.

    The state is the server, the vector of clients (null until [new]), the log of
    system calls and what was printed; a line of output is the format of a [printf]
    with its arguments.  The pauses between the rounds are left out: what happens
    meanwhile is up to the kernel, which is a parameter. *)

From S2P Require Import Prelude Types TimeUtils Kernel SocketUtils TcpSocket TcpServer.
Local Open Scope Z_scope.

Module SocketExample.
Import Kernel.

(** A [printf] of the program. *)
Inductive Line :=
| CreatingServer (iface : string) (port : Z)
| Connecting (i : nat) (ip iface : string) (port : Z)
| Sending (i : nat) (msg : string)
| ServerReceived (fd : Z) (len : nat) (rx : NsTimestampT)
| ServerFinished
| ClientReceived (fd : Z) (len : nat) (rx : NsTimestampT) (msg : list Byte.byte).

(** The conversion specifiers of the formats, and the types of the arguments. *)
Inductive Conv := C_s | C_zu | C_lld.
Inductive ArgType := T_char_ptr | T_size_t | T_int | T_long_long.

(** Whether [printf] of the C library takes an argument of this type for this
    specifier.  By the C standard it has to for the pairs of [printf_standard]; for
    others the call is undefined, and what it does is up to the ABI. *)
Class Printf := printf_takes : Conv → ArgType → bool.

Definition printf_standard (c : Conv) (t : ArgType) : bool :=
  match c, t with
  | C_s, T_char_ptr | C_zu, T_size_t | C_lld, T_long_long => true
  | _, _ => false
  end.

(** The specifiers of each line with the types of what is passed: ports and
    descriptors are of type [int]. *)
Definition formats (l : Line) : list (Conv * ArgType) :=
  match l with
  | CreatingServer _ _ => [(C_s, T_char_ptr); (C_zu, T_int)]
  | Connecting _ _ _ _ => [(C_zu, T_size_t); (C_s, T_char_ptr); (C_s, T_char_ptr); (C_zu, T_int)]
  | Sending _ _ => [(C_zu, T_size_t); (C_s, T_char_ptr)]
  | ServerReceived _ _ _ => [(C_zu, T_int); (C_zu, T_size_t); (C_lld, T_long_long)]
  | ServerFinished => []
  | ClientReceived _ _ _ _ =>
      [(C_zu, T_int); (C_zu, T_size_t); (C_zu, T_long_long); (C_s, T_char_ptr)]
  end.

Definition print `{Printf} (l : Line) : M (list Line) unit :=
  if forallb (λ ct, printf_takes ct.1 ct.2) (formats l)
  then mmodify (λ out, out ++ [l])
  else mub BadFormat.

Definition bytes (s : string) : list Byte.byte := String.list_byte_of_string s.

(** What [%s] prints of the text: the bytes before the first that is zero. *)
Fixpoint c_str (l : list Byte.byte) : list Byte.byte :=
  match l with
  | [] => []
  | Byte.x00 :: _ => []
  | b :: l => b :: c_str l
  end.

Definition reply_to (msg : list Byte.byte) : list Byte.byte :=
  bytes "TCPServer received msg:" ++ msg.
Definition client_msg (itr i : nat) : string :=
  "CLIENT-[" +:+ pretty i +:+ "] : Sending " +:+ pretty (itr * 100 + i)%nat.

Section program.
Context `{TcpSocket.BufferSize, Kernel, Headers, Clock, Printf}.

(** ** The callbacks *)

Definition printing (l : Line) : M (TcpSocket.St (list Line)) unit :=
  zoom TcpSocket.app (λ out s, TcpSocket.mkSt (TcpSocket.socket s) (TcpSocket.log s)
                                 (TcpSocket.clock_reads s) out) (print l).

Definition tcpServerRecvCallback (rx_time : NsTimestampT) : M (TcpSocket.St (list Line)) unit :=
  s ← mget;
  let t := TcpSocket.socket s in
  printing (ServerReceived (TcpSocket.socket_fd_ t) (TcpSocket.next_rcv_valid_index_ t) rx_time);;
  let reply := reply_to (TcpSocket.received t) in
  TcpSocket.on_socket (λ t, TcpSocket.set_in (TcpSocket.inbound_data_ t) 0 t);;
  TcpSocket.send reply.

Definition tcpServerRecvFinishedCallback : M (list Line) unit := print ServerFinished.

Definition tcpClientRecvCallback (rx_time : NsTimestampT) : M (TcpSocket.St (list Line)) unit :=
  s ← mget;
  let recv_msg := TcpSocket.received (TcpSocket.socket s) in
  TcpSocket.on_socket (λ t, TcpSocket.set_in (TcpSocket.inbound_data_ t) 0 t);;
  s ← mget;
  let t := TcpSocket.socket s in
  printing (ClientReceived (TcpSocket.socket_fd_ t) (TcpSocket.next_rcv_valid_index_ t) rx_time
              (c_str recv_msg)).

(** The sockets that [poll] makes get the callback of the server; the listener has none. *)
Definition server_callback (p : SocketPtr) :
    option (NsTimestampT → M (TcpSocket.St (list Line)) unit) :=
  match p with Listener => None | Heap _ => Some tcpServerRecvCallback end.

(** ** [main] *)

Record St := mkSt {
  server : TcpServer.TCPServer;
  clients : list (option TcpSocket.TCPSocket);
  log : list Call;
  clock_reads : nat;
  out : list Line;
}.

Definition set_out o s := mkSt (server s) (clients s) (log s) (clock_reads s) o.
Definition set_clients c s := mkSt (server s) c (log s) (clock_reads s) (out s).

Definition printf (l : Line) : M St unit := zoom out set_out (print l).

Definition on_server {A} (m : M (TcpServer.St (list Line)) A) : M St A :=
  zoom (λ s, TcpServer.mkSt (server s) (log s) (clock_reads s) (out s))
    (λ u s, mkSt (TcpServer.server u) (clients s) (TcpServer.log u) (TcpServer.clock_reads u)
              (TcpServer.app u)) m.

(** A method of [clients[i]]. *)
Definition on_client {A} (i : nat) (m : M (TcpSocket.St (list Line)) A) : M St A :=
  s ← mget;
  match clients s !! i with
  | None => mub IndexOutOfRange
  | Some None => mub NullDeref
  | Some (Some t) =>
      zoom (λ s, TcpSocket.mkSt t (log s) (clock_reads s) (out s))
        (λ u s, mkSt (server s) (<[i := Some (TcpSocket.socket u)]> (clients s)) (TcpSocket.log u)
                  (TcpSocket.clock_reads u) (TcpSocket.app u)) m
  end.

Definition iface : string := "lo".
Definition ip : string := "127.0.0.1".
Definition port : Z := 12345.

(** A loop over [0 .. n - 1]. *)
Fixpoint each {A} (l : list nat) (f : nat → M A unit) : M A unit :=
  match l with
  | [] => mret tt
  | i :: l => f i;; each l f
  end.

Context (fuel : nat).

Definition connect_client (i : nat) : M St unit :=
  mmodify (λ s, set_clients (<[i := Some TcpSocket.ctor]> (clients s)) s);;
  printf (Connecting i ip iface port);;
  on_client i (TcpSocket.connect (SocketUtils.mkSocketCfg ip iface port false false true));;
  on_server (TcpServer.poll fuel).

(** A round with one client. *)
Definition turn (itr i : nat) : M St unit :=
  printf (Sending i (client_msg itr i));;
  on_client i (TcpSocket.send (bytes (client_msg itr i)));;
  on_client i (TcpSocket.sendAndRecv (Some tcpClientRecvCallback));;
  on_server (TcpServer.poll fuel);;
  on_server (TcpServer.sendAndRecv server_callback (Some tcpServerRecvFinishedCallback)).

Definition start : St := mkSt TcpServer.ctor (replicate 2 None) [] 0 [].

Definition main : M St Z :=
  printf (CreatingServer iface port);;
  on_server (TcpServer.listen iface port);;
  each (seq 0 2) connect_client;;
  each (seq 0 5) (λ itr, each (seq 0 2) (turn itr));;
  on_server TcpServer.destructor;;
  mret 0.
End program.
End SocketExample.
