(* ===== verification/ExampleProps.v ===== *)
(** The invariant of socket_example.cpp: what the log of system calls says of the
    descriptors that are open, of the sockets registered with the kqueue and of the
    data sent, and that each part of the program keeps it. *)

From S2P Require Import Prelude Types TimeUtils Kernel SocketUtils TcpSocket TcpServer.
From S2P Require Import TcpServerProps SocketExample.
Local Open Scope Z_scope.

Module ExampleProps.
Import Kernel SocketExample.

(** ** The log *)

Definition makes_fd (c : Call) : bool :=
  match c with Socket _ | Accept _ => true | _ => false end.

(** The data sent on a descriptor. *)
Definition sends (fd : Z) (l : list Call) : list (list Byte.byte) :=
  omap (λ c, match c with
             | Send fd' d => if decide (fd' = fd) then Some d else None
             | _ => None
             end) l.

Section log.
Context `{Kernel}.
Implicit Types (l cs : list Call).

(** The descriptors that [cs] gave out, called after [l]. *)
Fixpoint opened_from l cs : list Z :=
  match cs with
  | [] => []
  | c :: cs => (if makes_fd c then [ret l c] else []) ++ opened_from (l ++ [c]) cs
  end.
Definition opened l : list Z := opened_from [] l.

Lemma opened_from_app l cs cs' :
  opened_from l (cs ++ cs') = opened_from l cs ++ opened_from (l ++ cs) cs'.
Proof.
  revert l. induction cs as [|c cs IH]; intros l; simpl; [by rewrite app_nil_r|].
  by rewrite IH, <- !app_assoc.
Qed.

Lemma opened_app l cs : opened (l ++ cs) = opened l ++ opened_from l cs.
Proof. apply opened_from_app. Qed.

Lemma opened_snoc l c : opened (l ++ [c]) = opened l ++ (if makes_fd c then [ret l c] else []).
Proof. rewrite opened_app. simpl. by rewrite app_nil_r. Qed.

Lemma sends_app fd l cs : sends fd (l ++ cs) = sends fd l ++ sends fd cs.
Proof. apply omap_app. Qed.

Lemma sends_none fd cs : (∀ d, Send fd d ∉ cs) → sends fd cs = [].
Proof.
  intros Hcs. induction cs as [|c cs IH]; [done|].
  assert (sends fd cs = []) as E by (apply IH; intros d ?; apply (Hcs d); by right).
  unfold sends in *. destruct c; simpl; rewrite ?E; try done. case_decide; [|done]. subst.
  destruct (Hcs data). by left.
Qed.

(** Calls that send nothing, register nothing and close nothing. *)
Definition harmless (c : Call) : bool :=
  match c with Send _ _ | Kevent_change _ _ _ _ _ | Close _ => false | _ => true end.

Definition ext l l' : Prop := ∃ cs, l' = l ++ cs ∧ Forall (λ c, harmless c = true) cs.

Lemma ext_refl l : ext l l.
Proof. exists []. by rewrite app_nil_r. Qed.

Lemma ext_snoc l l' c : ext l l' → harmless c = true → ext l (l' ++ [c]).
Proof.
  intros (cs & -> & Hcs) Hc. exists (cs ++ [c]). rewrite app_assoc. split; [done|].
  apply Forall_app. by repeat constructor.
Qed.

Lemma ext_trans l1 l2 l3 : ext l1 l2 → ext l2 l3 → ext l1 l3.
Proof.
  intros (cs & -> & Hcs) (cs' & -> & Hcs'). exists (cs ++ cs'). rewrite app_assoc.
  split; [done|]. by apply Forall_app.
Qed.

Lemma ext_in l l' c : ext l l' → harmless c = false → c ∈ l' → c ∈ l.
Proof.
  intros (cs & -> & Hcs) Hc [Hl|Hin]%elem_of_app; [done|].
  rewrite Forall_forall in Hcs. specialize (Hcs c Hin). simpl in Hcs. congruence.
Qed.

Lemma ext_sends fd l l' : ext l l' → sends fd l' = sends fd l.
Proof.
  intros (cs & -> & Hcs). rewrite sends_app, (sends_none fd cs); [by rewrite app_nil_r|].
  rewrite Forall_forall in Hcs. intros d Hd. by specialize (Hcs _ Hd).
Qed.

Lemma ext_opened fd l l' : ext l l' → fd ∈ opened l → fd ∈ opened l'.
Proof. intros (cs & -> & _) Hfd. rewrite opened_app. apply elem_of_app. by left. Qed.

(** Computations that make harmless calls only, and return a value in [V]. *)
Definition quiet {A} (V : A → Prop) (m : M (list Call) A) : Prop :=
  ∀ l, wp m (λ a l', V a ∧ ext l l') l.

Lemma quiet_ret {A} (V : A → Prop) (a : A) : V a → quiet V (mret a).
Proof. intros HV l. split; [done|apply ext_refl]. Qed.

Lemma quiet_get : quiet (λ _, True) mget.
Proof. intros l. split; [done|apply ext_refl]. Qed.

Lemma quiet_syscall c : harmless c = true → quiet (λ _, True) (syscall c).
Proof. intros Hc l. split; [done|]. apply ext_snoc; [apply ext_refl|done]. Qed.

Lemma quiet_bind {A B} (V : B → Prop) (m : M (list Call) A) (k : A → M (list Call) B) :
  quiet (λ _, True) m → (∀ a, quiet V (k a)) → quiet V (m ≫= k).
Proof.
  intros Hm Hk l. apply wp_bind. eapply wp_mono; [apply Hm|]. intros a l1 [_ H1].
  eapply wp_mono; [apply Hk|]. intros b l2 [Hb H2]. split; [done|]. exact (ext_trans _ _ _ H1 H2).
Qed.

Lemma quiet_assert b s : quiet (λ _, True) (SocketUtils.ASSERT_errno b s).
Proof. intros l. apply wp_get, wp_assert. intros _. split; [done|apply ext_refl]. Qed.
End log.

Create HintDb quiet.
#[export] Hint Resolve quiet_ret quiet_get quiet_assert : quiet.
#[export] Hint Extern 1 (quiet _ (syscall _)) => (apply quiet_syscall; reflexivity) : quiet.

(** Proves [quiet] along the structure of a computation. *)
Ltac solve_quiet :=
  repeat first
    [ solve [auto with quiet]
    | apply quiet_bind; [|intros ?]
    | case_decide
    | match goal with |- quiet _ (match ?x with _ => _ end) => destruct x end
    | match goal with |- quiet _ ((match ?x with _ => _ end) _) => destruct x end ].

Section quiet_sockets.
Context `{Kernel, Headers}.

Lemma quiet_nonblocking fd : quiet (λ _, True) (SocketUtils.setNonBlocking fd).
Proof. unfold SocketUtils.setNonBlocking. solve_quiet. Qed.

Lemma quiet_nagle fd : quiet (λ _, True) (SocketUtils.disableNagle fd).
Proof. unfold SocketUtils.disableNagle. solve_quiet. Qed.

Lemma quiet_timestamp fd : quiet (λ _, True) (SocketUtils.setSOTimestamp fd).
Proof. unfold SocketUtils.setSOTimestamp. solve_quiet. Qed.

Lemma quiet_iface i : quiet (λ _, True) (SocketUtils.getIfaceIP i).
Proof. unfold SocketUtils.getIfaceIP. solve_quiet. Qed.

#[local] Hint Resolve quiet_nonblocking quiet_nagle quiet_timestamp quiet_iface : quiet.

(** [getaddrinfo] finds an address when it returns 0. *)
Definition AddrLaw : Prop := ∀ l ip port h,
  ret l (Getaddrinfo ip port h) = 0 → addrinfo_list l ≠ [].

(** A new descriptor is not one that is open; the program closes none before its end. *)
Definition FdLaw : Prop := ∀ l c,
  makes_fd c = true → ret l c ≠ -1 → (∀ fd, Close fd ∉ l) → ret l c ∉ opened l.

(** A descriptor that was not open and is so now. *)
Definition new_fd l (fd : Z) l' : Prop := ext l l' ∧ fd ∈ opened l' ∧ fd ∉ opened l.

Lemma syscall_new c l :
  FdLaw → (∀ fd, Close fd ∉ l) → makes_fd c = true → harmless c = true → ret l c ≠ -1 →
  new_fd l (ret l c) (l ++ [c]).
Proof.
  intros Hfd Hcl Hc Hh Hne. split_and!.
  - apply ext_snoc; [apply ext_refl|done].
  - rewrite opened_snoc, Hc. apply elem_of_app. right. by left.
  - by apply Hfd.
Qed.

Lemma new_fd_ext l l1 fd l2 : new_fd l fd l1 → ext l1 l2 → new_fd l fd l2.
Proof.
  intros (He & Hin & Hnot) He2. split_and!; [by eapply ext_trans|by eapply ext_opened|done].
Qed.

Lemma ext_new_fd l l1 fd l2 : ext l l1 → new_fd l1 fd l2 → new_fd l fd l2.
Proof.
  intros He1 (He & Hin & Hnot). split_and!; [by eapply ext_trans|done|].
  intros Hl. by eapply Hnot, ext_opened.
Qed.

Lemma open_socket_new cfg rp l :
  FdLaw → (∀ fd, Close fd ∉ l) →
  wp (SocketUtils.open_socket cfg rp) (λ fd l', new_fd l fd l') l.
Proof.
  intros Hfd Hcl. unfold SocketUtils.open_socket. apply wp_bind.
  apply (wp_done _ _ _ _ _ (syscall_run _ _)). apply wp_bind, wp_get, wp_assert.
  intros Hne%bool_decide_eq_true. pose proof (syscall_new (Socket rp) l Hfd Hcl eq_refl eq_refl Hne) as Hnew.
  set (fd := ret l (Socket rp)) in *. set (l1 := l ++ [Socket rp]) in *.
  match goal with |- wp ?m _ _ => assert (quiet (λ r, r = fd) m) as Hq by solve_quiet end.
  eapply wp_mono; [apply Hq|]. intros fd' l' [-> He]. by eapply new_fd_ext.
Qed.

(** [createSocket] returns a new descriptor. *)
Lemma createSocket_new cfg l :
  AddrLaw → FdLaw → (∀ fd, Close fd ∉ l) →
  wp (SocketUtils.createSocket cfg) (λ fd l', new_fd l fd l') l.
Proof.
  intros Haddr Hfd Hcl. unfold SocketUtils.createSocket. apply wp_bind.
  match goal with |- wp ?m _ _ => assert (quiet (λ _, True) m) as Hq by solve_quiet end.
  eapply wp_mono; [apply Hq|]. intros host l1 [_ He1]. apply wp_get, wp_bind.
  apply (wp_done _ _ _ _ _ (syscall_run _ _)). apply wp_bind, wp_get, wp_assert.
  intros Hrc%bool_decide_eq_true. pose proof (Haddr _ _ _ _ Hrc) as Hne.
  destruct (addrinfo_list l1) as [|rp rps]; [done|].
  match goal with |- wp _ _ ?l2 => assert (ext l l2) as He2 by (by apply ext_snoc) end.
  eapply wp_mono; [apply open_socket_new; [done|]|].
  - intros fd Hin. by eapply Hcl, ext_in.
  - intros fd l3 Hn. by eapply ext_new_fd.
Qed.
End quiet_sockets.

(** ** The sockets of the program *)

Section sockets.
Context `{TcpSocket.BufferSize, Kernel, Headers, Clock, Printf}.
Import TcpSocket.
Implicit Types (t : TCPSocket) (s : TcpSocket.St (list Line)).

(** A socket between two rounds: nothing waits in its buffers. *)
Definition idle t : Prop :=
  wf t ∧ next_send_valid_index_ t = 0%nat ∧ next_rcv_valid_index_ t = 0%nat.

(** [printf] takes an [int] for [%zu] as well, and so on: undefined by the C standard,
    but what a machine does that passes both in a register. *)
Definition PrintfLaw : Prop := ∀ c (ty : ArgType), printf_takes c ty = true.

Lemma print_run ln out : PrintfLaw → print ln out = Done (tt, out ++ [ln]).
Proof.
  intros Hp. unfold print. replace (forallb _ (formats ln)) with true; [done|].
  symmetry. apply forallb_forall. intros [c ty] _. apply Hp.
Qed.

Lemma printing_bind {A} ln (k : unit → M (TcpSocket.St (list Line)) A) s :
  PrintfLaw → (printing ln ≫= k) s =
    k tt (mkSt (socket s) (log s) (clock_reads s) (app s ++ [ln])).
Proof.
  intros Hp. apply bind_done. unfold printing. by rewrite (zoom_done _ _ _ _ _ _ (print_run _ _ Hp)).
Qed.

(** What comes in at once leaves room for the reply. *)
Definition ShortLaw : Prop := ∀ l fd len,
  ret l (Recvmsg fd len) + 23 ≤ Z.of_nat TCPBufferSize.
Definition SizeLaw : Prop := Z.of_nat TCPBufferSize < 2 ^ 64.

Lemma ctor_idle fd a : idle (set_attrib a (set_fd fd TcpSocket.ctor)).
Proof. split; [|done]. exact ctor_wf_socket. Qed.

Lemma idle_pending t : idle t → pending t = [].
Proof. intros (_ & Hs & _). unfold pending. by rewrite Hs. Qed.

Lemma idle_received t : idle t → received t = [].
Proof. intros (_ & _ & Hr). unfold received. by rewrite Hr. Qed.

Lemma length_pending t : wf t → length (pending t) = next_send_valid_index_ t.
Proof. intros (Ho & _ & Hs & _). unfold pending. rewrite length_take. lia. Qed.

Lemma length_received t : wf t → length (received t) = next_rcv_valid_index_ t.
Proof. intros (_ & Hi & _ & Hr). unfold received. rewrite length_take. lia. Qed.

Lemma flush_pending s :
  wf (socket s) →
  flush s = Done (tt, set_socket (set_out (outbound_data_ (socket s)) 0 (socket s))
    (set_log (log s ++ (if decide (pending (socket s) = []) then []
                        else [Send (socket_fd_ (socket s)) (pending (socket s))])) s)).
Proof.
  intros Hwf. rewrite flush_run. unfold flush_calls. pose proof (length_pending _ Hwf) as Hl.
  destruct (pending (socket s)); simpl in Hl; rewrite <- Hl; repeat case_decide; (done || lia).
Qed.

Lemma incoming_length s :
  RecvmsgLaw → idle (socket s) → 0 < ret (log s) (recv_call (socket s)) →
  Z.of_nat (length (incoming s)) = ret (log s) (recv_call (socket s)).
Proof.
  intros Hl (_ & _ & Hr) Hpos. unfold incoming. rewrite length_take.
  destruct (Hl (log s) (socket_fd_ (socket s))
    (Z.of_nat TCPBufferSize - Z.of_nat (next_rcv_valid_index_ (socket s)))) as [_ Hm].
  - rewrite Hr. lia.
  - fold (recv_call (socket s)) in Hm. lia.
Qed.

Lemma length_reply m : length (reply_to m) = (23 + length m)%nat.
Proof. unfold reply_to. by rewrite length_app. Qed.

(** Once its bytes are handed on, a socket that consumed what came in is idle. *)
Lemma flushed_idle t :
  wf t → next_rcv_valid_index_ t = 0%nat → idle (set_out (outbound_data_ t) 0 t).
Proof. intros (? & ? & ? & ?) Hr. unfold idle, wf. simpl. split_and!; (done || lia). Qed.

(** A round of a socket whose buffers are empty but for bytes to be sent, with a
    callback that consumes what came in and leaves [d] to be sent. *)
Lemma socket_round (cb : NsTimestampT → M (TcpSocket.St (list Line)) unit) s d line :
  RecvmsgLaw → SizeLaw → wf (socket s) → next_rcv_valid_index_ (socket s) = 0%nat →
  0 < ret (log s) (recv_call (socket s)) →
  (∃ t, cb (incoming_time s)
      (mkSt (filled s) (log s ++ [recv_call (socket s)]) (S (clock_reads s)) (app s)) =
    Done (tt, mkSt t (log s ++ [recv_call (socket s)]) (S (clock_reads s)) (app s ++ [line])) ∧
    wf t ∧ next_rcv_valid_index_ t = 0%nat ∧ pending t = d ∧ socket_fd_ t = socket_fd_ (socket s)) →
  d ≠ [] →
  ∃ s', sendAndRecv (Some cb) s = Done (true, s') ∧ idle (socket s') ∧
    socket_fd_ (socket s') = socket_fd_ (socket s) ∧
    log s' = log s ++ [recv_call (socket s); Send (socket_fd_ (socket s)) d] ∧
    app s' = app s ++ [line].
Proof.
  intros Hlaw Hsize Hwf Hr Hret (t & Ecb & Hwft & Hrt & Hd & Hfd) Hne.
  destruct (recv_bytes cb s Hwf Hsize Hret) as (_ & _ & _ & E). rewrite E.
  rewrite (bind_done _ _ _ _ _ Ecb). match goal with |- context [(flush ≫= _) ?s1] =>
    rewrite (bind_done _ _ _ _ _ (flush_pending s1 Hwft)) end.
  eexists. split; [reflexivity|]. cbn [socket log app set_socket set_log].
  rewrite Hd, decide_False, Hfd, <- app_assoc by done. split_and!; [|done..].
  by apply flushed_idle.
Qed.

(** A round of a server's socket when nothing comes in. *)
Lemma socket_silent cb s :
  wf (socket s) → next_rcv_valid_index_ (socket s) = 0%nat → SizeLaw →
  ret (log s) (recv_call (socket s)) ≤ 0 →
  ∃ s', sendAndRecv cb s = Done (false, s') ∧ idle (socket s') ∧
    socket_fd_ (socket s') = socket_fd_ (socket s) ∧
    log s' = log s ++ recv_call (socket s) ::
      (if decide (pending (socket s) = []) then [] else [Send (socket_fd_ (socket s)) (pending (socket s))]) ∧
    app s' = app s.
Proof.
  intros Hwf Hr Hsize Hret. pose proof (recv_nothing cb s) as E. cbv zeta in E.
  assert (u64 (Z.of_nat TCPBufferSize - Z.of_nat (next_rcv_valid_index_ (socket s))) =
    Z.of_nat TCPBufferSize - Z.of_nat (next_rcv_valid_index_ (socket s))) as Hlen
    by (unfold u64, SizeLaw in *; rewrite Hr; apply Z.mod_small; lia).
  rewrite Hlen in E. fold (recv_call (socket s)) in E. rewrite (E Hret).
  eexists. split; [reflexivity|]. cbn [socket log app set_socket set_log].
  pose proof (flush_pending s Hwf) as Ef. rewrite flush_run in Ef. injection Ef as Ef.
  apply app_inv_head in Ef. rewrite Ef, <- app_assoc.
  split_and!; [|done..]. by apply (flushed_idle (named (log s) (socket s))).
Qed.

(** The server answers each message with what it received. *)
Lemma server_round s :
  PrintfLaw → RecvmsgLaw → SizeLaw → ShortLaw → idle (socket s) → 0 < ret (log s) (recv_call (socket s)) →
  let fd := socket_fd_ (socket s) in
  ∃ s', sendAndRecv (Some tcpServerRecvCallback) s = Done (true, s') ∧ idle (socket s') ∧
    socket_fd_ (socket s') = fd ∧
    log s' = log s ++ [recv_call (socket s); Send fd (reply_to (incoming s))] ∧
    app s' = app s ++ [ServerReceived fd (length (incoming s)) (incoming_time s)].
Proof.
  intros Hprintf Hlaw Hsize Hshort Hidle Hret fd. pose proof (incoming_length s Hlaw Hidle Hret) as Hin.
  pose proof Hidle as (Hwf & Hs & Hr).
  destruct (recv_bytes tcpServerRecvCallback s Hwf Hsize Hret) as (Hwff & Hrec & Hpend & _).
  rewrite (idle_received _ Hidle) in Hrec. rewrite (idle_pending _ Hidle) in Hpend. simpl in Hrec.
  pose proof (length_received _ Hwff) as Hlr. rewrite Hrec in Hlr.
  pose proof (length_pending _ Hwff) as Hlp. rewrite Hpend in Hlp. simpl in Hlp.
  assert (socket_fd_ (filled s) = fd) as Hfd by (unfold filled; by destruct (write_at _ _ _)).
  apply socket_round; try done. set (s1 := mkSt _ _ _ _).
  set (s2 := mkSt (set_in (inbound_data_ (filled s)) 0 (filled s)) (log s1) (clock_reads s1)
    (app s ++ [ServerReceived fd (length (incoming s)) (incoming_time s)])).
  destruct (send_room s2 (reply_to (incoming s))) as (t & E & Hwft & Hpt & Hrt & Hft).
  { destruct Hwff as (? & ? & ? & ?). unfold wf. simpl. split_and!; (done || lia). }
  { rewrite length_reply. simpl. rewrite <- Hlp. specialize (Hshort (log s) fd). unfold recv_call in *.
    specialize (Hshort (Z.of_nat TCPBufferSize - Z.of_nat (next_rcv_valid_index_ (socket s)))).
    fold fd in Hin. lia. }
  exists t. split_and!.
  - unfold tcpServerRecvCallback. rewrite bind_get. cbv zeta.
    rewrite printing_bind by done. unfold on_socket. rewrite bind_modify. simpl. rewrite Hrec, Hfd, <- Hlr. exact E.
  - done.
  - unfold received in Hrt. simpl in Hrt. pose proof (length_received t Hwft) as Hl.
    unfold received in Hl. rewrite Hrt in Hl. by simpl in Hl.
  - rewrite Hpt. unfold pending. simpl. by rewrite <- Hlp.
  - by rewrite Hft.
Qed.

(** A client hands its message on, and prints what it received, always with the length 0. *)
Lemma client_round s d :
  PrintfLaw → RecvmsgLaw → SizeLaw → wf (socket s) → next_rcv_valid_index_ (socket s) = 0%nat →
  pending (socket s) = d → d ≠ [] →
  let fd := socket_fd_ (socket s) in
  let came := bool_decide (0 < ret (log s) (recv_call (socket s))) in
  ∃ s', sendAndRecv (Some tcpClientRecvCallback) s = Done (came, s') ∧ idle (socket s') ∧
    socket_fd_ (socket s') = fd ∧
    log s' = log s ++ [recv_call (socket s); Send fd d] ∧
    app s' = app s ++ (if came then [ClientReceived fd 0 (incoming_time s) (c_str (incoming s))] else []).
Proof.
  intros Hprintf Hlaw Hsize Hwf Hr Hd Hne fd came. unfold came. case_bool_decide as Hret.
  - destruct (recv_bytes tcpClientRecvCallback s Hwf Hsize Hret) as (Hwff & Hrec & Hpend & _).
    assert (received (socket s) = []) as Hrs by (unfold received; by rewrite Hr).
    rewrite Hrs in Hrec. simpl in Hrec.
    assert (socket_fd_ (filled s) = fd) as Hfd by (unfold filled; by destruct (write_at _ _ _)).
    apply socket_round; try done. exists (set_in (inbound_data_ (filled s)) 0 (filled s)).
    split_and!; [| |done|by rewrite <- Hd, <- Hpend|done].
    + unfold tcpClientRecvCallback. rewrite bind_get. cbv zeta. unfold on_socket.
      rewrite bind_modify, bind_get. simpl. unfold printing.
      rewrite (zoom_done _ _ _ _ _ _ (print_run _ _ Hprintf)). simpl. by rewrite Hrec, Hfd.
    + destruct Hwff as (? & ? & ? & ?). unfold wf. simpl. split_and!; (done || lia).
  - destruct (socket_silent (Some tcpClientRecvCallback) s Hwf Hr Hsize ltac:(lia))
      as (s' & E & Hi & Hf & Hl & Ha).
    rewrite Hd, decide_False in Hl by done. exists s'. by rewrite app_nil_r.
Qed.
End sockets.
End ExampleProps.
