(* ===== verification/ExampleRuns.v ===== *)
(** What the server and the clients of socket_example.cpp do with their sockets, and
    that the whole program keeps the invariant [net_ok]: the sockets of the server
    are idle between two rounds, their descriptors are not those of the clients, and
    the clients have sent what they were told to. *)

From S2P Require Import Prelude Types TimeUtils Kernel SocketUtils TcpSocket TcpServer.
From S2P Require Import TcpServerProps SocketExample ExampleProps.
Local Open Scope Z_scope.

Module ExampleRuns.
Import Kernel SocketExample ExampleProps TcpServer TcpServerProps.

Section runs.
Context `{TcpSocket.BufferSize, Kernel, Headers, Clock, Printf}.
Implicit Types (x : TCPServer) (l : list Call) (F : list (Z * list (list Byte.byte))).

(** [F]: the descriptors of the clients and what each has sent. *)
Record net_ok F x l : Prop := {
  no_heap : ∀ i t, heap x !! i = Some t →
    idle t ∧ TcpSocket.socket_fd_ t ∈ opened l ∧ TcpSocket.socket_fd_ t ∉ F.*1;
  no_send : send_sockets_ x = [];
  no_recv : Forall (live x) (receive_sockets_ x);
  no_watch : ∀ kq fd f fl p, Kevent_change kq fd f fl p ∈ l →
    f = EVFILT_READ ∧ (p = Listener ∨ live x p);
  no_close : ∀ fd, Close fd ∉ l;
  no_sent : ∀ fd d, Send fd d ∈ l → fd ∈ opened l;
  no_clients : ∀ fd ds, (fd, ds) ∈ F → fd ∈ opened l ∧ sends fd l = ds;
}.

(** ** What the kernel reports *)

Definition reported l (e : Kevent) : Prop :=
  ∃ kq n, e ∈ take (Z.to_nat (ret l (Kevent_poll kq n))) (event_list l).

(** Events come from the registrations. *)
Definition EventLaw : Prop := ∀ l e, reported l e →
  ∃ kq fd fl, Kevent_change kq fd (filter_ e) fl (udata e) ∈ l.

(** No connection ends while the program runs: not a law of the system but a
    condition on the run. *)
Definition OpenLaw : Prop := ∀ l e, reported l e → ¬ closes e.

(** There are finitely many connections, fewer than [fuel]. *)
Definition BacklogLaw (backlog : list Call → nat) (fuel : nat) : Prop :=
  (∀ l fd l', ret l (Accept fd) ≠ -1 → (backlog (l ++ Accept fd :: l') < backlog l)%nat) ∧
  ∀ l, (backlog l < fuel)%nat.

Context (Hrecv : TcpSocket.RecvmsgLaw) (Hsize : SizeLaw) (Hshort : ShortLaw) (Hfd : FdLaw)
  (Haddr : AddrLaw) (Hevents : EventLaw) (Hopen : OpenLaw) (Hprintf : PrintfLaw)
  (Hfilters : EVFILT_READ ≠ EVFILT_WRITE).

(** ** Steps of the log *)

(** A call that leaves the invariant alone. *)
Definition allowed F x l (c : Call) : Prop :=
  match c with
  | Close _ => False
  | Send fd _ => (fd ∉ F.*1) ∧ fd ∈ opened l
  | Kevent_change _ _ f _ p => f = EVFILT_READ ∧ (p = Listener ∨ live x p)
  | _ => True
  end.

Lemma net_ok_app F x l cs : net_ok F x l → Forall (allowed F x l) cs → net_ok F x (l ++ cs).
Proof.
  intros [Hh Hs Hr Hw Hc Hse Hcl] Hall. rewrite Forall_forall in Hall. split; try done.
  - intros i t Hi. destruct (Hh i t Hi) as (? & Hin & ?). split_and!; [done| |done].
    rewrite opened_app. apply elem_of_app. by left.
  - intros kq fd f fl p [Hin|Hin]%elem_of_app; [by eapply Hw|by apply (Hall _ Hin)].
  - intros fd [Hin|Hin]%elem_of_app; [by eapply Hc|by apply (Hall _ Hin)].
  - intros fd d [Hin|Hin]%elem_of_app; rewrite opened_app; apply elem_of_app; left;
      [by eapply Hse|by apply (Hall _ Hin)].
  - intros fd ds HF. destruct (Hcl fd ds HF) as [Ho Hsend]. split.
    + rewrite opened_app. apply elem_of_app. by left.
    + rewrite sends_app, Hsend, (sends_none fd cs); [by rewrite app_nil_r|].
      intros d Hd. by apply (proj1 (Hall _ Hd)), (list_elem_of_fmap_2 fst _ _ HF).
Qed.

Lemma net_ok_ext F x l l' : net_ok F x l → ext l l' → net_ok F x l'.
Proof.
  intros Hok (cs & -> & Hcs). apply net_ok_app; [done|]. eapply Forall_impl; [exact Hcs|].
  by intros [].
Qed.

Lemma wp_sys {App A} (m : M (list Call) A) Q (s : TcpServer.St App) :
  wp m (λ a l, Q a (set_log l s)) (log s) → wp (sys m) Q s.
Proof. apply wp_zoom. Qed.

(** Harmless calls of the server. *)
Lemma wp_quiet {App A} F (m : M (list Call) A) Q (s : TcpServer.St App) :
  quiet (λ _, True) m → net_ok F (server s) (log s) →
  (∀ a l, ext (log s) l → net_ok F (server s) l → Q a (set_log l s)) → wp (sys m) Q s.
Proof.
  intros Hm Hok HQ. apply wp_sys. eapply wp_mono; [apply Hm|]. intros a l [_ He].
  apply HQ; [done|]. by eapply net_ok_ext.
Qed.

Lemma wp_assert_errno {App} b msg Q (s : TcpServer.St App) :
  (b = true → Q tt s) → wp (ASSERT_errno b msg) Q s.
Proof. intros HQ. apply wp_sys, wp_get, wp_assert. intros Hb. specialize (HQ Hb). by destruct s. Qed.

(** ** Polling *)

Implicit Types (s : TcpServer.St (list Line)).

#[local] Abbreviation ok F s := (net_ok F (server s) (log s)).

Lemma live_fresh_insert x t p : live x p → live (set_heap (<[fresh_socket x := t]> (heap x)) x) p.
Proof.
  intros (i & -> & Hi). exists i. split; [done|]. simpl.
  destruct (decide (fresh_socket x = i)) as [->|]; [by rewrite lookup_insert_eq|].
  by rewrite lookup_insert_ne.
Qed.

(** A new socket of the server, on a descriptor that no client has. *)
Lemma net_ok_new F x l fd :
  net_ok F x l → fd ∈ opened l → fd ∉ F.*1 →
  net_ok F (set_heap (<[fresh_socket x := TcpSocket.set_fd fd TcpSocket.ctor]> (heap x)) x) l.
Proof.
  intros [Hh Hs Hr Hw Hc Hse Hcl] Ho HF. split; simpl; try done.
  - intros i t [[<- <-]|[_ Hi]]%lookup_insert_Some; [|by eapply Hh].
    split_and!; [|done..]. split; [exact TcpSocket.ctor_wf_socket|done].
  - eapply Forall_impl; [exact Hr|]. intros p. apply live_fresh_insert.
  - intros kq fd' f fl p Hin. destruct (Hw kq fd' f fl p Hin) as [? [?|?]]; split; try done; [by left|right].
    by apply live_fresh_insert.
Qed.

Lemma net_ok_receive F x l p :
  net_ok F x l → live x p → net_ok F (set_receive (receive_sockets_ x ++ [p]) x) l.
Proof. intros [] Hp. split; simpl; try done. apply Forall_app. by repeat constructor. Qed.

(** Clients have descriptors that were given out. *)
Lemma new_not_client F x l l' fd : net_ok F x l → new_fd l fd l' → fd ∉ F.*1.
Proof.
  intros Hok (_ & _ & Hnew) ([fd' ds] & -> & HF)%list_elem_of_fmap_1.
  by destruct (no_clients _ _ _ Hok fd' ds HF).
Qed.

Lemma accept_ok F s :
  ok F s →
  wp (accept_step tt) (λ r s', ok F s' ∧
    (r = inl tt → ret (log s) (accept_call s) ≠ -1 ∧
       ∃ l, log s' = log s ++ accept_call s :: l)) s.
Proof using Hfd.
  intros Hok. unfold accept_step. apply wp_get. fold (accept_call s). apply wp_bind.
  apply wp_sys, (wp_done _ _ _ _ _ (syscall_run _ _)).
  assert (ok F (set_log (log s ++ [accept_call s]) s)) as Hok1.
  { apply net_ok_app; [done|]. by constructor. }
  case_decide as E; [by split|].
  pose proof (syscall_new (accept_call s) (log s) Hfd (no_close _ _ _ Hok) eq_refl eq_refl E) as Hnew.
  set (fd := ret (log s) (accept_call s)) in *.
  pose proof (new_not_client _ _ _ _ _ Hok Hnew) as HnF. destruct Hnew as (_ & Hin & _).
  apply wp_bind, (wp_quiet F); [apply quiet_nonblocking|done|]. intros nb l1 He1 Hok2. simpl in He1.
  apply wp_bind. destruct nb; [|by apply wp_ret, wp_bind, wp_assert].
  apply (wp_quiet F); [apply quiet_nagle|done|]. intros ok l2 He2 Hok3. simpl in He2.
  apply wp_bind, wp_assert. intros _. cbv zeta. fold (fresh_socket (server s)).
  pose proof (ext_trans _ _ _ He1 He2) as He3. apply wp_bind, wp_modify.
  set (x1 := set_heap _ _).
  assert (net_ok F x1 l2) as Hok4.
  { apply net_ok_new; [done| |done]. by eapply ext_opened. }
  assert (live x1 (Heap (fresh_socket (server s)))) as Hlive.
  { exists (fresh_socket (server s)). split; [done|]. simpl. by rewrite lookup_insert_eq. }
  apply wp_bind. unfold addToKqueueList. apply wp_get. simpl. rewrite lookup_insert_eq.
  apply wp_bind, wp_sys, (wp_done _ _ _ _ _ (syscall_run _ _)), wp_ret, wp_bind, wp_assert_errno.
  intros _. apply wp_bind, wp_modify, wp_ret. simpl. split.
  - apply (net_ok_receive F x1); [|done]. apply net_ok_app; [done|]. constructor; [|done]. simpl. auto.
  - intros _. split; [done|]. destruct He3 as (cs & -> & _). rewrite <- !app_assoc. by eexists.
Qed.

(** An event that registrations of the program give. *)
Definition reading x (e : Kevent) : Prop :=
  filter_ e = EVFILT_READ ∧ (udata e = Listener ∨ live x (udata e)) ∧ ¬ closes e.

Lemma on_event_ok F b e s :
  ok F s → reading (server s) e →
  wp (on_event b e) (λ _ s', ok F s' ∧ heap (server s') = heap (server s) ∧ log s' = log s) s.
Proof using Hfilters.
  intros Hok (Hf & Hu & Hc). unfold on_event. destruct Hu as [Hu|Hu].
  { rewrite decide_True by done. by apply wp_ret. }
  rewrite decide_False by (intros [_ Hl]; destruct Hu as (i & Hi & _); congruence).
  rewrite (decide_True (P := filter_ e = EVFILT_READ)) by done.
  rewrite (decide_False (P := filter_ e = EVFILT_WRITE)) by congruence.
  rewrite (decide_False (P := Z.land _ _ ≠ 0)) by done.
  apply wp_bind, wp_modify, wp_bind, wp_ret, wp_bind, wp_ret, wp_ret.
  split_and!; [|done..]. simpl. unfold push_new. case_decide.
  - destruct Hok. by split.
  - by apply net_ok_receive.
Qed.

Lemma on_events_ok F b es s :
  ok F s → Forall (reading (server s)) es → wp (on_events b es) (λ _ s', ok F s' ∧ log s' = log s) s.
Proof using Hfilters.
  revert b s. induction es as [|e es IH]; intros b s Hok Hes; [by apply wp_ret|].
  apply Forall_cons in Hes as [He Hes]. simpl. apply wp_bind.
  eapply wp_mono; [by apply (on_event_ok F)|]. intros b' s' (Hok' & Hh & Hl).
  eapply wp_mono; [apply IH; [done|]|intros ? s2 [? E]; split; [done|by rewrite E]].
  eapply Forall_impl; [exact Hes|]. intros e' (Hf & Hu & Hc). split_and!; [done| |done].
  unfold live. by rewrite Hh.
Qed.

(** [poll] keeps the invariant, and ends. *)
Lemma poll_ok F backlog fuel s :
  BacklogLaw backlog fuel → ok F s → wp (poll fuel) (λ _ s', ok F s') s.
Proof using Hfd Hevents Hfilters Hopen.
  intros [Hb Hfuel] Hok. unfold poll. apply wp_get. cbv zeta. fold (poll_call s). apply wp_bind.
  apply wp_sys, (wp_done _ _ _ _ _ (syscall_run _ _)), wp_bind. fold (poll_events s).
  eapply wp_mono; [apply (on_events_ok F)|].
  - apply net_ok_app; [done|]. by constructor.
  - apply Forall_forall. intros e He. assert (reported (log s) e) as Hrep by (by eexists _, _).
    pose proof (Hopen _ _ Hrep) as Hc. destruct (Hevents _ _ Hrep) as (kq & fd & fl & Hin).
    destruct (no_watch _ _ _ Hok _ _ _ _ _ Hin) as [Hf Hu]. by split.
  - intros b s1 [Hok1 _]. destruct b; [|by apply wp_ret].
    apply (wp_iterate fuel accept_step tt (λ _ s, ok F s) (λ s, backlog (log s))); [|done|apply Hfuel].
    intros [] s2 Hok2. eapply wp_mono; [by apply (accept_ok F)|]. intros [[]|[]] s3 [Hok3 Hl]; [|done].
    split; [done|]. destruct (Hl eq_refl) as (Hne & l & ->). by apply Hb.
Qed.

(** ** Serving the sockets *)

Lemma net_ok_socket F x l i t fd :
  net_ok F x l → heap x !! i = Some t → idle fd → TcpSocket.socket_fd_ fd = TcpSocket.socket_fd_ t →
  net_ok F (set_heap (<[i := fd]> (heap x)) x) l.
Proof.
  intros [Hh Hs Hr Hw Hc Hse Hcl] Hi Hidle Hfd'.
  assert (∀ p, live x p → live (set_heap (<[i := fd]> (heap x)) x) p) as Hl.
  { intros p (j & -> & Hj). exists j. split; [done|]. simpl.
    destruct (decide (i = j)) as [->|]; [by rewrite lookup_insert_eq|by rewrite lookup_insert_ne]. }
  split; simpl; try done.
  - intros j t' [[<- <-]|[_ Hj]]%lookup_insert_Some; [|by eapply Hh].
    rewrite Hfd'. destruct (Hh i t Hi) as (_ & ? & ?). by split_and!.
  - by eapply Forall_impl.
  - intros kq fd' f fl p Hin. destruct (Hw kq fd' f fl p Hin) as [? [?|?]]; split; auto.
Qed.

Lemma serve_ok F p s :
  ok F s → live (server s) p →
  wp (on_socket p (TcpSocket.sendAndRecv (server_callback p)))
    (λ _ s', ok F s' ∧ receive_sockets_ (server s') = receive_sockets_ (server s) ∧
             (∀ q, live (server s) q → live (server s') q)) s.
Proof using Hrecv Hsize Hshort Hprintf.
  intros Hok (i & -> & [t Hi]). destruct (no_heap _ _ _ Hok i t Hi) as (Hidle & Ho & HF).
  unfold on_socket. apply wp_get. simpl. rewrite Hi. apply wp_zoom.
  set (s0 := TcpSocket.mkSt t (log s) (clock_reads s) (app s)).
  assert (∃ b u, TcpSocket.sendAndRecv (Some tcpServerRecvCallback) s0 = Done (b, u) ∧
    idle (TcpSocket.socket u) ∧ TcpSocket.socket_fd_ (TcpSocket.socket u) = TcpSocket.socket_fd_ t ∧
    ∃ cs, TcpSocket.log u = log s ++ cs ∧ Forall (allowed F (server s) (log s)) cs) as
    (b & u & E & Hidle' & Hfd' & cs & Hl & Hcs).
  { destruct (decide (0 < ret (log s) (TcpSocket.recv_call t))) as [Hret|Hret].
    - destruct (server_round s0 Hprintf Hrecv Hsize Hshort Hidle Hret) as (u & E & ? & ? & ? & _).
      eexists true, u. split_and!; [done..|]. eexists. split; [done|]. repeat constructor; done.
    - destruct (socket_silent (Some tcpServerRecvCallback) s0 (proj1 Hidle) (proj2 (proj2 Hidle))
        Hsize) as (u & E & ? & ? & Hl & _); [simpl; lia|].
      exists false, u. split_and!; [done..|]. eexists. split; [done|].
      simpl. rewrite (idle_pending _ Hidle), decide_True by done. by repeat constructor. }
  apply (wp_done _ _ _ _ _ E). simpl. rewrite Hl. split_and!; [|done|].
  - eapply net_ok_socket; [by apply net_ok_app|done..].
  - intros q (j & -> & Hj). exists j. split; [done|]. simpl.
    destruct (decide (i = j)) as [->|]; [by rewrite lookup_insert_eq|by rewrite lookup_insert_ne].
Qed.

Lemma receive_all_ok F b ps s :
  ok F s → Forall (live (server s)) ps →
  wp (receive_all server_callback b ps) (λ _ s', ok F s') s.
Proof using Hrecv Hsize Hshort Hprintf.
  revert b s. induction ps as [|p ps IH]; intros b s Hok Hps; [by apply wp_ret|].
  apply Forall_cons in Hps as [Hp Hps]. simpl. apply wp_bind.
  eapply wp_mono; [by apply (serve_ok F)|]. intros r s' (Hok' & _ & Hl).
  apply IH; [done|]. by eapply Forall_impl.
Qed.

(** The server reads and answers, and sends nothing on the descriptors of clients. *)
Lemma server_round_ok F s :
  ok F s →
  wp (sendAndRecv server_callback (Some tcpServerRecvFinishedCallback)) (λ _ s', ok F s') s.
Proof using Hrecv Hsize Hshort Hprintf.
  intros Hok. unfold sendAndRecv. apply wp_get, wp_bind.
  eapply wp_mono; [apply (receive_all_ok F); [done|apply Hok]|]. intros b s1 Hok1. apply wp_bind.
  assert (∀ s2, ok F s2 → wp (s ← mget; send_all server_callback (send_sockets_ (server s)))
    (λ _ s', ok F s') s2) as Hrest.
  { intros s2 Hok2. apply wp_get. rewrite (no_send _ _ _ Hok2). by apply wp_ret. }
  destruct b; [|by apply Hrest]. apply wp_zoom, (wp_done _ _ _ _ _ (print_run _ _ Hprintf)). by apply Hrest.
Qed.

(** ** The program *)

#[local] Abbreviation SE := SocketExample.St.
Implicit Types (p : SE).

Lemma wp_server {A} (m : M (TcpServer.St (list Line)) A) Q p :
  wp m (λ a u, Q a (SocketExample.mkSt (server u) (clients p) (log u) (clock_reads u) (app u)))
    (mkSt (SocketExample.server p) (SocketExample.log p) (SocketExample.clock_reads p) (out p)) →
  wp (SocketExample.on_server m) Q p.
Proof. intros Hm. by apply wp_zoom. Qed.

Lemma wp_client {A} i t (m : M (TcpSocket.St (list Line)) A) Q p :
  clients p !! i = Some (Some t) →
  wp m (λ a u, Q a (SocketExample.mkSt (SocketExample.server p)
         (<[i := Some (TcpSocket.socket u)]> (clients p)) (TcpSocket.log u)
         (TcpSocket.clock_reads u) (TcpSocket.app u)))
    (TcpSocket.mkSt t (SocketExample.log p) (SocketExample.clock_reads p) (out p)) →
  wp (on_client i m) Q p.
Proof. intros Hi Hm. unfold on_client. apply wp_get. rewrite Hi. by apply wp_zoom. Qed.

(** The clients that are connected, with what they sent. *)
Record program_ok F p : Prop := {
  po_net : net_ok F (SocketExample.server p) (SocketExample.log p);
  po_two : length (clients p) = 2%nat;
  po_fds : NoDup F.*1;
  po_clients : ∀ i f, F !! i = Some f →
    ∃ t, clients p !! i = Some (Some t) ∧ idle t ∧ TcpSocket.socket_fd_ t = f.1;
}.

Lemma program_server {A} F (m : M (TcpServer.St (list Line)) A) p :
  (∀ s, ok F s → wp m (λ _ s', ok F s') s) → program_ok F p →
  wp (SocketExample.on_server m) (λ _ p', program_ok F p') p.
Proof.
  intros Hm [Hn Ht Hnd Hc]. apply wp_server. eapply wp_mono; [by apply Hm|].
  intros a s Hok. by split.
Qed.

Lemma program_printf F ln p : program_ok F p → wp (printf ln) (λ _ p', program_ok F p') p.
Proof using Hprintf. intros []. apply wp_zoom, (wp_done _ _ _ _ _ (print_run _ _ Hprintf)). by split. Qed.

Lemma listen_ok F ifc prt s : ok F s → wp (listen ifc prt) (λ _ s', ok F s') s.
Proof using Hfd Haddr.
  intros Hok. unfold listen. apply wp_bind, (wp_quiet F); [solve_quiet|done|].
  intros kq l1 He1 Hok1. apply wp_bind, wp_modify, wp_bind, wp_assert_errno. intros _.
  assert (net_ok F (set_kqueue kq (server s)) l1) as Hok1' by (by destruct Hok1; split).
  apply wp_bind. unfold on_socket. apply wp_get. simpl. apply wp_zoom.
  unfold TcpSocket.connect. apply wp_bind, wp_zoom. simpl.
  eapply wp_mono; [apply createSocket_new; [done|done|apply Hok1]|].
  intros fd l2 (He2 & _). apply wp_bind, wp_modify, wp_bind, wp_modify, wp_ret. simpl.
  apply wp_bind, wp_assert_errno. intros _. apply wp_bind. unfold addToKqueueList. apply wp_get. simpl.
  apply wp_bind, wp_sys, (wp_done _ _ _ _ _ (syscall_run _ _)), wp_ret, wp_assert_errno. intros _. simpl.
  apply net_ok_app; [|constructor; [simpl; by auto|done]].
  eapply net_ok_ext; [|exact He2]. by destruct Hok1'; split.
Qed.

(** A client with a new descriptor. *)
Lemma net_ok_client F x l l' fd :
  net_ok F x l → new_fd l fd l' → net_ok (F ++ [(fd, [])]) x l'.
Proof.
  intros Hok Hnew. pose proof (net_ok_ext _ _ _ _ Hok (proj1 Hnew)) as [Hh Hs Hr Hw Hc Hse Hcl].
  destruct Hnew as (He & Hin & Hnot). split; try done.
  - intros i t Hi. destruct (Hh i t Hi) as (? & ? & HF). split_and!; [done..|].
    rewrite fmap_app. intros [?|E%list_elem_of_singleton]%elem_of_app; [done|]. simpl in E.
    destruct (no_heap _ _ _ Hok i t Hi) as (_ & Ho & _). by rewrite E in Ho.
  - intros fd' ds [?|E%list_elem_of_singleton]%elem_of_app; [by apply Hcl|]. simplify_eq.
    split; [done|]. apply sends_none. intros d Hd. apply Hnot, (no_sent _ _ _ Hok fd d).
    by eapply ext_in.
Qed.

(** A client sends. *)
Lemma net_ok_sent F i fd ds d x l :
  net_ok F x l → NoDup F.*1 → F !! i = Some (fd, ds) →
  net_ok (<[i := (fd, ds ++ [d])]> F) x (l ++ [Send fd d]).
Proof.
  intros [Hh Hs Hr Hw Hc Hse Hcl] Hnd Hi. assert ((<[i := (fd, ds ++ [d])]> F).*1 = F.*1) as E1.
  { rewrite list_fmap_insert. apply list_insert_id. by rewrite list_lookup_fmap, Hi. }
  assert (∀ fd', fd' ∈ opened l → fd' ∈ opened (l ++ [Send fd d])) as Ho
    by (intros fd' ?; rewrite opened_app; apply elem_of_app; by left).
  assert (fd ∈ opened l ∧ sends fd l = ds) as [Hofd Hsfd] by (by eapply Hcl, list_elem_of_lookup_2).
  split; try done; rewrite ?E1.
  - intros j t Hj. destruct (Hh j t Hj) as (? & ? & ?). split_and!; auto.
  - intros kq fd' f fl p [Hin|[=]%list_elem_of_singleton]%elem_of_app. by eapply Hw.
  - intros fd' [Hin|[=]%list_elem_of_singleton]%elem_of_app. by eapply Hc.
  - intros fd' d' [Hin|[= -> ->]%list_elem_of_singleton]%elem_of_app; [|by apply Ho].
    by eapply Ho, Hse.
  - intros fd' ds' [j Hj]%list_elem_of_lookup. rewrite sends_app.
    apply list_lookup_insert_Some in Hj as [(<- & [= <- <-] & _)|[Hne Hj]].
    + split; [by apply Ho|]. rewrite Hsfd. simpl. by rewrite decide_True.
    + destruct (Hcl fd' ds' ltac:(by eapply list_elem_of_lookup_2)) as [? <-].
      split; [by apply Ho|]. simpl. rewrite decide_False; [by rewrite app_nil_r|].
      intros ->. apply Hne. eapply (NoDup_lookup F.*1 i j fd' Hnd).
      * by rewrite list_lookup_fmap, Hi.
      * by rewrite list_lookup_fmap, Hj.
Qed.

Lemma connect_client_ok backlog fuel F i p :
  BacklogLaw backlog fuel → program_ok F p → length F = i → (i < 2)%nat →
  wp (connect_client fuel i) (λ _ p', ∃ fd, program_ok (F ++ [(fd, [])]) p') p.
Proof using Hfd Haddr Hevents Hfilters Hopen Hprintf.
  intros Hb [Hn Ht Hnd Hcl] Hi Hlt. unfold connect_client. apply wp_bind, wp_modify, wp_bind.
  apply wp_zoom, (wp_done _ _ _ _ _ (print_run _ _ Hprintf)).
  apply wp_bind. eapply wp_client; simpl; [apply list_lookup_insert_eq; lia|].
  unfold TcpSocket.connect. apply wp_bind, wp_zoom. simpl.
  eapply wp_mono; [apply createSocket_new; [done|done|apply Hn]|]. intros fd l2 Hnew.
  apply wp_bind, wp_modify, wp_bind, wp_modify, wp_ret. simpl.
  pose proof (new_not_client _ _ _ _ _ Hn Hnew) as HnF.
  eapply wp_mono; [eapply (program_server (F ++ [(fd, [])]))|intros ? p3 Hp3; by exists fd].
  - intros s Hok. by eapply poll_ok.
  - split; simpl; [by eapply net_ok_client|by rewrite !length_insert| |].
    + rewrite fmap_app. apply NoDup_app. split_and!; [done| |apply NoDup_singleton].
      simpl. by intros fd' Hin ->%list_elem_of_singleton.
    + intros j f [Hj|[Hle Hj]]%lookup_app_Some.
      * rewrite list_insert_insert_eq, list_lookup_insert_ne; [by apply Hcl|].
        apply lookup_lt_Some in Hj. lia.
      * apply list_lookup_singleton_Some in Hj as [Hz <-]. assert (j = i) as -> by lia.
        rewrite list_insert_insert_eq, list_lookup_insert_eq by lia. eexists. split; [done|].
        split; [apply ctor_idle|done].
Qed.

Lemma app_two {A} (k : list A) a b : k ++ [a; b] = (k ++ [a]) ++ [b].
Proof. by rewrite <- app_assoc. Qed.

(** A round with a client: its message goes out on its descriptor. *)
Lemma turn_ok backlog fuel F itr i fd ds p :
  BacklogLaw backlog fuel → program_ok F p → F !! i = Some (fd, ds) →
  let d := bytes (client_msg itr i) in
  (length d ≤ TcpSocket.TCPBufferSize)%nat → d ≠ [] →
  wp (turn fuel itr i) (λ _ p', program_ok (<[i := (fd, ds ++ [d])]> F) p') p.
Proof using Hrecv Hsize Hshort Hfd Hevents Hfilters Hopen Hprintf.
  intros Hb Hok HF d Hlen Hne. unfold turn. fold d.
  apply wp_bind. eapply wp_mono; [by apply program_printf|]. intros _ p1 [Hn Ht Hnd Hcl].
  destruct (Hcl i _ HF) as (t & Hi & Hidle & Hft). simpl in Hft.
  set (s1 := TcpSocket.mkSt t (SocketExample.log p1) (SocketExample.clock_reads p1) (out p1)).
  destruct (TcpSocket.send_room s1 d (proj1 Hidle)) as (t1 & E1 & Hwf1 & Hp1 & Hr1 & Hf1).
  { destruct Hidle as (_ & Hz & _). cbn [s1 TcpSocket.socket]. rewrite Hz. exact Hlen. }
  simpl in Hp1, Hr1, Hf1. rewrite (idle_pending _ Hidle) in Hp1. rewrite (idle_received _ Hidle) in Hr1.
  apply wp_bind, (wp_client _ _ _ _ _ Hi), (wp_done _ _ _ _ _ E1).
  pose proof (length_received _ Hwf1) as Hz1. rewrite Hr1 in Hz1. simpl in Hz1.
  set (s2 := TcpSocket.mkSt t1 (SocketExample.log p1) (SocketExample.clock_reads p1) (out p1)).
  destruct (client_round s2 d Hprintf Hrecv Hsize Hwf1 (eq_sym Hz1) Hp1 Hne) as (s3 & E3 & Hid3 & Hf3 & Hl3 & _).
  simpl in Hf3, Hl3. rewrite Hf1, Hft in Hl3.
  assert (i < 2)%nat as Hi2 by (rewrite <- Ht; by eapply lookup_lt_Some).
  apply wp_bind. eapply wp_client; simpl; [apply list_lookup_insert_eq; lia|].
  apply (wp_done _ _ _ _ _ E3). simpl. rewrite list_insert_insert_eq.
  set (F' := <[i := (fd, ds ++ [d])]> F). set (p3 := SocketExample.mkSt _ _ _ _ _).
  assert (program_ok F' p3) as Hok3.
  { split; simpl.
    - rewrite Hl3, app_two. apply net_ok_sent; [|done..]. apply net_ok_app; [done|]. by constructor.
    - by rewrite length_insert.
    - unfold F'. rewrite list_fmap_insert, list_insert_id; [done|]. by rewrite list_lookup_fmap, HF.
    - intros j f [(<- & <- & _)|[Hji Hj]]%list_lookup_insert_Some.
      + rewrite list_lookup_insert_eq by lia. eexists. split_and!; [done..|]. by rewrite Hf3, Hf1.
      + rewrite list_lookup_insert_ne by done. by apply Hcl. }
  clearbody p3.
  apply wp_bind. eapply wp_mono; [eapply (program_server F')|]; [intros s Hs; by eapply poll_ok|done|].
  intros u p4 Hok4. apply program_server; [|done]. intros s. apply server_round_ok.
Qed.

(** The messages of client [i] before round [n]. *)
Definition messages (n i : nat) : list (list Byte.byte) :=
  (λ itr, bytes (client_msg itr i)) <$> seq 0 n.

Lemma client_msg_size itr i :
  (itr < 5)%nat → (i < 2)%nat →
  (length (bytes (client_msg itr i)) ≤ 24)%nat ∧ bytes (client_msg itr i) ≠ [].
Proof.
  intros Ht Hi. destruct (bytes (client_msg itr i)) as [|b bs] eqn:E.
  - do 5 (destruct itr as [|itr]; [do 2 (destruct i as [|i]; [by vm_compute in E|]); lia|]). lia.
  - split; [|done]. rewrite <- E. clear -Ht Hi.
    do 5 (destruct itr as [|itr]; [do 2 (destruct i as [|i]; [by vm_compute; lia|]); lia|]). lia.
Qed.

Definition sent_before fd0 fd1 n : list (Z * list (list Byte.byte)) :=
  [(fd0, messages n 0); (fd1, messages n 1)].

Lemma messages_S n i : messages (S n) i = messages n i ++ [bytes (client_msg n i)].
Proof. unfold messages. by rewrite seq_S, fmap_app. Qed.

Context (Hroom : (24 ≤ TcpSocket.TCPBufferSize)%nat).

Lemma rounds_ok backlog fuel fd0 fd1 n k p :
  BacklogLaw backlog fuel → (k + n ≤ 5)%nat → program_ok (sent_before fd0 fd1 k) p →
  wp (each (seq k n) (λ itr, each (seq 0 2) (turn fuel itr)))
    (λ _ p', program_ok (sent_before fd0 fd1 (k + n)) p') p.
Proof.
  intros Hb. revert k p. induction n as [|n IH]; intros k p Hkn Hok.
  { rewrite Nat.add_0_r. by apply wp_ret. }
  cbn [seq each]. destruct (client_msg_size k 0) as [Hl0 Hn0]; [lia..|].
  destruct (client_msg_size k 1) as [Hl1 Hn1]; [lia..|].
  apply wp_bind, wp_bind. eapply wp_mono.
  { apply (turn_ok backlog fuel _ k 0 fd0 (messages k 0) p Hb Hok eq_refl); [lia|done]. }
  intros ? p1 Hok1. apply wp_bind. eapply wp_mono.
  { apply (turn_ok backlog fuel _ k 1 fd1 (messages k 1) p1 Hb Hok1 eq_refl); [lia|done]. }
  intros ? p2 Hok2. apply wp_ret. rewrite <- Nat.add_succ_comm. apply IH; [lia|].
  unfold sent_before. by rewrite !messages_S.
Qed.

Lemma destructor_sends p :
  wp (SocketExample.on_server destructor)
    (λ _ p', clients p' = clients p ∧
       ∀ fd, sends fd (SocketExample.log p') = sends fd (SocketExample.log p)) p.
Proof.
  apply wp_server. unfold destructor. apply wp_get. case_decide; [|by apply wp_ret].
  apply wp_bind, wp_sys, (wp_done _ _ _ _ _ (syscall_run _ _)), wp_ret. simpl. split; [done|].
  intros fd'. by rewrite sends_app, app_nil_r.
Qed.

Lemma start_ok : program_ok [] start.
Proof. split; [|done|constructor|done]. split; try done; set_solver. Qed.

Lemma main_ok backlog fuel :
  BacklogLaw backlog fuel →
  wp (main fuel) (λ z p, z = 0 ∧ ∃ t0 t1, clients p = [Some t0; Some t1] ∧
    TcpSocket.socket_fd_ t0 ≠ TcpSocket.socket_fd_ t1 ∧
    sends (TcpSocket.socket_fd_ t0) (SocketExample.log p) = messages 5 0 ∧
    sends (TcpSocket.socket_fd_ t1) (SocketExample.log p) = messages 5 1) start.
Proof using Haddr Hevents Hfd Hfilters Hrecv Hroom Hshort Hsize Hopen Hprintf.
  intros Hb. unfold main. apply wp_bind. eapply wp_mono; [apply program_printf, start_ok|].
  intros ? p1 Hok1. apply wp_bind.
  eapply wp_mono; [apply (program_server []); [intros s; by apply listen_ok|done]|].
  intros ? p2 Hok2. cbn [each]. apply wp_bind, wp_bind.
  eapply wp_mono; [by apply (connect_client_ok backlog fuel [] 0); [..|lia]|]. intros ? p3 [fd0 Hok3].
  apply wp_bind.
  eapply wp_mono; [by apply (connect_client_ok backlog fuel [(fd0, [])] 1); [..|lia]|].
  intros ? p4 [fd1 Hok4]. apply wp_ret, wp_bind.
  eapply wp_mono; [by apply (rounds_ok backlog fuel fd0 fd1 5 0); [|lia|]|]. intros ? p5 Hok5.
  apply wp_bind. eapply wp_mono; [apply destructor_sends|]. intros ? p6 [Hc Hs].
  apply wp_ret. split; [done|]. destruct Hok5 as [Hn Ht Hnd Hcl].
  destruct (Hcl 0%nat _ eq_refl) as (t0 & E0 & _ & Hf0).
  destruct (Hcl 1%nat _ eq_refl) as (t1 & E1 & _ & Hf1). simpl in Hf0, Hf1.
  exists t0, t1. rewrite Hc, !Hs, Hf0, Hf1. split_and!.
  - destruct (clients p5) as [|c0 [|c1 [|]]]; try done. by simplify_eq/=.
  - simpl in Hnd. apply NoDup_cons in Hnd as [Hnot _]. intros ->. apply Hnot. by left.
  - apply (no_clients _ _ _ Hn). by left.
  - apply (no_clients _ _ _ Hn). right. by left.
Qed.
End runs.
End ExampleRuns.
