(* ===== verification/LoopbackKernel.v ===== *)
(** A kernel with a loopback interface, as a function of the log of calls: it gives
    out new descriptors, pairs connections with the sockets that accept them, and
    carries bytes from each end to the other in order.  It shows that the laws of
    the sockets' theorems can hold together, and runs socket_example.cpp. *)

From S2P Require Import Prelude Types TimeUtils Kernel SocketUtils TcpSocket TcpServer.
Local Open Scope Z_scope.

Module LoopbackKernel.
Import Kernel.

(** The state of the network: how many calls were made and how many connections
    accepted, the clients that wait to be accepted, the pairs of connected
    descriptors, the bytes on the way to each descriptor, and what is registered
    with the kqueue. *)
Record Net := mkNet {
  calls : nat;
  accepted : nat;
  waiting : list Z;
  peers : list (Z * Z);
  queues : list (Z * list Byte.byte);
  watched : list (Z * Z * SocketPtr);
}.

Definition set_waiting w n := mkNet (calls n) (accepted n) w (peers n) (queues n) (watched n).
Definition set_queues q n := mkNet (calls n) (accepted n) (waiting n) (peers n) q (watched n).
Definition set_watched w n := mkNet (calls n) (accepted n) (waiting n) (peers n) (queues n) w.

Definition peer_of (fd : Z) (n : Net) : option Z :=
  r ← list_find (λ p, p.1 = fd) (peers n); Some r.2.2.
Definition queue_of (fd : Z) (n : Net) : list Byte.byte :=
  match list_find (λ p, p.1 = fd) (queues n) with Some (_, (_, bs)) => bs | None => [] end.
Definition set_queue (fd : Z) (bs : list Byte.byte) (n : Net) : Net :=
  set_queues ((fd, bs) :: filter (λ p, p.1 ≠ fd) (queues n)) n.

(** A new descriptor. *)
Definition new_fd (n : Net) : Z := Z.of_nat (calls n) + 3.

Section kernel.
Context `{Headers}.

(** At most [limit] connections are served, and [chunk] bytes received at once. *)
Context (limit chunk : nat).

(** The next client, if a connection can be accepted. *)
Definition next_client (n : Net) : option Z :=
  if decide (accepted n < limit)%nat then head (waiting n) else None.

(** The bytes that a [recvmsg] takes. *)
Definition taken (fd len : Z) (n : Net) : list Byte.byte :=
  take (Z.to_nat len `min` chunk) (queue_of fd n).

Definition transmit (c : Call) (n : Net) : Net :=
  match c with
  | Connect fd _ => set_waiting (waiting n ++ [fd]) n
  | Accept _ =>
      match next_client n with
      | None => n
      | Some c =>
          mkNet (calls n) (S (accepted n)) (tail (waiting n))
            ((c, new_fd n) :: (new_fd n, c) :: peers n) (queues n) (watched n)
      end
  | Send fd data =>
      match peer_of fd n with
      | Some p => set_queue p (queue_of p n ++ data) n
      | None => n
      end
  | Recvmsg fd len => set_queue fd (drop (length (taken fd len n)) (queue_of fd n)) n
  | Kevent_change _ fd f _ p => set_watched (watched n ++ [(fd, f, p)]) n
  | _ => n
  end.

Definition after_call (n : Net) (c : Call) : Net :=
  let n' := transmit c n in
  mkNet (S (calls n)) (accepted n') (waiting n') (peers n') (queues n') (watched n').

Definition net (log : list Call) : Net := foldl after_call (mkNet 0 0 [] [] [] []) log.

(** Reading at the listener when a client waits, at a socket when bytes do. *)
Definition ready (n : Net) (w : Z * Z * SocketPtr) : bool :=
  match w.2 with
  | Listener => bool_decide (is_Some (next_client n))
  | Heap _ => negb (bool_decide (length (queue_of w.1.1 n) = 0%nat))
  end.
Definition events (n : Net) : list Kevent :=
  (λ w, mkKevent w.1.2 0 w.2) <$> List.filter (ready n) (watched n).

Definition answer (n : Net) (c : Call) : Z :=
  match c with
  | Socket _ | Kqueue => new_fd n
  | Accept _ => if next_client n is Some _ then new_fd n else -1
  | Recvmsg fd len =>
      if decide (length (taken fd len n) = 0%nat) then -1 else Z.of_nat (length (taken fd len n))
  | Kevent_poll _ max => Z.min max (Z.of_nat (length (events n)))
  | _ => 0
  end.

Definition loopback : Kernel := {|
  ret l c := answer (net l) c;
  ifaddr_list _ := [mkIfAddr "lo" (Some AF_INET)];
  numeric_host _ _ := "127.0.0.1";
  addrinfo_list _ := [mkAddrInfo AF_INET SOCK_STREAM IPPROTO_TCP []];
  message l fd := (queue_of fd (net l), mkCmsg SOL_SOCKET SCM_TIMESTAMP CMSG_LEN_timeval 7 5);
  msg_name _ _ := None;
  event_list l := events (net l);
  strerror _ := "error";
  gai_strerror _ := "error";
|}.

(** ** The laws *)

Lemma net_snoc l c : net (l ++ [c]) = after_call (net l) c.
Proof. unfold net. by rewrite foldl_app. Qed.

Lemma net_calls l : calls (net l) = length l.
Proof.
  induction l as [|c l IH] using rev_ind; [done|]. rewrite net_snoc, length_app. simpl. lia.
Qed.

Lemma net_watched l w :
  w ∈ watched (net l) → ∃ kq fl, Kevent_change kq w.1.1 w.1.2 fl w.2 ∈ l.
Proof.
  induction l as [|c l IH] using rev_ind; [by intros Hw%not_elem_of_nil|]. rewrite net_snoc.
  intros Hw. assert (w ∈ watched (net l) ∨ ∃ kq fl, Kevent_change kq w.1.1 w.1.2 fl w.2 = c) as [Hl|Hc].
  { destruct c as [| | | | | | | | | | | | | |kq fd f fl p| |]; try (by left);
      simpl in Hw; unfold transmit in Hw; repeat case_match; try (by left).
    apply elem_of_app in Hw as [Hw| ->%list_elem_of_singleton]; [by left|right; by exists kq, fl]. }
  - destruct (IH Hl) as (kq & fl & ?). exists kq, fl. apply elem_of_app. by left.
  - destruct Hc as (kq & fl & <-). exists kq, fl. apply elem_of_app. right. by left.
Qed.

Lemma after_accepted n c : (accepted n ≤ accepted (after_call n c))%nat.
Proof. destruct c; simpl; try lia; repeat case_match; simpl; lia. Qed.

Lemma net_accepted l l' : (accepted (net l) ≤ accepted (net (l ++ l')))%nat.
Proof.
  induction l' as [|c l' IH] using rev_ind; [by rewrite app_nil_r|].
  rewrite app_assoc, net_snoc. pose proof (after_accepted (net (l ++ l')) c). lia.
Qed.

Lemma loopback_recvmsg : @TcpSocket.RecvmsgLaw loopback.
Proof.
  intros l fd len Hlen. cbn [loopback ret answer message fst].
  case_decide; [lia|]. unfold taken. rewrite length_take. lia.
Qed.

Lemma loopback_backlog l fd l' :
  @ret loopback l (Accept fd) ≠ -1 →
  (limit - accepted (net (l ++ Accept fd :: l')) < limit - accepted (net l))%nat.
Proof.
  cbn [loopback ret answer]. intros Hr. replace (l ++ Accept fd :: l') with ((l ++ [Accept fd]) ++ l')
    by (by rewrite <- app_assoc).
  pose proof (net_accepted (l ++ [Accept fd]) l') as Hle. rewrite net_snoc in Hle. simpl in Hle.
  destruct (next_client (net l)) eqn:E; [|done]. simpl in Hle.
  unfold next_client in E. case_decide; [|done]. lia.
Qed.
End kernel.
End LoopbackKernel.
