(* ===== verification/ExampleResults.v ===== *)
(** The results on socket_example.cpp, with the program run on the loopback kernel. *)

From S2P Require Import Prelude Types TimeUtils Kernel SocketUtils TcpSocket TcpServer NetResults.
From S2P Require Import SocketExample ExampleProps ExampleRuns LoopbackKernel.
Local Open Scope Z_scope.

Module ExampleResults.
Import Kernel SocketExample ExampleProps ExampleRuns.

Section results.
Context `{TcpSocket.BufferSize, Kernel, Headers, Clock, Printf}.

(** C24: the first line of the program passes an [int] for [%zu]: where [printf] does
    not take one, as the C standard has it, the program is undefined from there on.
    On a machine whose [printf] takes what the program passes, the program ends, with 0
    unless a system call fails: no other undefined behaviour, no write past a buffer, no
    endless loop; and when it ends, the data sent on the descriptors of the two clients
    are their five messages each, in order, and nothing else was sent there.  The laws
    of the system: [recvmsg] and [getaddrinfo] keep to POSIX, new descriptors are new,
    the kqueue reports what was registered, and finitely many connections come in, fewer
    than the turns of the accept loop.  The conditions on the run: no connection ends
    meanwhile ([OpenLaw]), and what comes in at once is shorter than the buffers by the
    23 bytes that the server puts before it ([ShortLaw]). *)
Theorem example_messages backlog fuel :
  TcpSocket.RecvmsgLaw → SizeLaw → ShortLaw → FdLaw → AddrLaw → EventLaw → OpenLaw →
  BacklogLaw backlog fuel → EVFILT_READ ≠ EVFILT_WRITE → (24 ≤ TcpSocket.TCPBufferSize)%nat →
  (printf_takes C_zu T_int = false → main fuel start = UB BadFormat) ∧
  (PrintfLaw →
   (∃ p, main fuel start = Done (0, p) ∧
      ∃ t0 t1, clients p = [Some t0; Some t1] ∧
        TcpSocket.socket_fd_ t0 ≠ TcpSocket.socket_fd_ t1 ∧
        sends (TcpSocket.socket_fd_ t0) (log p) = messages 5 0 ∧
        sends (TcpSocket.socket_fd_ t1) (log p) = messages 5 1) ∨
   ∃ msg, main fuel start = Exited msg).
Proof.
  intros Hrecv Hsize Hshort Hfd Haddr Hevents Hopen Hb Hfilters Hroom. split.
  - intros Hno. apply bind_ub. unfold printf, zoom, print. simpl. by rewrite Hno, andb_false_r.
  - intros Hpr.
    pose proof (main_ok Hrecv Hsize Hshort Hfd Haddr Hevents Hopen Hpr Hfilters Hroom backlog fuel Hb)
      as Hwp.
    apply wp_outcome in Hwp as [(z & p & E & -> & Hp)|Hx]; [left|by right]. by exists p.
Qed.

(** A socket of the server whose buffers are empty answers what comes in, once, with
    the text before it, on its own descriptor, and prints a line; it consumes the
    bytes, and its buffers are empty again. *)
Theorem server_replies (s : TcpSocket.St (list Line)) :
  PrintfLaw → TcpSocket.RecvmsgLaw → SizeLaw → ShortLaw → idle (TcpSocket.socket s) →
  0 < ret (TcpSocket.log s) (TcpSocket.recv_call (TcpSocket.socket s)) →
  let fd := TcpSocket.socket_fd_ (TcpSocket.socket s) in
  let msg := TcpSocket.incoming s in
  ∃ s', TcpSocket.sendAndRecv (Some tcpServerRecvCallback) s = Done (true, s') ∧
    idle (TcpSocket.socket s') ∧
    TcpSocket.log s' = TcpSocket.log s ++
      [TcpSocket.recv_call (TcpSocket.socket s); Send fd (bytes "TCPServer received msg:" ++ msg)] ∧
    TcpSocket.app s' =
      TcpSocket.app s ++ [ServerReceived fd (length msg) (TcpSocket.incoming_time s)].
Proof.
  intros Hpr Hrecv Hsize Hshort Hidle Hret fd msg.
  destruct (server_round s Hpr Hrecv Hsize Hshort Hidle Hret) as (s' & E & Hi & _ & Hl & Ha). by exists s'.
Qed.
End results.

(** ** On the loopback kernel, with buffers of 100 bytes *)

#[local] Existing Instances NetResults.headers NetResults.ticking.
#[local] Instance hundred : TcpSocket.BufferSize := 100%nat.
#[local] Instance kernel : Kernel := LoopbackKernel.loopback 2 60.

(** A [printf] that takes all arguments. *)
#[local] Instance any_printf : Printf := λ _ _, true.

Lemma any_takes : PrintfLaw.
Proof. done. Qed.

Lemma loopback_opened l fd : fd ∈ opened l → fd < Z.of_nat (length l) + 3.
Proof.
  induction l as [|c l IH] using rev_ind; [by intros Hf%not_elem_of_nil|].
  rewrite opened_snoc, length_app. simpl. intros [Hf|Hf]%elem_of_app; [specialize (IH Hf); lia|].
  destruct c; simpl in Hf; try (by apply not_elem_of_nil in Hf);
    apply list_elem_of_singleton in Hf; unfold LoopbackKernel.answer, LoopbackKernel.new_fd in Hf;
    rewrite LoopbackKernel.net_calls in Hf; try destruct (LoopbackKernel.next_client _ _); lia.
Qed.

Lemma loopback_fd : FdLaw.
Proof.
  intros l c Hc Hne _ Hin%loopback_opened. revert Hne Hin.
  destruct c; try discriminate Hc; simpl; unfold LoopbackKernel.answer, LoopbackKernel.new_fd;
    rewrite LoopbackKernel.net_calls; try destruct (LoopbackKernel.next_client _ _); (done || lia).
Qed.

Lemma loopback_reported l e :
  reported l e → ∃ w, e = mkKevent w.1.2 0 w.2 ∧
    w ∈ LoopbackKernel.watched (LoopbackKernel.net 2 60 l).
Proof.
  intros (kq & n & He). apply (sublist_incl _ _ (sublist_take _ _)) in He. simpl in He.
  unfold LoopbackKernel.events in He. apply list_elem_of_fmap_1 in He as (w & -> & Hw).
  apply list_elem_of_In, List.filter_In in Hw as [Hw%list_elem_of_In _]. by exists w.
Qed.

Lemma loopback_open : OpenLaw.
Proof. intros l e (w & -> & _)%loopback_reported Hc. by apply Hc. Qed.

Lemma loopback_events : EventLaw.
Proof.
  intros l e (w & -> & Hw)%loopback_reported.
  destruct (LoopbackKernel.net_watched 2 60 l w Hw) as (kq' & fl & Hin). by exists kq', w.1.1, fl.
Qed.

Lemma loopback_short : ShortLaw.
Proof.
  intros l fd len. simpl. case_decide; [vm_compute; discriminate|].
  unfold LoopbackKernel.taken. rewrite length_take. unfold TcpSocket.TCPBufferSize, hundred. lia.
Qed.

Definition served (l : list Call) : nat := 2 - LoopbackKernel.accepted (LoopbackKernel.net 2 60 l).

Lemma loopback_finite : BacklogLaw served 3.
Proof.
  split; [intros l fd l' Hr; by apply LoopbackKernel.loopback_backlog|].
  intros l. unfold served. lia.
Qed.

Lemma loopback_addr : AddrLaw.
Proof. by intros l ip port h _. Qed.

Lemma loopback_law : TcpSocket.RecvmsgLaw.
Proof. apply LoopbackKernel.loopback_recvmsg. Qed.

Lemma loopback_size : SizeLaw.
Proof. by vm_compute. Qed.

Lemma loopback_filters : EVFILT_READ ≠ EVFILT_WRITE.
Proof. by vm_compute. Qed.

Lemma loopback_room : (24 ≤ TcpSocket.TCPBufferSize)%nat.
Proof. unfold TcpSocket.TCPBufferSize, hundred. lia. Qed.

Definition ended : St := match main 3 start with Done (_, p) => p | _ => start end.

Lemma done_inj {A S} (a a' : A) (s s' : S) : Done (a, s) = Done (a', s') → s = s'.
Proof. by intros [=]. Qed.

Lemma main_ended : main 3 start = Done (0, ended).
Proof. by vm_compute. Qed.

(** Where [printf] takes everything the program ends; where it keeps to the standard
    the program is undefined. *)
Lemma example_messages_witness :
  main 3 start = Done (0, ended) ∧
  (∃ t0 t1, clients ended = [Some t0; Some t1] ∧
     sends (TcpSocket.socket_fd_ t0) (log ended) = messages 5 0 ∧
     sends (TcpSocket.socket_fd_ t1) (log ended) = messages 5 1) ∧
  @main hundred kernel NetResults.headers NetResults.ticking printf_standard 3 start = UB BadFormat.
Proof.
  split; [exact main_ended|]. pose proof main_ended as E. split.
  - destruct (proj2 (example_messages served 3 loopback_law loopback_size loopback_short loopback_fd
      loopback_addr loopback_events loopback_open loopback_finite loopback_filters loopback_room)
      any_takes) as [(p & E' & t0 & t1 & Hc & _ & Hs)|[msg Hx]].
    + pose proof (done_inj _ _ _ _ (eq_trans (eq_sym E) E')) as <-. exists t0, t1. exact (conj Hc Hs).
    + rewrite E in Hx. discriminate Hx.
  - exact (proj1 (@example_messages hundred kernel NetResults.headers NetResults.ticking
      printf_standard served 3 loopback_law loopback_size loopback_short loopback_fd
      loopback_addr loopback_events loopback_open loopback_finite loopback_filters loopback_room)
      eq_refl).
Defined.

(** What the clients print: the replies to all their messages but the last. *)
Definition replies (fd : Z) : list (nat * string) :=
  omap (λ line, match line with
                | ClientReceived fd' len _ msg =>
                    if decide (fd' = fd) then Some (len, String.string_of_list_byte msg) else None
                | _ => None
                end) (out ended).

Example client_0_receives :
  replies 17 =
    [(0%nat, "TCPServer received msg:CLIENT-[0] : Sending 0");
     (0%nat, "TCPServer received msg:CLIENT-[0] : Sending 100");
     (0%nat, "TCPServer received msg:CLIENT-[0] : Sending 200");
     (0%nat, "TCPServer received msg:CLIENT-[0] : Sending 300")].
Proof. by vm_compute. Qed.

Definition at_server : TcpSocket.St (list Line) :=
  TcpSocket.mkSt (TcpSocket.set_fd 4 TcpSocket.ctor)
    [Connect 3 (mkAddrInfo 2 1 6 []); Accept 9; Send 3 (bytes "hello")] 0 [].

Lemma server_replies_witness :
  0 < ret (TcpSocket.log at_server) (TcpSocket.recv_call (TcpSocket.socket at_server)) ∧
  ∃ s', TcpSocket.sendAndRecv (Some tcpServerRecvCallback) at_server = Done (true, s') ∧
    TcpSocket.log s' = TcpSocket.log at_server ++
      [Recvmsg 4 100; Send 4 (bytes "TCPServer received msg:hello")].
Proof.
  assert (0 < ret (TcpSocket.log at_server) (TcpSocket.recv_call (TcpSocket.socket at_server))) as Hr
    by (by vm_compute).
  split; [exact Hr|].
  destruct (server_replies at_server any_takes loopback_law loopback_size loopback_short (ctor_idle 4 (mkSockaddrIn 0 0 0)) Hr) as (s' & E & _ & Hl & _).
  exists s'. split; [exact E|]. rewrite Hl. by vm_compute.
Defined.
End ExampleResults.
