(* ===== verification/Dotenv.v ===== *)
(** include/cppexchange/dotenv.h: environment variables from a file.  A string is
    the list of its characters, [npos] the absence of a position, the environment
    and what was written to [std::cout] the state; the file is given by its
    contents, if it can be opened.

    [isspace] is that of the C locale; a character above 127, which the code may pass
    as a negative number, counts as no space. *)

From Stdlib Require Import Ascii.
From S2P Require Import Prelude.

Module Dotenv.

Abbreviation str := (list ascii).
Definition text (s : string) : str := String.list_ascii_of_string s.
Abbreviation npos := (@None nat).

Record State := mkState { environ : gmap (list ascii) (list ascii); cout : list str }.

Definition print (s : str) : M State unit := mmodify (λ σ, mkState (environ σ) (cout σ ++ [s])).

(** What a C function sees of a string. *)
Fixpoint c_str (s : str) : str :=
  match s with
  | [] => []
  | c :: s => if decide (c = zero) then [] else c :: c_str s
  end.

(** [std::getenv], [setenv]; the latter fails for a name that is empty or has a [=],
    and the code does not look at what it returns. *)
Definition std_getenv (name : str) : M State (option str) :=
  mgets (λ σ, environ σ !! c_str name).
Definition setenv (name value : str) (overwrite : Z) : M State unit :=
  mmodify (λ σ,
    if decide (c_str name = [] ∨ "="%char ∈ c_str name) then σ
    else if decide (overwrite = 0%Z ∧ is_Some (environ σ !! c_str name)) then σ
    else mkState (<[c_str name := c_str value]> (environ σ)) (cout σ)).

(** [std::string::find] and [substr]. *)
Fixpoint search (pat s : str) : option nat :=
  if decide (pat `prefix_of` s) then Some 0
  else match s with [] => None | _ :: s => S <$> search pat s end.
Definition find (s pat : str) (pos : option nat) : option nat :=
  p ← pos; if decide (p ≤ length s) then Nat.add p <$> search pat (drop p s) else npos.
Definition substr (s : str) (pos n : nat) : str := take n (drop pos s).

(** [std::min] on positions: [npos] is the greatest. *)
Definition min_pos (p q : option nat) : option nat :=
  match p, q with
  | Some a, Some b => Some (a `min` b)
  | Some a, None => Some a
  | None, q => q
  end.

(** ** The functions of the class *)

Definition Preserve : Z := Z.shiftl 1 0.
Definition OptionsNone : Z := 0.

(** A null pointer from [std::getenv] stands for [def]. *)
Definition getenv (name def : str) : M State str :=
  s ← std_getenv name;
  mret match s with Some s => s | None => def end.

(** The position of the next variable and its start tag, which stays as it is when
    there is none. *)
Definition find_var_start (s : str) (pos : option nat) (start_tag : str) : option nat * str :=
  let p1 := find s (text "$") pos in
  let p2 := find s (text "${") pos in
  let pos_var := min_pos p1 p2 in
  (pos_var,
   if decide (pos_var = npos) then start_tag
   else if decide (pos_var = p2) then text "${" else text "$").

Definition find_var_end (s : str) (pos : option nat) (start_tag : str) : option nat :=
  let end_tag := if decide (start_tag = text "${") then "}"%char else " "%char in
  let pos_end := find s [end_tag] pos in
  if decide (pos_end = npos ∧ end_tag = " "%char) then Some (length s) else pos_end.

Definition isspace (c : ascii) : bool :=
  let n := nat_of_ascii c in ((9 <=? n) && (n <=? 13) || (n =? 32))%nat.

(** Erasing up to the first character that is not a space. *)
Fixpoint ltrim (s : str) : str :=
  match s with
  | [] => []
  | c :: s' => if isspace c then ltrim s' else s
  end.
Definition rtrim (s : str) : str := rev (ltrim (rev s)).
Definition trim (s : str) : str := rtrim (ltrim s).
Definition trim_copy (s : str) : str := trim s.

Definition double_quote : ascii := ascii_of_nat 34.

Definition strip_quotes (s : str) : str :=
  let len := length s in
  if decide (len < 2) then s
  else if decide (head s = last s ∧ (head s = Some double_quote ∨ head s = Some "'"%char))
       then substr s 1 (len - 2)
       else s.

(** The local variables of the loop of [resolve_vars]. *)
Record locals := mkLocals {
  resolved : str;
  pos : option nat;
  pre_pos : nat;
  nvar : nat;
}.

Definition endl : str := [ascii_of_nat 10].
Definition decimal (n : nat) : str := text (pretty n).

(** One turn: [inr] when the loop is finished. *)
Definition resolve_step (iline : nat) (s : str) (v : locals) : M State (locals + locals) :=
  let '(p, start_tag) := find_var_start s (pos v) [] in
  match p with
  | Some pos_start =>
      let nvar1 := S (nvar v) in
      let lstart := length start_tag in
      let lend := if decide (1 < lstart) then 1 else 0 in
      let resolved1 := resolved v ++ substr s (pre_pos v) (pos_start - pre_pos v) in
      match find_var_end s (Some pos_start) start_tag with
      | Some pos_end =>
          let var := substr s pos_start (pos_end - pos_start + 1) in
          let env_var := rtrim (substr var lstart (length var - lstart - lend)) in
          env_str ← std_getenv env_var;
          match env_str with
          | Some env_str =>
              mret (inl (mkLocals (resolved1 ++ env_str) (Some pos_end) (pos_end + lend) (nvar1 - 1)))
          | None =>
              print (text "dotenv: Variable " ++ var ++ text " is not defined on line "
                     ++ decimal iline ++ endl);;
              mret (inl (mkLocals resolved1 (Some pos_end) (pos_end + lend) nvar1))
          end
      | None => mret (inl (mkLocals resolved1 npos (pre_pos v) nvar1))
      end
  | None => mret (inr (mkLocals (resolved v) npos (pre_pos v) (nvar v)))
  end.

(** Every turn but the last two moves the position on. *)
Definition resolve_fuel (s : str) : nat := S (S (S (length s))).

Definition resolve_vars (iline : nat) (s : str) : M State (str * bool) :=
  v ← iterate (resolve_fuel s) (resolve_step iline s) (mkLocals [] (Some 0) 0 0);
  let r := if decide (pre_pos v < length s) then resolved v ++ drop (pre_pos v) s else resolved v in
  mret (r, bool_decide (nvar v = 0)).

(** [getline]: the lines of a file, without the character that ends them. *)
Fixpoint lines (s : str) : list str :=
  match s with
  | [] => []
  | c :: s =>
      if decide (c = ascii_of_nat 10) then [] :: lines s
      else match lines s with
           | [] => [[c]]
           | l :: ls => (c :: l) :: ls
           end
  end.

Definition ignoring (i : nat) (line : str) : str :=
  text "dotenv: Ignoring ill-formed assignment on line " ++ decimal i ++ text ": '" ++ line
  ++ text "'" ++ endl.

Definition do_line (flags : Z) (i : nat) (line : str) : M State unit :=
  match find line (text "=") (Some 0) with
  | None => print (ignoring i line)
  | Some pos =>
      let name := trim_copy (substr line 0 pos) in
      let line_stripped := strip_quotes (trim_copy (drop (pos + 1) line)) in
      p ← resolve_vars i line_stripped;
      if negb (snd p) then print (ignoring i line)
      else setenv name (fst p) (Z.land (Z.lnot flags) Preserve)
  end.

Fixpoint do_lines (flags : Z) (i : nat) (ls : list str) : M State unit :=
  match ls with
  | [] => mret tt
  | l :: ls => do_line flags i l;; do_lines flags (S i) ls
  end.

(** [file] is [None] when the file cannot be opened. *)
Definition do_init (flags : Z) (file : option str) : M State unit :=
  match file with
  | None => mret tt
  | Some contents => do_lines flags 1 (lines contents)
  end.

Definition init (flags : Z) (file : option str) : M State unit := do_init flags file.
Definition init_default (file : option str) : M State unit := do_init OptionsNone file.

(** ** Searching *)

Lemma search_cons pat x s :
  search pat (x :: s) =
    if decide (pat `prefix_of` x :: s) then Some 0 else S <$> search pat s.
Proof. done. Qed.

Lemma search_nil c s : search (c :: s) [] = None.
Proof. done. Qed.

Lemma search_char c l r : c ∉ l → search [c] (l ++ c :: r) = Some (length l).
Proof.
  induction l as [|x l IH]; intros Hc; cbn [app]; rewrite search_cons.
  - by rewrite decide_True by (by exists r).
  - rewrite decide_False, IH; [done|set_solver|]. intros [k [= -> _]]. set_solver.
Qed.

Lemma search_none c s : c ∉ s → search [c] s = None.
Proof.
  induction s as [|x s IH]; intros Hc; [apply search_nil|rewrite search_cons].
  - rewrite decide_False, IH; [done|set_solver|]. intros [k [= -> _]]. set_solver.
Qed.

Lemma search_bound pat s n : search pat s = Some n → pat `prefix_of` drop n s ∧ n ≤ length s.
Proof.
  revert n. induction s as [|x s IH]; intros n; [simpl|rewrite search_cons]; case_decide; try done.
  - intros [= <-]. by split.
  - intros [= <-]. simpl. split; [done|lia].
  - destruct (search pat s) as [m|] eqn:E; [|done]. intros [= <-].
    destruct (IH m eq_refl). simpl. split; [done|lia].
Qed.

Lemma find_from pre rest pat :
  find (pre ++ rest) pat (Some (length pre)) = Nat.add (length pre) <$> search pat rest.
Proof. unfold find. simpl. rewrite length_app, decide_True by lia. by rewrite drop_app_length. Qed.

Lemma find_bound s pat p q :
  find s pat (Some p) = Some q → p ≤ q ≤ length s ∧ pat `prefix_of` drop q s.
Proof.
  unfold find. simpl. case_decide; [|done].
  destruct (search pat (drop p s)) as [n|] eqn:E; [|done]. intros [= <-].
  apply search_bound in E as [Hp Hn]. rewrite length_drop in Hn. rewrite drop_drop in Hp.
  split; [lia|done].
Qed.

Definition dollar : ascii := "$"%char.

(** The first variable of a text: its position, and which tag starts it. *)
Lemma search_tag l r :
  dollar ∉ l → ∀ n, search (text "${") (l ++ dollar :: r) = Some n →
  length l ≤ n ∧ (n = length l → head r = Some "{"%char).
Proof.
  intros Hl n E. apply search_bound in E as [[k Hk] Hn].
  destruct (decide (n < length l)) as [Hlt|Hge].
  - exfalso. rewrite drop_app_le in Hk by lia.
    destruct (drop n l) as [|x l'] eqn:Ed; [apply (f_equal length) in Ed; rewrite length_drop in Ed; simpl in Ed; lia|].
    apply Hl. injection Hk as -> _. apply list_elem_of_lookup. exists n.
    by rewrite <- (Nat.add_0_r n), <- lookup_drop, Ed.
  - split; [lia|]. intros ->. rewrite drop_app_length in Hk.
    injection Hk as Hr. by rewrite Hr.
Qed.

Lemma search_brace l r :
  dollar ∉ l → search (text "${") (l ++ dollar :: "{"%char :: r) = Some (length l).
Proof.
  induction l as [|x l IH]; intros Hl; cbn [app]; rewrite search_cons.
  - by rewrite decide_True by (by exists r).
  - rewrite decide_False, IH; [done|set_solver|]. intros [k [= -> _]]. set_solver.
Qed.

(** [start_tag] of the first variable of a text. *)
Definition tag_of (r : str) : str := if decide (head r = Some "{"%char) then text "${" else text "$".

Lemma find_var_start_first pre l r tag :
  dollar ∉ l →
  find_var_start (pre ++ l ++ dollar :: r) (Some (length pre)) tag =
    (Some (length pre + length l), tag_of r).
Proof.
  intros Hl. unfold find_var_start. rewrite !find_from.
  change (text "$") with [dollar]. rewrite search_char by done. simpl.
  unfold tag_of. destruct (decide (head r = Some "{"%char)) as [Hr|Hr].
  - destruct r as [|c r]; [done|]. injection Hr as ->. change ["$"%char; "{"%char] with (text "${"). rewrite search_brace by done. simpl.
    rewrite Nat.min_id. by rewrite decide_True.
  - change ["$"%char; "{"%char] with (text "${").
    destruct (search (text "${") (l ++ dollar :: r)) as [n|] eqn:E; simpl.
    + destruct (search_tag l r Hl n E) as [Hle Hn].
      assert (length l ≠ n) by (intros En; apply Hr, Hn; done).
      rewrite Nat.min_l by lia. rewrite decide_False; [done|]. intros [=]. lia.
    + done.
Qed.

Lemma find_var_start_none pre l tag :
  dollar ∉ l → find_var_start (pre ++ l) (Some (length pre)) tag = (None, tag).
Proof.
  intros Hl. unfold find_var_start. rewrite !find_from. change (text "$") with [dollar].
  rewrite search_none by done.
  destruct (search (text "${") l) as [n|] eqn:E; simpl; [|done].
  exfalso. apply search_bound in E as [[k Hk] _]. apply Hl.
  apply list_elem_of_lookup. exists n. rewrite <- (Nat.add_0_r n), <- lookup_drop, Hk. done.
Qed.

Lemma find_var_end_brace pre n r :
  "}"%char ∉ n →
  find_var_end (pre ++ text "${" ++ n ++ "}"%char :: r) (Some (length pre)) (text "${") =
    Some (length pre + length (text "${" ++ n)).
Proof.
  intros Hn. unfold find_var_end. rewrite (decide_True (P := text "${" = text "${")) by done.
  rewrite find_from, (app_assoc (text "${")).
  rewrite search_char by (by intros [[=]|[[=]|?]%elem_of_cons]%elem_of_cons). cbn [fmap option_fmap option_map].
  by rewrite decide_False by (by intros [? ?]).
Qed.

Lemma find_var_end_bare pre n r :
  " "%char ∉ n → r = [] ∨ head r = Some " "%char →
  find_var_end (pre ++ dollar :: n ++ r) (Some (length pre)) (text "$") =
    Some (length pre + length (dollar :: n)).
Proof.
  intros Hn Hr. unfold find_var_end. rewrite (decide_False (P := text "$" = _)) by done.
  rewrite find_from.
  change (dollar :: n ++ r) with ((dollar :: n) ++ r).
  assert (" "%char ∉ dollar :: n) as Hn' by (intros [[=]|?]%elem_of_cons; done).
  destruct Hr as [->|Hr].
  - rewrite app_nil_r, search_none by done. rewrite decide_True by done.
    by rewrite length_app.
  - destruct r as [|c r]; [done|]. injection Hr as ->. rewrite search_char by done.
    by rewrite decide_False by (by intros [? ?]).
Qed.

(** ** Templates

    A text with variables in it: what comes before each, the variable, and what
    comes after the last.  [Brace n] is [${n}], [Bare n] is [$n], which ends at a
    space or with the text. *)

Inductive variable := Brace (name : str) | Bare (name : str).
Record template := mkTemplate { vars : list (str * variable); final : str }.

Definition raw (v : variable) : str :=
  match v with
  | Brace n => text "${" ++ n ++ ["}"%char]
  | Bare n => dollar :: n
  end.
Definition var_name (v : variable) : str := rtrim (match v with Brace n | Bare n => n end).

Fixpoint render_from (vs : list (str * variable)) (last : str) : str :=
  match vs with
  | [] => last
  | (l, v) :: vs => l ++ raw v ++ render_from vs last
  end.
Definition render (t : template) : str := render_from (vars t) (final t).

(** The end of the variable is found where it should be. *)
Definition delimited (v : variable) (rest : str) : Prop :=
  match v with
  | Brace n => "}"%char ∉ n
  | Bare n => (" "%char ∉ n) ∧ head n ≠ Some "{"%char ∧ (rest = [] ∨ head rest = Some " "%char)
  end.

Fixpoint wf_from (vs : list (str * variable)) (last : str) : Prop :=
  match vs with
  | [] => dollar ∉ last
  | (l, v) :: vs =>
      (dollar ∉ l) ∧ delimited v (render_from vs last) ∧ wf_from vs last
  end.
Definition wf (t : template) : Prop := wf_from (vars t) (final t).

(** The text with the values of the variables, and how many have none. *)
Definition value (e : gmap (list ascii) (list ascii)) (v : variable) : option str :=
  e !! c_str (var_name v).
Fixpoint expand_from (e : gmap (list ascii) (list ascii)) (vs : list (str * variable)) : str :=
  match vs with
  | [] => []
  | (l, v) :: vs => l ++ default [] (value e v) ++ expand_from e vs
  end.
Definition expand e (t : template) : str := expand_from e (vars t) ++ final t.
Definition undefined (e : gmap (list ascii) (list ascii)) (vs : list (str * variable)) : nat :=
  length (filter (λ x, value e x.2 = None) vs).

(** The complaints about variables without a value. *)
Definition shown (v : variable) (rest : str) : str :=
  match v with Brace _ => raw v | Bare _ => raw v ++ take 1 rest end.
Fixpoint complaints (e : gmap (list ascii) (list ascii)) (iline : nat)
    (vs : list (str * variable)) (last : str) : list str :=
  match vs with
  | [] => []
  | (l, v) :: vs =>
      (if value e v is Some _ then []
       else [text "dotenv: Variable " ++ shown v (render_from vs last)
             ++ text " is not defined on line " ++ decimal iline ++ endl])
      ++ complaints e iline vs last
  end.

Definition printed (ls : list str) (σ : State) : State := mkState (environ σ) (cout σ ++ ls).

Lemma ltrim_space c s : isspace c = true → ltrim (c :: s) = ltrim s.
Proof. intros H. simpl. by rewrite H. Qed.

Lemma rtrim_space s c : isspace c = true → rtrim (s ++ [c]) = rtrim s.
Proof. intros H. unfold rtrim. rewrite rev_app_distr. simpl app. by rewrite ltrim_space. Qed.

(** What the loop takes apart: the text before a variable is [pre ++ gap], where
    [gap] is the end tag of the variable before it. *)
Definition var_end (v : variable) : str := match v with Brace n => text "${" ++ n | Bare n => dollar :: n end.
Definition var_gap (v : variable) : str := match v with Brace _ => ["}"%char] | Bare _ => [] end.

Lemma raw_split v : raw v = var_end v ++ var_gap v.
Proof. destruct v; simpl; by rewrite ?app_nil_r. Qed.

(** A variable found at the end of [pre]. *)
Lemma var_found pre v rest :
  delimited v rest →
  let s := pre ++ raw v ++ rest in
  let tag := tag_of (tail (raw v) ++ rest) in
  let p := length pre + length (var_end v) in
  let var := substr s (length pre) (p - length pre + 1) in
  let lend := if decide (1 < length tag) then 1 else 0 in
  find_var_end s (Some (length pre)) tag = Some p ∧
  var = shown v rest ∧ lend = length (var_gap v) ∧
  rtrim (substr var (length tag) (length var - length tag - lend)) = var_name v.
Proof.
  intros Hv s tag p var lend.
  assert (var = take (length (var_end v) + 1) (raw v ++ rest)) as Evar.
  { unfold var, substr, s, p. rewrite drop_app_length. f_equal. lia. }
  destruct v as [n|n]; simpl in Hv.
  - assert (tag = text "${") as Etag by done. 
    assert (var = raw (Brace n)) as Ev.
    { rewrite Evar, take_app_length'; [done|]. rewrite raw_split, length_app. simpl. lia. }
    unfold s, p, lend. rewrite Etag, Ev. split_and!; [|done|done|].
    + unfold raw. rewrite <- !app_assoc. by apply find_var_end_brace.
    + unfold var_name. f_equal. unfold substr. change (length (text "${")) with 2.
      change (drop 2 (raw (Brace n))) with (n ++ ["}"%char]). apply take_app_length'.
      simpl. rewrite length_app. simpl. lia.
  - destruct Hv as (Hn & Hb & Hr).
    assert (tag = text "$") as Etag.
    { unfold tag, tag_of. simpl. rewrite decide_False; [done|].
      destruct n as [|c n]; [|done]. simpl. by destruct Hr as [->|Hr]; [|rewrite Hr]. }
    assert (var = dollar :: n ++ take 1 rest) as Ev.
    { rewrite Evar. simpl. f_equal. rewrite take_app_ge by lia. do 2 f_equal. lia. }
    unfold s, p, lend. rewrite Etag, Ev. split_and!; [|done|done|].
    + unfold raw. simpl app. by apply find_var_end_bare.
    + unfold var_name, substr. simpl. rewrite drop_0, !Nat.sub_0_r, firstn_all.
      destruct Hr as [->|Hr]; [by rewrite app_nil_r|].
      destruct rest as [|c rest]; [done|]. injection Hr as ->. by apply rtrim_space.
Qed.

Lemma raw_dollar v : raw v = dollar :: tail (raw v).
Proof. by destruct v. Qed.

Lemma gap_dollar v : dollar ∉ var_gap v.
Proof. destruct v; simpl; [by intros [=]%list_elem_of_singleton|apply not_elem_of_nil]. Qed.

Lemma expand_cons e l v vs :
  undefined e ((l, v) :: vs) = (if value e v is Some _ then 0 else 1) + undefined e vs.
Proof. unfold undefined. rewrite filter_cons. simpl. destruct (value e v); by case_decide. Qed.

Lemma printed_nil σ : printed [] σ = σ.
Proof. destruct σ. unfold printed. simpl. by rewrite app_nil_r. Qed.

Lemma printed_app l1 l2 σ : printed l2 (printed l1 σ) = printed (l1 ++ l2) σ.
Proof. unfold printed. simpl. by rewrite app_assoc. Qed.

(** A turn of the loop that finds the variable [v] behind the text [l]. *)
Lemma resolve_step_var iline pre gap l v rest r nv σ :
  dollar ∉ gap → dollar ∉ l → delimited v rest →
  let s := pre ++ gap ++ l ++ raw v ++ rest in
  let pre' := pre ++ gap ++ l ++ var_end v in
  resolve_step iline s (mkLocals r (Some (length pre)) (length (pre ++ gap)) nv) σ =
    Done (inl (mkLocals (r ++ l ++ default [] (value (environ σ) v)) (Some (length pre'))
                 (length (pre' ++ var_gap v)) ((if value (environ σ) v is Some _ then 0 else 1) + nv)),
          printed (if value (environ σ) v is Some _ then []
                   else [text "dotenv: Variable " ++ shown v rest
                         ++ text " is not defined on line " ++ decimal iline ++ endl]) σ).
Proof.
  intros Hg Hl Hd s pre'. set (pre0 := pre ++ gap ++ l).
  assert (s = pre0 ++ raw v ++ rest) as Es by (unfold s, pre0; by rewrite <- !app_assoc).
  destruct (var_found pre0 v rest Hd) as (Hend & Hvar & Hlend & Hname). rewrite <- Es in *.
  assert (find_var_start s (Some (length pre)) [] =
    (Some (length pre0), tag_of (tail (raw v) ++ rest))) as Hstart.
  { unfold s. rewrite raw_dollar at 1. rewrite (app_assoc gap), <- app_comm_cons.
    rewrite find_var_start_first by set_solver. unfold pre0. rewrite !length_app. f_equal. }
  assert (substr s (length (pre ++ gap)) (length pre0 - length (pre ++ gap)) = l) as Hsub.
  { unfold substr, s. rewrite (app_assoc pre), drop_app_length.
    apply take_app_length'. unfold pre0. rewrite !length_app. lia. }
  assert (length pre' = length pre0 + length (var_end v)) as Hpre'
    by (unfold pre', pre0; rewrite !length_app; lia).
  unfold resolve_step. cbn [pos pre_pos nvar resolved]. rewrite Hstart, Hend. cbv zeta.
  rewrite Hsub, Hvar, Hlend in *. rewrite Hname.
  unfold std_getenv. rewrite bind_gets. fold (value (environ σ) v).
  rewrite length_app, Hpre', Nat.sub_1_r. cbn [Nat.pred].
  destruct (value (environ σ) v) as [x|]; cbn [default].
  - rewrite printed_nil, app_assoc. done.
  - unfold print. rewrite bind_modify, app_nil_r. done.
Qed.

Lemma resolve_loop iline vs last pre gap r nv σ fuel :
  dollar ∉ gap → wf_from vs last → length vs < fuel →
  let s := pre ++ gap ++ render_from vs last in
  iterate fuel (resolve_step iline s) (mkLocals r (Some (length pre)) (length (pre ++ gap)) nv) σ =
    Done (mkLocals (r ++ expand_from (environ σ) vs) npos (length s - length last)
            (nv + undefined (environ σ) vs),
          printed (complaints (environ σ) iline vs last) σ).
Proof.
  revert pre gap r nv σ fuel. induction vs as [|[l v] vs IH]; intros pre gap r nv σ [|fuel] Hg Hwf Hf;
    try (simpl in Hf; lia); intros s.
  - assert (resolve_step iline s (mkLocals r (Some (length pre)) (length (pre ++ gap)) nv) σ =
      Done (inr (mkLocals r npos (length (pre ++ gap)) nv), σ)) as E.
    { unfold resolve_step. cbn [pos pre_pos nvar resolved].
      unfold s. cbn [render_from wf_from] in *. rewrite find_var_start_none by set_solver. done. }
    rewrite (iterate_inr _ _ _ _ _ _ E). simpl. rewrite app_nil_r, Nat.add_0_r, printed_nil.
    unfold s. simpl. rewrite !length_app. do 3 f_equal. lia.
  - destruct Hwf as (Hl & Hd & Hwf). simpl in Hf.
    pose proof (resolve_step_var iline pre gap l v (render_from vs last) r nv σ Hg Hl Hd) as E.
    change (pre ++ gap ++ l ++ raw v ++ render_from vs last) with s in E.
    rewrite (iterate_inl _ _ _ _ _ _ E).
    set (pre' := pre ++ gap ++ l ++ var_end v).
    assert (s = pre' ++ var_gap v ++ render_from vs last) as ->
      by (unfold s, pre'; simpl; by rewrite raw_split, <- !app_assoc).
    rewrite (IH pre' (var_gap v)) by (done || apply gap_dollar || lia).
    rewrite expand_cons, printed_app. simpl. rewrite <- !app_assoc.
    do 3 f_equal. destruct (value (environ σ) v); lia.
Qed.

(** Variables are replaced by their values, and the text around them is kept. *)
Lemma resolve_template iline t σ :
  wf t →
  resolve_vars iline (render t) σ =
    Done ((expand (environ σ) t, bool_decide (undefined (environ σ) (vars t) = 0)),
          printed (complaints (environ σ) iline (vars t) (final t)) σ).
Proof.
  intros Hwf. unfold resolve_vars.
  assert (length (vars t) < resolve_fuel (render t)) as Hf.
  { unfold resolve_fuel, render. clear. generalize (vars t), (final t). intros vs last.
    induction vs as [|[l v] vs IH]; simpl; [lia|]. rewrite raw_dollar. simpl.
    rewrite !length_app. simpl. rewrite length_app. lia. }
  pose proof (resolve_loop iline (vars t) (final t) [] [] [] 0 σ _ (not_elem_of_nil _) Hwf Hf) as E.
  simpl app in E. fold (render t) in E. rewrite (bind_done _ _ _ _ _ E). simpl.
  assert (∃ l, render t = l ++ final t) as [l El].
  { unfold render. clear. generalize (vars t), (final t). intros vs last.
    induction vs as [|[l v] vs [l' IH]]; simpl; [by exists []|].
    exists (l ++ raw v ++ l'). by rewrite IH, <- !app_assoc. }
  rewrite El, length_app, Nat.add_sub. unfold expand. do 3 f_equal.
  case_decide as Hlt; [by rewrite drop_app_length|].
  assert (final t = []) as -> by (apply length_zero_iff_nil; lia). by rewrite app_nil_r.
Qed.

(** ** The loop ends on every text *)

Lemma lookup_head {A} (l k : list A) n c : drop n l = c :: k → l !! n = Some c.
Proof. intros E. by rewrite <- (Nat.add_0_r n), <- lookup_drop, E. Qed.

Lemma find_var_start_bound s p tag q tag' :
  find_var_start s (Some p) tag = (Some q, tag') →
  p ≤ q < length s ∧ s !! q = Some dollar.
Proof.
  unfold find_var_start. intros E%(f_equal fst). cbn [fst] in E.
  assert (∀ n r, find s (dollar :: r) (Some p) = Some n → p ≤ n < length s ∧ s !! n = Some dollar) as Hf.
  { intros n r Hn. apply find_bound in Hn as [Hle [k Hk]].
    assert (s !! n = Some dollar) as Hd by (by eapply lookup_head).
    split; [|done]. split; [lia|]. by eapply lookup_lt_Some. }
  change (text "$") with [dollar] in E. change (text "${") with [dollar; "{"%char] in E.
  destruct (find s [dollar] (Some p)) as [a|] eqn:Ea; [apply Hf in Ea|];
    (destruct (find s [dollar; "{"%char] (Some p)) as [b|] eqn:Eb; [apply Hf in Eb|]);
    cbn [min_pos] in E; simplify_eq; [|done..].
  destruct (Nat.min_spec a b) as [[_ ->]|[_ ->]]; done.
Qed.

Lemma find_var_end_bound s p tag q :
  s !! p = Some dollar → find_var_end s (Some p) tag = Some q → p < q ≤ length s.
Proof.
  intros Hp. unfold find_var_end.
  set (c := if decide (tag = text "${") then "}"%char else " "%char).
  assert (c ≠ dollar) as Hc by (unfold c; by case_decide).
  pose proof (lookup_lt_Some _ _ _ Hp) as Hlt.
  case_decide as Hn; [intros [= <-]; lia|].
  intros E. apply find_bound in E as [Hle [k Hk]]. split; [|lia].
  destruct (decide (p = q)) as [->|]; [|lia]. exfalso.
  apply lookup_head in Hk. rewrite Hk in Hp. by injection Hp as Hp.
Qed.

Lemma resolve_step_ends iline s v σ :
  ∃ r ls, resolve_step iline s v σ = Done (r, printed ls σ) ∧
    match r with
    | inr _ => True
    | inl v' =>
        match pos v, pos v' with
        | Some p, Some q => p < q ≤ length s
        | Some p, None => True
        | None, _ => False
        end
    end.
Proof.
  unfold resolve_step. destruct (find_var_start s (pos v) []) as [[p|] tag] eqn:Es.
  - destruct (pos v) as [p0|] eqn:Ep; [|done].
    destruct (find_var_start_bound _ _ _ _ _ Es) as [Hb Hd].
    destruct (find_var_end s (Some p) tag) as [q|] eqn:Ee; cbv zeta.
    + pose proof (find_var_end_bound _ _ _ _ Hd Ee). unfold std_getenv. rewrite bind_gets.
      destruct (environ σ !! _).
      * eexists _, []. rewrite printed_nil. split; [done|simpl; lia].
      * eexists _, [_]. split; [done|simpl; lia].
    + eexists _, []. rewrite printed_nil. by split.
  - eexists _, []. rewrite printed_nil. by split.
Qed.

Lemma resolve_ends iline s σ :
  ∃ r b ls, resolve_vars iline s σ = Done ((r, b), printed ls σ).
Proof.
  unfold resolve_vars.
  assert (∀ fuel v σ, (match pos v with Some p => length s - p + 2 | None => 1 end) ≤ fuel →
    ∃ v' ls, iterate fuel (resolve_step iline s) v σ = Done (v', printed ls σ)) as Hloop.
  { induction fuel as [|fuel IH]; intros v σ1 Hf; [by destruct (pos v); lia|].
    destruct (resolve_step_ends iline s v σ1) as ([v1|v1] & ls & E & Hp).
    - rewrite (iterate_inl _ _ _ _ _ _ E). destruct (IH v1 (printed ls σ1)) as (v' & ls' & E').
      { destruct (pos v) as [p|]; [|done]. destruct (pos v1); lia. }
      exists v', (ls ++ ls'). by rewrite E', printed_app.
    - rewrite (iterate_inr _ _ _ _ _ _ E). by exists v1, ls. }
  destruct (Hloop (resolve_fuel s) (mkLocals [] (Some 0) 0 0) σ) as (v & ls & E).
  { unfold resolve_fuel. simpl. lia. }
  rewrite (bind_done _ _ _ _ _ E). by eexists _, _, ls.
Qed.

Lemma do_line_ends flags i line σ : ∃ σ', do_line flags i line σ = Done (tt, σ').
Proof.
  unfold do_line. destruct (find line (text "=") (Some 0)); [|by eexists]. cbv zeta.
  destruct (resolve_ends i (strip_quotes (trim_copy (drop (n + 1) line))) σ) as (r & b & ls & E).
  rewrite (bind_done _ _ _ _ _ E). destruct b; by eexists.
Qed.

Lemma do_lines_ends flags i ls σ : ∃ σ', do_lines flags i ls σ = Done (tt, σ').
Proof.
  revert i σ. induction ls as [|l ls IH]; intros i σ; [by eexists|]. simpl.
  destruct (do_line_ends flags i l σ) as [σ1 E]. rewrite (bind_done _ _ _ _ _ E). apply IH.
Qed.

(** ** Files *)

Definition newline : ascii := ascii_of_nat 10.

Lemma lines_line l rest : newline ∉ l → lines (l ++ newline :: rest) = l :: lines rest.
Proof.
  induction l as [|c l IH]; intros Hl; [done|]. simpl.
  rewrite decide_False by (intros ->; apply Hl; by left).
  by rewrite IH by (intros ?; apply Hl; by right).
Qed.

Lemma lines_unlines ls :
  Forall (λ l, newline ∉ l) ls → lines (ls ≫= λ l, l ++ [newline]) = ls.
Proof.
  induction 1 as [|l ls Hl _ IH]; [done|]. rewrite bind_cons, <- app_assoc. cbn [app].
  by rewrite lines_line, IH.
Qed.

(** No space at the ends; no quote at the start. *)
Definition trimmed (s : str) : Prop :=
  (∀ c, head s = Some c → isspace c = false) ∧ (∀ c, last s = Some c → isspace c = false).
Definition unquoted (s : str) : Prop :=
  ∀ c, head s = Some c → c ≠ double_quote ∧ c ≠ "'"%char.
Lemma ltrim_id s : (∀ c, head s = Some c → isspace c = false) → ltrim s = s.
Proof. destruct s as [|c s]; [done|]. intros H. simpl. by rewrite (H c). Qed.

Lemma head_rev (s : str) : head (rev s) = last s.
Proof.
  destruct s as [|c s] using rev_ind; [done|]. by rewrite rev_app_distr, last_snoc.
Qed.

Lemma trim_id s : trimmed s → trim s = s.
Proof.
  intros [Hh Hl]. unfold trim, rtrim. rewrite (ltrim_id s Hh), ltrim_id; [apply rev_involutive|].
  intros c. rewrite head_rev. apply Hl.
Qed.

Lemma strip_quotes_id s : unquoted s → strip_quotes s = s.
Proof.
  intros Hu. unfold strip_quotes. cbv zeta. case_decide; [done|]. rewrite decide_False; [done|].
  intros [_ [Hh|Hh]]; by destruct (Hu _ Hh).
Qed.

Lemma c_str_id s : zero ∉ s → c_str s = s.
Proof.
  induction s as [|c s IH]; intros Hz; [done|]. simpl.
  rewrite decide_False by (intros ->; apply Hz; by left). f_equal. apply IH. set_solver.
Qed.

(** A line [name=value], the value perhaps in quotes. *)
Record assignment := mkAssignment { a_name : str; a_value : str; a_quote : option ascii }.

Definition written (a : assignment) : str :=
  match a_quote a with None => a_value a | Some c => c :: a_value a ++ [c] end.
Definition line_of (a : assignment) : str := a_name a ++ "="%char :: written a.
Definition file_of (xs : list assignment) : str := xs ≫= λ a, line_of a ++ [newline].

Definition literal (s : str) : Prop := Forall (λ c, c ≠ dollar ∧ c ≠ newline ∧ c ≠ zero) s.
Record good_assignment (a : assignment) : Prop := {
  ga_name : trimmed (a_name a) ∧ literal (a_name a) ∧ a_name a ≠ [] ∧ "="%char ∉ a_name a;
  ga_literal : literal (a_value a);
  ga_value : match a_quote a with
             | None => trimmed (a_value a) ∧ unquoted (a_value a)
             | Some c => c = double_quote ∨ c = "'"%char
             end;
}.

Lemma literal_no c s : literal s → c = dollar ∨ c = newline ∨ c = zero → c ∉ s.
Proof.
  intros Hs Hc Hin. unfold literal in Hs. rewrite Forall_forall in Hs.
  destruct (Hs c Hin) as (? & ? & ?). by destruct Hc as [->|[->| ->]].
Qed.

Lemma written_value a : good_assignment a → strip_quotes (trim_copy (written a)) = a_value a.
Proof.
  intros [_ _ Hv]. unfold written, trim_copy. destruct (a_quote a) as [c|].
  - assert (isspace c = false) as Hc by (by destruct Hv as [->| ->]).
    rewrite trim_id.
    + unfold strip_quotes. cbv zeta. simpl length. rewrite length_app. simpl length.
      rewrite decide_False by lia. rewrite decide_True.
      * unfold substr. cbn [drop]. apply take_app_length'. lia.
      * rewrite app_comm_cons, last_snoc. simpl. split; [done|].
        destruct Hv as [->| ->]; [by left|by right].
    + split; intros c'; [by intros [= <-]|]. rewrite app_comm_cons, last_snoc. by intros [= <-].
  - destruct Hv as [Ht Hu]. by rewrite trim_id, strip_quotes_id.
Qed.

(** With the flag [Preserve] a variable that is set is kept. *)
Definition kept (flags : Z) (σ : State) (n : str) : bool :=
  bool_decide (Z.land (Z.lnot flags) Preserve = 0%Z ∧ is_Some (environ σ !! n)).

(** What an assignment does. *)
Definition assign (flags : Z) (a : assignment) (σ : State) : State :=
  if kept flags σ (a_name a) then σ
  else mkState (<[a_name a := a_value a]> (environ σ)) (cout σ).

Lemma do_line_assigns flags i a σ :
  good_assignment a → do_line flags i (line_of a) σ = Done (tt, assign flags a σ).
Proof.
  intros Ha. destruct (ga_name _ Ha) as (Ht & Hl & Hne & Heq).
  assert (find (line_of a) (text "=") (Some 0) = Some (length (a_name a))) as Ef.
  { pose proof (find_from [] (line_of a) ["="%char]) as Ef. unfold line_of in *.
    rewrite search_char in Ef by done. exact Ef. }
  unfold do_line. rewrite Ef. cbv zeta.
  assert (substr (line_of a) 0 (length (a_name a)) = a_name a) as ->
    by (unfold substr; rewrite drop_0; apply take_app_length).
  assert (drop (length (a_name a) + 1) (line_of a) = written a) as ->.
  { unfold line_of. rewrite <- drop_drop, drop_app_length. simpl. apply drop_0. }
  rewrite (written_value a Ha). unfold trim_copy. rewrite trim_id by done.
  pose proof (resolve_template i (mkTemplate [] (a_value a)) σ
    (literal_no _ _ (ga_literal _ Ha) (or_introl eq_refl))) as E.
  unfold render, expand in E. simpl in E. rewrite printed_nil in E.
  rewrite (bind_done _ _ _ _ _ E). simpl. unfold setenv, assign, mmodify. simpl.
  rewrite !c_str_id by (apply literal_no; [done || apply Ha|auto]).
  rewrite decide_False by (by intros [?|?]). unfold kept. case_bool_decide as Hk.
  - by rewrite decide_True.
  - by rewrite decide_False.
Qed.

Lemma do_lines_assign flags i xs σ :
  Forall good_assignment xs →
  do_lines flags i (line_of <$> xs) σ = Done (tt, foldl (λ σ a, assign flags a σ) σ xs).
Proof.
  intros Hxs. revert i σ. induction Hxs as [|x xs Hx _ IH]; intros i σ; [done|]. simpl.
  by rewrite (bind_done _ _ _ _ _ (do_line_assigns flags i x σ Hx)).
Qed.

Lemma line_of_newline a : good_assignment a → newline ∉ line_of a.
Proof.
  intros Ha. destruct (ga_name _ Ha) as (_ & Hl & _).
  assert (newline ∉ a_value a) as Hv by (apply literal_no; [apply Ha|auto]).
  assert (newline ∉ a_name a) as Hn by (apply literal_no; auto).
  pose proof (ga_value _ Ha) as Hq. unfold line_of, written.
  rewrite elem_of_app, elem_of_cons. intros [H|[H|H]]; [done|done|].
  destruct (a_quote a) as [c|]; [|done].
  apply elem_of_cons in H as [H|[H|H%list_elem_of_singleton]%elem_of_app]; [|done|];
    subst c; by destruct Hq.
Qed.

Lemma lines_file xs : Forall good_assignment xs → lines (file_of xs) = line_of <$> xs.
Proof.
  intros Hxs. unfold file_of. rewrite <- (lines_unlines (line_of <$> xs)).
  - f_equal. clear. induction xs as [|x xs IH]; [done|]. rewrite fmap_cons, !bind_cons. by f_equal.
  - apply Forall_fmap. eapply Forall_impl; [exact Hxs|]. apply line_of_newline.
Qed.

(** What assignments to different names leave. *)
Lemma assigns_other flags xs σ n :
  n ∉ a_name <$> xs → environ (foldl (λ σ a, assign flags a σ) σ xs) !! n = environ σ !! n.
Proof.
  revert σ. induction xs as [|x xs IH]; intros σ Hn; [done|]. rewrite fmap_cons in Hn. simpl.
  rewrite IH by set_solver. unfold assign. destruct (kept _ _ _); [done|]. simpl.
  rewrite lookup_insert_ne; [done|]. set_solver.
Qed.

Lemma assigns_lookup flags xs σ a :
  NoDup (a_name <$> xs) → a ∈ xs →
  environ (foldl (λ σ a, assign flags a σ) σ xs) !! a_name a =
    if kept flags σ (a_name a) then environ σ !! a_name a else Some (a_value a).
Proof.
  revert σ. induction xs as [|x xs IH]; intros σ Hnd Ha; [by apply not_elem_of_nil in Ha|].
  rewrite fmap_cons in Hnd. apply NoDup_cons in Hnd as [Hx Hnd]. cbn [foldl].
  apply elem_of_cons in Ha as [->|Ha].
  - rewrite assigns_other by done. unfold assign. destruct (kept _ _ _); [done|]. simpl.
    by rewrite lookup_insert_eq.
  - rewrite IH by done. assert (a_name x ≠ a_name a) as Hne
      by (intros E; apply Hx; rewrite E; by apply list_elem_of_fmap_2).
    assert (environ (assign flags x σ) !! a_name a = environ σ !! a_name a) as E
      by (unfold assign; destruct (kept _ _ _); [done|]; simpl; by rewrite lookup_insert_ne).
    unfold kept. by rewrite E.
Qed.

Lemma assigns_cout flags xs σ : cout (foldl (λ σ a, assign flags a σ) σ xs) = cout σ.
Proof.
  revert σ. induction xs as [|x xs IH]; intros σ; [done|]. simpl. rewrite IH.
  unfold assign. by destruct (kept _ _ _).
Qed.
End Dotenv.
