(* ===== verification/DotenvResults.v ===== *)
(** The results on dotenv.h, each with an instance on a concrete file. *)

From Stdlib Require Import Ascii.
From S2P Require Import Prelude Dotenv.

Module DotenvResults.
Import Dotenv.

(** C28: reading the environment file always comes to an end, whatever the file holds:
    the loop that looks for variables moves on with every turn, and a text whose
    last variable has no end tag leaves it as well. *)
Theorem dotenv_init_total flags file σ : ∃ σ', do_init flags file σ = Done (tt, σ').
Proof. destruct file as [s|]; [apply do_lines_ends|by eexists]. Qed.

(** C27: [resolve_vars] replaces every [${n}], and every [$n] up to the next space or the
    end of the text, by the value of the variable [n], and keeps the text around
    them; it succeeds when each has a value, and says for each that has none on
    which line it stands. *)
Theorem dotenv_expands iline t σ :
  wf t →
  resolve_vars iline (render t) σ =
    Done ((expand (environ σ) t, bool_decide (undefined (environ σ) (vars t) = 0)),
          printed (complaints (environ σ) iline (vars t) (final t)) σ).
Proof. apply resolve_template. Qed.

(** C26: a file of assignments to different names, their values in quotes or not, sets
    them all to their values, but with the flag [Preserve] those that were set keep
    theirs; [getenv] then finds them, other variables are as before, and nothing is
    printed. *)
Theorem dotenv_roundtrip flags xs σ :
  Forall good_assignment xs → NoDup (a_name <$> xs) →
  ∃ σ', do_init flags (Some (file_of xs)) σ = Done (tt, σ') ∧ cout σ' = cout σ ∧
    (∀ a def, a ∈ xs →
       getenv (a_name a) def σ' =
         Done (if kept flags σ (a_name a) then default def (environ σ !! a_name a) else a_value a,
               σ')) ∧
    (∀ n, n ∉ a_name <$> xs → environ σ' !! n = environ σ !! n).
Proof.
  intros Hxs Hnd. exists (foldl (λ σ a, assign flags a σ) σ xs). split_and!.
  - unfold do_init. rewrite lines_file by done. by apply do_lines_assign.
  - apply assigns_cout.
  - intros a def Ha. unfold getenv, std_getenv. rewrite bind_gets.
    rewrite Forall_forall in Hxs. pose proof (ga_name _ (Hxs a Ha)) as (_ & Hl & _).
    rewrite c_str_id by (by apply literal_no; auto). rewrite assigns_lookup by done.
    by destruct (kept _ _ _).
  - intros n Hn. by apply assigns_other.
Qed.

(** ** Instances *)

Lemma by_decision (P : Prop) `{Decision P} : bool_decide P = true → P.
Proof. apply bool_decide_eq_true_1. Qed.

Definition env1 : State := mkState {[ text "HOST" := text "local" ]} [].
Definition greeting : template :=
  mkTemplate [(text "at ", Brace (text "HOST")); (text " by ", Bare (text "USER"))] (text " now").

Lemma dotenv_expands_witness :
  wf greeting ∧ render greeting = text "at ${HOST} by $USER now" ∧
  resolve_vars 3 (render greeting) env1 =
    Done ((text "at local by  now", false),
          printed [text "dotenv: Variable $USER  is not defined on line 3" ++ endl] env1).
Proof.
  assert (wf greeting) as Hwf
    by (unfold wf; cbn [vars final greeting wf_from delimited]; split_and!; refine (by_decision _ _); by vm_compute).
  split; [exact Hwf|split; [reflexivity|]].
  exact (eq_trans (dotenv_expands 3 greeting env1 Hwf) eq_refl).
Defined.

Definition host : assignment := mkAssignment (text "HOST") (text "db") None.
Definition motto : assignment := mkAssignment (text "MOTTO") (text " two words ") (Some "'"%char).

Lemma host_good : good_assignment host.
Proof.
  split; simpl; [split_and!|..]; try (refine (by_decision _ _); by vm_compute).
  - split; by intros c [= <-].
  - split; [split|]; by intros c [= <-].
Qed.

Lemma motto_good : good_assignment motto.
Proof.
  split; simpl; [split_and!|..]; try (refine (by_decision _ _); by vm_compute).
  split; by intros c [= <-].
Qed.

(** The file [HOST=db], [MOTTO=' two words '], with and without [Preserve]. *)
Lemma dotenv_roundtrip_witness :
  (Forall good_assignment [host; motto] ∧ NoDup (a_name <$> [host; motto])) ∧
  (∃ σ', init_default (Some (file_of [host; motto])) env1 = Done (tt, σ') ∧
         getenv (text "HOST") [] σ' = Done (text "db", σ') ∧
         getenv (text "MOTTO") [] σ' = Done (text " two words ", σ')) ∧
  (∃ σ', init Preserve (Some (file_of [host; motto])) env1 = Done (tt, σ') ∧
         getenv (text "HOST") [] σ' = Done (text "local", σ')).
Proof.
  assert (Forall good_assignment [host; motto]) as Hg
    by (constructor; [apply host_good|constructor; [apply motto_good|constructor]]).
  assert (NoDup (a_name <$> [host; motto])) as Hnd by (refine (by_decision _ _); by vm_compute).
  split; [split; [exact Hg|exact Hnd]|split].
  - destruct (dotenv_roundtrip OptionsNone [host; motto] env1 Hg Hnd) as (σ' & E & _ & Hget & _).
    exists σ'. split; [exact E|split].
    + exact (Hget host [] ltac:(by left)).
    + exact (Hget motto [] ltac:(right; by left)).
  - destruct (dotenv_roundtrip Preserve [host; motto] env1 Hg Hnd) as (σ' & E & _ & Hget & _).
    exists σ'. split; [exact E|]. exact (Hget host [] ltac:(by left)).
Defined.
End DotenvResults.
