(* ===== verification/Singleton.v ===== *)
(** utils/singleton.h: one object of a class, made when it is first asked for.

    [getInstance] is a function on the static pointer and the objects made so far,
    and the steps of a call that several threads take: the test of the pointer, the
    construction, the store of the pointer, and the load for the reference that is
    returned.  Nothing in the code orders them. *)

From S2P Require Import Prelude Types.

Module Singleton.

Section singleton.
Context {T : Type}.

(** The static member, and the objects that [new TInstance()] made; a pointer is an
    index. *)
Record Singleton := mkSingleton { instance : ptr; objects : list T }.

Definition start : Singleton := mkSingleton nullptr [].

(** What [T()] constructs. *)
Context (ctor : T).

(** [new TInstance()]. *)
Definition new_instance : M Singleton ptr :=
  s ← mget;
  mput (mkSingleton (instance s) (objects s ++ [ctor]));;
  mret (Some (length (objects s))).

(** [*instance] *)
Definition deref (p : ptr) : M Singleton nat :=
  match p with Some i => mret i | None => mub NullDeref end.

Definition getInstance : M Singleton nat :=
  p ← mgets instance;
  (if decide (p = nullptr) then
     q ← new_instance;
     mmodify (λ s, mkSingleton q (objects s))
   else mret tt);;
  p ← mgets instance;
  deref p.

(** ** Calls by several threads *)

(** Before the test, before the construction, before the store of the pointer,
    before the load, and after the return of a reference. *)
Inductive call :=
| G_test
| G_new
| G_store (p : ptr)
| G_load
| G_done (i : nat).

Definition call_step (c : call) : M Singleton call :=
  match c with
  | G_test => p ← mgets instance; mret (if decide (p = nullptr) then G_new else G_load)
  | G_new => p ← new_instance; mret (G_store p)
  | G_store p => mmodify (λ s, mkSingleton p (objects s));; mret G_load
  | G_load => p ← mgets instance; i ← deref p; mret (G_done i)
  | G_done i => mret G_test
  end.

(** The threads, each in a call, and the turns a scheduler gives them. *)
Definition threads : Type := list call * Singleton.

Definition turn (t : nat) (x : threads) : outcome threads :=
  match x.1 !! t with
  | None => Done x
  | Some c =>
      match call_step c x.2 with
      | Done (c', s) => Done (<[t := c']> x.1, s)
      | Exited m => Exited m
      | UB f => UB f
      | Timeout => Timeout
      end
  end.

Fixpoint turns (ts : list nat) (x : threads) : outcome threads :=
  match ts with
  | [] => Done x
  | t :: ts => match turn t x with Done x => turns ts x | o => o end
  end.

Lemma turn_done t c c' l s s' :
  l !! t = Some c → call_step c s = Done (c', s') → turn t (l, s) = Done (<[t := c']> l, s').
Proof. intros E Es. unfold turn. simpl. by rewrite E, Es. Qed.

Lemma turns_app ts us x :
  turns (ts ++ us) x = match turns ts x with Done y => turns us y | o => o end.
Proof. revert x. induction ts as [|t ts IH]; intros x; simpl; [done|]. by destruct (turn t x). Qed.

(** ** One thread *)

Lemma getInstance_first : getInstance start = Done (0, mkSingleton (Some 0) [ctor]).
Proof. reflexivity. Qed.

Lemma getInstance_again i s :
  instance s = Some i → getInstance s = Done (i, s).
Proof.
  intros E. unfold getInstance. rewrite bind_gets, E. rewrite decide_False by done.
  rewrite bind_ret, bind_gets, E. done.
Qed.

(** The steps of a call, taken one after the other, are [getInstance]. *)
Definition alone : M Singleton nat :=
  iterate 5 (λ c : call,
    if c is G_done i then mret (inr i) else c' ← call_step c; mret (inl c')) G_test.

Lemma alone_getInstance s : alone s = getInstance s.
Proof. destruct s as [[i|] l]; reflexivity. Qed.

Fixpoint get_all (n : nat) : M Singleton (list nat) :=
  match n with
  | O => mret []
  | S n => i ← getInstance; rest ← get_all n; mret (i :: rest)
  end.

Lemma get_all_run n i s :
  instance s = Some i → get_all n s = Done (replicate n i, s).
Proof.
  intros E. induction n as [|n IH]; [done|]. simpl.
  by rewrite (bind_done _ _ _ _ _ (getInstance_again i s E)), (bind_done _ _ _ _ _ IH).
Qed.

(** Called by one thread, [getInstance] makes one object, at the first call, and all
    calls return it. *)
Theorem singleton_once n :
  get_all (S n) start = Done (replicate (S n) 0, mkSingleton (Some 0) [ctor]).
Proof.
  simpl. rewrite (bind_done _ _ _ _ _ getInstance_first).
  by rewrite (bind_done _ _ _ _ _ (get_all_run n 0 (mkSingleton (Some 0) [ctor]) eq_refl)).
Qed.

(** ** Several threads, after a first call *)

(** In a call that began when the object was there. *)
Definition late (i : nat) (c : call) : Prop :=
  match c with G_test | G_load => True | G_done j => j = i | _ => False end.

Lemma turn_late t i l s :
  instance s = Some i → Forall (late i) l → ∃ l', turn t (l, s) = Done (l', s) ∧ Forall (late i) l'.
Proof.
  intros E Hl. unfold turn. simpl. destruct (l !! t) as [c|] eqn:Ec; [|by exists l].
  rewrite Forall_forall in Hl. pose proof (Hl c (list_elem_of_lookup_2 _ _ _ Ec)) as Hc.
  rewrite <- Forall_forall in Hl.
  destruct c; simpl in Hc; try done; cbv [call_step mgets mbind M_bind mret M_ret deref]; rewrite ?E;
    rewrite ?decide_False by done; eexists; (split; [reflexivity|]); by apply Forall_insert.
Qed.

(** Once the object is there, every call returns it and makes no other. *)
Lemma turns_late ts l s i :
  instance s = Some i → Forall (late i) l →
  ∃ l', turns ts (l, s) = Done (l', s) ∧ Forall (late i) l'.
Proof.
  intros E. revert l. induction ts as [|t ts IH]; intros l Hl; [by exists l|].
  destruct (turn_late t i l s E Hl) as (l1 & E1 & Hl1). destruct (IH l1 Hl1) as (l2 & E2 & Hd).
  exists l2. simpl. by rewrite E1.
Qed.

(** Four turns of one thread take a first call from its test to its return: the
    object is made and the pointer holds it. *)
Lemma first_call t l :
  l !! t = Some G_test →
  turns (replicate 4 t) (l, start) = Done (<[t := G_done 0]> l, mkSingleton (Some 0) [ctor]).
Proof.
  intros Ht. pose proof (lookup_lt_Some _ _ _ Ht) as Hlen. cbn [replicate turns].
  rewrite (turn_done t G_test G_new l start start Ht eq_refl).
  do 3 (erewrite turn_done; [|by apply list_lookup_insert_eq; rewrite ?length_insert|reflexivity];
        rewrite list_insert_insert_eq).
  done.
Qed.

(** C38: No thread has asked yet.  One thread makes the first call and it runs to its
    return before the others take a step; then the threads call in any interleaving.
    The first call makes the object, and every call by every thread, then and
    later, returns that object and makes no other. *)
Theorem singleton_shared t l ts :
  Forall (λ c, c = G_test) l → t < length l →
  ∃ l', turns (replicate 4 t) (l, start) =
          Done (<[t := G_done 0]> l, mkSingleton (Some 0) [ctor]) ∧
        turns (replicate 4 t ++ ts) (l, start) = Done (l', mkSingleton (Some 0) [ctor]) ∧
        ∀ t' j, l' !! t' = Some (G_done j) → j = 0.
Proof.
  intros Hl Ht. destruct (lookup_lt_is_Some_2 l t Ht) as [c Hc].
  pose proof Hl as Hl'. rewrite Forall_forall in Hl'.
  rewrite (Hl' c (list_elem_of_lookup_2 _ _ _ Hc)) in Hc.
  assert (Forall (late 0) (<[t := G_done 0]> l)) as Hlate.
  { apply Forall_insert; [|done]. by eapply Forall_impl; [exact Hl|intros ? ->]. }
  destruct (turns_late ts _ (mkSingleton (Some 0) [ctor]) 0 eq_refl Hlate) as (l' & E & Hd).
  exists l'. rewrite turns_app, (first_call t l Hc). split_and!; [done|exact E|].
  intros t' j Hj. rewrite Forall_forall in Hd.
  exact (Hd _ (list_elem_of_lookup_2 _ _ _ Hj)).
Qed.

(** Two threads that ask first at the same time both find the pointer null: two
    objects are made, and the threads hold different ones. *)
Theorem singleton_twice :
  turns [0; 1; 0; 0; 0; 1; 1; 1] ([G_test; G_test], start) =
    Done ([G_done 0; G_done 1], mkSingleton (Some 1) [ctor; ctor]).
Proof. reflexivity. Qed.
End singleton.

(** The second of two threads asks first; then both ask, their steps interleaved. *)
Lemma singleton_shared_witness :
  Forall (λ c, c = G_test) [G_test; G_test] ∧
  turns 7 ([1; 1; 1; 1] ++ [0; 1; 0; 1; 1]) ([G_test; G_test], start) =
    Done ([G_done 0; G_done 0], mkSingleton (Some 0) [7]).
Proof.
  assert (Forall (λ c, c = G_test) [G_test; G_test]) as Hl by (by repeat constructor).
  split; [exact Hl|].
  destruct (singleton_shared 7 1 _ [0; 1; 0; 1; 1] Hl ltac:(simpl; lia)) as (l & _ & E & _).
  vm_compute in E. vm_compute. injection E as <-. done.
Defined.
End Singleton.
