(* ===== verification/ThreadUtils.v ===== *)
(** utils/thread_utils.h: a thread that calls a function with some arguments.

    [createAndStartThread] makes the thread, sleeps for a second and returns it.  The
    thread uses the function and its arguments by reference, so those that are
    temporaries of the caller are gone once its call expression is over; the sleep
    makes it likely, but does not ensure, that the thread has run by then.  What the
    function does is a parameter, a computation on the memory the threads share. *)

From S2P Require Import Prelude Types.

Module ThreadUtils.

(** The caller: before the call, in the sleep, when the thread was returned, and when
    the call expression is over. *)
Inductive caller := C_call | C_sleep | C_returned | C_over.

(** The thread: not made, before the call of the function, and ended. *)
Inductive worker := W_none | W_ready | W_ended.

Section thread.
Context {A S : Type} (func : A → M S unit).

(** The arguments of the call, whether they are temporaries, and whether they live. *)
Record state := mkState {
  args : A;
  temporary : bool;
  alive : bool;
  at_caller : caller;
  at_worker : worker;
  memory : S;
}.

Definition start (a : A) (temp : bool) (σ : S) : state := mkState a temp true C_call W_none σ.

Definition caller_step (s : state) : outcome state :=
  match at_caller s with
  | C_call => Done (mkState (args s) (temporary s) (alive s) C_sleep W_ready (memory s))
  | C_sleep => Done (mkState (args s) (temporary s) (alive s) C_returned (at_worker s) (memory s))
  | C_returned =>
      Done (mkState (args s) (temporary s) (alive s && negb (temporary s)) C_over (at_worker s) (memory s))
  | C_over => Done s
  end.

(** The body of the lambda. *)
Definition worker_step (s : state) : outcome state :=
  match at_worker s with
  | W_ready =>
      if alive s then
        match func (args s) (memory s) with
        | Done (_, σ) => Done (mkState (args s) (temporary s) (alive s) (at_caller s) W_ended σ)
        | Exited m => Exited m
        | UB f => UB f
        | Timeout => Timeout
        end
      else UB DeadObject
  | _ => Done s
  end.

Inductive thread := Caller | Worker.

Fixpoint turns (ts : list thread) (s : state) : outcome state :=
  match ts with
  | [] => Done s
  | t :: ts =>
      match (match t with Caller => caller_step s | Worker => worker_step s end) with
      | Done s => turns ts s
      | o => o
      end
  end.

(** The function ran once, on the memory as it was, or not yet; it will find its
    arguments. *)
Record sound (a : A) (σ σ' : S) (s : state) : Prop := {
  so_args : args s = a;
  so_call : at_caller s = C_call → at_worker s = W_none;
  so_memory : memory s = if at_worker s is W_ended then σ' else σ;
  so_alive : at_worker s ≠ W_ended → alive s = true ∧ temporary s = false;
}.

Lemma step_sound a σ σ' t s :
  func a σ = Done (tt, σ') → sound a σ σ' s →
  ∃ s', (match t with Caller => caller_step s | Worker => worker_step s end) = Done s' ∧
        sound a σ σ' s'.
Proof.
  intros Hf [Ha Hc Hm Hl]. destruct s as [b temp al c w mem]. simpl in *. subst b.
  destruct t; [destruct c|destruct w]; unfold caller_step, worker_step; simpl;
    try (eexists; split; [reflexivity|]; split; simpl; done).
  - rewrite (Hc eq_refl) in *. eexists. split; [reflexivity|]. split; simpl; try done. by intros _; apply Hl.
  - eexists. split; [reflexivity|]. split; simpl; try done. intros Hw.
    by destruct (Hl Hw) as [-> ->].
  - destruct (Hl ltac:(done)) as [-> ->]. rewrite Hm, Hf. eexists. split; [reflexivity|].
    split; simpl; try done. intros ->. by specialize (Hc eq_refl).
Qed.

Lemma turns_sound a σ σ' ts s :
  func a σ = Done (tt, σ') → sound a σ σ' s →
  ∃ s', turns ts s = Done s' ∧ sound a σ σ' s'.
Proof.
  intros Hf. revert s. induction ts as [|t ts IH]; intros s Hs; [by exists s|].
  destruct (step_sound a σ σ' t s Hf Hs) as (s1 & E1 & Hs1).
  destruct (IH s1 Hs1) as (s2 & E2 & Hs2). exists s2. simpl. by rewrite E1.
Qed.

(** The thread calls the function once, with the arguments it was given, whatever the
    interleaving, when they outlive the call of [createAndStartThread]; temporaries
    will do when the thread runs before the caller's sleep is over. *)
Theorem thread_calls_once a temp σ σ' ts :
  func a σ = Done (tt, σ') →
  (temp = false ∨ ∃ ts', ts = Caller :: Worker :: ts') →
  ∃ s, turns ts (start a temp σ) = Done s ∧
       memory s = if at_worker s is W_ended then σ' else σ.
Proof.
  intros Hf [->|[ts' ->]].
  - destruct (turns_sound a σ σ' ts (start a false σ) Hf) as (s & E & Hs); [by split|].
    exists s. split; [done|]. apply Hs.
  - simpl. unfold worker_step. simpl. rewrite Hf.
    destruct (turns_sound a σ σ' ts' (mkState a temp true C_sleep W_ended σ') Hf) as (s & E & Hs);
      [by split|]. exists s. split; [done|]. apply Hs.
Qed.

(** A thread that is late uses temporaries that are gone. *)
Theorem late_thread_undefined a σ :
  turns [Caller; Caller; Caller; Worker] (start a true σ) = UB DeadObject.
Proof. reflexivity. Qed.
End thread.

(** A thread that adds to a counter. *)
Lemma thread_calls_once_witness :
  turns (A := nat) (S := nat) (λ n, mmodify (Nat.add n)) [Caller; Caller; Worker; Caller] (start 2 false 5) =
    Done (mkState 2 false true C_over W_ended 7) ∧
  ∃ s, turns (A := nat) (S := nat) (λ n, mmodify (Nat.add n)) [Caller; Caller; Worker; Caller]
         (start 2 false 5) = Done s ∧ memory s = if at_worker s is W_ended then 7 else 5.
Proof.
  split; [reflexivity|].
  apply (thread_calls_once (A := nat) (S := nat) (λ n, mmodify (Nat.add n)) 2 false 5 7
    [Caller; Caller; Worker; Caller] eq_refl). by left.
Defined.
End ThreadUtils.
