(* ===== verification/UnitTests.v ===== *)
(** The tests of the repository (src/test/include) as programs of the model, run
    by the kernel: each [Example] is a TEST_CASE with the calls it makes and, in
    [check], the fields it looks at; a check that fails ends the run with a message.

    The tests of object_pool_test.cpp, order_test.cpp, orderbook_test.cpp,
    fifo_sequencer_test.cpp and cppexchange_test.cpp pass.  Two of the three tests of
    lf_queue_test.cpp cannot pass: they fill a queue to its size, and the code then
    takes it for empty.  Three further programs show defects: a stranger cancels an
    order, and after cancels that return the best bid is a level given back. *)

From S2P Require Import Prelude Types Memory ObjectPool PriceLevel LFQueue TimeUtils.
From S2P Require Import OrderBook BookTheorems Exchange Sequencer.
Local Open Scope Z_scope.

Module UnitTests.
#[local] Existing Instances BookTheorems.small BookTheorems.ticks.

(** CHECK of doctest: a check that fails ends the run here. *)
Definition check {S} (b : bool) : M S unit := if b then mret tt else mexit "CHECK failed".

(** How a run ended, without its state. *)
Definition ended {A} (o : outcome A) : outcome unit :=
  match o with
  | Done _ => Done tt
  | Exited msg => Exited msg
  | UB f => UB f
  | Timeout => Timeout
  end.
Definition passes {S A} (m : M S A) (s : S) : Prop := ended (m s) = Done tt.

(** [queue.pop()->…] *)
Definition pop_item {T} : M (LFQueue T) T := p ← LFQueue.pop; LFQueue.item_at p.
Definition pop_null {T} : M (LFQueue T) unit :=
  p ← LFQueue.pop; check (bool_decide (p = nullptr)).

(** ** object_pool_test.cpp *)

Definition pool_order (id q p : Z) (side : OrderSide) : Order := Order.make 0 id 0 1 side q p.

Definition pool_test : M (ObjectPool Order) unit :=
  order_0 ← ObjectPool.getObject (pool_order 0 1 9 OrderSide.SELL);
  order_1 ← ObjectPool.getObject (pool_order 1 2 9 OrderSide.SELL);
  check (bool_decide (order_0 ≠ order_1));;
  ObjectPool.releaseObject order_0;;
  ObjectPool.releaseObject order_1;;
  ObjectPool.getObject (pool_order 2 2 8 OrderSide.BUY);;
  ObjectPool.getObject (pool_order 3 2 8 OrderSide.SELL);;
  mret tt.

Example order_object_pool : passes pool_test (ObjectPool.ctor Order.default 3).
Proof. by vm_compute. Qed.

(** ** order_test.cpp *)

Example order_properties :
  let order := Order.make 0 0 1 1 OrderSide.BUY 4 5 in
  (Order.order_id order, Order.client_id order, Order.side order, Order.quantity order,
   Order.executed order) = (0, 1, OrderSide.BUY, 4, 0).
Proof. done. Qed.

Example chaining_levels p :
  OrdersPriceLevel.getNextPriceLevel
    (OrdersPriceLevel.setNextPriceLevel p OrdersPriceLevel.default) = p.
Proof. done. Qed.

(** The two orders are variables of the test, at 0 and 1. *)

Definition order0 : Order := Order.make 0 0 2 0 OrderSide.BUY 5 10.
Definition order1 : Order := Order.make 0 1 2 1000 OrderSide.BUY 6 10.
Definition variables : gmap nat Order := {[ 0%nat := order0; 1%nat := order1 ]}.

Definition check_top (p : ptr) : M (PriceLevel.St (gmap nat Order)) unit :=
  top ← PriceLevel.member OrdersPriceLevel.top_order;
  check (bool_decide (top = p)).

Definition level_test : M (PriceLevel.St (gmap nat Order)) unit :=
  PriceLevel.setPriceLevel 10;;
  check_top nullptr;;
  PriceLevel.add (Some 0%nat);;
  check_top (Some 0%nat);;
  PriceLevel.add (Some 1%nat);;
  check_top (Some 0%nat);;
  PriceLevel.cancel 0;;
  check_top (Some 1%nat);;
  PriceLevel.cancel 1;;
  check_top nullptr.

Example level_add_and_cancel :
  passes level_test (PriceLevel.mkSt variables OrdersPriceLevel.default).
Proof. by vm_compute. Qed.

(** ** lf_queue_test.cpp *)

Example pop_of_empty : passes pop_null (LFQueue.ctor 0 10).
Proof. by vm_compute. Qed.

Fixpoint push_all (l : list Z) : M (LFQueue Z) unit :=
  match l with [] => mret tt | x :: l => LFQueue.push x;; push_all l end.
Fixpoint pop_all (l : list Z) : M (LFQueue Z) unit :=
  match l with
  | [] => mret tt
  | x :: l => y ← pop_item; check (bool_decide (y = x));; pop_all l
  end.
Definition items : list Z := [0; 1; 2; 3; 4; 5; 6; 7; 8; 9].

(** "LFQueue consume and produce no overflow": after ten pushes to a queue of ten
    slots [pop] returns null, and the test reads through it. *)
Example ten_items_in_ten_slots :
  (push_all items;; pop_all items) (LFQueue.ctor 0 10) = UB NullDeref.
Proof. by vm_compute. Qed.

(** One slot more is enough. *)
Example ten_items_in_eleven_slots : passes (push_all items;; pop_all items) (LFQueue.ctor 0 11).
Proof. by vm_compute. Qed.

(** "LFQueue consume and produce threaded": the thread that pushes sleeps first. *)
Example one_item_in_one_slot :
  (pop_null;; LFQueue.push 2;; pop_all [2]) (LFQueue.ctor 0 1) = UB NullDeref.
Proof. by vm_compute. Qed.

(** ** orderbook_test.cpp

    Each test makes a book and its two queues; ticker 0, trade ids from 1. *)

Definition new_book : OrderBook.St :=
  OrderBook.mkSt (OrderBook.ctor 0)
    (OrderBook.mkEnv (LFQueue.ctor ClientResponse.default 16)
       (LFQueue.ctor MarketUpdate.default 16) 1 0).

Definition in_responses {A} : M (LFQueue ClientResponse) A → M OrderBook.St A :=
  zoom (λ s, OrderBook.client_response_queue (OrderBook.env s))
    (λ q, OrderBook.with_env (OrderBook.set_client_response_queue q)).
Definition in_updates {A} : M (LFQueue MarketUpdate) A → M OrderBook.St A :=
  zoom (λ s, OrderBook.market_update_queue (OrderBook.env s))
    (λ q, OrderBook.with_env (OrderBook.set_market_update_queue q)).
Definition pop_response : M OrderBook.St ClientResponse := in_responses pop_item.
Definition pop_update : M OrderBook.St MarketUpdate := in_updates pop_item.

Definition is_response (type : ResponseType) (cid oid : Z) (side : OrderSide) (q price : Z)
    (r : ClientResponse) : bool :=
  bool_decide (r = ClientResponse.mk type 0 cid oid side q price (ClientResponse.ns_timestamp r)
    ∧ ClientResponse.ns_timestamp r ≠ NsTimestamp_INVALID).
Definition is_update (type : UpdateType) (oid tid : Z) (side : OrderSide) (q price : Z)
    (u : MarketUpdate) : bool :=
  bool_decide (u = MarketUpdate.mk type 0 oid tid side q price (MarketUpdate.ns_timestamp u)
    ∧ MarketUpdate.ns_timestamp u ≠ NsTimestamp_INVALID).

Definition expect_response type cid oid side q price : M OrderBook.St unit :=
  r ← pop_response; check (is_response type cid oid side q price r).
Definition expect_update type oid tid side q price : M OrderBook.St unit :=
  u ← pop_update; check (is_update type oid tid side q price u).

(** An order that rests, with its two messages. *)
Definition rest (oid cid : Z) (side : OrderSide) (q price : Z) : M OrderBook.St unit :=
  OrderBook.add oid cid side q price;;
  expect_response ResponseType.ACCEPTED cid oid side q price;;
  expect_update UpdateType.ADD oid TradeId_INVALID side q price.

Example insert_bid_and_ask :
  passes (rest 0 2 OrderSide.BUY 5 9;; rest 1 2 OrderSide.SELL 6 11) new_book.
Proof. by vm_compute. Qed.

Definition cancel_test : M OrderBook.St unit :=
  OrderBook.add 0 2 OrderSide.BUY 5 10;;
  r ← pop_response;
  pop_update;;
  OrderBook.cancel 2 0 OrderSide.BUY 10;;
  r' ← pop_response;
  check (is_response ResponseType.CANCELED 2 0 OrderSide.BUY 5 10 r');;
  check (bool_decide (ClientResponse.ns_timestamp r < ClientResponse.ns_timestamp r'));;
  expect_update UpdateType.REMOVE 0 TradeId_INVALID OrderSide.BUY 5 10.

Example cancel_order : passes cancel_test new_book.
Proof. by vm_compute. Qed.

(** Not a test of the repository: client 9 cancels the order of client 2, naming the
    other side, and gets the answer. *)
Definition stranger_test : M OrderBook.St unit :=
  rest 0 2 OrderSide.BUY 5 10;;
  OrderBook.cancel 9 0 OrderSide.SELL 10;;
  expect_response ResponseType.CANCELED 9 0 OrderSide.SELL 5 10;;
  in_responses pop_null.

Example stranger_cancels : passes stranger_test new_book.
Proof. by vm_compute. Qed.

(** Not a test of the repository: bids at 10, 12 and 11, of which the one at 11 is on a
    level that nothing links to but whose next level is the one at 10.  The cancels at
    12, 10 and 11 all return; the last one makes the level at 10, given back to the
    pool before, the best of the side, and the next ask follows it. *)
Definition three_bids : M OrderBook.St unit :=
  OrderBook.add 0 2 OrderSide.BUY 5 10;;
  OrderBook.add 1 2 OrderSide.BUY 5 12;;
  OrderBook.add 2 2 OrderSide.BUY 5 11;;
  OrderBook.cancel 2 1 OrderSide.BUY 12;;
  OrderBook.cancel 2 0 OrderSide.BUY 10;;
  OrderBook.cancel 2 2 OrderSide.BUY 11.

Example cancels_return : passes three_bids new_book.
Proof. by vm_compute. Qed.

Example best_bid_dangles :
  ended ((three_bids;; p ← mgets (λ s, OrderBook.best_bids (OrderBook.book s));
          check (bool_decide (p ≠ nullptr));;
          OrderBook.add 3 3 OrderSide.SELL 5 9) new_book) = UB NullDeref.
Proof. by vm_compute. Qed.

Definition single_maker_test : M OrderBook.St unit :=
  rest 1 1 OrderSide.SELL 1 10;;
  OrderBook.add 2 2 OrderSide.BUY 1 11;;
  expect_response ResponseType.ACCEPTED 2 2 OrderSide.BUY 1 11;;
  expect_update UpdateType.TRADE OrderId_INVALID 1 OrderSide.BUY 1 10;;
  expect_update UpdateType.REMOVE 1 TradeId_INVALID OrderSide.SELL 1 10;;
  expect_response ResponseType.FILLED 1 1 OrderSide.SELL 1 10;;
  expect_response ResponseType.FILLED 2 2 OrderSide.BUY 1 10.

Example filled_by_single_maker : passes single_maker_test new_book.
Proof. by vm_compute. Qed.

(** Asks: 1 at 10, and 1 and 2 at 11, the level of 11 made first; the taker takes 3. *)
Definition multiple_makers_test : M OrderBook.St unit :=
  rest 1 1 OrderSide.SELL 1 11;;
  rest 2 2 OrderSide.SELL 1 10;;
  rest 3 3 OrderSide.SELL 2 11;;
  OrderBook.add 4 4 OrderSide.BUY 3 11;;
  expect_response ResponseType.ACCEPTED 4 4 OrderSide.BUY 3 11;;
  expect_update UpdateType.TRADE OrderId_INVALID 1 OrderSide.BUY 1 10;;
  expect_update UpdateType.REMOVE 2 TradeId_INVALID OrderSide.SELL 1 10;;
  expect_response ResponseType.FILLED 2 2 OrderSide.SELL 1 10;;
  expect_response ResponseType.FILLED 4 4 OrderSide.BUY 1 10;;
  expect_update UpdateType.TRADE OrderId_INVALID 2 OrderSide.BUY 1 11;;
  expect_update UpdateType.REMOVE 1 TradeId_INVALID OrderSide.SELL 1 11;;
  expect_response ResponseType.FILLED 1 1 OrderSide.SELL 1 11;;
  expect_response ResponseType.FILLED 4 4 OrderSide.BUY 1 11;;
  expect_update UpdateType.TRADE OrderId_INVALID 3 OrderSide.BUY 1 11;;
  expect_update UpdateType.MODIFY 3 TradeId_INVALID OrderSide.SELL 1 11;;
  expect_response ResponseType.FILLED 3 3 OrderSide.SELL 1 11;;
  expect_response ResponseType.FILLED 4 4 OrderSide.BUY 1 11.

Example filled_by_multiple_makers : passes multiple_makers_test new_book.
Proof. by vm_compute. Qed.

(** Two asks whose prices are MAX_PRICE_LEVELS apart. *)
Definition wrap_around_test : M OrderBook.St unit :=
  rest 1 1 OrderSide.SELL 1 (10 + Z.of_nat MAX_PRICE_LEVELS);;
  rest 2 2 OrderSide.SELL 1 10;;
  OrderBook.add 3 3 OrderSide.BUY 1 10;;
  expect_response ResponseType.ACCEPTED 3 3 OrderSide.BUY 1 10;;
  expect_update UpdateType.TRADE OrderId_INVALID 1 OrderSide.BUY 1 10;;
  expect_update UpdateType.REMOVE 2 TradeId_INVALID OrderSide.SELL 1 10;;
  expect_response ResponseType.FILLED 2 2 OrderSide.SELL 1 10;;
  expect_response ResponseType.FILLED 3 3 OrderSide.BUY 1 10.

Example price_wrap_around : passes wrap_around_test new_book.
Proof. by vm_compute. Qed.

Definition partial_fill_test : M OrderBook.St unit :=
  rest 1 1 OrderSide.SELL 1 10;;
  OrderBook.add 2 2 OrderSide.BUY 2 11;;
  expect_response ResponseType.ACCEPTED 2 2 OrderSide.BUY 2 11;;
  expect_update UpdateType.TRADE OrderId_INVALID 1 OrderSide.BUY 1 10;;
  expect_update UpdateType.REMOVE 1 TradeId_INVALID OrderSide.SELL 1 10;;
  expect_response ResponseType.FILLED 1 1 OrderSide.SELL 1 10;;
  expect_response ResponseType.FILLED 2 2 OrderSide.BUY 1 10;;
  expect_update UpdateType.ADD 2 TradeId_INVALID OrderSide.BUY 1 11.

Example partially_filled : passes partial_fill_test new_book.
Proof. by vm_compute. Qed.

(** ** fifo_sequencer_test.cpp *)

Definition a_request (client_id : Z) : ClientRequest :=
  ClientRequest.mk RequestType.ADD 0 client_id 2 OrderSide.BUY 10 5.
Definition check_client (client_id : Z) : M FifoSequencer.FifoSequencer unit :=
  zoom FifoSequencer.requests FifoSequencer.set_requests
    (r ← pop_item; check (bool_decide (ClientRequest.client_id r = client_id))).

Definition sequencer_test : M FifoSequencer.FifoSequencer unit :=
  FifoSequencer.addRequest (a_request 1) 1;;
  FifoSequencer.addRequest (a_request 2) 3;;
  FifoSequencer.addRequest (a_request 3) 2;;
  @FifoSequencer.sequenceAndPublish FifoSequencer.stable_sort;;
  check_client 1;; check_client 3;; check_client 2.

Example sequencer_sorts :
  passes sequencer_test (FifoSequencer.ctor (LFQueue.ctor ClientRequest.default 10)).
Proof. by vm_compute. Qed.

(** ** cppexchange_test.cpp

    The tests that start the thread wait for its answer: the thread takes a turn
    where they wait. *)

Definition on_new_exchange {A} (tickers : list TickerIdT) (m : M Exchange A) :
    outcome (A * Exchange) :=
  match Exchange.ctor (LFQueue.ctor ClientRequest.default 16)
          (LFQueue.ctor ClientResponse.default 16) (LFQueue.ctor MarketUpdate.default 16)
          tickers with
  | Done (_, x) => m x
  | Exited msg => Exited msg
  | UB f => UB f
  | Timeout => Timeout
  end.

Definition in_client_responses {A} : M (LFQueue ClientResponse) A → M Exchange A :=
  zoom (λ x, OrderBook.client_response_queue (Exchange.env x))
    (λ q x, Exchange.set_env (OrderBook.set_client_response_queue q (Exchange.env x)) x).

Definition expect type tid oid side q price : M Exchange NsTimestampT :=
  r ← in_client_responses pop_item;
  let ns := ClientResponse.ns_timestamp r in
  check (bool_decide (r = ClientResponse.mk type tid 2 oid side q price ns
                      ∧ ns ≠ NsTimestamp_INVALID));;
  mret ns.

Example add_tickers :
  ended (on_new_exchange [] (Exchange.addTicker 0;; Exchange.addTicker 1)) = Done tt.
Proof. by vm_compute. Qed.

Example add_order :
  ended (on_new_exchange [0; 1]
    (Exchange.addOrder 0 2 OrderSide.BUY 5 9;;
     expect ResponseType.ACCEPTED 0 1 OrderSide.BUY 5 9;;
     in_client_responses pop_null;;
     Exchange.addOrder 1 2 OrderSide.SELL 6 12;;
     expect ResponseType.ACCEPTED 1 2 OrderSide.SELL 6 12)) = Done tt.
Proof. by vm_compute. Qed.

Example asynchronous_order_add :
  ended (on_new_exchange [0]
    (Exchange.start;;
     Exchange.in_requests (LFQueue.push
       (ClientRequest.mk RequestType.ADD 0 2 OrderId_INVALID OrderSide.BUY 5 10));;
     Exchange.run_body;;
     expect ResponseType.ACCEPTED 0 1 OrderSide.BUY 5 10;;
     Exchange.stop)) = Done tt.
Proof. by vm_compute. Qed.

Example exchange_cancel_order :
  ended (on_new_exchange [0]
    (Exchange.start;;
     Exchange.addOrder 0 2 OrderSide.BUY 5 10;;
     add_ts ← expect ResponseType.ACCEPTED 0 1 OrderSide.BUY 5 10;
     Exchange.in_requests (LFQueue.push
       (ClientRequest.mk RequestType.CANCEL 0 2 1 OrderSide.BUY 5 10));;
     Exchange.run_body;;
     ns ← expect ResponseType.CANCELED 0 1 OrderSide.BUY 5 10;
     check (bool_decide (add_ts < ns));;
     Exchange.stop)) = Done tt.
Proof. by vm_compute. Qed.
End UnitTests.
