(* ===== verification/Feed.v ===== *)
(** What the messages of a book tell a reader of them.

    [shown] is the picture that the market updates give: a map from order ids to
    side, quantity and price, changed by ADD, MODIFY and REMOVE.  [standing] is the
    one that the client responses give: the accepted orders with what is not filled
    of them, and who sent them.  The lemmas say that the messages of BookSpec.v keep
    both pictures equal to the orders that rest in the book, with or without a link
    to their level. *)

From S2P Require Import Prelude Types PriceLevel LFQueue TimeUtils OrderBook BookSpec BookProps.
Local Open Scope Z_scope.

Module Feed.
Import BookSpec BookProps.
Implicit Types (os more : list Order) (fs : list Fill) (A : Book) (l : Level).

(** ** The two pictures *)

Abbreviation Market := (gmap Z (OrderSide * QuantityT * PriceT)).
Abbreviation Standing := (gmap Z (ClientIdT * OrderSide * QuantityT * PriceT)).

Definition apply_update (m : Market) (u : MarketUpdate) : Market :=
  let id := MarketUpdate.order_id u in
  match MarketUpdate.type u with
  | UpdateType.ADD | UpdateType.MODIFY =>
      <[id := (MarketUpdate.side u, MarketUpdate.quantity u, MarketUpdate.price u)]> m
  | UpdateType.REMOVE => delete id m
  | UpdateType.TRADE | UpdateType.INVALID => m
  end.

(** An order with nothing left does not stand. *)
Definition set_left (id : OrderIdT) (x : ClientIdT * OrderSide * QuantityT * PriceT)
    (m : Standing) : Standing :=
  if decide (x.1.2 = 0) then delete id m else <[id := x]> m.

Definition apply_response (m : Standing) (r : ClientResponse) : Standing :=
  let id := ClientResponse.order_id r in
  let q := ClientResponse.quantity r in
  match ClientResponse.type r with
  | ResponseType.ACCEPTED =>
      set_left id (ClientResponse.client_id r, ClientResponse.side r, q, ClientResponse.price r) m
  | ResponseType.FILLED =>
      match m !! id with
      | Some (client, side, open, price) => set_left id (client, side, open - q, price) m
      | None => m
      end
  | ResponseType.CANCELED => delete id m
  | _ => m
  end.

Definition shown (us : list MarketUpdate) (m : Market) : Market := foldl apply_update m us.
Definition standing (rs : list ClientResponse) (m : Standing) : Standing :=
  foldl apply_response m rs.

(** ** The orders of a book *)

Definition orders_of (A : Book) : list Order := side_orders (all_levels A).
Definition ids os : list OrderIdT := Order.order_id <$> os.

Definition market_entry (o : Order) : OrderSide * QuantityT * PriceT :=
  (Order.side o, Order.quantity o, Order.limit_price o).
Definition client_entry (o : Order) : ClientIdT * OrderSide * QuantityT * PriceT :=
  (Order.client_id o, Order.side o, Order.quantity o, Order.limit_price o).

(** The map from ids to what [f] shows of the orders. *)
Definition table {X} (f : Order → X) os : gmap Z X :=
  list_to_map ((λ o, (Order.order_id o, f o)) <$> os).

Section table.
Context {X : Type} (f : Order → X).

Lemma table_cons o os : table f (o :: os) = <[Order.order_id o := f o]> (table f os).
Proof. done. Qed.

Lemma table_keys os : ((λ o, (Order.order_id o, f o)) <$> os).*1 = ids os.
Proof. unfold ids. rewrite <- list_fmap_compose. by apply list_fmap_ext. Qed.

Lemma table_perm os os' : NoDup (ids os) → os ≡ₚ os' → table f os = table f os'.
Proof.
  intros Hnd Hp. apply list_to_map_proper; [by rewrite table_keys|by rewrite Hp].
Qed.

Lemma table_absent id os : id ∉ ids os → table f os !! id = None.
Proof. intros Hid. apply not_elem_of_list_to_map_1. by rewrite table_keys. Qed.

Lemma table_delete o os : Order.order_id o ∉ ids os →
  delete (Order.order_id o) (table f (o :: os)) = table f os.
Proof. intros Hid. rewrite table_cons, delete_insert_id; [done|by apply table_absent]. Qed.
End table.

Lemma table_lookup {X} (f : Order → X) o os : table f (o :: os) !! Order.order_id o = Some (f o).
Proof. apply lookup_insert_eq. Qed.

(** ** Trades *)

Section messages.
Context `{Clock} (tid : TickerIdT).

Lemma ids_cons o os : ids (o :: os) = Order.order_id o :: ids os.
Proof. done. Qed.

(** The updates of trades take the makers down or out. *)
Lemma shown_fills side i t fs os more :
  takes fs os → NoDup (ids (os ++ more)) →
  shown (fills_updates tid side i t fs) (table market_entry (os ++ more)) =
    table market_entry (after_fills fs os ++ more).
Proof.
  intros Ht. revert i t. induction Ht as [os|o fs os _ IH|o q os Hq]; intros i t Hnd; [done|..].
  - rewrite <- app_comm_cons, ids_cons in Hnd. apply NoDup_cons in Hnd as [Hid Hnd].
    cbn [fills_updates after_fills]. unfold shown. rewrite foldl_app. unfold fill_updates, maker_left.
    cbn [maker fill_qty]. rewrite Z.sub_diag, !decide_True by done. cbn [foldl].
    unfold apply_update at 1 2. simpl. rewrite <- (IH (u32 (i + 1)) (4 + t)%nat Hnd).
    unfold shown. f_equal. by apply (table_delete market_entry).
  - cbn [fills_updates after_fills]. unfold fill_updates, maker_left. cbn [maker fill_qty].
    rewrite !decide_False by lia. rewrite app_nil_r. simpl.
    rewrite !table_cons. unfold apply_update. simpl. by rewrite insert_insert_eq.
Qed.

Lemma set_left_comm id id' x y (m : Standing) :
  id ≠ id' → set_left id x (set_left id' y m) = set_left id' y (set_left id x m).
Proof.
  intros Hne. unfold set_left. repeat case_decide.
  - by rewrite delete_delete.
  - by rewrite delete_insert_ne.
  - by rewrite delete_insert_ne.
  - by rewrite insert_insert_ne.
Qed.

Lemma set_left_twice id x y m : set_left id x (set_left id y m) = set_left id x m.
Proof.
  unfold set_left. repeat case_decide.
  - by rewrite delete_delete_eq.
  - by rewrite delete_insert_eq.
  - by rewrite insert_delete_eq.
  - by rewrite insert_insert_eq.
Qed.

Lemma set_left_ne id id' x m : id ≠ id' → set_left id x m !! id' = m !! id'.
Proof. intros. unfold set_left. case_decide; [by rewrite lookup_delete_ne|by rewrite lookup_insert_ne]. Qed.

Lemma set_left_eq id x m : x.1.2 ≠ 0 → set_left id x m !! id = Some x.
Proof. intros. unfold set_left. rewrite decide_False by done. apply lookup_insert_eq. Qed.

(** One trade: the maker and the taker are filled by as much. *)
Lemma standing_fill order_id client_id side t f os c s q p :
  Order.order_id (maker f) ≠ order_id → q ≠ 0 →
  standing (fill_responses tid order_id client_id side t f)
    (set_left order_id (c, s, q, p) (table client_entry (maker f :: os))) =
    set_left order_id (c, s, q - fill_qty f, p)
      (set_left (Order.order_id (maker f))
         (client_entry (Order.set_quantity (maker_left f) (maker f)))
         (table client_entry (maker f :: os))).
Proof.
  intros Hne Hq. unfold standing, fill_responses. simpl. unfold apply_response at 2. simpl.
  rewrite set_left_ne, table_lookup by done. cbv beta iota.
  unfold apply_response. simpl. rewrite (set_left_comm (Order.order_id (maker f)) order_id) by done.
  rewrite set_left_eq by done. cbv beta iota. by rewrite set_left_twice.
Qed.

Lemma set_left_table id x o os :
  Order.order_id o = id → set_left id x (table client_entry (o :: os)) = set_left id x (table client_entry os).
Proof.
  intros <-. unfold set_left. rewrite table_cons. case_decide.
  - by rewrite delete_insert_eq.
  - by rewrite insert_insert_eq.
Qed.

Lemma standing_fills order_id client_id side t fs os more c s q p :
  takes fs os → NoDup (order_id :: ids (os ++ more)) → total_fills fs ≤ q → Forall fill_ok fs →
  standing (fills_responses tid order_id client_id side t fs)
    (set_left order_id (c, s, q, p) (table client_entry (os ++ more))) =
    set_left order_id (c, s, q - total_fills fs, p)
      (table client_entry (after_fills fs os ++ more)).
Proof.
  intros Ht. revert t q. induction Ht as [os|o fs os _ IH|o f os Hf]; intros t q Hnd Hq Hfs.
  { cbn. by rewrite Z.sub_0_r. }
  all: apply NoDup_cons in Hnd as [Hid Hnd]; pose proof Hid as Hid'.
  all: rewrite <- app_comm_cons, ids_cons in Hid', Hnd; apply not_elem_of_cons in Hid' as [Hne Hid'].
  all: apply NoDup_cons in Hnd as [Ho Hnd].
  all: rewrite total_fills_cons in *; apply Forall_cons in Hfs as [Hok Hfs];
    unfold fill_ok in Hok; cbn [fill_qty maker] in *.
  - assert (0 ≤ total_fills fs).
    { clear -Hfs. induction Hfs as [|f fs [Hf _] _ IH]; [done|]. rewrite total_fills_cons. lia. }
    cbn [fills_responses after_fills]. unfold standing. rewrite foldl_app.
    pose proof (standing_fill order_id client_id side t (mkFill o (Order.quantity o)) (os ++ more)
      c s q p ltac:(done) ltac:(lia)) as E. cbn [maker fill_qty] in E.
    rewrite <- app_comm_cons. unfold standing in E at 1. rewrite E. clear E.
    unfold maker_left. cbn [maker fill_qty]. rewrite Z.sub_diag, decide_True by done.
    rewrite (set_left_table (Order.order_id o)) by done.
    unfold set_left at 2. simpl. rewrite delete_id by (by apply table_absent).
    unfold standing in IH. rewrite IH; [|by constructor|lia|done].
    by rewrite Z.sub_add_distr.
  - change (total_fills []) with 0 in *.
    cbn [fills_responses after_fills]. rewrite app_nil_r, <- app_comm_cons.
    pose proof (standing_fill order_id client_id side t (mkFill o f) (os ++ more)
      c s q p ltac:(done) ltac:(lia)) as E. cbn [maker fill_qty] in E. rewrite E. clear E.
    unfold maker_left. cbn [maker fill_qty]. rewrite decide_False by lia.
    rewrite (set_left_table (Order.order_id o)) by done. rewrite Z.add_0_r. f_equal. unfold set_left. rewrite decide_False by (simpl; lia). done.
Qed.
End messages.

(** ** How the orders of a book change *)

Lemma side_orders_app (ls1 ls2 : list Level) :
  side_orders (ls1 ++ ls2) = side_orders ls1 ++ side_orders ls2.
Proof. apply bind_app. Qed.

#[local] Instance side_orders_perm : Proper ((≡ₚ) ==> (≡ₚ)) side_orders.
Proof. intros ls1 ls2 E. unfold side_orders. by rewrite E. Qed.

(** The orders that a call on side [s] does not match with. *)
Definition unmatched (s : OrderSide) (A : Book) : list Order :=
  side_orders ((if decide (s = OrderSide.BUY) then bids A else asks A) ++ (off A).*1).

Lemma orders_of_split s A : orders_of A ≡ₚ side_orders (opposite s A) ++ unmatched s A.
Proof.
  unfold orders_of, all_levels, unmatched, opposite. rewrite <- side_orders_app.
  destruct (decide _); [|done]. by rewrite Permutation_app_swap_app.
Qed.

Lemma match_orders s q lim A fs rem A' :
  0 ≤ q → wf_book A → match_book s q lim A = (fs, rem, A') →
  takes fs (side_orders (opposite s A)) ∧ q = total_fills fs + rem ∧ 0 ≤ rem ∧
  Forall fill_ok fs ∧
  orders_of A' ≡ₚ after_fills fs (side_orders (opposite s A)) ++ unmatched s A.
Proof.
  intros Hq Hwf E. pose proof (match_book_taken s q lim A Hq Hwf) as Hm. rewrite E in Hm.
  destruct Hm as ([Ht Hl Hqt Hp Hf _ _ _] & _ & Hsame & Hoff).
  split_and!; [|done..|].
  - eapply takes_mono; [exact Ht|apply eligible_prefix].
  - rewrite (orders_of_split s), Hl. unfold unmatched. rewrite Hoff.
    by destruct (decide _); rewrite Hsame.
Qed.

(** A level changed in place. *)
Lemma at_price_orders p f (ls : list Level) l :
  NoDup (price <$> ls) → l ∈ ls → price l = p →
  ∃ ls', ls ≡ₚ l :: ls' ∧ at_price p f <$> ls ≡ₚ f l :: ls'.
Proof.
  intros Hnd (l1 & l2 & ->)%list_elem_of_split Hp.
  rewrite fmap_app, fmap_cons, NoDup_app, NoDup_cons in Hnd.
  destruct Hnd as (_ & H1 & H2 & _). exists (l1 ++ l2). split; [solve_Permutation|].
  rewrite fmap_app, fmap_cons, !at_price_other.
  - unfold at_price. rewrite (proj2 (Z.eqb_eq _ _)) by done. solve_Permutation.
  - by rewrite <- Hp.
  - intros Hin. subst p. apply (H1 _ Hin). by left.
Qed.

Lemma wf_prices A : wf_book A → NoDup (price <$> all_levels A).
Proof.
  intros Hwf. pose proof (wk_nodup _ _ _ (wb_keys _ Hwf)) as Hnd.
  by rewrite <- !fmap_app, keys_prices in Hnd.
Qed.

Lemma update_price_levels p f A :
  all_levels (update_price p f A) = at_price p f <$> all_levels A.
Proof.
  unfold all_levels, update_price. simpl. rewrite !fmap_app. do 2 f_equal.
  rewrite <- !list_fmap_compose. by apply list_fmap_ext.
Qed.

Lemma has_price_level p (ls : list Level) : has_price p ls = true → ∃ l, l ∈ ls ∧ price l = p.
Proof.
  intros (l & Hl & Hp)%existsb_exists. exists l.
  split; [by apply list_elem_of_In|by apply Z.eqb_eq].
Qed.

Lemma rest_orders o A : wf_book A → orders_of (rest o A) ≡ₚ o :: orders_of A.
Proof.
  intros Hwf. unfold orders_of, rest. destruct (has_price _ _) eqn:Hp.
  - apply has_price_level in Hp as (l & Hl & Hp). rewrite update_price_levels.
    destruct (at_price_orders (Order.limit_price o) (λ l, set_orders (orders l ++ [o]) l)
      (all_levels A) l (wf_prices A Hwf) Hl Hp) as (ls & E & ->).
    rewrite E, !side_orders_cons. simpl. solve_Permutation.
  - by rewrite insert_level_perm.
Qed.

Lemma remove_first_perm id os o os' :
  PriceLevel.remove_first id os = Some (o, os') → Order.order_id o = id ∧ os ≡ₚ o :: os'.
Proof.
  revert o os'. induction os as [|x os IH]; intros o os'; [done|]. simpl.
  destruct (decide _); [by intros [= -> ->]|].
  destruct (PriceLevel.remove_first id os) as [[r os2]|]; [|done]. intros [= -> <-].
  destruct (IH _ _ eq_refl) as [? ->]. split; [done|]. solve_Permutation.
Qed.

Lemma drop_price_perm p (ls : list Level) l :
  NoDup (price <$> ls) → l ∈ ls → price l = p → ls ≡ₚ l :: drop_price p ls.
Proof.
  intros Hnd (l1 & l2 & ->)%list_elem_of_split Hp.
  rewrite fmap_app, fmap_cons, NoDup_app, NoDup_cons in Hnd.
  destruct Hnd as (_ & H1 & H2 & _). unfold drop_price.
  rewrite filter_app, filter_cons, decide_False by (by intros []).
  fold (drop_price p l1) (drop_price p l2). rewrite !drop_price_other; [solve_Permutation|..].
  - by rewrite <- Hp.
  - intros Hin. subst p. apply (H1 _ Hin). by left.
Qed.

Lemma drop_price_app p (ls1 ls2 : list Level) :
  drop_price p (ls1 ++ ls2) = drop_price p ls1 ++ drop_price p ls2.
Proof. apply filter_app. Qed.

Lemma drop_price_off p (ls : list (Level * bool)) :
  (filter (λ x, price x.1 ≠ p) ls).*1 = drop_price p ls.*1.
Proof.
  unfold drop_price. induction ls as [|x ls IH]; [done|].
  rewrite fmap_cons, !filter_cons. case_decide; [by rewrite fmap_cons, IH|done].
Qed.

Lemma remove_level_all p A A' :
  wf_book A → remove_level p A = Some A' → all_levels A' = drop_price p (all_levels A).
Proof.
  intros Hwf. pose proof (wf_prices A Hwf) as Hnd. unfold all_levels in *.
  rewrite !drop_price_app. unfold remove_level.
  destruct (list_find _ (off A)) as [[i [l last]]|] eqn:E.
  - apply list_find_Some in E as (Hl & Hp & _). simpl in Hp.
    assert (p ∈ price <$> (off A).*1) as Hin.
    { rewrite <- Hp. apply list_elem_of_fmap_2. change l with (l, last).1.
      by eapply list_elem_of_fmap_2, list_elem_of_lookup_2. }
    rewrite !fmap_app, !NoDup_app in Hnd. destruct Hnd as (_ & H1 & _ & H2 & _).
    assert ((p ∉ price <$> bids A) ∧ (p ∉ price <$> asks A)) as [Hb Ha].
    { split; intros Hn; [apply (H1 _ Hn)|by apply (H2 _ Hn)]. apply elem_of_app. by right. }
    destruct (if decide _ then _ else _), last; intros [= <-]; simpl.
    by rewrite drop_price_off, (drop_price_other p (bids A)), (drop_price_other p (asks A)).
  - apply list_find_None in E. intros [= <-]. simpl. do 2 f_equal.
    rewrite drop_price_other; [done|].
    intros (l & Hp & (x & -> & Hx)%list_elem_of_fmap)%list_elem_of_fmap.
    rewrite Forall_forall in E. by apply (E x Hx).
Qed.

Lemma cancel_orders order_id lim A o A' :
  wf_book A → cancel order_id lim A = Canceled o A' →
  Order.order_id o = order_id ∧ orders_of A ≡ₚ o :: orders_of A'.
Proof.
  intros Hwf. unfold cancel, orders_of.
  destruct (list_find _ (all_levels A)) as [[i l]|] eqn:El; [|done].
  apply list_find_Some in El as (Hl & Hp & _). apply list_elem_of_lookup_2 in Hl.
  destruct (PriceLevel.remove_first order_id (orders l)) as [[r [|o2 os]]|] eqn:Er; [| |done];
    apply remove_first_perm in Er as [Hid Hos].
  - destruct (remove_level lim A) as [A2|] eqn:Erm; [|done]. intros [= -> ->]. split; [done|].
    rewrite (remove_level_all _ _ _ Hwf Erm).
    rewrite (drop_price_perm lim (all_levels A) l (wf_prices A Hwf) Hl Hp) at 1.
    by rewrite side_orders_cons, Hos.
  - intros [= -> <-]. split; [done|]. rewrite update_price_levels.
    destruct (at_price_orders lim (set_orders (o2 :: os)) (all_levels A) l (wf_prices A Hwf) Hl Hp)
      as (ls & E & ->).
    rewrite E, !side_orders_cons, Hos. done.
Qed.

(** ** The messages of a call keep the pictures *)

(** [m] is the picture of the orders of [A] when nothing is outstanding. *)
Definition market_of (A : Book) : Market := table market_entry (orders_of A).
Definition standing_of (A : Book) : Standing := table client_entry (orders_of A).
Definition distinct (A : Book) : Prop := NoDup (ids (orders_of A)).

Lemma ids_perm os os' : os ≡ₚ os' → ids os ≡ₚ ids os'.
Proof. intros E. unfold ids. by rewrite E. Qed.

Lemma after_fills_ids fs os : takes fs os → ids (after_fills fs os) `suffix_of` ids os.
Proof.
  induction 1 as [os|o fs os _ IH|o q os Hq]; [done|..]; cbn [after_fills];
    unfold maker_left; cbn [maker fill_qty].
  - rewrite Z.sub_diag, decide_True by done. by apply suffix_cons_r.
  - by rewrite decide_False by lia.
Qed.

Section calls.
Context `{Clock} (tid : TickerIdT).

Record told (m m' : Market) (c c' : Standing) (us : list MarketUpdate) (rs : list ClientResponse) :
  Prop := { told_market : shown us m = m'; told_clients : standing rs c = c' }.

Lemma add_told order_id client_id side q lim ns i t A fs rem A' :
  wf_book A → 0 ≤ q < 2 ^ 32 → distinct A → order_id ∉ ids (orders_of A) →
  add tid order_id client_id side q lim ns A = (fs, rem, A') →
  told (market_of A) (market_of A') (standing_of A) (standing_of A')
    (add_updates tid order_id side lim i t fs rem)
    (add_responses tid order_id client_id side q lim t fs) ∧
  distinct A' ∧ ids (orders_of A') ⊆ order_id :: ids (orders_of A).
Proof.
  intros Hwf Hq Hnd Hid E. unfold add in E.
  destruct (match_book side q lim A) as [[fs1 rem1] A1] eqn:Em.
  pose proof (match_book_taken side q lim A ltac:(lia) Hwf) as Hm. rewrite Em in Hm.
  destruct Hm as (_ & Hwf1 & _).
  apply match_orders in Em as (Ht & Hqt & Hrem & Hf & Hp1); [|lia|done].
  set (os := side_orders (opposite side A)) in *. set (more := unmatched side A) in *.
  pose proof (orders_of_split side A) as Hp. fold os more in Hp.
  unfold distinct in *. rewrite (ids_perm _ _ Hp) in Hid.
  assert (NoDup (ids (os ++ more))) as Hnd' by (by rewrite <- (ids_perm _ _ Hp)).
  assert (ids (after_fills fs1 os ++ more) `suffix_of` ids (os ++ more)) as Hsuf.
  { unfold ids. rewrite !fmap_app. destruct (after_fills_ids fs1 os Ht) as [k E'].
    exists k. unfold ids in E'. by rewrite E', app_assoc. }
  assert (NoDup (ids (after_fills fs1 os ++ more))) as Hnd1
    by (by eapply sublist_NoDup, suffix_sublist).
  assert (order_id ∉ ids (after_fills fs1 os ++ more)) as Hid1
    by (intros Hin; apply Hid; destruct Hsuf as [k ->]; apply elem_of_app; by right).
  unfold market_of, standing_of. rewrite !(table_perm _ _ _ Hnd Hp).
  assert (shown (fills_updates tid side i (S t) fs1) (table market_entry (os ++ more)) =
    table market_entry (after_fills fs1 os ++ more)) as Hus by (by apply shown_fills).
  assert (standing (add_responses tid order_id client_id side q lim t fs1)
      (table client_entry (os ++ more)) =
    set_left order_id (client_id, side, rem1, lim)
      (table client_entry (after_fills fs1 os ++ more))) as Hrs.
  { change (standing (fills_responses tid order_id client_id side (S t) fs1)
      (set_left order_id (client_id, side, q, lim) (table client_entry (os ++ more))) =
      set_left order_id (client_id, side, rem1, lim)
        (table client_entry (after_fills fs1 os ++ more))).
    rewrite standing_fills; [|done|by constructor|lia|done].
    by replace (q - total_fills fs1) with rem1 by lia. }
  pose proof (Hid2 := Hid1). rewrite <- (ids_perm _ _ Hp1) in Hid2.
  destruct (decide (rem1 = 0)) as [Hz|Hz]; injection E as <- <- <-.
  - unfold add_updates. rewrite decide_True by done. split; [split|split].
    + rewrite app_nil_r, Hus. by apply table_perm.
    + rewrite Hrs. unfold set_left. rewrite decide_True by done.
      rewrite delete_id by (by apply table_absent). by apply table_perm.
    + by rewrite (ids_perm _ _ Hp1).
    + rewrite (ids_perm _ _ Hp1), (ids_perm _ _ Hp). destruct Hsuf as [k ->]. set_solver.
  - set (o := Order.make _ _ _ _ _ _ _). pose proof (rest_orders o A1 Hwf1) as Hp2.
    rewrite Hp1 in Hp2.
    assert (NoDup (ids (o :: after_fills fs1 os ++ more))) as Hnd2 by (by apply NoDup_cons).
    unfold add_updates. rewrite decide_False by done. split; [split|split].
    + unfold shown in *. rewrite foldl_app, Hus. by apply (table_perm market_entry (o :: _)).
    + rewrite Hrs. unfold set_left. rewrite decide_False by done.
      by apply (table_perm client_entry (o :: _)).
    + by rewrite (ids_perm _ _ Hp2).
    + rewrite (ids_perm _ _ Hp2), (ids_perm _ _ Hp). destruct Hsuf as [k ->]. set_solver.
Qed.

Lemma cancel_told client_id order_id side lim t A o A' :
  wf_book A → distinct A → cancel order_id lim A = Canceled o A' →
  told (market_of A) (market_of A') (standing_of A) (standing_of A')
    [canceled_update tid order_id side lim t o]
    [canceled_response tid client_id order_id side lim t o] ∧
  distinct A' ∧ ids (orders_of A') ⊆ ids (orders_of A).
Proof.
  intros Hwf Hnd E. apply cancel_orders in E as [Hid Hp]; [|done].
  unfold distinct in *. pose proof Hnd as Hnd'. rewrite (ids_perm _ _ Hp), ids_cons in Hnd'.
  apply NoDup_cons in Hnd' as [Hnin Hnd']. unfold market_of, standing_of.
  rewrite !(table_perm _ _ _ Hnd Hp). split; [split|split; [done|]].
  - cbn. rewrite <- Hid. by apply (table_delete market_entry).
  - cbn. rewrite <- Hid. by apply (table_delete client_entry).
  - rewrite (ids_perm _ _ Hp). set_solver.
Qed.

Lemma rejected_told client_id order_id t m c :
  told m m c c [] [rejected_response tid client_id order_id t].
Proof. done. Qed.

(** All messages of a book carry its ticker. *)
Definition of_ticker (us : list MarketUpdate) (rs : list ClientResponse) : Prop :=
  Forall (λ u, MarketUpdate.ticker_id u = tid) us ∧
  Forall (λ r, ClientResponse.ticker_id r = tid) rs.

Lemma add_ticker order_id client_id side q lim i t fs rem :
  of_ticker (add_updates tid order_id side lim i t fs rem)
    (add_responses tid order_id client_id side q lim t fs).
Proof.
  split; [apply Forall_app; split|constructor; [done|]].
  - generalize (S t). revert i. induction fs as [|f fs IH]; intros i n; [constructor|].
    cbn [fills_updates fill_updates app]. do 2 (constructor; [by repeat case_decide|]). apply IH.
  - by destruct (decide _); repeat constructor.
  - generalize (S t). induction fs as [|f fs IH]; intros n; [constructor|].
    cbn [fills_responses fill_responses app]. do 2 (constructor; [done|]). apply IH.
Qed.

(** The trade ids that are shown. *)
Definition trade_ids (us : list MarketUpdate) : list TradeIdT :=
  MarketUpdate.trade_id <$> filter (λ u, MarketUpdate.type u = UpdateType.TRADE) us.

(** [n] ids from [i] on, round at the width of the type. *)
Definition ids_from (i : TradeIdT) (n : nat) : list TradeIdT :=
  (λ k, trade_id_after k i) <$> seq 0 n.

Lemma trade_id_value k i : 0 ≤ i < 2 ^ 32 → trade_id_after k i = u32 (i + Z.of_nat k).
Proof.
  intros Hi. unfold trade_id_after. induction k as [|k IH]; cbn [Nat.iter].
  - by rewrite Z.add_0_r, u32_id.
  - simpl. rewrite IH. unfold u32. rewrite Zplus_mod_idemp_l. f_equal. lia.
Qed.

Lemma trade_ids_app us1 us2 : trade_ids (us1 ++ us2) = trade_ids us1 ++ trade_ids us2.
Proof. unfold trade_ids. by rewrite filter_app, fmap_app. Qed.

Lemma ids_from_app i n m : ids_from i (n + m) = ids_from i n ++ ids_from (trade_id_after n i) m.
Proof.
  unfold ids_from. rewrite seq_app, fmap_app. f_equal.
  rewrite (Nat.add_comm 0 n), <- (fmap_add_seq n 0 m). rewrite <- list_fmap_compose. apply list_fmap_ext. intros ? k _. simpl.
  unfold trade_id_after. by rewrite Nat.add_comm, Nat.iter_add.
Qed.

Lemma add_trade_ids order_id side lim i t fs rem :
  trade_ids (add_updates tid order_id side lim i t fs rem) = ids_from i (length fs).
Proof.
  unfold add_updates. rewrite trade_ids_app.
  replace (trade_ids (if decide (rem = 0) then _ else _)) with (@nil TradeIdT) by (by destruct (decide _)).
  rewrite app_nil_r. generalize (S t). revert i. induction fs as [|f fs IH]; intros i n; [done|].
  change (length (f :: fs)) with (1 + length fs)%nat. rewrite ids_from_app.
  cbn [fills_updates]. rewrite trade_ids_app, IH. f_equal. unfold fill_updates.
  by destruct (decide _).
Qed.

(** How many messages there are. *)
Lemma add_messages order_id client_id side q lim i t fs rem :
  (length (add_updates tid order_id side lim i t fs rem) ≤ 2 * length fs + 1 ∧
   length (add_responses tid order_id client_id side q lim t fs) = 2 * length fs + 1)%nat.
Proof.
  unfold add_updates, add_responses. rewrite length_app. split.
  - assert (∀ n, length (fills_updates tid side i n fs) = 2 * length fs)%nat as ->.
    { revert i. induction fs as [|f fs IH]; intros i n; [done|]. simpl. rewrite IH. lia. }
    destruct (decide _); simpl; lia.
  - simpl. assert (∀ n, length (fills_responses tid order_id client_id side n fs) = 2 * length fs)%nat as ->; [|lia].
    induction fs as [|f fs IH]; intros n; [done|]. simpl. rewrite IH. lia.
Qed.
End calls.
End Feed.
