(* ===== verification/FeedRuns.v ===== *)
(** The exchange with readers of its two output queues.

    Clients push requests, the exchange takes its turns, a reader of the market
    updates and a reader of the client responses pop what is there; [step] is one of
    these.  The invariant [pictured] says that what was read and what is still in the
    queues give the orders of every book (Feed.v). *)

From S2P Require Import Prelude Types Memory ObjectPool PriceLevel LFQueue TimeUtils.
From S2P Require Import OrderBook BookSpec BookHeap BookLevels BookRefine BookCancel BookProps.
From S2P Require Import BookTheorems Exchange ExchangeProps Feed.
Local Open Scope Z_scope.

Module FeedRuns.
Import Exchange ExchangeProps BookRefine BookCancel Feed.

(** ** The queues *)

Lemma pushes_contents {T} (xs : list T) q :
  LFQueue.wf q → (length (LFQueue.contents q) + length xs ≤ LFQueue.capacity q)%nat →
  LFQueue.contents (BookSpec.pushes xs q) = LFQueue.contents q ++ xs.
Proof.
  revert q. induction xs as [|x xs IH]; intros q Hq Hr; simpl in Hr.
  { by rewrite app_nil_r. }
  change (BookSpec.pushes (x :: xs) q) with (BookSpec.pushes xs (LFQueue.pushed x q)).
  assert (LFQueue.contents (LFQueue.pushed x q) = LFQueue.contents q ++ [x]) as E
    by (apply LFQueue.pushed_contents; [done|lia]).
  rewrite IH; [by rewrite E, <- app_assoc|by apply LFQueue.pushed_wf|].
  rewrite E, LFQueue.pushed_capacity, length_app. simpl. lia.
Qed.

Lemma trade_id_delta n i : u32 (BookSpec.trade_id_after n i - i) = u32 (Z.of_nat n).
Proof.
  unfold BookSpec.trade_id_after. induction n as [|n IH]; simpl.
  { by rewrite Z.sub_diag. }
  unfold u32 in *. rewrite Zminus_mod_idemp_l.
  replace (_ + 1 - i) with ((Nat.iter n (λ i, (i + 1) mod 2 ^ 32) i - i) + 1) by lia.
  rewrite Z.add_mod, IH, <- Z.add_mod by lia. f_equal. lia.
Qed.

(** The reading of one message. *)
Definition read {T} : M (LFQueue T) (option T) :=
  p ← LFQueue.pop;
  if decide (p = nullptr) then mret None else x ← LFQueue.item_at p; mret (Some x).

Lemma read_run {T} (q : LFQueue T) :
  LFQueue.wf q →
  ∃ q', read q = Done (head (LFQueue.contents q), q') ∧ LFQueue.wf q' ∧
        LFQueue.contents q' = tail (LFQueue.contents q).
Proof.
  intros Hq. destruct (LFQueue.contents q) as [|x xs] eqn:E.
  - exists q. unfold read. by rewrite (bind_done _ _ _ _ _ (LFQueue.pop_nil q Hq E)).
  - destruct (LFQueue.pop_cons q x xs Hq E) as (q' & Ep & Hwf & Hd & Hx & Hc & _).
    exists q'. split_and!; [|done..]. unfold read. rewrite (bind_done _ _ _ _ _ Ep).
    rewrite decide_False by done. rewrite (bind_done _ _ _ x q'); [done|].
    apply LFQueue.item_at_done. by rewrite Hd.
Qed.

(** ** The system *)

Section system.
Context `{Constants, Clock}.
Implicit Types (x : Exchange) (b : OrderBook) (t : TickerIdT).

Record Sys := mkSys {
  exch : Exchange;
  updates_read : list MarketUpdate;
  responses_read : list ClientResponse;
}.

Definition updates x : LFQueue MarketUpdate := OrderBook.market_update_queue (env x).
Definition responses x : LFQueue ClientResponse := OrderBook.client_response_queue (env x).

Definition in_updates {A} : M (LFQueue MarketUpdate) A → M Exchange A :=
  zoom updates (λ q x, set_env (OrderBook.set_market_update_queue q (env x)) x).
Definition in_responses {A} : M (LFQueue ClientResponse) A → M Exchange A :=
  zoom responses (λ q x, set_env (OrderBook.set_client_response_queue q (env x)) x).

(** How many trades there were between two states: the counter of trade ids goes up
    by one with each. *)
Definition trades x x' : Z :=
  u32 (OrderBook.next_trade_id (env x') - OrderBook.next_trade_id (env x)).

(** The readers keep up: a queue has room for two messages for each trade of a
    turn and one more. *)
Definition room {T} (q : LFQueue T) (n : Z) : Prop :=
  Z.of_nat (length (LFQueue.contents q)) + 2 * n + 1 ≤ Z.of_nat (LFQueue.capacity q).

Inductive step (s : Sys) : Sys → Prop :=
| step_push r x' :
    (length (LFQueue.contents (client_request_queue (exch s)))
       < LFQueue.capacity (client_request_queue (exch s)))%nat →
    in_requests (LFQueue.push r) (exch s) = Done (tt, x') →
    step s (mkSys x' (updates_read s) (responses_read s))
| step_turn x' :
    (∀ r rs, LFQueue.contents (client_request_queue (exch s)) = r :: rs →
             good_request (exch s) r) →
    next_order_id (exch s) + 1 < 2 ^ 32 →
    run_body (exch s) = Done (tt, x') →
    room (updates (exch s)) (trades (exch s) x') →
    room (responses (exch s)) (trades (exch s) x') →
    step s (mkSys x' (updates_read s) (responses_read s))
| step_update u x' :
    in_updates read (exch s) = Done (u, x') →
    step s (mkSys x' (updates_read s ++ option_list u) (responses_read s))
| step_response r x' :
    in_responses read (exch s) = Done (r, x') →
    step s (mkSys x' (updates_read s) (responses_read s ++ option_list r)).

(** The states that steps lead to from an exchange that was just made. *)
Inductive reach (ts : list TickerIdT) : Sys → Prop :=
| reach_new requests rs us x :
    LFQueue.wf requests → LFQueue.wf rs → LFQueue.wf us →
    LFQueue.contents rs = [] → LFQueue.contents us = [] →
    ctor requests rs us ts = Done (tt, x) → reach ts (mkSys x [] [])
| reach_step s s' : reach ts s → step s s' → reach ts s'.

(** ** What was said about a ticker *)

Definition said_updates t (s : Sys) : list MarketUpdate :=
  filter (λ u, MarketUpdate.ticker_id u = t)
    (updates_read s ++ LFQueue.contents (updates (exch s))).
Definition said_responses t (s : Sys) : list ClientResponse :=
  filter (λ r, ClientResponse.ticker_id r = t)
    (responses_read s ++ LFQueue.contents (responses (exch s))).

(** The book at [t] stands for [A], and this is what was said. *)
Record pictured_at (n : Z) us rs (A : BookSpec.Book) : Prop := {
  pi_wf : BookProps.wf_book A;
  pi_distinct : distinct A;
  pi_ids : Forall (λ id, id < n) (ids (orders_of A));
  pi_market : shown us ∅ = market_of A;
  pi_standing : standing rs ∅ = standing_of A;
}.

Record pictured (s : Sys) : Prop := {
  pic_ok : exchange_ok (exch s);
  pic_id : 0 ≤ next_order_id (exch s) < 2 ^ 32;
  pic_trades : ∃ n,
    trade_ids (updates_read s ++ LFQueue.contents (updates (exch s))) = ids_from 1 n ∧
    OrderBook.next_trade_id (env (exch s)) = BookSpec.trade_id_after n 1;
  pic_books t b :
    known (exch s) t b →
    ∃ A, BookHeap.book_rep b A ∧
         pictured_at (next_order_id (exch s)) (said_updates t s) (said_responses t s) A;
}.

(** *** A turn *)

Lemma filter_ticker {T} (f : T → TickerIdT) tid t (l : list T) :
  Forall (λ y, f y = tid) l → filter (λ y, f y = t) l = if decide (t = tid) then l else [].
Proof.
  intros Hl. induction Hl as [|y l Hy _ IH]; [by destruct (decide _)|].
  rewrite filter_cons, IH, Hy. by repeat case_decide; subst.
Qed.

Definition quiet x x' : Prop :=
  env x' = env x ∧ order_books_map x' = order_books_map x ∧ next_order_id x' = next_order_id x.

(** A call on the book of [t], which turned it from one that stands for [A] into one
    that stands for [A'], with [n] trades. *)
Record spoke x x' t (b' : OrderBook) A A' us rs (n : nat) : Prop := {
  sp_books : order_books_map x' = <[t := Some b']> (order_books_map x);
  sp_env : ∃ k, env x' = BookSpec.emit rs us n k (env x);
  sp_rep : BookHeap.book_rep b' A';
  sp_few : Z.of_nat n < 2 ^ 32;
  sp_us : (length us ≤ 2 * n + 1)%nat;
  sp_rs : (length rs ≤ 2 * n + 1)%nat;
  sp_ticker : of_ticker t us rs;
  sp_trades : trade_ids us = ids_from (OrderBook.next_trade_id (env x)) n;
  sp_told : told (market_of A) (market_of A') (standing_of A) (standing_of A') us rs;
  sp_wf : BookProps.wf_book A';
  sp_distinct : distinct A';
  sp_ids : Forall (λ id, id < next_order_id x') (ids (orders_of A'));
  sp_next : next_order_id x ≤ next_order_id x' < 2 ^ 32;
}.

Lemma fills_few fs q rem :
  Forall BookProps.fill_ok fs → q = BookProps.total_fills fs + rem → 0 ≤ rem → Z.of_nat (length fs) ≤ q.
Proof.
  intros Hf -> Hr. apply Z.le_trans with (BookProps.total_fills fs); [|lia]. clear Hr.
  induction Hf as [|f fs [Hf _] _ IH]; [done|]. rewrite BookProps.total_fills_cons. simpl length. lia.
Qed.

Definition sound_book n A : Prop :=
  BookProps.wf_book A ∧ distinct A ∧ Forall (λ id, id < n) (ids (orders_of A)).

Lemma add_spoke x t b A client_id side q lim x' :
  exchange_ok x → 0 ≤ next_order_id x → next_order_id x + 1 < 2 ^ 32 → known x t b →
  BookHeap.book_rep b A → sound_book (next_order_id x) A → 0 ≤ q < 2 ^ 32 →
  addOrder t client_id side q lim x = Done (tt, x') →
  ∃ b' A' us rs n, spoke x x' t b' A A' us rs n.
Proof.
  intros Hx Hi Hi' Hb Hrep (Hwf & Hnd & Hids) Hq. rewrite (addOrder_known _ _ b) by done. cbv zeta.
  destruct (xo_books _ Hx _ _ Hb) as (Ht & _).
  destruct (add_cases (next_order_id x) client_id side q lim b (env x) A Hrep (xo_env _ Hx) Hq)
    as [Hd|[-> _]]; [|done].
  destruct (spec_add _ _ _ _ _ _ _ _) as [[fs rem] A'] eqn:Es. destruct Hd as (b' & -> & Hrep' & _).
  intros [= <-].
  assert (next_order_id x ∉ ids (orders_of A)) as Hnew.
  { intros Hin. rewrite Forall_forall in Hids. specialize (Hids _ Hin). lia. }
  unfold spec_add in Es.
  destruct (add_told (OrderBook.ticker_id b) (next_order_id x) client_id side q lim _
    (OrderBook.next_trade_id (env x)) (OrderBook.clock_reads (env x)) A fs rem A' Hwf Hq Hnd Hnew Es)
    as (Htold & Hnd' & Hsub).
  pose proof (BookProps.add_wf (OrderBook.ticker_id b) (next_order_id x) client_id side q lim
    (λ i, timestamp (S (OrderBook.clock_reads (env x)) + i)) A Hwf Hq) as Hwf'.
  rewrite Es in Hwf'.
  pose proof (add_messages (OrderBook.ticker_id b) (next_order_id x) client_id side q lim
    (OrderBook.next_trade_id (env x)) (OrderBook.clock_reads (env x)) fs rem) as [Hus Hrs].
  eexists b', A', _, _, (length fs). split.
  - done.
  - eexists. unfold add_env. simpl. done.
  - done.
  - unfold BookSpec.add in Es. destruct (BookSpec.match_book side q lim A) as [[fs1 rem1] A1] eqn:Em.
    apply match_orders in Em as (_ & Hqt & Hr & Hf & _); [|lia|done].
    assert (fs = fs1) as -> by (by destruct (decide _); simplify_eq).
    pose proof (fills_few fs1 q rem1 Hf Hqt Hr). lia.
  - exact Hus.
  - rewrite Hrs. done.
  - rewrite <- Ht. apply add_ticker.
  - apply add_trade_ids.
  - exact Htold.
  - exact Hwf'.
  - exact Hnd'.
  - simpl. unfold u32. rewrite Z.mod_small by lia. apply Forall_forall. intros id Hin.
    apply Hsub, elem_of_cons in Hin as [->|Hin]; [lia|].
    rewrite Forall_forall in Hids. specialize (Hids _ Hin). lia.
  - simpl. unfold u32. rewrite Z.mod_small by lia. lia.
Qed.

Lemma cancel_spoke x t b A client_id order_id side lim x' :
  exchange_ok x → next_order_id x < 2 ^ 32 → known x t b →
  BookHeap.book_rep b A → sound_book (next_order_id x) A →
  BookSpec.cancel order_id lim A ≠ BookSpec.Broken →
  cancelOrder t client_id order_id side lim x = Done (tt, x') →
  ∃ b' A' us rs n, spoke x x' t b' A A' us rs n.
Proof.
  intros Hx Hi Hb Hrep (Hwf & Hnd & Hids) Hnb. rewrite (cancelOrder_known _ _ b) by done.
  destruct (xo_books _ Hx _ _ Hb) as (<- & _).
  pose proof (cancel_run client_id order_id side lim b (env x) A Hrep (xo_env _ Hx)) as Hc.
  unfold cancel_post in Hc.
  destruct (BookSpec.cancel order_id lim A) as [|o A'|] eqn:Es; [..|done];
    destruct Hc as (b' & -> & Hrep' & _); intros [= <-].
  - exists b', A, [],
      [BookSpec.rejected_response (OrderBook.ticker_id b) client_id order_id
         (OrderBook.clock_reads (env x))], 0%nat.
    split; simpl; try done; try lia; [by eexists|].
    by repeat constructor.
  - destruct (cancel_told (OrderBook.ticker_id b) client_id order_id side lim
      (OrderBook.clock_reads (env x)) A o A' Hwf Hnd Es) as (Htold & Hnd' & Hsub).
    eexists b', A', _, _, 0%nat. split; try exact Htold; simpl; try done; try lia; [by eexists|..].
    + by repeat constructor.
    + by eapply BookProps.cancel_wf.
    + apply Forall_forall. intros id Hin. rewrite Forall_forall in Hids. by apply Hids, Hsub.
Qed.

(** What a turn does: nothing to the books, or one call on one of them. *)
Lemma turn_spoke x x' :
  exchange_ok x → 0 ≤ next_order_id x → next_order_id x + 1 < 2 ^ 32 →
  (∀ r rs, LFQueue.contents (client_request_queue x) = r :: rs → good_request x r) →
  run_body x = Done (tt, x') →
  quiet x x' ∨
  ∃ t b, known x t b ∧
    ∀ A, BookHeap.book_rep b A → sound_book (next_order_id x) A →
         ∃ b' A' us rs n, spoke x x' t b' A A' us rs n.
Proof.
  intros Hx Hi Hi' Hg E. pose proof (xo_queue _ Hx) as Hq.
  destruct (LFQueue.contents (client_request_queue x)) as [|r rs] eqn:Hc.
  { rewrite run_body_idle in E by done. injection E as <-. by left. }
  destruct (run_body_serves x r rs Hq Hc) as (q & E' & Hwf & _). rewrite E' in E. clear E'.
  specialize (Hg r rs eq_refl). assert (exchange_ok (taken q x)) as Hx' by (destruct Hx; by split).
  unfold handle in E. unfold good_request in Hg.
  destruct (ClientRequest.type r); [injection E as <-; by left|right..].
  - destruct Hg as [Hqt [b Hb]]. exists (ClientRequest.ticker_id r), b. split; [done|].
    intros A Hrep Hs. destruct (add_spoke (taken q x) _ b A _ _ _ _ x' Hx' Hi Hi' Hb Hrep Hs Hqt E)
      as (b' & A' & us & rs' & n & Hsp). exists b', A', us, rs', n. by destruct Hsp.
  - destruct Hg as (b & Hb & Hnb). exists (ClientRequest.ticker_id r), b. split; [done|].
    intros A Hrep Hs. destruct (cancel_spoke (taken q x) _ b A _ _ _ _ x' Hx'
      ltac:(simpl; lia) Hb Hrep Hs (Hnb A Hrep) E) as (b' & A' & us & rs' & n & Hsp).
    exists b', A', us, rs', n. by destruct Hsp.
Qed.

(** ** The pictures are kept *)

Lemma pictured_quiet s x' :
  pictured s → quiet (exch s) x' → exchange_ok x' →
  pictured (mkSys x' (updates_read s) (responses_read s)).
Proof.
  intros [_ Hi Ht Hb] (He & Hm & Hn) Hx'.
  split; simpl; [done|by rewrite Hn|unfold updates in *; by rewrite He|]. intros t b Hk. unfold known in Hk. rewrite Hm in Hk.
  unfold said_updates, said_responses, updates, responses. simpl. rewrite He, Hn. by apply Hb.
Qed.

Lemma said_more {T} (f : T → TickerIdT) tid t (l1 l2 l3 : list T) :
  Forall (λ y, f y = tid) l3 →
  filter (λ y, f y = t) (l1 ++ l2 ++ l3) =
    filter (λ y, f y = t) (l1 ++ l2) ++ if decide (t = tid) then l3 else [].
Proof. intros Hl. by rewrite app_assoc, filter_app, (filter_ticker f tid t l3). Qed.

Lemma pictured_spoke s x' t b :
  pictured s → known (exch s) t b → exchange_ok x' →
  (∀ A, BookHeap.book_rep b A → sound_book (next_order_id (exch s)) A →
        ∃ b' A' us rs n, spoke (exch s) x' t b' A A' us rs n) →
  room (updates (exch s)) (trades (exch s) x') → room (responses (exch s)) (trades (exch s) x') →
  pictured (mkSys x' (updates_read s) (responses_read s)).
Proof.
  intros [Hx Hi (n0 & Htr & Hn0) Hb] Hk Hx' Hsp Hru Hrr.
  destruct (Hb t b Hk) as (A & Hrep & [Hwf Hnd Hids Hm Hst]).
  destruct (Hsp A Hrep) as (b' & A' & us & rs & n & [Hbooks [k He] Hrep' Hn Hlu Hlr [Hfu Hfr]
    Htids [Htm Htc] Hwf' Hnd' Hids' Hnext]); [by split_and!|].
  assert (trades (exch s) x' = Z.of_nat n) as Ht.
  { unfold trades. rewrite He. simpl. rewrite trade_id_delta. apply Z.mod_small. lia. }
  unfold room in Hru, Hrr. rewrite Ht in Hru, Hrr.
  assert (LFQueue.contents (updates x') = LFQueue.contents (updates (exch s)) ++ us) as Hcu.
  { unfold updates in *. rewrite He. apply pushes_contents; [apply Hx|lia]. }
  assert (LFQueue.contents (responses x') = LFQueue.contents (responses (exch s)) ++ rs) as Hcr.
  { unfold responses in *. rewrite He. apply pushes_contents; [apply Hx|lia]. }
  split; simpl; [done|lia| |].
  { exists (n0 + n)%nat. rewrite Hcu, app_assoc, trade_ids_app, Htr, Htids, ids_from_app, Hn0.
    split; [done|]. rewrite He. simpl. rewrite Hn0. unfold BookSpec.trade_id_after.
    by rewrite (Nat.add_comm n0), Nat.iter_add. }
  intros t' b2 Hk2. unfold known in Hk2. rewrite Hbooks in Hk2.
  unfold said_updates, said_responses. simpl. rewrite Hcu, Hcr.
  rewrite (said_more _ t t' _ _ us Hfu), (said_more _ t t' _ _ rs Hfr).
  fold (said_updates t' s) (said_responses t' s).
  destruct (decide (t' = t)) as [->|Hne].
  - rewrite lookup_insert_eq in Hk2. simplify_eq. exists A'. split; [done|]. split; [done..| |].
    + unfold shown in *. by rewrite foldl_app, Hm.
    + unfold standing in *. by rewrite foldl_app, Hst.
  - rewrite lookup_insert_ne in Hk2 by done. rewrite !app_nil_r.
    destruct (Hb t' b2 Hk2) as (A2 & ? & []). exists A2. split; [done|]. split; [done|done| |done|done].
    eapply Forall_impl; [done|]. simpl. lia.
Qed.

Lemma head_tail {T} (l1 l2 : list T) : (l1 ++ option_list (head l2)) ++ tail l2 = l1 ++ l2.
Proof. rewrite <- app_assoc. by destruct l2. Qed.

Lemma pictured_step s s' : pictured s → step s s' → pictured s'.
Proof.
  intros Hp Hs. pose proof Hp as [Hx Hi Ht Hb]. destruct Hs as [r x' Hr E|x' Hg Hid E Hru Hrr|u x' E|r x' E].
  - unfold in_requests in E.
    rewrite (zoom_done client_request_queue set_client_request_queue _ _ _ _
      (LFQueue.push_run r _ (xo_queue _ Hx))) in E.
    injection E as <-. apply pictured_quiet; [done|done|].
    destruct Hx. split; [done|done|]. by apply LFQueue.pushed_wf.
  - destruct (turn_cases (exch s) Hx Hg) as [(x2 & E2 & Hx' & _ & _)|E2]; rewrite E2 in E; [|done].
    simplify_eq.
    destruct (turn_spoke (exch s) x') as [Hq|(t & b & Hk & Hsp)]; [done|lia|done..| |].
    + by apply pictured_quiet.
    + by eapply pictured_spoke.
  - destruct (read_run (updates (exch s))) as (q' & Er & Hwf & Hc); [apply Hx|].
    unfold in_updates in E. rewrite (zoom_done updates _ _ _ _ _ Er) in E. injection E as <- <-.
    split; simpl; [|done| |].
    + destruct Hx as [? [] ?]. by split.
    + unfold updates in *. simpl. by rewrite Hc, head_tail.
    + intros t b Hk. destruct (Hb t b Hk) as (A & ? & Hpi). exists A. split; [done|].
      unfold said_updates, said_responses, updates in *. simpl. by rewrite Hc, head_tail.
  - destruct (read_run (responses (exch s))) as (q' & Er & Hwf & Hc); [apply Hx|].
    unfold in_responses in E. rewrite (zoom_done responses _ _ _ _ _ Er) in E. injection E as <- <-.
    split; simpl; [|done|done|].
    + destruct Hx as [? [] ?]. by split.
    + intros t b Hk. destruct (Hb t b Hk) as (A & ? & Hpi). exists A. split; [done|].
      unfold said_updates, said_responses, responses in *. simpl. by rewrite Hc, head_tail.
Qed.

(** ** Reachable states *)

Lemma addTickers_frame ts x x' :
  fresh x → addTickers ts x = Done (tt, x') →
  fresh x' ∧ env x' = env x ∧ next_order_id x' = next_order_id x.
Proof.
  revert x. induction ts as [|t ts IH]; intros x Hf E; [by injection E as <-|].
  simpl in E. apply bind_inv_done in E as ([] & x1 & E1 & E).
  destruct (addTicker_fresh _ _ _ Hf E1) as [Hf1 _].
  destruct (IH _ Hf1 E) as (? & -> & ->). split; [done|].
  destruct (decide (size (order_books_map x) = MAX_TICKERS)) as [Hs|Hs].
  - by rewrite addTicker_full in E1.
  - rewrite addTicker_room in E1 by done. injection E1 as <-. by case_bool_decide.
Qed.

Lemma reach_pictured ts s :
  (0 < MAX_ORDER_IDS)%nat → (0 < MAX_PRICE_LEVELS)%nat → reach ts s → pictured s.
Proof.
  intros Ho Hl Hr. induction Hr as [requests rs us x Hq Hrs Hus Ers Eus E|s s' _ IH Hs];
    [|by eapply pictured_step].
  unfold ctor in E. set (x0 := mkExchange _ _ _ _ _ _) in E.
  assert (fresh x0) as Hf0 by (intros t o; simpl; by rewrite lookup_empty).
  destruct (addTickers_frame _ _ _ Hf0 E) as (Hf & He & Hi).
  destruct (addTickers_sound ts x0 x Ho Hl) as (Hx & _ & _); [| |done|done|].
  - split; [|by split|done]. intros t b Hk. unfold known in Hk. simpl in Hk.
    by rewrite lookup_empty in Hk.
  - simpl. rewrite map_size_empty. lia.
  - split; simpl; [done|by rewrite Hi|exists 0%nat; unfold updates; rewrite He; simpl; by rewrite Eus|].
    intros t b Hk. pose proof (Hf _ _ Hk) as [= ->].
    exists BookSpec.empty_book. split; [by apply BookTheorems.ctor_rep|].
    unfold said_updates, said_responses, updates, responses. simpl. rewrite He. simpl.
    rewrite Ers, Eus. split; try done; [apply BookProps.empty_wf|constructor].
Qed.
End system.
End FeedRuns.
