(* ===== verification/FeedResults.v ===== *)
(** The results on what the output queues of the exchange tell their readers, with an
    instance on an exchange of two tickers. *)

From S2P Require Import Prelude Types Memory ObjectPool PriceLevel LFQueue TimeUtils.
From S2P Require Import OrderBook BookSpec BookHeap BookProps BookTheorems.
From S2P Require Import Exchange ExchangeProps Feed FeedRuns.
Local Open Scope Z_scope.

Module FeedResults.
Import Exchange ExchangeProps Feed FeedRuns.

Section results.
Context `{Constants, Clock}.

(** C6: the market updates of a ticker are complete: whatever the interleaving of
    clients, exchange and readers, as long as the readers keep up, the order ids have
    not gone round and the requests are ones the code handles properly ([reach]), the
    ADD, MODIFY and REMOVE updates that were read or still wait in the queue, applied
    in their order to an empty table, give exactly the orders that rest in the book of
    the ticker in memory, each once, with their side, remaining quantity and price. *)
Theorem market_feed_shows_books ts s t b :
  (0 < MAX_ORDER_IDS)%nat → (0 < MAX_PRICE_LEVELS)%nat →
  reach ts s → known (exch s) t b →
  ∃ A, BookHeap.book_rep b A ∧ distinct A ∧ shown (said_updates t s) ∅ = market_of A.
Proof.
  intros Ho Hl Hr Hk. destruct (pic_books _ (reach_pictured ts s Ho Hl Hr) t b Hk) as (A & ? & []).
  by exists A.
Qed.

(** C7: the client responses of a ticker are complete as well, under the same
    conditions ([reach]): whatever the interleaving of clients, exchange and readers,
    as long as the readers keep up so that no queue runs over, the order ids have not
    gone round and the requests are ones the code handles properly, an order is worth
    what was ACCEPTED less what was FILLED until it is CANCELED, and the orders with
    something left by this count are exactly those that rest in the book, with their
    client, side and price.  (A queue that runs over loses its messages:
    [queue_overflow].) *)
Theorem responses_show_orders ts s t b :
  (0 < MAX_ORDER_IDS)%nat → (0 < MAX_PRICE_LEVELS)%nat →
  reach ts s → known (exch s) t b →
  ∃ A, BookHeap.book_rep b A ∧ distinct A ∧ standing (said_responses t s) ∅ = standing_of A.
Proof.
  intros Ho Hl Hr Hk. destruct (pic_books _ (reach_pictured ts s Ho Hl Hr) t b Hk) as (A & ? & []).
  by exists A.
Qed.

(** C20: no trade is missing from the market updates, under the same conditions
    ([reach]): as long as the readers keep up so that no queue runs over, the order ids
    have not gone round and the requests are ones the code handles properly, the TRADE
    updates of all tickers, in the order in which they are read, carry the trade ids
    1, 2, 3 and so on without a gap or a repetition, round at 32 bits. *)
Theorem trade_ids_gapless ts s :
  (0 < MAX_ORDER_IDS)%nat → (0 < MAX_PRICE_LEVELS)%nat → reach ts s →
  ∃ n, trade_ids (updates_read s ++ LFQueue.contents (updates (exch s))) =
         (λ k, u32 (1 + Z.of_nat k)) <$> seq 0 n.
Proof.
  intros Ho Hl Hr. destruct (pic_trades _ (reach_pictured ts s Ho Hl Hr)) as (n & E & _).
  exists n. rewrite E. apply list_fmap_ext. intros ? k _. apply trade_id_value. lia.
Qed.

(** The two pictures agree: who reads the responses knows what the market shows. *)
Theorem pictures_agree ts s t b id :
  (0 < MAX_ORDER_IDS)%nat → (0 < MAX_PRICE_LEVELS)%nat →
  reach ts s → known (exch s) t b →
  shown (said_updates t s) ∅ !! id =
    (λ x, (x.1.1.2, x.1.2, x.2)) <$> standing (said_responses t s) ∅ !! id.
Proof.
  intros Ho Hl Hr Hk. destruct (pic_books _ (reach_pictured ts s Ho Hl Hr) t b Hk) as (A & _ & [_ _ _ -> ->]).
  unfold market_of, standing_of, table. induction (orders_of A) as [|o os IH]; [done|].
  simpl. destruct (decide (id = Order.order_id o)) as [->|Hne].
  - by rewrite !lookup_insert_eq.
  - by rewrite !lookup_insert_ne.
Qed.
End results.

(** ** A run

    The exchange has tickers 7 and 8.  An offer of 5 at 10 rests in the book of 7, a
    bid for 2 takes of it, a bid for 4 at 9 rests in the book of 8; then one update
    and one response are read. *)

#[local] Existing Instances BookTheorems.small BookTheorems.ticks.

Definition order (t client : Z) (side : OrderSide) (q price : Z) : ClientRequest :=
  ClientRequest.mk RequestType.ADD t client OrderId_INVALID side q price.
Definition offer : ClientRequest := order 7 101 OrderSide.SELL 5 10.
Definition taker : ClientRequest := order 7 102 OrderSide.BUY 2 10.
Definition bid8 : ClientRequest := order 8 103 OrderSide.BUY 4 9.

Definition made : outcome (unit * Exchange) :=
  ctor (LFQueue.ctor ClientRequest.default 8) (LFQueue.ctor ClientResponse.default 16)
    (LFQueue.ctor MarketUpdate.default 16) [7; 8].
Definition state_of {A} (o : outcome (A * Exchange)) : Exchange :=
  match o with
  | Done (_, x) => x
  | _ => mkExchange false 1 ∅ nullptr (LFQueue.ctor ClientRequest.default 8) BookTheorems.env0
  end.

Definition pushed (r : ClientRequest) (x : Exchange) : Exchange :=
  state_of (in_requests (LFQueue.push r) x).
Definition turned (x : Exchange) : Exchange := state_of (run_body x).

Definition x0 : Exchange := state_of made.
Definition x3 : Exchange := pushed bid8 (pushed taker (pushed offer x0)).
Definition x6 : Exchange := turned (turned (turned x3)).
Definition x7 : Exchange := state_of (in_updates read x6).
Definition x8 : Exchange := state_of (in_responses read x7).

Lemma reach0 : reach [7; 8] (mkSys x0 [] []).
Proof.
  apply (reach_new _ (LFQueue.ctor ClientRequest.default 8) (LFQueue.ctor ClientResponse.default 16)
    (LFQueue.ctor MarketUpdate.default 16)); [by apply LFQueue.ctor_wf; lia..|by vm_compute|by vm_compute|].
  by vm_compute.
Qed.

Lemma reach_push r x us rs :
  reach [7; 8] (mkSys x us rs) →
  (length (LFQueue.contents (client_request_queue x)) <? LFQueue.capacity (client_request_queue x))%nat = true →
  in_requests (LFQueue.push r) x = Done (tt, pushed r x) → reach [7; 8] (mkSys (pushed r x) us rs).
Proof.
  intros Hr Hc E. eapply reach_step; [exact Hr|]. apply (step_push (mkSys x us rs) r); [|done].
  by apply Nat.ltb_lt.
Qed.

(** A turn on an order for a known ticker. *)
Lemma reach_turn t client side q price rest x us rs :
  reach [7; 8] (mkSys x us rs) →
  LFQueue.contents (client_request_queue x) = order t client side q price :: rest →
  0 ≤ q < 2 ^ 32 → (∃ b, known x t b) → next_order_id x + 1 < 2 ^ 32 →
  run_body x = Done (tt, turned x) →
  room (updates x) (trades x (turned x)) → room (responses x) (trades x (turned x)) →
  reach [7; 8] (mkSys (turned x) us rs).
Proof.
  intros Hr Hc Hq Hk Hi E Hu Hrr. eapply reach_step; [exact Hr|].
  apply (step_turn (mkSys x us rs)); try done. simpl. rewrite Hc. intros r rs' [= <- _]. by split.
Qed.

Lemma reach6 : reach [7; 8] (mkSys x6 [] []).
Proof.
  assert (reach [7; 8] (mkSys x3 [] [])) as H3.
  { do 3 (apply reach_push; [|by vm_compute|by vm_compute]). apply reach0. }
  do 3 (eapply reach_turn;
    [|by vm_compute|done|by eexists; vm_compute|by vm_compute|by vm_compute|by vm_compute|by vm_compute]).
  exact H3.
Qed.

(** The messages that are read. *)
Definition u6 : option MarketUpdate := head (LFQueue.contents (updates x6)).
Definition r7 : option ClientResponse := head (LFQueue.contents (responses x7)).
Definition s8 : Sys := mkSys x8 ([] ++ option_list u6) ([] ++ option_list r7).

Lemma read6 : in_updates read x6 = Done (u6, x7).
Proof. by vm_compute. Qed.
Lemma read7 : in_responses read x7 = Done (r7, x8).
Proof. by vm_compute. Qed.

Lemma reach_update u x x' us rs :
  reach [7; 8] (mkSys x us rs) → in_updates read x = Done (u, x') →
  reach [7; 8] (mkSys x' (us ++ option_list u) rs).
Proof. intros Hr E. eapply reach_step; [exact Hr|]. by apply (step_update (mkSys x us rs)). Qed.

Lemma reach_response r x x' us rs :
  reach [7; 8] (mkSys x us rs) → in_responses read x = Done (r, x') →
  reach [7; 8] (mkSys x' us (rs ++ option_list r)).
Proof. intros Hr E. eapply reach_step; [exact Hr|]. by apply (step_response (mkSys x us rs)). Qed.

Lemma reach8 : reach [7; 8] s8.
Proof.
  exact (reach_response r7 x7 x8 ([] ++ option_list u6) []
    (reach_update u6 x6 x7 [] [] reach6 read6) read7).
Qed.

Lemma known8 t : t = 7 ∨ t = 8 → ∃ b, known (exch s8) t b.
Proof. intros [-> | ->]; eexists; by vm_compute. Qed.

Lemma market_feed_shows_books_witness :
  reach [7; 8] s8 ∧
  shown (said_updates 7 s8) ∅ = {[ 1 := (OrderSide.SELL, 3, 10) ]} ∧
  ∃ b A, known (exch s8) 7 b ∧ BookHeap.book_rep b A ∧
         market_of A = {[ 1 := (OrderSide.SELL, 3, 10) ]}.
Proof.
  assert (shown (said_updates 7 s8) ∅ = {[ 1 := (OrderSide.SELL, 3, 10) ]}) as E by (by vm_compute).
  split; [apply reach8|split; [done|]]. destruct (known8 7) as [b Hk]; [by left|].
  destruct (market_feed_shows_books [7; 8] s8 7 b (proj1 BookTheorems.small_pos)
    (proj2 BookTheorems.small_pos) reach8 Hk) as (A & Hrep & _ & Hm).
  exists b, A. split_and!; [done..|]. by rewrite <- Hm.
Defined.

Lemma trade_ids_gapless_witness :
  reach [7; 8] s8 ∧
  trade_ids (updates_read s8 ++ LFQueue.contents (updates (exch s8))) = [1] ∧
  ∃ n, trade_ids (updates_read s8 ++ LFQueue.contents (updates (exch s8))) =
         (λ k, u32 (1 + Z.of_nat k)) <$> seq 0 n.
Proof.
  split; [apply reach8|split; [by vm_compute|]].
  exact (trade_ids_gapless [7; 8] s8 (proj1 BookTheorems.small_pos) (proj2 BookTheorems.small_pos)
    reach8).
Defined.

Lemma responses_show_orders_witness :
  reach [7; 8] s8 ∧
  ∃ b A, known (exch s8) 8 b ∧ BookHeap.book_rep b A ∧
         standing_of A = {[ 3 := (103, OrderSide.BUY, 4, 9) ]}.
Proof.
  split; [apply reach8|]. destruct (known8 8) as [b Hk]; [by right|].
  destruct (responses_show_orders [7; 8] s8 8 b (proj1 BookTheorems.small_pos)
    (proj2 BookTheorems.small_pos) reach8 Hk) as (A & Hrep & _ & Hm).
  exists b, A. split_and!; [done..|]. rewrite <- Hm. by vm_compute.
Defined.
End FeedResults.
