(* ===== verification/FlagRace.v ===== *)
(** The flag [running] of cppexchange.h under the memory model of C++.

    ExchangeThreads.v reads and writes the flag as if it were atomic; it is a plain
    bool.  Here its uses are counted: a [view] says which stores and loads of the flag
    happened before a point of a thread.  A use that is not ordered after the last
    conflicting use of the other thread is a data race, which is undefined.  Making
    the thread and joining it order the threads, and so can the queues: while the
    owner is in neither [start] nor [stop] and the runner is in a turn, each may
    [Tell] the other what it knows and [Learn] it, which is the most that pushes and
    pops can do. *)

From S2P Require Import Prelude Types Memory ObjectPool PriceLevel LFQueue TimeUtils.
From S2P Require Import OrderBook BookTheorems Exchange ExchangeProps ExchangeResults ExchangeThreads.

Module FlagRace.
Import Exchange ExchangeProps ExchangeThreads.

#[local] Instance runner_eq_dec : EqDecision runner.
Proof. solve_decision. Defined.
#[local] Instance owner_eq_dec : EqDecision owner.
Proof. solve_decision. Defined.

(** The stores to the flag and the loads of it that happened before. *)
Record view := mkView { sets : nat; tests : nat }.

Definition join (v1 v2 : view) : view :=
  mkView (sets v1 `max` sets v2) (tests v1 `max` tests v2).

Section race.
Context `{Constants, Clock}.

Record state := mkState {
  threads : live;
  flag_sets : nat;       (* stores so far *)
  flag_tests : nat;      (* loads so far *)
  owner_view : view;
  runner_view : view;
  to_runner : view;      (* told by the owner through a queue *)
  to_owner : view;       (* told by the runner *)
}.

Inductive racing := Racing (s : state) | Over (e : ending).

Inductive sync := OwnerTells | RunnerLearns | RunnerTells | OwnerLearns.
Inductive event := Act (a : act) | Sync (y : sync).

Definition set_threads (l : live) s : state :=
  mkState l (flag_sets s) (flag_tests s) (owner_view s) (runner_view s) (to_runner s) (to_owner s).
Definition set_owner_view v s : state :=
  mkState (threads s) (flag_sets s) (flag_tests s) v (runner_view s) (to_runner s) (to_owner s).
Definition set_runner_view v s : state :=
  mkState (threads s) (flag_sets s) (flag_tests s) (owner_view s) v (to_runner s) (to_owner s).

(** [running = …] by the owner: all loads must have happened before. *)
Definition flag_store s : option state :=
  if decide (flag_tests s ≤ tests (owner_view s)) then
    let n := S (flag_sets s) in
    Some (mkState (threads s) n (flag_tests s) (mkView n (tests (owner_view s)))
            (runner_view s) (to_runner s) (to_owner s))
  else None.

(** [while (running)] by the runner: all stores must have happened before. *)
Definition flag_load s : option state :=
  if decide (flag_sets s ≤ sets (runner_view s)) then
    let n := S (flag_tests s) in
    Some (mkState (threads s) (flag_sets s) n (owner_view s)
            (mkView (sets (runner_view s)) n) (to_runner s) (to_owner s))
  else None.

(** What a step does to the flag and the views; [None] is a race. *)
Definition account (a : act) s : option state :=
  match a with
  | Owner _ =>
      match owner_at (threads s) with
      | M_idle => flag_store s
      | M_start => Some (set_runner_view (owner_view s) s)
      | M_join => Some (set_owner_view (join (owner_view s) (runner_view s)) s)
      end
  | Runner =>
      match run_thread (threads s) with
      | Some R_test => flag_load s
      | _ => Some s
      end
  | Client _ => Some s
  end.

Definition sync_step (y : sync) s : option state :=
  match y with
  | OwnerTells =>
      if decide (owner_at (threads s) = M_idle) then
        Some (mkState (threads s) (flag_sets s) (flag_tests s) (owner_view s) (runner_view s)
                (owner_view s) (to_owner s))
      else None
  | OwnerLearns =>
      if decide (owner_at (threads s) = M_idle) then
        Some (set_owner_view (join (owner_view s) (to_owner s)) s)
      else None
  | RunnerTells =>
      if decide (run_thread (threads s) = Some R_body) then
        Some (mkState (threads s) (flag_sets s) (flag_tests s) (owner_view s) (runner_view s)
                (to_runner s) (runner_view s))
      else None
  | RunnerLearns =>
      if decide (run_thread (threads s) = Some R_body) then
        Some (set_runner_view (join (runner_view s) (to_runner s)) s)
      else None
  end.

(** [act_step] of ExchangeThreads.v, with the account of the flag. *)
Definition race_step (e : event) s : option racing :=
  match e with
  | Sync y => Racing <$> sync_step y s
  | Act a =>
      match act_step a (threads s) with
      | None => None
      | Some p =>
          Some match account a s, p with
               | None, _ => Over (Undefined DataRace)
               | Some s', Live l => Racing (set_threads l s')
               | Some _, Ended e => Over e
               end
      end
  end.

(** An exchange that was made, without a thread. *)
Definition start_state x : state :=
  mkState (mkLive x None M_idle) 0 0 (mkView 0 0) (mkView 0 0) (mkView 0 0) (mkView 0 0).

Inductive race_exec (x : Exchange) : list event → racing → Prop :=
| race_nil : race_exec x [] (Racing (start_state x))
| race_more es s e r :
    race_exec x es (Racing s) → race_step e s = Some r → race_exec x (es ++ [e]) r.

(** ** Invariant *)

Definition working (s : state) : Prop :=
  run_thread (threads s) = Some R_test ∨ run_thread (threads s) = Some R_body.

Record ok (s : state) : Prop := {
  ok_done : run_thread (threads s) ≠ Some R_done;
  ok_running : working s → owner_at (threads s) ≠ M_join → running (exch (threads s)) = true;
  ok_started : owner_at (threads s) = M_start → running (exch (threads s)) = true;
  ok_owner : sets (owner_view s) = flag_sets s;
  ok_runner : sets (runner_view s) ≤ flag_sets s;
  ok_told : sets (to_runner s) ≤ flag_sets s;
  ok_heard : sets (to_owner s) ≤ flag_sets s;
  ok_join : owner_at (threads s) = M_join → working s →
            sets (runner_view s) < flag_sets s ∧ sets (to_runner s) < flag_sets s;
  ok_idle : owner_at (threads s) = M_idle → working s → sets (runner_view s) = flag_sets s;
}.

Lemma body_running x x' : run_body x = Done (tt, x') → running x' = running x.
Proof.
  unfold run_body. intros (p & x1 & E1 & E)%bind_inv_done.
  apply bind_inv_done in E as ([] & x2 & E2 & E). injection E2 as <-.
  assert (running x1 = running x) as <-.
  { unfold in_requests, zoom in E1. destruct (LFQueue.pop _) as [[]| | |]; by simplify_eq. }
  case_decide; [|by injection E as <-]. unfold processRequest in E.
  apply bind_inv_done in E as (? & x3 & E3 & E). injection E3 as <- <-.
  apply bind_inv_done in E as (r & x4 & E4 & E).
  assert (running x4 = running x1) as <-.
  { unfold in_requests, zoom in E4. destruct (LFQueue.item_at _ _) as [[]| | |]; by simplify_eq. }
  by apply (handle_running r).
Qed.

Lemma push_running r x x' : in_requests (LFQueue.push r) x = Done (tt, x') → running x' = running x.
Proof. unfold in_requests, zoom. destruct (LFQueue.push r _) as [[]| | |]; intros; by simplify_eq. Qed.

Lemma start_state_ok x : ok (start_state x).
Proof. split; unfold working; simpl; naive_solver. Qed.

Lemma sync_ok y s s' : ok s → sync_step y s = Some s' → ok s'.
Proof.
  intros [Hd Hr Hs Ho Hn Ht Hh Hj Hi] E. unfold sync_step in E.
  destruct y; case_decide as Hc; try done; injection E as <-; split; simpl; try done; try lia.
  - intros Hm. congruence.
  - intros Hm Hw. destruct (Hj Hm Hw). lia.
  - intros Hm Hw. specialize (Hi Hm Hw). lia.
Qed.

Lemma owner_ok c s s' l :
  ok s → owner_step c (threads s) = Some (Live l) → account (Owner c) s = Some s' →
  ok (set_threads l s').
Proof.
  intros [Hd Hr Hs Ho Hn Ht Hh Hj Hi] El Ea.
  unfold owner_step, account in *. destruct (owner_at (threads s)) eqn:Hm.
  - unfold flag_store in Ea. case_decide; [|done]. injection Ea as <-. injection El as <-.
    destruct c; split; unfold working; simpl; try done; try lia; intros; lia.
  - injection Ea as <-. destruct (run_thread (threads s)) eqn:Hrt; [done|]. injection El as <-.
    split; unfold working; simpl; try done; try lia.
    intros _ _. by apply Hs.
  - injection Ea as <-. destruct (run_thread (threads s)) as [[]|] eqn:Hrt; simplify_eq.
Qed.

Lemma runner_ok s s' l :
  ok s → runner_step (threads s) = Some (Live l) → account Runner s = Some s' →
  ok (set_threads l s').
Proof.
  intros [Hd Hr Hs Ho Hn Ht Hh Hj Hi] El Ea. unfold working, account, runner_step in *.
  destruct (run_thread (threads s)) as [[]|] eqn:Hrt; [..|done|done].
  - injection El as <-. unfold flag_load in Ea. case_decide as Hle; [|done]. injection Ea as <-.
    destruct (owner_at (threads s)) eqn:Hm; [| |by destruct (Hj eq_refl (or_introl eq_refl)); lia].
    all: rewrite Hr by (done || by left); split; unfold working; simpl; rewrite ?Hm; try done; try lia.
    all: intros; by auto.
  - injection Ea as <-. destruct (run_body (exch (threads s))) as [[[] x]| | |] eqn:E; simplify_eq.
    apply body_running in E.
    split; unfold working; simpl; rewrite ?E; try done; intros; auto.
Qed.

Lemma client_ok r s l :
  ok s → client_step r (threads s) = Some (Live l) → ok (set_threads l s).
Proof.
  intros [] E. unfold client_step in E.
  destruct (in_requests _ _) as [[[] x]| | |] eqn:Ep; simplify_eq. apply push_running in Ep.
  split; unfold working in *; simpl; rewrite ?Ep; done.
Qed.

Lemma race_ok x es r : race_exec x es r → match r with Racing s => ok s | Over _ => True end.
Proof.
  induction 1 as [|es s e r _ IH Hst]; [apply start_state_ok|].
  destruct r as [s'|]; [|done]. destruct e as [a|y]; simpl in Hst.
  - destruct (act_step a (threads s)) as [p|] eqn:Ea; [|done]. injection Hst as Hst.
    destruct (account a s) as [s1|] eqn:Eb; [|done]. destruct p as [l|]; [|done].
    injection Hst as <-. destruct a as [c| |r].
    + by eapply owner_ok.
    + by eapply runner_ok.
    + injection Eb as <-. by eapply client_ok.
  - destruct (sync_step y s) as [s1|] eqn:Es; [|done]. injection Hst as <-. by eapply sync_ok.
Qed.

(** ** The race *)

(** C12: the end of the thread is always a data race.  In every execution, whatever the
    threads tell each other through the queues: the loop of [run] never ends without
    one, because its test can only find the flag cleared by reading the store of
    [stop], which nothing orders before it, and so the join of [stop] never returns;
    while the owner is in neither [start] nor [stop] the tests do not race. *)
Theorem stop_always_races x es s :
  race_exec x es (Racing s) →
  run_thread (threads s) ≠ Some R_done ∧
  (owner_at (threads s) = M_join →
   (run_thread (threads s) = Some R_test →
    race_step (Act Runner) s = Some (Over (Undefined DataRace))) ∧
   (∀ c s', race_step (Act (Owner c)) s ≠ Some (Racing s'))) ∧
  (owner_at (threads s) = M_idle → run_thread (threads s) = Some R_test →
   ∃ s', race_step (Act Runner) s = Some (Racing s')).
Proof.
  intros Hr. destruct (race_ok _ _ _ Hr) as [Hd Hrun _ Ho Hn _ _ Hj Hi]. split; [done|split].
  - intros Hm. split.
    + intros Ht. destruct (Hj Hm (or_introl Ht)) as [Hlt _].
      unfold race_step, act_step, runner_step, account, flag_load. rewrite Ht.
      by rewrite decide_False by lia.
    + intros c s'. unfold race_step, act_step, owner_step, account. rewrite Hm.
      by destruct (run_thread (threads s)) as [[]|].
  - intros Hm Ht. specialize (Hi Hm (or_introl Ht)).
    unfold race_step, act_step, runner_step, account, flag_load. rewrite Ht.
    rewrite decide_True by lia. by eexists.
Qed.

(** Executions by computation. *)
Fixpoint race_run (es : list event) (s : state) : option racing :=
  match es with
  | [] => Some (Racing s)
  | e :: es => match race_step e s with Some (Racing s') => race_run es s' | r => r end
  end.

Lemma race_run_exec x es1 es2 s1 s2 :
  race_exec x es1 (Racing s1) → race_run es2 s1 = Some (Racing s2) →
  race_exec x (es1 ++ es2) (Racing s2).
Proof.
  revert es1 s1. induction es2 as [|e es2 IH]; intros es1 s1 Hr E; simpl in E.
  - injection E as <-. by rewrite app_nil_r.
  - destruct (race_step e s1) as [[s'|]|] eqn:Es; [|done..].
    change (e :: es2) with ([e] ++ es2). rewrite app_assoc. eapply IH; [|exact E].
    by eapply race_more.
Qed.
End race.

(** ** An execution

    The thread is started and serves a request; the owner learns of its test from the
    answer and calls [stop]: its store does not race, the next test does. *)

#[local] Existing Instances BookTheorems.small BookTheorems.ticks.

Definition session : list event :=
  [Act (Owner Start); Act (Owner Start); Act Runner; Sync RunnerTells; Sync OwnerLearns;
   Act (Owner Stop); Act Runner].

Definition s_join : state :=
  match race_run session (start_state ExchangeResults.x0) with
  | Some (Racing s) => s
  | _ => start_state ExchangeResults.x0
  end.

Lemma session_run : race_run session (start_state ExchangeResults.x0) = Some (Racing s_join).
Proof. by vm_compute. Qed.

Lemma stop_always_races_witness :
  race_exec ExchangeResults.x0 session (Racing s_join) ∧
  race_step (Act Runner) s_join = Some (Over (Undefined DataRace)).
Proof.
  assert (race_exec ExchangeResults.x0 session (Racing s_join)) as Hr
    by (apply (race_run_exec _ [] session (start_state ExchangeResults.x0)), session_run; constructor).
  split; [done|].
  destruct (stop_always_races ExchangeResults.x0 session s_join Hr) as (_ & Hj & _).
  apply Hj; by vm_compute.
Defined.
End FlagRace.
