(* ===== verification/DotenvWindows.v ===== *)
(** The [setenv] that dotenv.h defines for Windows, over the two functions of the
    Microsoft C library it calls.  They are a class, constrained by what their
    documentation says: [getenv_s] without a buffer gives the size a variable needs, 0
    when it is not set, and [_putenv_s] sets a variable, or removes it when the value is
    empty.  The theorem compares it with the [setenv] of other systems. *)

From Stdlib Require Import Ascii.
From S2P Require Import Prelude Dotenv.
Local Open Scope Z_scope.

Module DotenvWindows.
Import Dotenv.

(** The results are an error code, 0 for none, with the size or the new state. *)
Class CRuntime := {
  getenv_s : str → State → Z * nat;
  putenv_s : str → str → State → Z * State;
}.

Definition valid_name (name : str) : Prop := name ≠ [] ∧ "="%char ∉ name.

Class CRuntimeLaws `{CRuntime} : Prop := {
  getenv_s_size name σ : valid_name name →
    getenv_s name σ = (0, match environ σ !! name with Some v => S (length v) | None => 0%nat end);
  putenv_s_set name value σ : valid_name name → value ≠ [] →
    putenv_s name value σ = (0, mkState (<[name := value]> (environ σ)) (cout σ));
  putenv_s_remove name σ : valid_name name →
    putenv_s name [] σ = (0, mkState (delete name (environ σ)) (cout σ));
}.

Section windows.
Context `{CRuntime}.

Definition putenv (name value : str) : M State Z := λ σ,
  let '(e, σ') := putenv_s (c_str name) (c_str value) σ in Done (e, σ').

Definition setenv_windows (name value : str) (overwrite : Z) : M State Z :=
  if decide (overwrite = 0) then
    r ← mgets (getenv_s (c_str name));
    let '(errcode, envsize) := r in
    if decide (errcode ≠ 0 ∨ envsize ≠ 0%nat) then mret errcode else putenv name value
  else putenv name value.
End windows.

(** For a proper name it does what [setenv] does elsewhere, with one difference: an
    empty value, which [setenv] sets, leaves the variable unset, and removes it when it
    was set and may be overwritten. *)
Theorem setenv_windows_posix `{CRuntimeLaws} name value overwrite σ :
  valid_name (c_str name) →
  ∃ σ', setenv_windows name value overwrite σ = Done (0, σ') ∧
    if decide (c_str value = []) then
      σ' = (if decide (overwrite = 0 ∧ is_Some (environ σ !! c_str name)) then σ
            else mkState (delete (c_str name) (environ σ)) (cout σ))
    else setenv name value overwrite σ = Done (tt, σ').
Proof.
  intros Hn.
  assert (putenv name value σ = Done (0, if decide (c_str value = [])
    then mkState (delete (c_str name) (environ σ)) (cout σ)
    else mkState (<[c_str name := c_str value]> (environ σ)) (cout σ))) as Hp.
  { unfold putenv. case_decide as Hv; [by rewrite Hv, putenv_s_remove|by rewrite putenv_s_set]. }
  unfold setenv_windows, setenv, mmodify.
  rewrite (decide_False (P := c_str name = [] ∨ _)) by (intros [?|?]; by destruct Hn).
  destruct (decide (c_str value = [])) as [Hv|Hv].
  all: destruct (decide (overwrite = 0)) as [->|Ho].
  2,4: eexists; split; [exact Hp|]; by rewrite decide_False by (by intros [? _]).
  all: unfold mgets, mbind, M_bind; cbn; rewrite getenv_s_size by done;
    destruct (environ σ !! c_str name) as [v|] eqn:Ev; eexists.
  1,3: rewrite (decide_True (P := 0 ≠ 0 ∨ _)) by (by right); split; [done|];
    by rewrite decide_True by (split; [done|by eexists]).
  all: rewrite (decide_False (P := 0 ≠ 0 ∨ _)) by naive_solver; split; [exact Hp|];
    by rewrite decide_False by (intros [_ [? ?]]; done).
Qed.

(** A runtime that does what is documented. *)
#[local] Instance crt : CRuntime := {
  getenv_s name σ := (0, match environ σ !! name with Some v => S (length v) | None => 0%nat end);
  putenv_s name value σ :=
    (0, mkState (if decide (value = []) then delete name (environ σ)
                 else <[name := value]> (environ σ)) (cout σ));
}.

#[local] Instance crt_laws : CRuntimeLaws.
Proof.
  split; [done| |done]. intros name value σ _ Hv. simpl. by rewrite decide_False.
Qed.

(** [KEY=] takes KEY out of the environment. *)
Lemma setenv_windows_posix_witness :
  valid_name (c_str (text "KEY")) ∧
  ∃ σ', setenv_windows (text "KEY") [] 1 (mkState {[ text "KEY" := text "old" ]} []) = Done (0, σ') ∧
        environ σ' !! text "KEY" = None.
Proof.
  assert (valid_name (c_str (text "KEY"))) as Hn by (split; vm_compute; [done|set_solver]).
  split; [done|].
  destruct (setenv_windows_posix (text "KEY") [] 1 (mkState {[ text "KEY" := text "old" ]} []) Hn)
    as (σ' & E & Hs).
  exists σ'. split; [done|]. vm_compute in Hs. by rewrite Hs.
Defined.
End DotenvWindows.
