(* ===== verification/SocketTests.v ===== *)
(** tcp_socket_test.cpp, and what socket_utils_test.cpp looks at but for the options
    that the kernel stores, on the loopback kernel.  In the former there are a listener,
    a client that connects to it and sends an int, and a socket made for the accepted
    connection, whose callback reads the int.  The pauses are left out. *)

From S2P Require Import Prelude Types TimeUtils Kernel SocketUtils TcpSocket NetResults LoopbackKernel.
Local Open Scope Z_scope.

Module SocketTests.
Import Kernel.
#[local] Existing Instances NetResults.headers NetResults.ticking.
#[local] Instance hundred : TcpSocket.BufferSize := 100%nat.
#[local] Instance kernel : Kernel := LoopbackKernel.loopback 2 60.

(** [received_value] is what the callback read, as the four bytes of the int. *)
Definition App : Type := option (list Byte.byte).

Record St := mkSt {
  server_listener_socket : TcpSocket.TCPSocket;
  server_receiver_socket : TcpSocket.TCPSocket;
  client_socket : TcpSocket.TCPSocket;
  log : list Call;
  clock_reads : nat;
  received_value : App;
}.

(** The method [m] of the socket that [get] reads and [set] writes. *)
Definition on {A} (get : St → TcpSocket.TCPSocket) (set : TcpSocket.TCPSocket → St → St)
    (m : M (TcpSocket.St App) A) : M St A :=
  zoom (λ s, TcpSocket.mkSt (get s) (log s) (clock_reads s) (received_value s))
    (λ u s, let s := set (TcpSocket.socket u) s in
            mkSt (server_listener_socket s) (server_receiver_socket s) (client_socket s)
              (TcpSocket.log u) (TcpSocket.clock_reads u) (TcpSocket.app u)) m.

Definition listener {A} : M (TcpSocket.St App) A → M St A :=
  on server_listener_socket (λ t s, mkSt t (server_receiver_socket s) (client_socket s) (log s)
                                       (clock_reads s) (received_value s)).
Definition receiver {A} : M (TcpSocket.St App) A → M St A :=
  on server_receiver_socket (λ t s, mkSt (server_listener_socket s) t (client_socket s) (log s)
                                       (clock_reads s) (received_value s)).
Definition client {A} : M (TcpSocket.St App) A → M St A :=
  on client_socket (λ t s, mkSt (server_listener_socket s) (server_receiver_socket s) t (log s)
                              (clock_reads s) (received_value s)).

Definition recv_callback (rx_time : NsTimestampT) : M (TcpSocket.St App) unit :=
  s ← mget;
  let t := TcpSocket.socket s in
  mmodify (λ s, TcpSocket.mkSt (TcpSocket.socket s) (TcpSocket.log s) (TcpSocket.clock_reads s)
                  (Some (take 4 (TcpSocket.inbound_data_ t))));;
  TcpSocket.on_socket (λ t, TcpSocket.set_in (TcpSocket.inbound_data_ t) 0 t).

Definition server_cfg : SocketUtils.SocketCfg := SocketUtils.mkSocketCfg "" "lo" 12345 false true false.
Definition client_cfg : SocketUtils.SocketCfg :=
  SocketUtils.mkSocketCfg "127.0.0.1" "lo" 12345 false false false.

(** 1234, least byte first. *)
Definition sent_value : list Byte.byte := [Byte.xd2; Byte.x04; Byte.x00; Byte.x00].

Definition test : M St unit :=
  fd ← listener (TcpSocket.connect server_cfg);
  ASSERT (0 <=? fd) "server connect() failed";;
  fd ← client (TcpSocket.connect client_cfg);
  ASSERT (0 <=? fd) "client connect() failed";;
  s ← mget;
  fd ← listener (TcpSocket.sys (syscall (Accept (TcpSocket.socket_fd_ (server_listener_socket s)))));
  ASSERT (negb (fd =? -1)) "accept() failed";;
  receiver (TcpSocket.on_socket (TcpSocket.set_fd fd));;
  client (TcpSocket.send sent_value);;
  client (TcpSocket.sendAndRecv None);;
  receiver (TcpSocket.sendAndRecv (Some recv_callback));;
  mret tt.

Definition start : St := mkSt TcpSocket.ctor TcpSocket.ctor TcpSocket.ctor [] 0 None.

Example create_send_and_receive :
  (λ r, received_value r.2) <$> match test start with Done r => Some r | _ => None end =
    Some (Some sent_value).
Proof. by vm_compute. Qed.

(** socket_utils_test.cpp, as far as it looks at what the functions return. *)
Example get_interface_ip :
  match SocketUtils.getIfaceIP "lo" [] with Done (ip, _) => ip | _ => "" end = "127.0.0.1".
Proof. by vm_compute. Qed.

Example options_are_set :
  match (fd ← syscall (Socket (mkAddrInfo AF_INET SOCK_STREAM IPPROTO_TCP []));
         a ← SocketUtils.setNonBlocking fd;
         b ← SocketUtils.disableNagle fd;
         c ← SocketUtils.setSOTimestamp fd;
         mret (a && b && c)) [] with
  | Done (ok, _) => ok
  | _ => false
  end = true.
Proof. by vm_compute. Qed.
End SocketTests.
